(* ===== verification/_CoqProject ===== *)
-Q . S2P
Prelude.v
Arithmetic.v
Product.v
Currency.v
NamedReserve.v
Ratio.v
Broadcast.v
Traits.v
XykMath.v
XykPallet.v
OmnipoolTypes.v
SlipFee.v
OmnipoolMath.v
Otc.v
CircuitBreaker.v
OmnipoolPallet.v
OmnipoolInvariant.v
OmnipoolTrade.v
RouteExecutor.v
RouterTrades.v
RouterRoutes.v
RouterOmnipool.v
StableswapMath.v
StableswapCurve.v
StableswapTrades.v
StableswapBounds.v
StableswapPallet.v
StableswapInvariant.v
StableswapRouter.v
StableswapDemo.v
LiquidityMiningMath.v
LiquidityMining.v
LiquidityMiningInvariant.v
LiquidityMiningClaims.v
LiquidityMiningSteps.v
LiquidityMiningErrors.v
LiquidityMiningDemo.v
LiquidityMiningEffects.v
XykLiquidityMining.v
XykLiquidityMiningCustody.v
XykLiquidityMiningAmm.v
