(* ===== verification/Prelude.v ===== *)
(** * Verification of the Hydration node

    The Hydration node is a parachain that runs a decentralised exchange.  Its
    logic is a set of pallets (modules with storage, dispatchable calls and hooks)
    under [src/pallets], arithmetic shared by them in the crate [src/math], and
    the interfaces between them in [src/traits].  This library models the pallets
    of the exchange as Rocq functions and proves what makes them correct.

    ** The parts of the program and how they interact

    - XYK pools hold two assets each and trade along the constant product.
    - The Omnipool holds every asset against one hub asset; a trade is two trades
      against the hub asset, with an asset fee, a protocol fee and a slip fee that
      grows with the flow of a block.
    - Stable pools hold up to five assets of similar value, optionally with moving
      pegs, and trade along the stableswap curve.
    - The route executor trades along a list of pools of any kind and keeps the
      best known routes on chain.
    - Broadcast records the context a trade runs in and emits the trade events.
    - OTC orders offer an asset for another at a fixed price.
    - The circuit breaker limits trade volume, liquidity changes, withdrawals from
      the chain and the growth of issuance.
    - Liquidity mining rewards the providers of liquidity out of farms; the pallet
      around it for XYK pools holds the shares that are deposited and keeps an NFT
      for every deposit.

    All of them move assets on a multi-currency ledger.  The ledger, the
    fixed-point arithmetic of [sp_arithmetic], the asset registry, the NFTs, the
    oracles and the hooks of the runtime are not under [src] or are interfaces of
    the runtime; they are type classes or fields of a configuration record, and
    what the code relies on is a class of laws ([SpArithmeticLaws],
    [MultiCurrencyLaws], [NamedReserveLaws], [StableConfigLaws], [LmConfigLaws],
    [XlmLaws], ...).  Concrete instances ([reference_arithmetic], [ledger], [vault]) meet the
    laws, and the witnesses run on them.

    ** How the code is modelled

    A [u128] is a [Z] with its width written out: [checked_add u128 x y] and its
    relatives return [None] where the Rust code does.  [FixedU128] is its inner
    integer, with [DIV] = 10^18 parts; [Permill] and its relatives are their
    parts.  Storage maps are [gmap]s.  A fallible computation is a [result]; a
    pallet's call is a function of the monad [M S E A] = [S → result E (A * S)].
    A call that fails returns no state: the storage layer of a transactional call
    discards it.  A call into another component runs on the field of the state
    that holds the rest of the chain.  Records that the code changes inside
    [try_mutate] are read, passed along and written back.

    Loops of Newton's method run with the iteration counts of the source
    ([MAX_D_ITERATIONS], [MAX_Y_ITERATIONS]) as fuel; [StableswapCurve] proves
    that they are enough for Y.  All other recursion is structural.

    ** The files

    - [Prelude]: integers of a width, results, the state monad, sums over lists
      and maps, inversion lemmas and the tactics ([inv_run], [inv_pallet],
      [propify], [compute_done]); [fails_only] for the errors of a run.
    - [Arithmetic], [Currency], [NamedReserve]: the interfaces to code outside the
      repository, with laws and concrete instances.  [Product]: arithmetic of
      constant products.
    - [Ratio]: [math/src/ratio.rs], [math/src/support/rational.rs].
    - [Traits]: [traits/src/router.rs].  [Broadcast]: [pallets/broadcast].
    - [XykMath], [XykPallet]: [math/src/xyk], [math/src/fee.rs], [pallets/xyk].
    - [OmnipoolTypes], [SlipFee], [OmnipoolMath]: [math/src/omnipool].
      [OmnipoolPallet]: [pallets/omnipool]; [OmnipoolInvariant], [OmnipoolTrade]:
      theorems on it.
    - [Otc]: [pallets/otc].  [CircuitBreaker]: [pallets/circuit-breaker].
    - [RouteExecutor]: [pallets/route-executor]; [RouterTrades], [RouterRoutes]:
      theorems on it against an interface of pools; [RouterOmnipool]: the Omnipool
      meets the interface.
    - [StableswapMath]: [math/src/stableswap]; [StableswapCurve],
      [StableswapTrades], [StableswapBounds]: theorems on it.
      [StableswapPallet]: [pallets/stableswap]; [StableswapInvariant]: theorems on
      it; [StableswapRouter]: it meets the router's interface; [StableswapDemo]:
      concrete pools.
    - [LiquidityMiningMath]: [math/src/liquidity_mining]; [LiquidityMining]:
      [pallets/liquidity-mining]; [LiquidityMiningInvariant],
      [LiquidityMiningClaims]: its invariant; [LiquidityMiningSteps]: the calls of
      [traits/src/liquidity_mining.rs] as steps and what every reachable state
      satisfies; [LiquidityMiningErrors]: the errors it cannot produce;
      [LiquidityMiningDemo]: concrete farms; [LiquidityMiningEffects]: what its
      calls do to the chain and to the deposits, for the pallets that call it.
    - [XykLiquidityMining]: [pallets/xyk-liquidity-mining];
      [XykLiquidityMiningCustody]: its runs and the custody of the shares, against
      an interface of the AMM and the NFTs; [XykLiquidityMiningAmm]: [XykPallet]
      as that AMM, and a chain with all three pallets.

    Operations and data carry the names of the source; a part of a long handler
    that is a definition of its own is documented at the definition.

    ** What the theorems show

    - Solvency and accounting.  Every run of the Omnipool keeps the equations of
      its [try_state] ([omnipool_accounts_balance]), so the checks at the end of a
      trade never fire.  The issuance of XYK and stable shares follows the pools'
      records.  The reserves of OTC orders back the orders.  The pot of liquidity
      mining holds every promised reward, and a yield farm can pay all of its
      entries at once.  The shares of every deposit in the farms of XYK pools are
      held for the owner of its NFT ([shares_are_held]), who gets them back with
      the last withdrawal ([withdraw_returns_shares]).
    - Value.  The value of an XYK share never falls; trades and liquidity changes
      of stable pools keep the invariant and the value of a share; Omnipool trades
      keep the product of each pool, liquidity providers get at most their part.
    - Refinement.  A trade of the Omnipool, with its transfers, fees and hooks, is
      one swap of an abstract hub-and-spoke market.  A run of the pallet for XYK
      shares is a run of liquidity mining ([xyk_runs_are_lm_runs]).
    - Quotes.  Sales and purchases settle at the amount the executors quote, in
      each pool and along routes; the router keeps nothing of a sale.
    - Limits.  The volume of a block, the withdrawals of a period and the issuance
      stay within what the circuit breaker allows.
    - Storage.  Reachable states are of their types, counters count, and the
      errors that the code only defends against do not happen, with the exceptions
      the theorems name.
    - Arithmetic.  Rounding directions, exact values on every branch, bounds and
      termination of the iterations, round trips of inversions.

    Where modelling showed that the code does not do what its comments say, a
    theorem or a run states what it does: initial pegs of unsorted assets
    ([initial_pegs_in_call_order]), the spot price of nine trades
    ([spot_price_is_product]), rounding down that rounds up ([round_down_below]),
    yield farms that are paid for the time before they existed
    ([new_farm_is_owed_the_past]), which can freeze the shares deposited in other
    farms ([late_farm_freezes_shares]), and that cannot be stopped
    ([rounding_blocks_stop]).

    ** Not modelled

    - Weights, benchmarks, genesis builders, storage migrations, [try_runtime]
      hooks other than the ones named above, and the encoding of storage keys.
    - The pallets and math modules outside the list above.  LBP needs the
      transcendental functions and HSM the EVM; liquidity mining for Omnipool
      positions is the analogue of the one for XYK shares; DCA schedules trades of
      the router; staking, the oracle, the duster, bonds, the referrals
      and the rate limiter are independent of the theorems here, which take what
      they need of them as parameters.
    - Of the pallet for XYK shares, that no pool is closed while it has deposits is
      a premise of the steps of the chain; [deposited_pool_survives] derives it for
      [XykPallet] from the custody of the shares.
    - The EVM precompiles, the cross-chain message executor, the node's networking,
      consensus and RPC: input and output, or glue over code outside the
      repository. *)

From stdpp Require Export prelude gmap fin_maps.
From Stdlib Require Export ZArith Lia.

#[global] Open Scope Z_scope.

(** ** Machine integers *)

(** Width in bits of the unsigned integer types the sources use. *)
Definition u8 : Z := 8.
Definition u16 : Z := 16.
Definition u32 : Z := 32.
Definition u64 : Z := 64.
Definition u128 : Z := 128.
Definition u256 : Z := 256.
Definition u512 : Z := 512.

(** [T::MAX] of the unsigned type of width [w]. *)
Definition max_value (w : Z) : Z := 2 ^ w - 1.

(** [fits w x]: [x] is a value of the unsigned type of width [w]. *)
Definition fits (w x : Z) : Prop := 0 <= x <= max_value w.

Definition try_from (w x : Z) : option Z :=
  if x <=? max_value w then Some x else None.

Definition checked_add (w x y : Z) : option Z :=
  if x + y <=? max_value w then Some (x + y) else None.

Definition checked_sub (x y : Z) : option Z :=
  if y <=? x then Some (x - y) else None.

Definition checked_mul (w x y : Z) : option Z :=
  if x * y <=? max_value w then Some (x * y) else None.

Definition checked_div (x y : Z) : option Z :=
  if y =? 0 then None else Some (x / y).

Definition saturating_add (w x y : Z) : Z := Z.min (x + y) (max_value w).
Definition saturating_sub (x y : Z) : Z := Z.max 0 (x - y).
Definition saturating_mul (w x y : Z) : Z := Z.min (x * y) (max_value w).
Definition saturated_into (w x : Z) : Z := Z.min x (max_value w).

(** The unchecked operators wrap around in release builds. *)
Definition wrapping_add (w x y : Z) : Z := (x + y) mod 2 ^ w.
Definition wrapping_sub (w x y : Z) : Z := (x - y) mod 2 ^ w.

#[global] Instance fits_dec w x : Decision (fits w x).
Proof. unfold fits. apply _. Defined.

#[global] Arguments max_value : simpl never.
#[global] Arguments fits : simpl never.
#[global] Arguments try_from : simpl never.
#[global] Arguments checked_add : simpl never.
#[global] Arguments checked_sub : simpl never.
#[global] Arguments checked_mul : simpl never.
#[global] Arguments checked_div : simpl never.
#[global] Arguments saturating_add : simpl never.
#[global] Arguments saturating_sub : simpl never.
#[global] Arguments saturating_mul : simpl never.
#[global] Arguments saturated_into : simpl never.
#[global] Arguments wrapping_add : simpl never.

(** ** Errors *)

Inductive result (E A : Type) : Type :=
| Ok (a : A)
| Err (e : E).
#[global] Arguments Ok {E A} a.
#[global] Arguments Err {E A} e.

#[global] Instance result_ret {E} : MRet (result E) := λ A a, Ok a.
#[global] Instance result_bind {E} : MBind (result E) := λ A B f m,
  match m with Ok a => f a | Err e => Err e end.
#[global] Instance result_fmap {E} : FMap (result E) := λ A B f m,
  match m with Ok a => Ok (f a) | Err e => Err e end.

Definition ok_or {E A} (o : option A) (e : E) : result E A :=
  match o with Some a => Ok a | None => Err e end.
Definition is_ok {E A} (r : result E A) : bool := match r with Ok _ => true | Err _ => false end.
Definition ok {E A} (r : result E A) : option A :=
  match r with Ok a => Some a | Err _ => None end.
Definition map_err {E F A} (f : E → F) (r : result E A) : result F A :=
  match r with Ok a => Ok a | Err e => Err (f e) end.
Definition ensure {E} (b : bool) (e : E) : result E unit :=
  if b then Ok tt else Err e.

(** [ArithmeticError], [TokenError] and the part of [DispatchError] of [sp_runtime] that the
    pallets return themselves.  [ModuleError] carries the pallet's own [Error]
    value; [Foreign] is an error handed on from a component outside the pallet. *)
Module ArithmeticError.
Inductive t := Underflow | Overflow | DivisionByZero.
End ArithmeticError.

Module TokenError.
Inductive t := FundsUnavailable.
End TokenError.

Inductive DispatchError (E : Type) : Type :=
| ModuleError (e : E)
| Arithmetic (e : ArithmeticError.t)
| Token (e : TokenError.t)
| BadOrigin
| Corruption
| Foreign (code : Z).
#[global] Arguments ModuleError {E} e.
#[global] Arguments Arithmetic {E} e.
#[global] Arguments Token {E} e.
#[global] Arguments BadOrigin {E}.
#[global] Arguments Corruption {E}.
#[global] Arguments Foreign {E} code.

(** [MathError] of the math crate. *)
Module MathError.
Inductive t :=
| Overflow
| InsufficientOutReserve
| ZeroWeight
| ZeroReserve
| ZeroDuration
| DivisionByZero.
End MathError.

(** [to_balance!]: conversion of a wide integer back to [u128]. *)
Definition to_balance (x : Z) : result MathError.t Z := ok_or (try_from u128 x) MathError.Overflow.

(** ** State and errors

    A dispatchable is a function of the storage.  An error carries no storage:
    the caller keeps the one it had, which is what [#[transactional]] and the
    transactional layer FRAME puts around every call do. *)
Definition M (S E A : Type) : Type := S → result E (A * S).

#[global] Instance M_ret {S E} : MRet (M S E) := λ A a s, Ok (a, s).
#[global] Instance M_bind {S E} : MBind (M S E) := λ A B f m s,
  match m s with Ok (a, s') => f a s' | Err e => Err e end.

Definition get {S E} : M S E S := λ s, Ok (s, s).
Definition gets {S E A} (f : S → A) : M S E A := λ s, Ok (f s, s).
Definition modify {S E} (f : S → S) : M S E unit := λ s, Ok (tt, f s).
Definition fail {S E A} (e : E) : M S E A := λ _, Err e.
Definition lift {S E A} (r : result E A) : M S E A := λ s,
  match r with Ok a => Ok (a, s) | Err e => Err e end.
Definition ensureM {S E} (b : bool) (e : E) : M S E unit := lift (ensure b e).

(** ** Origins *)

Inductive RawOrigin (AccountId : Type) : Type :=
| Root
| Signed (who : AccountId)
| NoneOrigin.
#[global] Arguments Root {AccountId}.
#[global] Arguments Signed {AccountId} who.
#[global] Arguments NoneOrigin {AccountId}.

Definition ensure_signed {A E} (o : RawOrigin A) : result (DispatchError E) A :=
  match o with Signed a => Ok a | _ => Err BadOrigin end.
Definition ensure_signed_or_root {A E} (o : RawOrigin A) : result (DispatchError E) (option A) :=
  match o with Signed a => Ok (Some a) | Root => Ok None | NoneOrigin => Err BadOrigin end.

(** The errors of a pallet: its own, those of the arithmetic, a wrong origin.  A
    panic stops the block; nothing of the call remains. *)
Definition ensure_or {S E} (b : bool) (e : E) : M S (DispatchError E) unit := ensureM b (ModuleError e).
Definition some_or {S E A} (r : option A) (e : E) : M S (DispatchError E) A := lift (ok_or r (ModuleError e)).
Definition math_or {S E A} (r : option A) (e : ArithmeticError.t) : M S (DispatchError E) A :=
  lift (ok_or r (Arithmetic e)).
Definition or_panic {S E A} (r : option A) : M S (DispatchError E) A := lift (ok_or r (Foreign (-1))).
Definition ensure_origin {S E AccountId} (allowed : RawOrigin AccountId → bool) (o : RawOrigin AccountId) :
    M S (DispatchError E) unit :=
  ensureM (allowed o) BadOrigin.

(** ** Lemmas on machine integers *)

Lemma max_value_nonneg w : 0 <= w → 0 <= max_value w.
Proof. intros. unfold max_value. pose proof (Z.pow_pos_nonneg 2 w). lia. Qed.

Lemma max_value_mono v w : 0 <= v <= w → max_value v <= max_value w.
Proof. intros. unfold max_value. pose proof (Z.pow_le_mono_r 2 v w). lia. Qed.

Lemma fits_nonneg w x : fits w x → 0 <= x.
Proof. unfold fits. lia. Qed.

Lemma fits_widen v w x : 0 <= v <= w → fits v x → fits w x.
Proof. unfold fits. pose proof (max_value_mono v w). lia. Qed.

(** The product of two values of width [w] is a value of width [2 * w]. *)
Lemma fits_mul w x y : 0 <= w → fits w x → fits w y → fits (2 * w) (x * y).
Proof.
  unfold fits, max_value. intros Hw Hx Hy.
  replace (2 ^ (2 * w)) with (2 ^ w * 2 ^ w) by (rewrite <- Z.pow_add_r; [f_equal; lia|lia..]).
  nia.
Qed.

Lemma fits_add w x y : 0 <= w → fits w x → fits w y → fits (w + 1) (x + y).
Proof.
  unfold fits, max_value. intros Hw Hx Hy.
  rewrite Z.pow_add_r, Z.pow_1_r by lia. lia.
Qed.

Lemma fits_div w x y : fits w x → 0 <= y → fits w (x / y).
Proof.
  unfold fits. intros Hx Hy. destruct (decide (y = 0)) as [->|].
  - rewrite Z.div_0_r. lia.
  - split; [apply Z.div_pos; lia|].
    etransitivity; [apply Z.div_le_upper_bound with (q := x); nia|lia].
Qed.

Section checked.
Context (w x y z : Z).

Lemma try_from_Some : try_from w x = Some z ↔ z = x ∧ x <= max_value w.
Proof. unfold try_from. case_match; rewrite ?Z.leb_le, ?Z.leb_gt in *; naive_solver lia. Qed.
Lemma try_from_None : try_from w x = None ↔ max_value w < x.
Proof. unfold try_from. case_match; rewrite ?Z.leb_le, ?Z.leb_gt in *; naive_solver lia. Qed.

Lemma checked_add_Some : checked_add w x y = Some z ↔ z = x + y ∧ x + y <= max_value w.
Proof. unfold checked_add. case_match; rewrite ?Z.leb_le, ?Z.leb_gt in *; naive_solver lia. Qed.
Lemma checked_add_None : checked_add w x y = None ↔ max_value w < x + y.
Proof. unfold checked_add. case_match; rewrite ?Z.leb_le, ?Z.leb_gt in *; naive_solver lia. Qed.

Lemma checked_sub_Some : checked_sub x y = Some z ↔ z = x - y ∧ y <= x.
Proof. unfold checked_sub. case_match; rewrite ?Z.leb_le, ?Z.leb_gt in *; naive_solver lia. Qed.
Lemma checked_sub_None : checked_sub x y = None ↔ x < y.
Proof. unfold checked_sub. case_match; rewrite ?Z.leb_le, ?Z.leb_gt in *; naive_solver lia. Qed.

Lemma checked_mul_Some : checked_mul w x y = Some z ↔ z = x * y ∧ x * y <= max_value w.
Proof. unfold checked_mul. case_match; rewrite ?Z.leb_le, ?Z.leb_gt in *; naive_solver lia. Qed.
Lemma checked_mul_None : checked_mul w x y = None ↔ max_value w < x * y.
Proof. unfold checked_mul. case_match; rewrite ?Z.leb_le, ?Z.leb_gt in *; naive_solver lia. Qed.

Lemma checked_div_Some : checked_div x y = Some z ↔ z = x / y ∧ y ≠ 0.
Proof. unfold checked_div. case_match; rewrite ?Z.eqb_eq, ?Z.eqb_neq in *; naive_solver lia. Qed.
Lemma checked_div_None : checked_div x y = None ↔ y = 0.
Proof. unfold checked_div. case_match; rewrite ?Z.eqb_eq, ?Z.eqb_neq in *; naive_solver lia. Qed.
End checked.

(** Rewriting forward: a checked operation whose result is in range succeeds. *)
Lemma try_from_ok w x : x <= max_value w → try_from w x = Some x.
Proof. intros. by apply try_from_Some. Qed.
Lemma checked_add_ok w x y : x + y <= max_value w → checked_add w x y = Some (x + y).
Proof. intros. by apply checked_add_Some. Qed.
Lemma checked_sub_ok x y : y <= x → checked_sub x y = Some (x - y).
Proof. intros. by apply checked_sub_Some. Qed.
Lemma checked_mul_ok w x y : x * y <= max_value w → checked_mul w x y = Some (x * y).
Proof. intros. by apply checked_mul_Some. Qed.
Lemma checked_div_ok x y : y ≠ 0 → checked_div x y = Some (x / y).
Proof. intros. by apply checked_div_Some. Qed.

(** The product of two 128-bit values never overflows 256 bits. *)
Lemma u256_mul_bound x y : fits u128 x → fits u128 y → x * y <= max_value u256.
Proof. intros. apply (fits_mul u128 x y); unfold u128 in *; [lia|done|done]. Qed.
Lemma u256_add_bound x y : fits u128 x → fits u128 y → x + y <= max_value u256.
Proof. unfold fits, max_value, u128, u256. lia. Qed.

(** ** Division lemmas *)

(** Floor division characterised by its two bounds, in the form [nia] uses. *)
Lemma div_bounds x y : 0 < y → y * (x / y) <= x < y * (x / y) + y.
Proof. intros. pose proof (Z.mul_div_le x y). pose proof (Z.mul_succ_div_gt x y). lia. Qed.

Lemma div_nonneg x y : 0 <= x → 0 <= y → 0 <= x / y.
Proof.
  intros. destruct (decide (y = 0)) as [->|]; [by rewrite Z.div_0_r|apply Z.div_pos; lia].
Qed.

(** [x / y <= q] as soon as [x < y * (q + 1)]. *)
Lemma div_le_of_lt x y q : 0 < y → x < y * (q + 1) → x / y <= q.
Proof. intros. apply Z.lt_succ_r, Z.div_lt_upper_bound; lia. Qed.

(** A fraction [a / b] of [x] with [a <= b] is at most [x]. *)
Lemma muldiv_le x a b : 0 <= x → 0 <= a <= b → 0 < b → x * a / b <= x.
Proof. intros. apply Z.div_le_upper_bound; nia. Qed.

Lemma muldiv_nonneg x a b : 0 <= x → 0 <= a → 0 <= b → 0 <= x * a / b.
Proof. intros. apply div_nonneg; nia. Qed.

(** Saturating operations stay in the range of the type. *)
Lemma saturating_add_fits w x y : 0 <= w → 0 <= x → 0 <= y → fits w (saturating_add w x y).
Proof. intros. unfold fits, saturating_add. pose proof (max_value_nonneg w). lia. Qed.
Lemma saturating_mul_fits w x y : 0 <= w → 0 <= x → 0 <= y → fits w (saturating_mul w x y).
Proof. intros. unfold fits, saturating_mul. pose proof (max_value_nonneg w). nia. Qed.
Lemma saturating_add_nonneg w x y : 0 <= w → 0 <= x → 0 <= y → 0 <= saturating_add w x y.
Proof. intros. by apply saturating_add_fits. Qed.
Lemma saturating_mul_nonneg w x y : 0 <= w → 0 <= x → 0 <= y → 0 <= saturating_mul w x y.
Proof. intros. by apply saturating_mul_fits. Qed.
Lemma saturating_sub_nonneg x y : 0 <= saturating_sub x y.
Proof. unfold saturating_sub. lia. Qed.

(** Signs of the results of unsigned arithmetic. *)
Create HintDb nonneg.
#[export] Hint Resolve div_nonneg Z.add_nonneg_nonneg Z.mul_nonneg_nonneg
  saturating_add_nonneg saturating_mul_nonneg saturating_sub_nonneg : nonneg.
#[export] Hint Extern 1 (0 <= _) => assumption : nonneg.
#[export] Hint Extern 2 (0 <= _) => progress unfold u128, u256 : nonneg.
#[export] Hint Extern 9 (0 <= _) => lia : nonneg.

(** Halves of [x] split by a proportion never exceed the whole. *)
Lemma muldiv_mono_l x y a b : x <= y → 0 <= a → 0 < b → x * a / b <= y * a / b.
Proof. intros. apply Z.div_le_mono; nia. Qed.

(** ** Lists *)

Lemma length_removelast {A} (l : list A) : (length (removelast l) ≤ length l)%nat.
Proof. induction l as [|x [|y l] IH]; simpl in *; lia. Qed.

(** The sum of [f] over a list. *)
Definition sum_list_with_Z {A} (f : A → Z) (l : list A) : Z := foldr (λ x acc, f x + acc) 0 l.

Section list_sums.
Context {A : Type}.
Implicit Types (f g : A → Z) (l : list A).

Lemma sum_list_with_Z_app f l k : sum_list_with_Z f (l ++ k) = sum_list_with_Z f l + sum_list_with_Z f k.
Proof. induction l as [|x l IH]; simpl; [done|]. rewrite IH. lia. Qed.
#[global] Instance sum_list_with_Z_perm f : Proper ((≡ₚ) ==> (=)) (sum_list_with_Z f).
Proof. intros l k Hp. induction Hp; simpl; lia. Qed.
Lemma sum_list_with_Z_le f g l : (∀ x, x ∈ l → f x <= g x) → sum_list_with_Z f l <= sum_list_with_Z g l.
Proof.
  induction l as [|x l IH]; simpl; [done|]. intros Hl. pose proof (Hl x (list_elem_of_here _ _)).
  assert (sum_list_with_Z f l <= sum_list_with_Z g l); [|lia]. apply IH. intros. apply Hl. by right.
Qed.
Lemma sum_list_with_Z_ext f g l : (∀ x, x ∈ l → f x = g x) → sum_list_with_Z f l = sum_list_with_Z g l.
Proof. intros Hl. apply Z.le_antisymm; apply sum_list_with_Z_le; intros; by rewrite Hl. Qed.
Lemma sum_list_with_Z_zero l : sum_list_with_Z (λ _, 0) l = 0.
Proof. by induction l. Qed.
Lemma sum_list_with_Z_nonneg f l : (∀ x, x ∈ l → 0 <= f x) → 0 <= sum_list_with_Z f l.
Proof. intros. rewrite <- (sum_list_with_Z_zero l). by apply sum_list_with_Z_le. Qed.
Lemma sum_list_with_Z_elem f l x : (∀ x, x ∈ l → 0 <= f x) → x ∈ l → f x <= sum_list_with_Z f l.
Proof.
  intros Hl (l1 & l2 & ->)%list_elem_of_split. rewrite sum_list_with_Z_app. simpl.
  assert (0 <= sum_list_with_Z f l1 ∧ 0 <= sum_list_with_Z f l2); [|lia].
  split; apply sum_list_with_Z_nonneg; intros; apply Hl; set_solver.
Qed.
(** Replacing one element. *)
Lemma sum_list_with_Z_insert f l i x y :
  l !! i = Some x → sum_list_with_Z f (<[i := y]> l) = sum_list_with_Z f l - f x + f y.
Proof.
  revert i. induction l as [|z l IH]; intros [|i] Hi; simplify_eq/=; [lia|]. rewrite IH by done. lia.
Qed.
End list_sums.

(** ** Sums over finite maps *)

Definition sum_kmap {K V} `{Countable K} (f : K → V → Z) (m : gmap K V) : Z :=
  map_fold (λ k v acc, f k v + acc) 0 m.
Definition sum_map {K V} `{Countable K} (f : V → Z) (m : gmap K V) : Z := sum_kmap (λ _, f) m.

Section sum_kmap.
Context {K V : Type} `{Countable K}.
Implicit Types (f g : K → V → Z) (m : gmap K V) (k : K) (v : V).

Lemma sum_kmap_empty f : sum_kmap f ∅ = 0.
Proof. apply map_fold_empty. Qed.
Lemma sum_kmap_insert f m k v : m !! k = None → sum_kmap f (<[k := v]> m) = f k v + sum_kmap f m.
Proof. intros. unfold sum_kmap. rewrite map_fold_insert_L; [done| |done]. intros. lia. Qed.
Lemma sum_kmap_delete f m k v : m !! k = Some v → sum_kmap f m = f k v + sum_kmap f (delete k m).
Proof. intros. unfold sum_kmap. rewrite (map_fold_delete_L _ _ k v m); [done| |done]. intros. lia. Qed.
Lemma sum_kmap_update f m k v v' :
  m !! k = Some v → sum_kmap f (<[k := v']> m) = sum_kmap f m - f k v + f k v'.
Proof.
  intros Hk. rewrite (sum_kmap_delete f m k v Hk), <- insert_delete_eq, sum_kmap_insert by apply lookup_delete_eq.
  lia.
Qed.
(** Changing, adding or removing the value at one key. *)
Lemma sum_kmap_alter f m k o :
  sum_kmap f (partial_alter (λ _, o) k m)
  = sum_kmap f m - from_option (f k) 0 (m !! k) + from_option (f k) 0 o.
Proof.
  assert (sum_kmap f m = from_option (f k) 0 (m !! k) + sum_kmap f (delete k m)) as ->.
  { destruct (m !! k) as [v|] eqn:E; simpl; [by apply sum_kmap_delete|]. by rewrite delete_id. }
  destruct o as [v|]; simpl.
  - change (partial_alter (λ _, Some v) k m) with (<[k := v]> m).
    rewrite <- insert_delete_eq, sum_kmap_insert by apply lookup_delete_eq. lia.
  - change (partial_alter (λ _, None) k m) with (delete k m). lia.
Qed.
(** Two sums whose terms compare compare. *)
Lemma sum_kmap_le f g m : (∀ k v, m !! k = Some v → f k v <= g k v) → sum_kmap f m <= sum_kmap g m.
Proof.
  induction m as [|k v m Hk IH] using map_ind; intros Hm.
  - by rewrite !sum_kmap_empty.
  - rewrite !sum_kmap_insert by done. apply Z.add_le_mono; [apply Hm, lookup_insert_eq|].
    apply IH. intros k' v' Hk'. apply Hm. rewrite lookup_insert_ne; [done|]. intros ->. congruence.
Qed.
Lemma sum_kmap_ext f g m : (∀ k v, m !! k = Some v → f k v = g k v) → sum_kmap f m = sum_kmap g m.
Proof. intros Hm. apply Z.le_antisymm; apply sum_kmap_le; intros; by rewrite (Hm k v). Qed.
Lemma sum_kmap_zero f m : (∀ k v, m !! k = Some v → f k v = 0) → sum_kmap f m = 0.
Proof.
  intros Hm. rewrite (sum_kmap_ext f (λ _ _, 0) m Hm). clear Hm.
  induction m as [|k v m Hk IH] using map_ind; [by rewrite sum_kmap_empty|]. by rewrite sum_kmap_insert.
Qed.
Lemma sum_kmap_nonneg f m : (∀ k v, m !! k = Some v → 0 <= f k v) → 0 <= sum_kmap f m.
Proof. intros Hm. rewrite <- (sum_kmap_zero (λ _ _, 0) m) by done. by apply sum_kmap_le. Qed.
(** A term of a sum of nonnegative terms is at most the sum. *)
Lemma sum_kmap_term f m k v :
  (∀ k v, m !! k = Some v → 0 <= f k v) → m !! k = Some v → f k v <= sum_kmap f m.
Proof.
  intros Hm Hk. rewrite (sum_kmap_delete f m k v Hk).
  assert (0 <= sum_kmap f (delete k m)); [|lia]. apply sum_kmap_nonneg.
  intros k' v' [_ Hk']%lookup_delete_Some. by apply Hm.
Qed.
Lemma sum_kmap_add f g m : sum_kmap (λ k v, f k v + g k v) m = sum_kmap f m + sum_kmap g m.
Proof.
  induction m as [|k v m Hk IH] using map_ind; [by rewrite !sum_kmap_empty|].
  rewrite !sum_kmap_insert by done. lia.
Qed.
Lemma sum_kmap_scale (c : Z) f m : sum_kmap (λ k v, c * f k v) m = c * sum_kmap f m.
Proof.
  induction m as [|k v m Hk IH] using map_ind; [rewrite !sum_kmap_empty; lia|].
  rewrite !sum_kmap_insert by done. lia.
Qed.
End sum_kmap.

Section sum_map.
Context {K V : Type} `{Countable K} (f : V → Z).
Implicit Types (m : gmap K V) (k : K) (v : V).

Lemma sum_map_empty : sum_map f (∅ : gmap K V) = 0.
Proof. apply sum_kmap_empty. Qed.
Lemma sum_map_insert m k v : m !! k = None → sum_map f (<[k := v]> m) = f v + sum_map f m.
Proof. apply (sum_kmap_insert (λ _, f)). Qed.
Lemma sum_map_delete m k v : m !! k = Some v → sum_map f m = f v + sum_map f (delete k m).
Proof. apply (sum_kmap_delete (λ _, f)). Qed.
Lemma sum_map_update m k v v' :
  m !! k = Some v → sum_map f (<[k := v']> m) = sum_map f m - f v + f v'.
Proof. apply (sum_kmap_update (λ _, f)). Qed.
Lemma sum_map_nonneg m : (∀ k v, m !! k = Some v → 0 <= f v) → 0 <= sum_map f m.
Proof. apply (sum_kmap_nonneg (λ _, f)). Qed.
End sum_map.

(** ** Inversion of the monads *)

Lemma result_bind_Ok {E A B} (f : A → result E B) m b :
  m ≫= f = Ok b ↔ ∃ a, m = Ok a ∧ f a = Ok b.
Proof. destruct m; naive_solver. Qed.

Lemma result_fmap_Ok {E A B} (f : A → B) (m : result E A) b :
  f <$> m = Ok b ↔ ∃ a, m = Ok a ∧ b = f a.
Proof. destruct m; unfold fmap; simpl; naive_solver. Qed.

Lemma ok_or_Ok {E A} (o : option A) (e : E) a : ok_or o e = Ok a ↔ o = Some a.
Proof. destruct o; naive_solver. Qed.
Lemma ok_or_Err {E A} (o : option A) (e e' : E) : ok_or o e = Err e' ↔ o = None ∧ e' = e.
Proof. destruct o; naive_solver. Qed.

Lemma map_err_Ok {E F A} (f : E → F) (r : result E A) a : map_err f r = Ok a ↔ r = Ok a.
Proof. destruct r; naive_solver. Qed.

Lemma ok_Some {E A} (r : result E A) a : ok r = Some a ↔ r = Ok a.
Proof. destruct r; naive_solver. Qed.

Lemma ensure_Ok {E} b (e : E) u : ensure b e = Ok u ↔ b = true.
Proof. destruct b, u; naive_solver. Qed.
Lemma ensure_Err {E} b (e e' : E) : ensure b e = Err e' ↔ b = false ∧ e' = e.
Proof. destruct b; naive_solver. Qed.

Section state.
Context {S E A B : Type}.
Implicit Types (s : S) (e : E).

Lemma M_bind_Ok (f : A → M S E B) (m : M S E A) s b s'' :
  (m ≫= f) s = Ok (b, s'') ↔ ∃ a s', m s = Ok (a, s') ∧ f a s' = Ok (b, s'').
Proof. unfold mbind, M_bind. destruct (m s) as [[a s']|]; naive_solver. Qed.

Lemma M_bind_Err (f : A → M S E B) (m : M S E A) s e :
  (m ≫= f) s = Err e ↔ m s = Err e ∨ ∃ a s', m s = Ok (a, s') ∧ f a s' = Err e.
Proof. unfold mbind, M_bind. destruct (m s) as [[a s']|]; naive_solver. Qed.

Lemma M_ret_Ok (a a' : A) s s' : (mret a : M S E A) s = Ok (a', s') ↔ a' = a ∧ s' = s.
Proof. unfold mret, M_ret. naive_solver. Qed.

Lemma get_Ok s t s' : get (E := E) s = Ok (t, s') ↔ t = s ∧ s' = s.
Proof. unfold get. naive_solver. Qed.

Lemma gets_Ok (f : S → A) s a s' : gets (E := E) f s = Ok (a, s') ↔ a = f s ∧ s' = s.
Proof. unfold gets. naive_solver. Qed.

Lemma modify_Ok (f : S → S) s u s' : modify (E := E) f s = Ok (u, s') ↔ s' = f s.
Proof. destruct u. unfold modify. naive_solver. Qed.

Lemma fail_Ok e (a : A) s s' : fail e s = Ok (a, s') ↔ False.
Proof. unfold fail. naive_solver. Qed.

Lemma lift_Ok (r : result E A) s a s' : lift r s = Ok (a, s') ↔ r = Ok a ∧ s' = s.
Proof. unfold lift. destruct r; naive_solver. Qed.
End state.

Lemma ensureM_Ok {S E} b (e : E) (s : S) u s' : ensureM b e s = Ok (u, s') ↔ b = true ∧ s' = s.
Proof. unfold ensureM. by rewrite lift_Ok, ensure_Ok. Qed.

(** ** Failures *)

(** Every error of a run satisfies [P]. *)
Definition fails_only {S E A} (P : E → Prop) (m : M S E A) (s : S) : Prop := ∀ e, m s = Err e → P e.

Section fails.
Context {S E A B : Type} (P : E → Prop).
Implicit Types (s : S) (e : E).

Lemma fails_bind (f : A → M S E B) (m : M S E A) s :
  fails_only P m s → (∀ a s', m s = Ok (a, s') → fails_only P (f a) s') → fails_only P (m ≫= f) s.
Proof. intros Hm Hf e [He|(a & s' & Hr & He)]%M_bind_Err; [by apply Hm|by eapply Hf]. Qed.
Lemma fails_ret (a : A) s : fails_only P (mret a) s.
Proof. by intros e. Qed.
Lemma fails_get s : fails_only P get s.
Proof. by intros e. Qed.
Lemma fails_modify (f : S → S) s : fails_only P (modify f) s.
Proof. by intros e. Qed.
Lemma fails_lift (r : result E A) s : (∀ e, r = Err e → P e) → fails_only P (lift r) s.
Proof. intros Hr e. unfold lift. destruct r; naive_solver. Qed.
Lemma fails_ok_or (o : option A) e s : (o = None → P e) → fails_only P (lift (ok_or o e)) s.
Proof. intros Ho. apply fails_lift. intros e' [Hn ->]%ok_or_Err. by apply Ho. Qed.
Lemma fails_ensure b e s : (b = false → P e) → fails_only P (ensureM b e) s.
Proof. intros Hb e'. unfold ensureM, lift, ensure. destruct b; naive_solver. Qed.
Lemma fails_if (b : bool) (m m' : M S E A) s :
  (b = true → fails_only P m s) → (b = false → fails_only P m' s) → fails_only P (if b then m else m') s.
Proof. destruct b; auto. Qed.
End fails.

(** ** Tactics *)

(** [Z] and [bool] comparisons as propositions. *)
Ltac propify :=
  repeat match goal with
  | H : context [Is_true _] |- _ => rewrite Is_true_true in H
  | H : (_ && _) = true |- _ => apply andb_true_iff in H as [? ?]
  | H : (_ || _) = false |- _ => apply orb_false_iff in H as [? ?]
  | H : (_ && _) = false |- _ => apply andb_false_iff in H
  | H : (_ || _) = true |- _ => apply orb_true_iff in H
  | H : negb _ = true |- _ => apply negb_true_iff in H
  | H : negb _ = false |- _ => apply negb_false_iff in H
  | H : context [Z.eqb _ _ = true] |- _ => rewrite Z.eqb_eq in H
  | H : context [Z.eqb _ _ = false] |- _ => rewrite Z.eqb_neq in H
  | H : context [Z.leb _ _ = true] |- _ => rewrite Z.leb_le in H
  | H : context [Z.leb _ _ = false] |- _ => rewrite Z.leb_gt in H
  | H : context [Z.ltb _ _ = true] |- _ => rewrite Z.ltb_lt in H
  | H : context [Z.ltb _ _ = false] |- _ => rewrite Z.ltb_ge in H
  | H : bool_decide _ = true |- _ => apply bool_decide_eq_true_1 in H
  | H : bool_decide _ = false |- _ => apply bool_decide_eq_false_1 in H
  end.

(** One step of inverting a successful run of checked arithmetic, of a fallible
    computation or of a state transformer. *)
Ltac inv_step :=
  match goal with
  | H : try_from _ _ = Some _ |- _ => apply try_from_Some in H as [? ?]
  | H : checked_add _ _ _ = Some _ |- _ => apply checked_add_Some in H as [? ?]
  | H : checked_sub _ _ = Some _ |- _ => apply checked_sub_Some in H as [? ?]
  | H : checked_mul _ _ _ = Some _ |- _ => apply checked_mul_Some in H as [? ?]
  | H : checked_div _ _ = Some _ |- _ => apply checked_div_Some in H as [? ?]
  | H : @mbind option _ _ _ _ _ = Some _ |- _ =>
      apply bind_Some in H as (? & ? & H); cbv beta in H
  | H : @mbind (result _) _ _ _ _ _ = Ok _ |- _ =>
      apply result_bind_Ok in H as (? & ? & H); cbv beta in H
  | H : @fmap (result _) _ _ _ _ _ = Ok _ |- _ =>
      apply result_fmap_Ok in H as (? & ? & H)
  | H : @mbind (M _ _) _ _ _ _ _ _ = Ok (_, _) |- _ =>
      apply M_bind_Ok in H as (? & ? & ? & H); cbv beta in H
  | H : @mret (M _ _) _ _ _ _ = Ok (_, _) |- _ => apply M_ret_Ok in H as [? ?]
  | H : get _ = Ok (_, _) |- _ => apply get_Ok in H as [? ?]
  | H : gets _ _ = Ok (_, _) |- _ => apply gets_Ok in H as [? ?]
  | H : modify _ _ = Ok (_, _) |- _ => apply modify_Ok in H
  | H : fail _ _ = Ok (_, _) |- _ => by apply fail_Ok in H
  | H : lift _ _ = Ok (_, _) |- _ => apply lift_Ok in H as [? ?]
  | H : ensureM _ _ _ = Ok (_, _) |- _ => apply ensureM_Ok in H as [? ?]
  | H : ok_or _ _ = Ok _ |- _ => apply ok_or_Ok in H
  | H : map_err _ _ = Ok _ |- _ => apply map_err_Ok in H
  | H : ok _ = Some _ |- _ => apply ok_Some in H
  | H : ensure _ _ = Ok _ |- _ => apply ensure_Ok in H
  | H : Ok _ = Ok _ |- _ => injection H as H
  | H : Err _ = Ok _ |- _ => discriminate H
  | H : Ok _ = Err _ |- _ => discriminate H
  | H : Some _ = Some _ |- _ => injection H as H
  | H : None = Some _ |- _ => discriminate H
  | H : Some _ = None |- _ => discriminate H
  | H : (_, _) = (_, _) |- _ => injection H as ? ?
  | u : unit |- _ => destruct u
  end.

(** Invert everything that ran successfully, keeping the boolean guards. *)
Ltac inv_run := repeat (inv_step; subst).

(** As [inv_run], also splitting the branches the run went through. *)
Ltac inv_cases :=
  repeat (inv_run; try match goal with
  | H : context [match ?x with _ => _ end] |- _ =>
      lazymatch type of H with _ = Ok _ => idtac | _ = Some _ => idtac end;
      destruct x eqn:?
  end); inv_run.

(** As [inv_run], through the guards and origins of a pallet's call. *)
Ltac inv_pallet :=
  unfold ensure_or, some_or, math_or, or_panic, ensure_origin in * |-;
  repeat (inv_run; try match goal with
  | Hr : (let '(_, _) := ?x in _) _ = Ok _ |- _ => destruct x; cbv beta iota in Hr
  | Hr : ensure_signed (Signed _) = Ok _ |- _ => injection Hr as <-
  | Hr : ensure_signed ?o = Ok _ |- _ => destruct o; inversion Hr; clear Hr; subst
  end); propify.

(** Running a call on a concrete state; the state stays when the call fails. *)
Definition run {S E} (m : M S E unit) (s : S) : S := match m s with Ok (_, s') => s' | Err _ => s end.
Definition succeeds {S E} (m : M S E unit) (s : S) : bool :=
  match m s with Ok _ => true | Err _ => false end.
Lemma run_Ok {S E} (m : M S E unit) s : succeeds m s = true → m s = Ok (tt, run m s).
Proof. unfold succeeds, run. by destruct (m s) as [[[] s']|]. Qed.

(** Close a goal on concrete data by evaluation. *)
Ltac compute_done :=
  first
    [ reflexivity
    | vm_compute; reflexivity
    | vm_compute; discriminate
    | apply bool_decide_unpack; vm_compute; exact I
    | lia
    | split; compute_done ].
