(* ===== verification/Arithmetic.v ===== *)
(** * Interface of the fixed-point arithmetic crate

    [sp_arithmetic] and the wide integers of [primitive_types] are not part of
    the repository.  [SpArithmetic] lists the operations the sources call, on the
    documented representations: [Permill], [Perbill] and [Perquintill] by their number of
    parts, [FixedU128] by its inner [u128] (the value times [10^18]).  [SpArithmeticLaws] states the documented
    rounding and overflow behaviour that the theorems rely on.  The instance
    [reference_arithmetic] shows that the laws can be met and lets the witnesses
    compute. *)

From S2P Require Import Prelude.

(** Parts of [Permill::one()] and [Perbill::one()]. *)
Definition PERMILL : Z := 1000000.
Definition PERBILL : Z := 1000000000.
(** Parts of [Perquintill::one()]. *)
Definition PERQUINTILL : Z := 1000000000000000000.
(** [FixedU128::DIV]. *)
Definition DIV : Z := 1000000000000000000.

(** A well-formed [Permill] / [Perbill]. *)
Definition is_permill (p : Z) : Prop := 0 <= p <= PERMILL.
Definition is_perbill (p : Z) : Prop := 0 <= p <= PERBILL.
Definition is_perquintill (p : Z) : Prop := 0 <= p <= PERQUINTILL.

Class SpArithmetic := {
  (** [Permill::mul_floor], [Permill::mul_ceil] on a [u128]. *)
  permill_mul_floor : Z → Z → Z;
  permill_mul_ceil : Z → Z → Z;
  (** [Perbill::mul_floor] on a [u128] and [Perbill::from_rational], which
      rounds down and is exact to the part while the denominator has at most
      [PERBILL] units. *)
  perbill_mul_floor : Z → Z → Z;
  perbill_from_rational : Z → Z → Z;
  (** [FixedU128::checked_from_rational], [checked_mul_int], [checked_mul],
      [checked_div], and the conversion of a [Permill]. *)
  fixed_checked_from_rational : Z → Z → option Z;
  fixed_checked_mul_int : Z → Z → option Z;
  fixed_checked_mul : Z → Z → option Z;
  fixed_checked_div : Z → Z → option Z;
  fixed_from_permill : Z → Z;
  (** [FixedU128::from_rational], which panics ([None]) on a zero denominator
      and on overflow. *)
  fixed_from_rational : Z → Z → option Z;
  (** [U256::integer_sqrt] of [primitive_types]. *)
  u256_integer_sqrt : Z → Z;
  (** [helpers_128bit::multiply_by_rational_with_rounding] with [Rounding::Down],
      which is [None] on a zero denominator and on overflow. *)
  multiply_by_rational_down : Z → Z → Z → option Z;
  (** [FixedU128::from] an integer. *)
  fixed_from_integer : Z → Z;
  (** [Permill::from_rational], which saturates at one. *)
  permill_from_rational : Z → Z → Z;
  (** The conversion of a [Perquintill] to [FixedU128]; both count units of [10^-18]. *)
  fixed_from_perquintill : Z → Z;
}.

Class SpArithmeticLaws `{SpArithmetic} : Prop := {
  permill_mul_floor_spec p x :
    is_permill p → fits u128 x → permill_mul_floor p x = p * x / PERMILL;
  permill_mul_ceil_spec p x :
    is_permill p → fits u128 x → permill_mul_ceil p x = (p * x + (PERMILL - 1)) / PERMILL;
  perbill_mul_floor_spec p x :
    is_perbill p → fits u128 x → perbill_mul_floor p x = p * x / PERBILL;
  perbill_from_rational_spec n d :
    0 <= n <= d → 0 < d <= PERBILL → perbill_from_rational n d = n * PERBILL / d;
  fixed_checked_from_rational_spec n d :
    fits u128 n → fits u128 d →
    fixed_checked_from_rational n d = (if d =? 0 then None else try_from u128 (n * DIV / d));
  fixed_checked_mul_int_spec f n :
    fits u128 f → fits u128 n → fixed_checked_mul_int f n = try_from u128 (f * n / DIV);
  fixed_checked_mul_spec f g :
    fits u128 f → fits u128 g → fixed_checked_mul f g = try_from u128 (f * g / DIV);
  fixed_checked_div_spec f g :
    fits u128 f → fits u128 g →
    fixed_checked_div f g = (if g =? 0 then None else try_from u128 (f * DIV / g));
  fixed_from_permill_spec p : is_permill p → fixed_from_permill p = p * (DIV / PERMILL);
  fixed_from_rational_spec n d :
    fits u128 n → fits u128 d →
    fixed_from_rational n d = (if d =? 0 then None else try_from u128 (n * DIV / d));
  u256_integer_sqrt_spec x : fits u256 x → u256_integer_sqrt x = Z.sqrt x;
  multiply_by_rational_down_spec a b c :
    fits u128 a → fits u128 b → fits u128 c →
    multiply_by_rational_down a b c = (if c =? 0 then None else try_from u128 (a * b / c));
  fixed_from_integer_spec n : fits u128 n → fixed_from_integer n = saturating_mul u128 n DIV;
  permill_from_rational_wf n d : fits u128 n → fits u128 d → is_permill (permill_from_rational n d);
  fixed_from_perquintill_spec p : is_perquintill p → fixed_from_perquintill p = p;
}.

(** A concrete arithmetic that meets the laws. *)
Definition reference_arithmetic : SpArithmetic := {|
  permill_mul_floor p x := p * x / PERMILL;
  permill_mul_ceil p x := (p * x + (PERMILL - 1)) / PERMILL;
  perbill_mul_floor p x := p * x / PERBILL;
  perbill_from_rational n d := n * PERBILL / d;
  fixed_checked_from_rational n d := if d =? 0 then None else try_from u128 (n * DIV / d);
  fixed_checked_mul_int f n := try_from u128 (f * n / DIV);
  fixed_checked_mul f g := try_from u128 (f * g / DIV);
  fixed_checked_div f g := if g =? 0 then None else try_from u128 (f * DIV / g);
  fixed_from_permill p := p * (DIV / PERMILL);
  fixed_from_rational n d := if d =? 0 then None else try_from u128 (n * DIV / d);
  u256_integer_sqrt := Z.sqrt;
  multiply_by_rational_down a b c := if c =? 0 then None else try_from u128 (a * b / c);
  fixed_from_integer n := saturating_mul u128 n DIV;
  permill_from_rational n d := Z.max 0 (Z.min PERMILL (n * PERMILL / Z.max d 1));
  fixed_from_perquintill p := p;
|}.

Lemma reference_arithmetic_laws : @SpArithmeticLaws reference_arithmetic.
Proof. constructor; try done. intros. unfold is_permill. simpl. unfold PERMILL. lia. Qed.

Section bounds.
Context `{SpArithmeticLaws}.

Lemma permill_mul_floor_bounds p x :
  is_permill p → fits u128 x → 0 <= permill_mul_floor p x <= x.
Proof.
  intros Hp Hx. rewrite permill_mul_floor_spec by done. unfold is_permill, PERMILL in *.
  pose proof (fits_nonneg _ _ Hx). rewrite Z.mul_comm.
  split; [apply muldiv_nonneg|apply muldiv_le]; lia.
Qed.

(** [mul_ceil] never exceeds its argument: one is a fraction of at most one. *)
Lemma permill_mul_ceil_bounds p x :
  is_permill p → fits u128 x → 0 <= permill_mul_ceil p x <= x.
Proof.
  intros Hp Hx. rewrite permill_mul_ceil_spec by done. unfold is_permill, PERMILL in *.
  pose proof (fits_nonneg _ _ Hx).
  split; [apply div_nonneg; nia|]. apply div_le_of_lt; nia.
Qed.

Lemma perbill_mul_floor_bounds p x :
  is_perbill p → fits u128 x → 0 <= perbill_mul_floor p x <= x.
Proof.
  intros Hp Hx. rewrite perbill_mul_floor_spec by done. unfold is_perbill, PERBILL in *.
  pose proof (fits_nonneg _ _ Hx). rewrite Z.mul_comm.
  split; [apply muldiv_nonneg|apply muldiv_le]; lia.
Qed.

Lemma perbill_from_rational_wf n d :
  0 <= n <= d → 0 < d <= PERBILL → is_perbill (perbill_from_rational n d).
Proof.
  intros. rewrite perbill_from_rational_spec by done. unfold is_perbill.
  split; [apply div_nonneg; unfold PERBILL; lia|].
  apply Z.div_le_upper_bound; unfold PERBILL; lia.
Qed.
End bounds.
