(* ===== verification/Product.v ===== *)
(** * Constant-product arithmetic

    Facts on integer division that the pools share: rounding in favour of the
    pool keeps the product of its reserves, and keeps the reserves per share. *)

From S2P Require Import Prelude.

(** The product of the reserves grows by what the fee leaves in the pool. *)
Lemma sell_keeps_product in_reserve out_reserve amount kept :
  0 <= in_reserve → 0 <= out_reserve → 0 <= amount → 0 <= kept →
  in_reserve * out_reserve
  <= (in_reserve + amount) * (out_reserve - (out_reserve * amount / (in_reserve + amount) - kept)).
Proof.
  intros. destruct (decide (in_reserve + amount = 0)) as [E|].
  - rewrite E. replace in_reserve with 0 by lia. lia.
  - pose proof (div_bounds (out_reserve * amount) (in_reserve + amount) ltac:(lia)). nia.
Qed.

(** The same for a purchase; the bought amount may also stay in the pool. *)
Lemma buy_keeps_product in_reserve out_reserve amount price kept out :
  0 <= in_reserve → 0 <= price → 0 <= kept → amount <= out_reserve →
  amount = 0 ∧ price = 0 ∨ in_reserve * out_reserve < (in_reserve + price) * (out_reserve - amount) →
  out_reserve - amount <= out →
  in_reserve * out_reserve <= (in_reserve + (price + kept)) * out.
Proof.
  intros ? ? ? ? Hk ?. transitivity ((in_reserve + price) * (out_reserve - amount)).
  - destruct Hk as [[-> ->]|]; lia.
  - apply Z.mul_le_mono_nonneg; lia.
Qed.

(** Adding liquidity dilutes neither reserve per share. *)
Lemma add_liquidity_no_dilution a_reserve b_reserve issuance amount b_in shares :
  0 < a_reserve → 0 <= b_reserve → 0 <= issuance → 0 <= amount →
  amount * b_reserve <= b_in * a_reserve → shares = issuance * amount / a_reserve →
  a_reserve * (issuance + shares) <= (a_reserve + amount) * issuance ∧
  b_reserve * (issuance + shares) <= (b_reserve + b_in) * issuance.
Proof.
  intros Ha Hb Hi Hx Hin ->. pose proof (div_bounds (issuance * amount) a_reserve Ha) as Hs.
  set (s := issuance * amount / a_reserve) in *. split; [nia|].
  assert (s * b_reserve * a_reserve <= b_in * issuance * a_reserve) by nia. nia.
Qed.

(** Removing liquidity leaves the remaining shares at least their part. *)
Lemma remove_liquidity_no_dilution reserve shares total :
  0 <= reserve → 0 < total → 0 <= shares <= total →
  reserve * (total - shares) <= (reserve - shares * reserve / total) * total.
Proof. intros. pose proof (div_bounds (shares * reserve) total). nia. Qed.

(** Both reserves per share do not fall, so neither does their product per
    squared share. *)
Lemma product_per_share a b s a' b' s' :
  0 <= a → 0 <= b → 0 <= s → 0 <= s' →
  a * s' <= a' * s → b * s' <= b' * s → a * b * (s' * s') <= a' * b' * (s * s).
Proof.
  intros. replace (a * b * (s' * s')) with ((a * s') * (b * s')) by ring.
  replace (a' * b' * (s * s)) with ((a' * s) * (b' * s)) by ring.
  apply Z.mul_le_mono_nonneg; nia.
Qed.
