(* ===== verification/Currency.v ===== *)
(** * Interface of the multi-currency ledger

    The pallets are generic in a [MultiCurrency] (a trait of [orml_traits],
    outside the repository).  The class [MultiCurrency] lists the operations the
    pallets call on a state [X] that holds the ledger and the rest of the chain;
    [MultiCurrencyLaws] states what the trait documents: a successful transfer
    moves exactly the amount, a deposit and a withdrawal change one balance and
    the issuance by the amount, nothing else moves, and every balance is a
    [u128].  [ledger] is a concrete ledger that meets the laws. *)

From S2P Require Import Prelude.

(** Rewriting of the balance changes a call makes, at one account and asset. *)
Create Rewrite HintDb ledger.

Notation AssetId := Z (only parsing).
Notation Balance := Z (only parsing).

Inductive ExistenceRequirement := KeepAlive | AllowDeath.

(** Errors of the ledger are opaque codes. *)
Class MultiCurrency (X AccountId : Type) := {
  free_balance : AssetId → AccountId → X → Balance;
  total_balance : AssetId → AccountId → X → Balance;
  total_issuance : AssetId → X → Balance;
  transfer : AssetId → AccountId → AccountId → Balance → ExistenceRequirement → X → result Z X;
  deposit : AssetId → AccountId → Balance → X → result Z X;
  withdraw : AssetId → AccountId → Balance → ExistenceRequirement → X → result Z X;
  ensure_can_withdraw : AssetId → AccountId → Balance → X → result Z unit;
}.

(** [amount] if [P], nothing otherwise. *)
Definition when (P : Prop) `{Decision P} (amount : Z) : Z := if decide P then amount else 0.

(** Change of the balance of [a] in [c'] when [amount] of [c] moves from [f] to [t]. *)
Definition moved {AccountId} `{EqDecision AccountId}
    (c : AssetId) (f t : AccountId) (amount : Z) (c' : AssetId) (a : AccountId) : Z :=
  when (c' = c ∧ a = t) amount - when (c' = c ∧ a = f) amount.

Section moved.
Context {AccountId : Type} `{EqDecision AccountId}.
Implicit Types (a f t : AccountId).

Lemma moved_other_asset c f t x c' a : c' ≠ c → moved c f t x c' a = 0.
Proof. intros. unfold moved, when. repeat case_decide; naive_solver. Qed.
Lemma moved_receiver c f t x : f ≠ t → moved c f t x c t = x.
Proof. intros. unfold moved, when. repeat case_decide; naive_solver lia. Qed.
Lemma moved_sender c f t x : f ≠ t → moved c f t x c f = - x.
Proof. intros. unfold moved, when. repeat case_decide; naive_solver lia. Qed.
Lemma moved_bystander c f t x c' a : a ≠ f → a ≠ t → moved c f t x c' a = 0.
Proof. intros. unfold moved, when. repeat case_decide; naive_solver. Qed.
Lemma when_true (P : Prop) `{Decision P} x : P → when P x = x.
Proof. intros. unfold when. by case_decide. Qed.
Lemma when_other (c : AssetId) t x (c' : AssetId) a : a ≠ t → when (c' = c ∧ a = t) x = 0.
Proof. intros. unfold when. case_decide; naive_solver. Qed.
Lemma when_other_asset (c : AssetId) x (c' : AssetId) : c' ≠ c → when (c' = c) x = 0.
Proof. intros. unfold when. case_decide; naive_solver. Qed.
(** A transfer to the account itself moves nothing. *)
Lemma moved_self c f x c' a : moved c f f x c' a = 0.
Proof. unfold moved. lia. Qed.
End moved.

#[export] Hint Rewrite @moved_self : ledger.
#[export] Hint Rewrite @moved_other_asset @moved_receiver @moved_sender @moved_bystander
  @when_other @when_other_asset using congruence : ledger.
#[export] Hint Rewrite @when_true using (congruence || (split; congruence)) : ledger.

Class MultiCurrencyLaws (X AccountId : Type) `{EqDecision AccountId, MultiCurrency X AccountId} : Prop := {
  free_balance_fits c a x : fits u128 (free_balance c a x);
  total_issuance_fits c x : fits u128 (total_issuance c x);
  transfer_moves c f t amount er x x' :
    0 <= amount → transfer c f t amount er x = Ok x' →
    amount <= free_balance c f x ∧
    (∀ c' a, free_balance c' a x' = free_balance c' a x + moved c f t amount c' a) ∧
    (∀ c', total_issuance c' x' = total_issuance c' x);
  deposit_adds c t amount x x' :
    0 <= amount → deposit c t amount x = Ok x' →
    (∀ c' a, free_balance c' a x' = free_balance c' a x + when (c' = c ∧ a = t) amount) ∧
    (∀ c', total_issuance c' x' = total_issuance c' x + when (c' = c) amount);
  withdraw_subtracts c f amount er x x' :
    0 <= amount → withdraw c f amount er x = Ok x' →
    amount <= free_balance c f x ∧
    (∀ c' a, free_balance c' a x' = free_balance c' a x - when (c' = c ∧ a = f) amount) ∧
    (∀ c', total_issuance c' x' = total_issuance c' x - when (c' = c) amount);
}.

(** A hook into another component that leaves the ledger alone. *)
Definition same_ledger {X AccountId} `{MultiCurrency X AccountId} (x x' : X) : Prop :=
  (∀ c a, free_balance c a x' = free_balance c a x) ∧
  (∀ c, total_issuance c x' = total_issuance c x).

Definition frames_ledger {X AccountId} `{MultiCurrency X AccountId} (f : X → result Z X) : Prop :=
  ∀ x x', f x = Ok x' → same_ledger (AccountId := AccountId) x x'.

#[global] Instance same_ledger_preorder {X AccountId} `{MultiCurrency X AccountId} :
  PreOrder (same_ledger (X := X) (AccountId := AccountId)).
Proof.
  split.
  - by split.
  - intros x y z [H1 H2] [H3 H4]. split; intros; [by rewrite H3, H1|by rewrite H4, H2].
Qed.

(** Decide which balances a change concerns. *)
Ltac by_moves :=
  unfold moved, when in *; repeat case_decide; destruct_and?; subst; first [lia | exfalso; intuition congruence].

(** ** A concrete ledger *)

Definition clamp (z : Z) : Z := Z.max 0 (Z.min z (max_value u128)).

Record ledger := { balances : gmap (Z * Z) Z; issuance : gmap Z Z }.

Definition ledger_free (c a : Z) (l : ledger) : Z := clamp (default 0 (balances l !! (c, a))).
Definition ledger_issuance (c : Z) (l : ledger) : Z := clamp (default 0 (issuance l !! c)).
Definition set_free (c a b : Z) (l : ledger) : ledger :=
  {| balances := <[(c, a) := b]> (balances l); issuance := issuance l |}.
Definition set_issuance (c b : Z) (l : ledger) : ledger :=
  {| balances := balances l; issuance := <[c := b]> (issuance l) |}.

Definition ledger_transfer (c f t amount : Z) (_ : ExistenceRequirement) (l : ledger) : result Z ledger :=
  if (amount <=? ledger_free c f l) && (amount + ledger_free c t l <=? max_value u128) then
    let l' := set_free c f (ledger_free c f l - amount) l in
    Ok (set_free c t (ledger_free c t l' + amount) l')
  else Err 1.
Definition ledger_deposit (c t amount : Z) (l : ledger) : result Z ledger :=
  if (amount + ledger_free c t l <=? max_value u128)
     && (amount + ledger_issuance c l <=? max_value u128) then
    Ok (set_issuance c (ledger_issuance c l + amount) (set_free c t (ledger_free c t l + amount) l))
  else Err 2.
Definition ledger_withdraw (c f amount : Z) (_ : ExistenceRequirement) (l : ledger) : result Z ledger :=
  if (amount <=? ledger_free c f l) && (amount <=? ledger_issuance c l) then
    Ok (set_issuance c (ledger_issuance c l - amount) (set_free c f (ledger_free c f l - amount) l))
  else Err 3.

#[global] Instance ledger_currency : MultiCurrency ledger Z := {|
  free_balance := ledger_free;
  total_balance := ledger_free;
  total_issuance := ledger_issuance;
  transfer := ledger_transfer;
  deposit := ledger_deposit;
  withdraw := ledger_withdraw;
  ensure_can_withdraw c a amount l := ensure (amount <=? ledger_free c a l) 4;
|}.

Lemma clamp_fits z : fits u128 (clamp z).
Proof. unfold fits, clamp, max_value, u128. lia. Qed.
Lemma clamp_id z : fits u128 z → clamp z = z.
Proof. unfold fits, clamp, max_value, u128. lia. Qed.

Lemma ledger_free_set c a b l c' a' :
  fits u128 b →
  ledger_free c' a' (set_free c a b l) = (if decide (c' = c ∧ a' = a) then b else ledger_free c' a' l).
Proof.
  intros Hb. unfold ledger_free, set_free. simpl.
  rewrite lookup_insert. repeat case_decide; simplify_eq; naive_solver eauto using clamp_id.
Qed.
Lemma ledger_issuance_set c b l c' :
  fits u128 b →
  ledger_issuance c' (set_issuance c b l) = (if decide (c' = c) then b else ledger_issuance c' l).
Proof.
  intros Hb. unfold ledger_issuance, set_issuance. simpl.
  rewrite lookup_insert. repeat case_decide; simplify_eq; naive_solver eauto using clamp_id.
Qed.
Lemma ledger_issuance_set_free c a b l c' : ledger_issuance c' (set_free c a b l) = ledger_issuance c' l.
Proof. done. Qed.
Lemma ledger_free_set_issuance c b l c' a' : ledger_free c' a' (set_issuance c b l) = ledger_free c' a' l.
Proof. done. Qed.

#[global] Instance ledger_currency_laws : MultiCurrencyLaws ledger Z.
Proof.
  constructor; simpl.
  - intros. apply clamp_fits.
  - intros. apply clamp_fits.
  - unfold ledger_transfer. intros c f t amount er l l' H0 H. case_match; inv_run. propify.
    pose proof (clamp_fits (default 0 (balances l !! (c, f)))).
    pose proof (clamp_fits (default 0 (balances l !! (c, t)))).
    unfold fits, ledger_free in *. split_and!; [done| |done]. intros c' a.
    pose proof (ledger_free_set c f (clamp (default 0 (balances l !! (c, f))) - amount) l) as Hf.
    unfold ledger_free in Hf. rewrite Hf by (unfold fits; lia).
    pose proof (ledger_free_set c t) as Ht. unfold ledger_free in Ht.
    rewrite Ht; [|unfold fits; repeat case_decide; naive_solver lia].
    rewrite Hf by (unfold fits; lia).
    unfold moved, when. repeat case_decide; naive_solver lia.
  - unfold ledger_deposit. intros c t amount l l' H0 H. case_match; inv_run. propify.
    pose proof (clamp_fits (default 0 (balances l !! (c, t)))).
    pose proof (clamp_fits (default 0 (issuance l !! c))).
    split; intros.
    + rewrite ledger_free_set_issuance, ledger_free_set;
        unfold when, fits, ledger_free in *; repeat case_decide; naive_solver lia.
    + rewrite ledger_issuance_set, ledger_issuance_set_free;
        unfold when, fits, ledger_issuance in *; repeat case_decide; naive_solver lia.
  - unfold ledger_withdraw. intros c f amount er l l' H0 H. case_match; inv_run. propify.
    pose proof (clamp_fits (default 0 (balances l !! (c, f)))).
    pose proof (clamp_fits (default 0 (issuance l !! c))).
    split_and!; [done|..]; intros.
    + rewrite ledger_free_set_issuance, ledger_free_set;
        unfold when, fits, ledger_free in *; repeat case_decide; naive_solver lia.
    + rewrite ledger_issuance_set, ledger_issuance_set_free;
        unfold when, fits, ledger_issuance in *; repeat case_decide; naive_solver lia.
Qed.

(** ** Calls out of a pallet

    A pallet's storage [S] holds the rest of the chain [X] in a field; a call to
    another component transforms that field and hands on the component's error. *)
Definition on_ext {S X E A} (get : S → X) (set : X → S → S) (f : X → result Z (A * X)) :
    M S (DispatchError E) A :=
  λ s, match f (get s) with Ok (a, x) => Ok (a, set x s) | Err c => Err (Foreign c) end.

Definition on_ext_ {S X E} (get : S → X) (set : X → S → S) (f : X → result Z X) :
    M S (DispatchError E) unit :=
  on_ext get set (λ x, (λ x', (tt, x')) <$> f x).

Lemma on_ext_Ok {S X E A} (get : S → X) set (f : X → result Z (A * X)) s a s' :
  on_ext (E := E) get set f s = Ok (a, s') ↔ ∃ x, f (get s) = Ok (a, x) ∧ s' = set x s.
Proof. unfold on_ext. destruct (f (get s)) as [[b x]|]; naive_solver. Qed.

Lemma on_ext__Ok {S X E} (get : S → X) set (f : X → result Z X) s u s' :
  on_ext_ (E := E) get set f s = Ok (u, s') ↔ ∃ x, f (get s) = Ok x ∧ s' = set x s.
Proof.
  unfold on_ext_. rewrite on_ext_Ok. destruct u. split.
  - intros (x & H & ->). apply result_fmap_Ok in H as (x' & ? & [= ->]). eauto.
  - intros (x & H & ->). exists x. by rewrite H.
Qed.

(** Inversion of a run that also goes through external calls. *)
Ltac inv_ext :=
  repeat (inv_run; try match goal with
  | H : on_ext_ _ _ _ _ = Ok (_, _) |- _ => apply on_ext__Ok in H as (? & ? & ->)
  | H : on_ext _ _ _ _ = Ok (_, _) |- _ => apply on_ext_Ok in H as (? & ? & ->)
  end).
