(* ===== verification/NamedReserve.v ===== *)
(** * Interface of named reserves

    [NamedMultiReservableCurrency] of [orml_traits], outside the repository:
    balances a pallet sets aside under its own identifier.  The class is for one
    identifier.  The laws state the documented behaviour: reserving moves from
    free to reserved, unreserving moves back as much as there is and returns
    what was missing, the other operations leave reserves alone.  [vault] is a
    concrete ledger with reserves that meets the laws. *)

From S2P Require Import Prelude Currency.

Class NamedReserve (X AccountId : Type) := {
  reserved_named : AssetId → AccountId → X → Balance;
  reserve_named : AssetId → AccountId → Balance → X → result Z X;
  unreserve_named : AssetId → AccountId → Balance → X → Balance * X;
}.

Class NamedReserveLaws (X AccountId : Type)
    `{EqDecision AccountId, MultiCurrency X AccountId, NamedReserve X AccountId} : Prop := {
  reserved_named_nonneg c a x : 0 <= reserved_named c a x;
  reserve_named_moves c a amount x x' :
    0 <= amount → reserve_named c a amount x = Ok x' →
    (∀ c' a', free_balance c' a' x' = free_balance c' a' x - when (c' = c ∧ a' = a) amount) ∧
    (∀ c' a', reserved_named c' a' x' = reserved_named c' a' x + when (c' = c ∧ a' = a) amount);
  unreserve_named_moves c a amount x remaining x' :
    0 <= amount → unreserve_named c a amount x = (remaining, x') →
    remaining = amount - Z.min amount (reserved_named c a x) ∧
    (∀ c' a', free_balance c' a' x' = free_balance c' a' x + when (c' = c ∧ a' = a) (amount - remaining)) ∧
    (∀ c' a', reserved_named c' a' x' = reserved_named c' a' x - when (c' = c ∧ a' = a) (amount - remaining));
  transfer_keeps_reserves c f t amount er x x' :
    0 <= amount → transfer c f t amount er x = Ok x' →
    ∀ c' a', reserved_named c' a' x' = reserved_named c' a' x;
}.

(** ** A concrete ledger with reserves

    Each account holds a total and, as a part of it, a reserve; the free balance
    is the rest. *)

Record vault := mkVault { entries : gmap (Z * Z) (Z * Z); vault_issued : gmap Z Z }.

Definition entry (c a : Z) (v : vault) : Z * Z :=
  let '(t, r) := default (0, 0) (entries v !! (c, a)) in (clamp t, Z.min (clamp r) (clamp t)).
Definition set_entry (c a t r : Z) (v : vault) : vault :=
  mkVault (<[(c, a) := (t, r)]> (entries v)) (vault_issued v).
Definition vault_issuance (c : Z) (v : vault) : Z := clamp (default 0 (vault_issued v !! c)).
Definition set_issued (c n : Z) (v : vault) : vault := mkVault (entries v) (<[c := n]> (vault_issued v)).

Definition vault_free (c a : Z) (v : vault) : Z := (entry c a v).1 - (entry c a v).2.
Definition vault_reserved (c a : Z) (v : vault) : Z := (entry c a v).2.

(** Changes the total of an account by [d], if the result is in range. *)
Definition shift (c a d : Z) (v : vault) : result Z vault :=
  let '(t, r) := entry c a v in
  if (r <=? t + d) && (t + d <=? max_value u128) then Ok (set_entry c a (t + d) r v) else Err 1.
Definition shift_issuance (c d : Z) (v : vault) : result Z vault :=
  if (0 <=? vault_issuance c v + d) && (vault_issuance c v + d <=? max_value u128)
  then Ok (set_issued c (vault_issuance c v + d) v) else Err 2.

Definition vault_transfer (c f t amount : Z) (_ : ExistenceRequirement) (v : vault) : result Z vault :=
  v ← shift c f (- amount) v; shift c t amount v.
Definition vault_deposit (c t amount : Z) (v : vault) : result Z vault :=
  v ← shift c t amount v; shift_issuance c amount v.
Definition vault_withdraw (c f amount : Z) (_ : ExistenceRequirement) (v : vault) : result Z vault :=
  v ← shift c f (- amount) v; shift_issuance c (- amount) v.
Definition vault_reserve (c a amount : Z) (v : vault) : result Z vault :=
  let '(t, r) := entry c a v in
  if r + amount <=? t then Ok (set_entry c a t (r + amount) v) else Err 3.
Definition vault_unreserve (c a amount : Z) (v : vault) : Z * vault :=
  let '(t, r) := entry c a v in
  (amount - Z.min amount r, set_entry c a t (r - Z.min amount r) v).

#[global] Instance vault_currency : MultiCurrency vault Z := {|
  free_balance := vault_free;
  total_balance c a v := (entry c a v).1;
  total_issuance := vault_issuance;
  transfer := vault_transfer;
  deposit := vault_deposit;
  withdraw := vault_withdraw;
  ensure_can_withdraw c a amount v := ensure (amount <=? vault_free c a v) 4;
|}.
#[global] Instance vault_named_reserve : NamedReserve vault Z := {|
  reserved_named := vault_reserved;
  reserve_named := vault_reserve;
  unreserve_named := vault_unreserve;
|}.

Lemma entry_range c a v : 0 <= (entry c a v).2 <= (entry c a v).1 ∧ (entry c a v).1 <= max_value u128.
Proof.
  unfold entry. destruct (default _ _) as [t r]. simpl.
  pose proof (clamp_fits t). pose proof (clamp_fits r). unfold fits in *. lia.
Qed.

Lemma entry_set c a t r v c' a' :
  0 <= r <= t → t <= max_value u128 →
  entry c' a' (set_entry c a t r v) = (if decide (c' = c ∧ a' = a) then (t, r) else entry c' a' v).
Proof.
  intros. unfold entry, set_entry. simpl. rewrite lookup_insert.
  repeat case_decide; simplify_eq; try naive_solver. simpl.
  rewrite !clamp_id by (unfold fits; lia). f_equal. lia.
Qed.

Ltac entry_cases E :=
  case_decide; [match goal with H : _ ∧ _ |- _ => destruct H as [-> ->] end; rewrite E|]; simpl; lia.

(** [shift] changes one free balance and nothing else. *)
Lemma shift_Ok c a d v v' :
  shift c a d v = Ok v' →
  0 <= vault_free c a v + d ∧
  (∀ c' a', vault_free c' a' v' = vault_free c' a' v + when (c' = c ∧ a' = a) d) ∧
  (∀ c' a', vault_reserved c' a' v' = vault_reserved c' a' v) ∧
  (∀ c', vault_issuance c' v' = vault_issuance c' v).
Proof.
  unfold shift. pose proof (entry_range c a v) as Hr. unfold vault_free, vault_reserved.
  destruct (entry c a v) as [t r] eqn:E. simpl in *. intros Hs. case_match; inv_run. propify.
  split_and!; [lia| | |done]; intros; rewrite entry_set by lia; unfold when;
    entry_cases E.
Qed.

Lemma shift_issuance_Ok c d v v' :
  shift_issuance c d v = Ok v' →
  (∀ c' a', entry c' a' v' = entry c' a' v) ∧
  (∀ c', vault_issuance c' v' = vault_issuance c' v + when (c' = c) d).
Proof.
  unfold shift_issuance. intros Hs. case_match; inv_run. propify. split; [done|].
  intros c'. unfold vault_issuance at 1. simpl. rewrite lookup_insert. unfold when.
  repeat case_decide; simplify_eq; try done; [|fold (vault_issuance c' v); lia].
  simpl. rewrite clamp_id by (unfold fits; lia). done.
Qed.

#[global] Instance vault_currency_laws : MultiCurrencyLaws vault Z.
Proof.
  constructor; simpl.
  - intros c a v. pose proof (entry_range c a v). unfold vault_free, fits. lia.
  - intros. apply clamp_fits.
  - unfold vault_transfer. intros c f t amount er v v' H0 H. inv_run.
    repeat match goal with Hs : shift _ _ _ _ = Ok _ |- _ => apply shift_Ok in Hs as (? & ? & ? & ?) end.
    split_and!; [lia| |].
    + intros c' a. repeat match goal with Hs : ∀ c a, vault_free c a ?x = _ |- context [vault_free _ _ ?x] =>
        rewrite Hs end. unfold moved, when. repeat case_decide; lia.
    + intros. by repeat match goal with Hs : ∀ c, vault_issuance c ?x = _ |- context [vault_issuance _ ?x] =>
        rewrite Hs end.
  - unfold vault_deposit. intros c t amount v v' H0 H. inv_run.
    match goal with Hs : shift _ _ _ _ = Ok _ |- _ => apply shift_Ok in Hs as (? & Hf & _ & Hi) end.
    match goal with Hs : shift_issuance _ _ _ = Ok _ |- _ => apply shift_issuance_Ok in Hs as (He & Hi') end.
    split; intros; [unfold vault_free at 1; rewrite He; apply Hf|by rewrite Hi', Hi].
  - unfold vault_withdraw. intros c f amount er v v' H0 H. inv_run.
    match goal with Hs : shift _ _ _ _ = Ok _ |- _ => apply shift_Ok in Hs as (? & Hf & _ & Hi) end.
    match goal with Hs : shift_issuance _ _ _ = Ok _ |- _ => apply shift_issuance_Ok in Hs as (He & Hi') end.
    split_and!; [lia| |]; intros.
    + unfold vault_free at 1. rewrite He. etransitivity; [apply Hf|]. unfold when. case_decide; lia.
    + rewrite Hi', Hi. unfold when. case_decide; lia.
Qed.

#[global] Instance vault_named_reserve_laws : NamedReserveLaws vault Z.
Proof.
  constructor; simpl.
  - intros c a v. pose proof (entry_range c a v). unfold vault_reserved. lia.
  - unfold vault_reserve. intros c a amount v v' H0 H. pose proof (entry_range c a v) as Hr.
    destruct (entry c a v) as [t r] eqn:E. simpl in *. case_match; inv_run. propify.
    unfold vault_free, vault_reserved.
    split; intros; rewrite entry_set by lia; unfold when; entry_cases E.
  - unfold vault_unreserve. intros c a amount v rem v' H0 H. pose proof (entry_range c a v) as Hr.
    unfold vault_free, vault_reserved. destruct (entry c a v) as [t r] eqn:E. simpl in *. inv_run.
    split_and!; [done| |]; intros; rewrite entry_set by lia; unfold when; entry_cases E.
  - unfold vault_transfer. intros c f t amount er v v' H0 H c' a. inv_run.
    repeat match goal with Hs : shift _ _ _ _ = Ok _ |- _ => apply shift_Ok in Hs as (_ & _ & ? & _) end.
    congruence.
Qed.
