(* ===== verification/Ratio.v ===== *)
(** * Rational numbers with 128-bit parts

    Models [math/src/support/rational.rs] (rounding a 256-bit fraction to
    128-bit parts) and the [Ratio] type of [math/src/ratio.rs], the price type
    of the oracle.  [None] is a panic of the [U256] operators. *)

From S2P Require Import Prelude Arithmetic.

Inductive Rounding := Nearest | Down | Up.

Definition to_bias (r : Rounding) (magnitude : Z) : Z * Z :=
  match r with
  | Nearest => (0, 0)
  | Down => (0, magnitude)
  | Up => (magnitude, 0)
  end.

(** [U256::bits]: the number of significant bits. *)
Definition bits (x : Z) : Z := if x =? 0 then 0 else Z.log2 x + 1.

Definition low_u128 (x : Z) : Z := x mod 2 ^ u128.

(** The function is the same text for [U256] and [U512] numbers. *)
Definition round_to_rational (nd : Z * Z) (rounding : Rounding) : Z * Z :=
  let '(n, d) := nd in
  let shift := saturating_sub (Z.max (bits n) (bits d)) 128 in
  if 0 <? shift then
    let min_n := if n =? 0 then 0 else 1 in
    let '(bias_n, bias_d) := to_bias rounding 1 in
    let shifted_n := low_u128 (Z.shiftr n shift) in
    let shifted_d := low_u128 (Z.shiftr d shift) in
    (Z.max (saturating_add u128 shifted_n bias_n) min_n,
     Z.max (saturating_add u128 shifted_d bias_d) 1)
  else (low_u128 n, low_u128 d).

Definition round_u512_to_rational (nd : Z * Z) (rounding : Rounding) : Z * Z :=
  let '(n, d) := nd in
  let shift := saturating_sub (Z.max (bits n) (bits d)) 128 in
  if 0 <? shift then
    let min_n := if n =? 0 then 0 else 1 in
    let '(bias_n, bias_d) := to_bias rounding 1 in
    let shifted_n := low_u128 (Z.shiftr n shift) in
    let shifted_d := low_u128 (Z.shiftr d shift) in
    (Z.max (saturating_add u128 shifted_n bias_n) min_n,
     Z.max (saturating_add u128 shifted_d bias_d) 1)
  else (low_u128 n, low_u128 d).

Record Ratio := mkRatio { n : Z; d : Z }.

Module Ratio.
Definition new (n d : Z) : Ratio := mkRatio n (if 0 <? d then d else 1).
Definition new_unchecked (n d : Z) : Ratio := mkRatio n d.
Definition one : Ratio := new_unchecked 1 1.
Definition is_one (r : Ratio) : bool := (0 <? d r) && (n r =? d r).
Definition zero : Ratio := new_unchecked 0 1.
Definition is_zero (r : Ratio) : bool := n r =? 0.
Definition inverted (r : Ratio) : Ratio := if is_zero r then r else mkRatio (d r) (n r).
Definition from_pair (nd : Z * Z) : Ratio := new nd.1 nd.2.
Definition from_u128 (n : Z) : Ratio := new n 1.
Definition from_permill (parts : Z) : Ratio := from_pair (parts, PERMILL).

Definition cmp (self other : Ratio) : comparison :=
  if d self =? d other then n self ?= n other
  else if d self =? 0 then Gt
  else if d other =? 0 then Lt
  else (n self * d other) ?= (n other * d self).

(** [full_mul] of two [U128] is their [U256] product; the [U256] operators [+]
    and [-] panic outside their range. *)
Definition add (self rhs : Ratio) : option Ratio :=
  if n self =? 0 then Some rhs else
  if n rhs =? 0 then Some self else
  let common_d := d self * d rhs in
  let l_n_common := n self * d rhs in
  let r_n_common := n rhs * d self in
  n ← checked_add u256 l_n_common r_n_common;
  Some (from_pair (round_to_rational (n, common_d) Nearest)).

Definition saturating_add (self rhs : Ratio) : Ratio :=
  if n self =? 0 then rhs else
  if n rhs =? 0 then self else
  let common_d := d self * d rhs in
  let l_n_common := n self * d rhs in
  let r_n_common := n rhs * d self in
  let n := Prelude.saturating_add u256 l_n_common r_n_common in
  from_pair (round_to_rational (n, common_d) Down).

Definition sub (self rhs : Ratio) : option Ratio :=
  if (n self =? 0) || (n rhs =? 0) then Some (from_pair (n self, d self)) else
  n ← checked_sub (n self * d rhs) (n rhs * d self);
  Some (from_pair (round_to_rational (n, d self * d rhs) Nearest)).

Definition saturating_sub (self rhs : Ratio) : Ratio :=
  if (n self =? 0) || (n rhs =? 0) then from_pair (n self, d self) else
  let n := Prelude.saturating_sub (n self * d rhs) (n rhs * d self) in
  from_pair (round_to_rational (n, d self * d rhs) Nearest).

Definition mul (self rhs : Ratio) : Ratio :=
  if is_zero self || is_zero rhs then zero else
  from_pair (round_to_rational (n self * n rhs, d self * d rhs) Nearest).

Definition saturating_mul (self rhs : Ratio) : Ratio := mul self rhs.

Definition saturating_div (self rhs : Ratio) : Ratio :=
  if is_zero rhs then zero else
  from_pair (round_to_rational (n self * d rhs, d self * n rhs) Nearest).
End Ratio.

(** ** Lemmas *)

Lemma bits_nonneg x : 0 <= bits x.
Proof. unfold bits. case_match; [done|]. pose proof (Z.log2_nonneg x). lia. Qed.

Lemma bits_bound x k : 0 <= x → 0 <= k → bits x <= k → x < 2 ^ k.
Proof.
  unfold bits. intros Hx Hk. case_match; propify; intros; [subst; by apply Z.pow_pos_nonneg|].
  pose proof (Z.log2_spec x ltac:(lia)) as [_ H1].
  eapply Z.lt_le_trans; [exact H1|]. apply Z.pow_le_mono_r; lia.
Qed.

Lemma low_u128_id x : fits u128 x → low_u128 x = x.
Proof. unfold fits, low_u128, max_value. intros. apply Z.mod_small. lia. Qed.

(** Shifting by what exceeds 128 bits leaves a [u128]. *)
Lemma shifted_fits x s : 0 <= x → 0 <= s → bits x <= 128 + s → fits u128 (Z.shiftr x s).
Proof.
  intros Hx Hs Hb. apply bits_bound in Hb; [|lia..].
  rewrite Z.shiftr_div_pow2 by done. unfold fits, max_value, u128.
  split; [apply Z.div_pos; [done|by apply Z.pow_pos_nonneg]|].
  apply Z.lt_le_pred, Z.div_lt_upper_bound; [by apply Z.pow_pos_nonneg|].
  rewrite <- Z.pow_add_r by lia. eapply Z.lt_le_trans; [exact Hb|].
  apply Z.pow_le_mono_r; lia.
Qed.

Definition shift_of (nd : Z * Z) : Z := saturating_sub (Z.max (bits nd.1) (bits nd.2)) 128.

Lemma shift_of_nonneg nd : 0 <= shift_of nd.
Proof. unfold shift_of, saturating_sub. lia. Qed.

Lemma shift_of_n num den : bits num <= 128 + shift_of (num, den).
Proof. unfold shift_of, saturating_sub. simpl. lia. Qed.
Lemma shift_of_d num den : bits den <= 128 + shift_of (num, den).
Proof. unfold shift_of, saturating_sub. simpl. lia. Qed.

(** The result in terms of divisions. *)
Lemma round_to_rational_value num den r :
  0 <= num → 0 <= den →
  round_to_rational (num, den) r =
  (let s := shift_of (num, den) in
   if 0 <? s then
     (Z.max (saturating_add u128 (num / 2 ^ s) (to_bias r 1).1) (if num =? 0 then 0 else 1),
      Z.max (saturating_add u128 (den / 2 ^ s) (to_bias r 1).2) 1)
   else (num, den)).
Proof.
  intros Hn Hd. unfold round_to_rational.
  change (saturating_sub (Z.max (bits num) (bits den)) 128) with (shift_of (num, den)).
  pose proof (shift_of_nonneg (num, den)). cbv zeta.
  pose proof (shifted_fits num _ Hn H (shift_of_n num den)) as Hfn.
  pose proof (shifted_fits den _ Hd H (shift_of_d num den)) as Hfd.
  destruct (Z.ltb_spec 0 (shift_of (num, den))) as [Hs|Hs].
  - rewrite !low_u128_id by done. rewrite !Z.shiftr_div_pow2 by done.
    by destruct r.
  - assert (shift_of (num, den) = 0) as E by lia. rewrite E in *.
    rewrite Z.shiftr_0_r in *. by rewrite !low_u128_id.
Qed.

(** ** Properties *)

(** Rounding a 256-bit fraction to 128-bit parts always yields two [u128]
    values; a positive fraction keeps a positive numerator and denominator, zero
    stays zero unless the rounding is [Up], and a fraction whose parts already fit is returned unchanged. *)
Theorem round_to_rational_well_formed num den r :
  fits u256 num → fits u256 den → 0 < den →
  let '(num', den') := round_to_rational (num, den) r in
  fits u128 num' ∧ fits u128 den' ∧ 0 < den' ∧ (0 < num → 0 < num') ∧
  (r ≠ Up → num = 0 → num' = 0) ∧
  (fits u128 num → fits u128 den → num' = num ∧ den' = den).
Proof.
  intros Hn%fits_nonneg Hd%fits_nonneg Hpos.
  rewrite round_to_rational_value by lia. cbv zeta.
  pose proof (shift_of_nonneg (num, den)) as Hs0.
  pose proof (shifted_fits num _ Hn Hs0 (shift_of_n num den)) as Hfn.
  pose proof (shifted_fits den _ Hd Hs0 (shift_of_d num den)) as Hfd.
  rewrite !Z.shiftr_div_pow2 in * by done.
  assert (fits u128 num → fits u128 den → shift_of (num, den) <= 0) as Hsmall.
  { assert (∀ x, fits u128 x → bits x <= 128) as Hbits.
    { intros x [? Hx]. unfold bits. case_match; [lia|]. propify.
      unfold max_value, u128 in *. pose proof (Z.log2_lt_pow2 x 128). lia. }
    intros ?%Hbits ?%Hbits. unfold shift_of, saturating_sub. simpl. lia. }
  destruct (Z.ltb_spec 0 (shift_of (num, den))) as [Hs|Hs].
  - assert (fits u128 num → fits u128 den → False) as Hbig by (intros Hn' Hd'; specialize (Hsmall Hn' Hd'); lia).
    clear Hsmall. unfold saturating_add, fits in Hfn, Hfd |- *.
    assert (1 <= max_value u128) by done.
    assert (num = 0 → num / 2 ^ shift_of (num, den) = 0) by (intros E; rewrite E at 1; apply Z.div_0_l; lia).
    destruct r; simpl; (case_match; propify; split_and!; try lia;
      intros; try done; exfalso; by apply Hbig).
  - assert (shift_of (num, den) = 0) as E by lia. rewrite E in *.
    rewrite Z.pow_0_r, !Z.div_1_r in *. split_and!; try done; lia.
Qed.

Lemma round_to_rational_well_formed_witness :
  round_to_rational (2 ^ 200, 3) Nearest = (2 ^ 127, 1) ∧ fits u128 (2 ^ 127).
Proof.
  split; [compute_done|].
  exact (proj1 (round_to_rational_well_formed (2 ^ 200) 3 Nearest
    ltac:(compute_done) ltac:(compute_done) ltac:(lia))).
Defined.

(** The denominator carries the top bit when the numerator is shifted out. *)
Lemma shifted_den_large num den :
  0 < num → 0 < den → 0 < shift_of (num, den) → num < 2 ^ shift_of (num, den) →
  2 <= den / 2 ^ shift_of (num, den).
Proof.
  intros Hn Hd Hs Hlt. set (s := shift_of (num, den)) in *.
  assert (bits num <= s) as Hbn.
  { unfold bits. rewrite (proj2 (Z.eqb_neq _ _)) by lia.
    pose proof (Z.log2_lt_pow2 num s). lia. }
  assert (bits den = 128 + s) as Hbd by (unfold s, shift_of, saturating_sub in *; simpl in *; lia).
  unfold bits in Hbd. rewrite (proj2 (Z.eqb_neq _ _)) in Hbd by lia.
  pose proof (Z.log2_spec den Hd) as [Hle _].
  apply Z.div_le_lower_bound; [by apply Z.pow_pos_nonneg; lia|].
  transitivity (2 ^ (1 + s)); [rewrite Z.pow_add_r by lia; lia|].
  etransitivity; [apply (Z.pow_le_mono_r 2 (1 + s) (Z.log2 den)); lia|done].
Qed.


