(* ===== verification/Broadcast.v ===== *)
(** * Trade broadcast

    Models [pallets/broadcast]: the stack of execution contexts a trade runs
    in, the swapper override of the router, and the [Swapped3] event every
    trading pallet emits through [deposit_trade_event]. *)

From S2P Require Import Prelude Currency.

Inductive Filler :=
| Omnipool
| Stableswap (pool_id : AssetId)
| XYK (share_token : AssetId)
| LBP
| OTC (order_id : Z)
| AAVE
| HSM.

Inductive Destination (AccountId : Type) :=
| Account (who : AccountId)
| Burned.
#[global] Arguments Account {AccountId} who.
#[global] Arguments Burned {AccountId}.

Record Fee (AccountId : Type) := mkFee {
  fee_asset : AssetId;
  fee_amount : Balance;
  fee_destination : Destination AccountId;
}.
#[global] Arguments mkFee {AccountId} _ _ _.
#[global] Arguments fee_asset {AccountId} _.
#[global] Arguments fee_amount {AccountId} _.
#[global] Arguments fee_destination {AccountId} _.

Record Asset := mkAsset { asset : AssetId; amount : Balance }.

Inductive ExecutionType :=
| ExecRouter (id : Z)
| ExecDCA (schedule id : Z)
| ExecBatch (id : Z)
| ExecOmnipool (id : Z)
| ExecXcmExchange (id : Z)
| ExecXcm (message : list Byte.byte) (id : Z).

Inductive TradeOperation := ExactIn | ExactOut | Limit | LiquidityAdd | LiquidityRemove.

Record Swapped3 (AccountId : Type) := mkSwapped3 {
  swapper : AccountId;
  filler : AccountId;
  filler_type : Filler;
  operation : TradeOperation;
  inputs : list Asset;
  outputs : list Asset;
  fees : list (Fee AccountId);
  operation_stack : list ExecutionType;
}.
#[global] Arguments mkSwapped3 {AccountId} _ _ _ _ _ _ _ _.
#[global] Arguments swapper {AccountId} _.
#[global] Arguments operation_stack {AccountId} _.
#[global] Arguments fees {AccountId} _.

Definition MAX_STACK_SIZE : nat := 16.

(** The storage of the pallet and the events it deposited, newest last. *)
Record broadcast (AccountId : Type) := mkBroadcast {
  IncrementalId : Z;
  ExecutionContext : list ExecutionType;
  Swapper : option AccountId;
  swapped : list (Swapped3 AccountId);
}.
#[global] Arguments mkBroadcast {AccountId} _ _ _ _.
#[global] Arguments IncrementalId {AccountId} _.
#[global] Arguments ExecutionContext {AccountId} _.
#[global] Arguments Swapper {AccountId} _.
#[global] Arguments swapped {AccountId} _.

Module BroadcastError.
Inductive t := ExecutionCallStackOverflow | ExecutionCallStackUnderflow.
End BroadcastError.

Section broadcast.
Context {AccountId : Type}.
Implicit Types (b : broadcast AccountId).

Definition on_finalize b : broadcast AccountId :=
  mkBroadcast (IncrementalId b) [] None (swapped b).

Definition get_context b : list ExecutionType := ExecutionContext b.
Definition get_swapper b : option AccountId := Swapper b.
Definition set_swapper (who : AccountId) b : broadcast AccountId :=
  mkBroadcast (IncrementalId b) (ExecutionContext b) (Some who) (swapped b).
Definition remove_swapper b : broadcast AccountId :=
  mkBroadcast (IncrementalId b) (ExecutionContext b) None (swapped b).

Definition deposit_trade_event (swapper filler : AccountId) (filler_type : Filler)
    (operation : TradeOperation) (inputs outputs : list Asset) (fees : list (Fee AccountId))
    b : broadcast AccountId :=
  let trade_swapper := default swapper (Swapper b) in
  let operation_stack := get_context b in
  mkBroadcast (IncrementalId b) (ExecutionContext b) (Swapper b)
    (swapped b ++
     [mkSwapped3 trade_swapper filler filler_type operation inputs outputs fees operation_stack]).

(** The identifier is consumed even when the stack is full. *)
Definition add_to_context (execution_type : Z → ExecutionType) b :
    result BroadcastError.t Z * broadcast AccountId :=
  let next_id := IncrementalId b in
  let b := mkBroadcast (wrapping_add u32 next_id 1) (ExecutionContext b) (Swapper b) (swapped b) in
  if (length (ExecutionContext b) <? MAX_STACK_SIZE)%nat then
    (Ok next_id,
     mkBroadcast (IncrementalId b) (ExecutionContext b ++ [execution_type next_id])
       (Swapper b) (swapped b))
  else (Err BroadcastError.ExecutionCallStackOverflow, b).

Definition remove_from_context b : result BroadcastError.t (broadcast AccountId) :=
  match ExecutionContext b with
  | [] => Err BroadcastError.ExecutionCallStackUnderflow
  | _ => Ok (mkBroadcast (IncrementalId b) (removelast (ExecutionContext b)) (Swapper b) (swapped b))
  end.

(** ** The bracketing discipline of the callers

    Every caller pushes a context, runs a body that restores the stack it
    found, and pops. *)
Definition wf b : Prop :=
  (length (ExecutionContext b) ≤ MAX_STACK_SIZE)%nat ∧ fits u32 (IncrementalId b).

Lemma add_to_context_wf f b : wf b → wf (add_to_context f b).2.
Proof.
  intros [Hlen Hid]. unfold add_to_context.
  assert (fits u32 (wrapping_add u32 (IncrementalId b) 1)).
  { unfold fits, wrapping_add, max_value. pose proof (Z.mod_pos_bound (IncrementalId b + 1) (2 ^ u32)).
    unfold u32 in *. lia. }
  case_match eqn:E; split; simpl in *; try done.
  rewrite length_app. simpl. apply Nat.ltb_lt in E. lia.
Qed.

Lemma remove_from_context_wf b b' : wf b → remove_from_context b = Ok b' → wf b'.
Proof.
  unfold remove_from_context, wf. intros [Hlen Hid] H. case_match eqn:E; [done|].
  injection H as <-. split; [|done].
  pose proof (length_removelast (e :: l)). simpl in *. lia.
Qed.

(** The stack of execution contexts is a bounded stack.  Entering a
    context succeeds exactly below [MAX_STACK_SIZE] and leaves a well-formed
    state; the trade events deposited inside carry the entered context on
    top; leaving it restores the context that was there before, so nested
    executions cannot confuse each other's attribution. *)
Theorem context_bracketing b f swapper filler ft op ins outs fs :
  wf b →
  match add_to_context f b with
  | (Ok id, b1) =>
      (length (ExecutionContext b) < MAX_STACK_SIZE)%nat ∧ wf b1 ∧ id = IncrementalId b ∧
      let b2 := deposit_trade_event swapper filler ft op ins outs fs b1 in
      (∃ ev, swapped b2 = swapped b ++ [ev] ∧ last (operation_stack ev) = Some (f id)) ∧
      ∃ b3, remove_from_context b2 = Ok b3 ∧ wf b3 ∧ ExecutionContext b3 = ExecutionContext b ∧
            Swapper b3 = Swapper b
  | (Err e, b1) =>
      e = BroadcastError.ExecutionCallStackOverflow ∧
      length (ExecutionContext b) = MAX_STACK_SIZE ∧
      ExecutionContext b1 = ExecutionContext b ∧ wf b1
  end.
Proof.
  intros Hwf. pose proof (add_to_context_wf f b Hwf) as Hwf1. destruct Hwf as [Hlen Hid].
  unfold add_to_context in *. simpl in *.
  destruct (Nat.ltb_spec (length (ExecutionContext b)) MAX_STACK_SIZE) as [Hlt|Hge].
  - split_and!; [done..| |].
    + eexists. split; [done|]. simpl. unfold get_context. simpl. by rewrite last_snoc.
    + unfold deposit_trade_event, remove_from_context. simpl.
      destruct (ExecutionContext b ++ [f (IncrementalId b)]) eqn:E; [by destruct (ExecutionContext b)|].
      rewrite <- E, removelast_last. eexists. split; [done|].
      split_and!; [|done..]. by split; [|apply Hwf1].
  - split_and!; [done|lia|done|done].
Qed.
End broadcast.

Lemma context_bracketing_witness :
  ∃ b3, remove_from_context
    (deposit_trade_event 1 2 HSM ExactIn [] [] [] (add_to_context ExecRouter
      (mkBroadcast 7 [ExecBatch 6] (None : option Z) [])).2) = Ok b3 ∧
    ExecutionContext b3 = [ExecBatch 6].
Proof.
  pose proof (context_bracketing (mkBroadcast 7 [ExecBatch 6] (None : option Z) []) ExecRouter
    1 2 HSM ExactIn [] [] [] ltac:(split; compute_done)) as H.
  destruct H as (_ & _ & _ & _ & b3 & Hb3 & _ & Hc & _).
  exists b3. by split.
Defined.
