(* ===== verification/Traits.v ===== *)
(** * Traits shared by the trading pallets

    Models the data of [traits/src/router.rs]: the pool types a route goes
    through, the trades of a route, the errors of a trade executor, the executor
    interface and its implementation for tuples, and the inverse of a route. *)

From S2P Require Import Prelude Currency.

Definition MAX_NUMBER_OF_TRADES : nat := 9.

Module PoolType.
Inductive t := XYK | LBP | Stableswap (pool_id : AssetId) | Omnipool | Aave | HSM.

#[global] Instance t_eq_dec : EqDecision t.
Proof. solve_decision. Defined.
End PoolType.

Module ExecutorError.
Inductive t (E : Type) := NotSupported | Error (e : E).
#[global] Arguments NotSupported {E}.
#[global] Arguments Error {E} e.
End ExecutorError.

(** A dispatchable called by an executor: its error is wrapped. *)
Definition executor {S E A} (m : M S E A) : M S (ExecutorError.t E) A :=
  λ s, map_err ExecutorError.Error (m s).

Lemma executor_Ok {S E A} (m : M S E A) s a s' : executor m s = Ok (a, s') ↔ m s = Ok (a, s').
Proof. unfold executor. apply map_err_Ok. Qed.

(** ** Trade executors

    The trait [TradeExecution]: how the router calls the pools.  The calculations
    read the storage [W]; an execution changes it. *)
Module TradeExecution.
Record t (W AccountId Er : Type) := mk {
  calculate_out_given_in : PoolType.t → AssetId → AssetId → Balance → W → result (ExecutorError.t Er) Balance;
  calculate_in_given_out : PoolType.t → AssetId → AssetId → Balance → W → result (ExecutorError.t Er) Balance;
  execute_sell : RawOrigin AccountId → PoolType.t → AssetId → AssetId → Balance → Balance →
    M W (ExecutorError.t Er) unit;
  execute_buy : RawOrigin AccountId → PoolType.t → AssetId → AssetId → Balance → Balance →
    M W (ExecutorError.t Er) unit;
  get_liquidity_depth : PoolType.t → AssetId → AssetId → W → result (ExecutorError.t Er) Balance;
  calculate_spot_price_with_fee : PoolType.t → AssetId → AssetId → W → result (ExecutorError.t Er) Z;
}.
#[global] Arguments mk {W AccountId Er} _ _ _ _ _ _.
#[global] Arguments calculate_out_given_in {W AccountId Er} _ _ _ _ _ _.
#[global] Arguments calculate_in_given_out {W AccountId Er} _ _ _ _ _ _.
#[global] Arguments execute_sell {W AccountId Er} _ _ _ _ _ _ _ _.
#[global] Arguments execute_buy {W AccountId Er} _ _ _ _ _ _ _ _.
#[global] Arguments get_liquidity_depth {W AccountId Er} _ _ _ _ _.
#[global] Arguments calculate_spot_price_with_fee {W AccountId Er} _ _ _ _ _.

(** The next executor is asked when one does not support the pool. *)
Definition or_else {Er A} (r next : result (ExecutorError.t Er) A) : result (ExecutorError.t Er) A :=
  match r with Err ExecutorError.NotSupported => next | _ => r end.

(** The implementation for a tuple of executors, one after the other.  An
    executor that does not support the pool says so before it changes anything. *)
Definition then_ask {W AccountId Er} (e f : t W AccountId Er) : t W AccountId Er := mk
  (λ p a b x w, or_else (calculate_out_given_in e p a b x w) (calculate_out_given_in f p a b x w))
  (λ p a b x w, or_else (calculate_in_given_out e p a b x w) (calculate_in_given_out f p a b x w))
  (λ o p a b x l w, or_else (execute_sell e o p a b x l w) (execute_sell f o p a b x l w))
  (λ o p a b x l w, or_else (execute_buy e o p a b x l w) (execute_buy f o p a b x l w))
  (λ p a b w, or_else (get_liquidity_depth e p a b w) (get_liquidity_depth f p a b w))
  (λ p a b w, or_else (calculate_spot_price_with_fee e p a b w) (calculate_spot_price_with_fee f p a b w)).

Fixpoint tuple {W AccountId Er} (e : t W AccountId Er) (es : list (t W AccountId Er)) : t W AccountId Er :=
  match es with [] => e | f :: es => then_ask e (tuple f es) end.
End TradeExecution.

(** ** Routes *)

Record AmountInAndOut := mkAmounts { amount_in : Balance; amount_out : Balance }.

Module Trade.
Record t := mk { pool : PoolType.t; asset_in : AssetId; asset_out : AssetId }.

#[global] Instance t_eq_dec : EqDecision t.
Proof. solve_decision. Defined.
End Trade.

Notation Route := (list Trade.t) (only parsing).

Definition inverse_route (trades : Route) : Route :=
  take MAX_NUMBER_OF_TRADES
    (reverse ((λ tr, Trade.mk (Trade.pool tr) (Trade.asset_out tr) (Trade.asset_in tr)) <$> trades)).

(** [AssetPair] of the router and its canonical order. *)
Module RouterPair.
Record t := new { asset_in : AssetId; asset_out : AssetId }.

#[global] Instance t_eq_dec : EqDecision t.
Proof. solve_decision. Defined.
#[global] Instance t_countable : Countable t :=
  inj_countable' (λ p, (asset_in p, asset_out p)) (λ q, new q.1 q.2)
    ltac:(by intros []).

Definition is_ordered (p : t) : bool := asset_in p <=? asset_out p.
Definition ordered_pair (p : t) : t :=
  if is_ordered p then new (asset_in p) (asset_out p) else new (asset_out p) (asset_in p).
Definition to_ordered_vec (p : t) : list AssetId :=
  let pair := ordered_pair p in [asset_in pair; asset_out pair].
End RouterPair.

Lemma inverse_route_length r : (length r ≤ MAX_NUMBER_OF_TRADES)%nat → length (inverse_route r) = length r.
Proof. intros. unfold inverse_route. rewrite length_take, length_reverse, length_fmap. lia. Qed.

(** Inverting a route twice gives the route back. *)
Lemma inverse_route_involutive r :
  (length r ≤ MAX_NUMBER_OF_TRADES)%nat → inverse_route (inverse_route r) = r.
Proof.
  intros Hr. unfold inverse_route.
  rewrite (take_ge (reverse (_ <$> r))) by (rewrite length_reverse, length_fmap; lia).
  rewrite fmap_reverse, reverse_involutive, <- list_fmap_compose.
  rewrite take_ge by (rewrite length_fmap; lia).
  rewrite (list_fmap_ext _ id), list_fmap_id; [done|]. by intros ? [].
Qed.
