(* ===== verification/XykMath.v ===== *)
(** * Constant-product pool arithmetic

    Models [math/src/xyk/math.rs] and [math/src/fee.rs]: the pricing functions
    of the XYK pools, on [u128] balances with [u256] intermediate products.
    The theorems give each function's value on every branch, that no input of
    the type overflows where the code cannot, and the direction of rounding:
    the product of the reserves never decreases, by the smallest margin an
    integer result allows. *)

From S2P Require Import Prelude Arithmetic Product.

Definition calculate_spot_price (in_reserve out_reserve amount : Z) : result MathError.t Z :=
  ensure (negb (in_reserve =? 0)) MathError.ZeroReserve;;
  if (amount =? 0) || (out_reserve =? 0) then to_balance 0 else
  product ← ok_or (checked_mul u256 out_reserve amount) MathError.Overflow;
  spot_price_hp ← ok_or (checked_div product in_reserve) MathError.Overflow;
  to_balance spot_price_hp.

(** The outer [None] is a panic of [FixedU128::from_rational]. *)
Definition calculate_spot_price_with_fee `{SpArithmetic}
    (in_reserve out_reserve : Z) (fee_rate : option (Z * Z)) : option (result MathError.t Z) :=
  if in_reserve =? 0 then Some (Err MathError.ZeroReserve) else
  spot_price_without_fee ← fixed_from_rational out_reserve in_reserve;
  match fee_rate with
  | Some (n, d) =>
      one ← fixed_from_rational 1 1;
      Some (fee ← ok_or (fixed_checked_from_rational n d) MathError.Overflow;
            fee_multiplier ← ok_or (checked_sub one fee) MathError.Overflow;
            ok_or (fixed_checked_mul spot_price_without_fee fee_multiplier) MathError.Overflow)
  | None => Some (Ok spot_price_without_fee)
  end.

Definition calculate_out_given_in (in_reserve out_reserve amount_in : Z) : result MathError.t Z :=
  if amount_in =? 0 then Ok 0 else
  denominator ← ok_or (checked_add u256 in_reserve amount_in) MathError.Overflow;
  ensure (negb (denominator =? 0)) MathError.ZeroReserve;;
  numerator ← ok_or (checked_mul u256 out_reserve amount_in) MathError.Overflow;
  sale_price_hp ← ok_or (checked_div numerator denominator) MathError.Overflow;
  to_balance sale_price_hp.

Definition FIXED_ROUND_UP : Z := 1.

Definition calculate_in_given_out (out_reserve in_reserve amount_out : Z) : result MathError.t Z :=
  if amount_out =? 0 then Ok 0 else
  ensure (amount_out <=? out_reserve) MathError.InsufficientOutReserve;;
  numerator ← ok_or (checked_mul u256 in_reserve amount_out) MathError.Overflow;
  denominator ← ok_or (checked_sub out_reserve amount_out) MathError.Overflow;
  ensure (negb (denominator =? 0)) MathError.ZeroReserve;;
  buy_price_hp ← ok_or (checked_div numerator denominator) MathError.Overflow;
  let result := ok (to_balance buy_price_hp) in
  result ← ok_or result MathError.Overflow;
  ok_or (checked_add u128 result FIXED_ROUND_UP) MathError.Overflow.

Definition calculate_liquidity_in (asset_a_reserve asset_b_reserve amount : Z) : result MathError.t Z :=
  ensure (negb (asset_a_reserve =? 0)) MathError.ZeroReserve;;
  if (amount =? 0) || (asset_b_reserve =? 0) then Ok 0 else
  b_required_hp ← ok_or (v ← checked_mul u256 amount asset_b_reserve;
                         v ← checked_div v asset_a_reserve;
                         checked_add u256 v 1) MathError.Overflow;
  to_balance b_required_hp.

Definition calculate_liquidity_out
    (asset_a_reserve asset_b_reserve amount total_liquidity : Z) : result MathError.t (Z * Z) :=
  ensure (negb (total_liquidity =? 0)) MathError.ZeroReserve;;
  product_a ← ok_or (checked_mul u256 amount asset_a_reserve) MathError.Overflow;
  remove_amount_a_hp ← ok_or (checked_div product_a total_liquidity) MathError.Overflow;
  remove_amount_a ← to_balance remove_amount_a_hp;
  product_b ← ok_or (checked_mul u256 asset_b_reserve amount) MathError.Overflow;
  remove_amount_b_hp ← ok_or (checked_div product_b total_liquidity) MathError.Overflow;
  remove_amount_b ← to_balance remove_amount_b_hp;
  mret (remove_amount_a, remove_amount_b).

Definition calculate_shares (asset_reserve asset_amount share_issuance : Z) : option Z :=
  if asset_reserve =? 0 then None else
  v ← checked_mul u256 share_issuance asset_amount;
  result ← checked_div v asset_reserve;
  ok (to_balance result).

Definition calculate_pool_trade_fee (amount : Z) (fee : Z * Z) : option Z :=
  let '(numerator, denominator) := fee in
  if (denominator =? 0) || (numerator =? 0) then Some 0 else
  if denominator =? numerator then Some amount else
  v ← checked_div amount denominator;
  checked_mul u128 v numerator.

(** ** Lemmas *)

Section out_given_in.
Context (in_reserve out_reserve amount : Z).
Hypothesis Hin : fits u128 in_reserve.
Hypothesis Hout : fits u128 out_reserve.
Hypothesis Hamount : fits u128 amount.

(** The function is total on balances and computes the floor of
    [out * amount / (in + amount)]. *)
Lemma out_given_in_value :
  calculate_out_given_in in_reserve out_reserve amount
  = Ok (out_reserve * amount / (in_reserve + amount)).
Proof.
  unfold calculate_out_given_in, to_balance.
  case_match eqn:E; propify; [subst; by rewrite Z.mul_0_r|].
  pose proof (fits_nonneg _ _ Hin). pose proof (fits_nonneg _ _ Hamount).
  rewrite checked_add_ok by (by apply u256_add_bound). simpl.
  rewrite (proj2 (Z.eqb_neq _ _)) by lia. simpl.
  rewrite checked_mul_ok by (by apply u256_mul_bound). simpl.
  rewrite checked_div_ok by lia. simpl.
  rewrite try_from_ok; [done|].
  etransitivity; [apply muldiv_le|apply Hout]; [apply Hout|lia..].
Qed.

Lemma out_given_in_le : out_reserve * amount / (in_reserve + amount) <= out_reserve.
Proof.
  pose proof (fits_nonneg _ _ Hin). pose proof (fits_nonneg _ _ Hamount).
  pose proof (fits_nonneg _ _ Hout).
  destruct (decide (in_reserve + amount = 0)) as [->|]; [by rewrite Z.div_0_r|].
  apply muldiv_le; lia.
Qed.
End out_given_in.

(** Every failure of [calculate_in_given_out], and its value otherwise. *)
Lemma in_given_out_value out_reserve in_reserve amount :
  fits u128 out_reserve → fits u128 in_reserve → fits u128 amount →
  calculate_in_given_out out_reserve in_reserve amount
  = (if amount =? 0 then Ok 0
     else if out_reserve <? amount then Err MathError.InsufficientOutReserve
     else if out_reserve =? amount then Err MathError.ZeroReserve
     else let price := in_reserve * amount / (out_reserve - amount) + 1 in
          if price <=? max_value u128 then Ok price else Err MathError.Overflow).
Proof.
  intros Hout Hin Ha. unfold calculate_in_given_out, to_balance, FIXED_ROUND_UP.
  case_match eqn:E; propify; [done|].
  destruct (Z.ltb_spec out_reserve amount).
  { rewrite (proj2 (Z.leb_gt _ _)) by lia. done. }
  rewrite (proj2 (Z.leb_le _ _)) by lia. simpl.
  rewrite checked_mul_ok by (by apply u256_mul_bound). simpl.
  rewrite checked_sub_ok by lia. simpl.
  destruct (Z.eqb_spec out_reserve amount).
  { rewrite (proj2 (Z.eqb_eq _ _)) by lia. done. }
  rewrite (proj2 (Z.eqb_neq _ _)) by lia. simpl.
  rewrite checked_div_ok by lia. simpl.
  unfold try_from. destruct (Z.leb_spec (in_reserve * amount / (out_reserve - amount)) (max_value u128)).
  - simpl. unfold checked_add. by case_match.
  - simpl. rewrite (proj2 (Z.leb_gt _ _)) by lia. done.
Qed.

(** A price paid strictly increases the product of the reserves. *)
Lemma in_given_out_Ok out_reserve in_reserve amount paid :
  fits u128 out_reserve → fits u128 in_reserve → fits u128 amount →
  calculate_in_given_out out_reserve in_reserve amount = Ok paid →
  (amount = 0 ∧ paid = 0) ∨
  (0 < amount < out_reserve ∧ fits u128 paid ∧
   in_reserve * out_reserve < (in_reserve + paid) * (out_reserve - amount) ∧
   (in_reserve + (paid - 1)) * (out_reserve - amount) <= in_reserve * out_reserve).
Proof.
  intros Hout Hin Ha H. rewrite in_given_out_value in H by done.
  pose proof (fits_nonneg _ _ Hout). pose proof (fits_nonneg _ _ Hin).
  pose proof (fits_nonneg _ _ Ha).
  destruct (Z.eqb_spec amount 0); [inv_run; by left|].
  destruct (Z.ltb_spec out_reserve amount); [done|].
  destruct (Z.eqb_spec out_reserve amount); [done|].
  cbv zeta in H. case_match; [|done]. inv_run. propify. right.
  pose proof (div_bounds (in_reserve * amount) (out_reserve - amount) ltac:(lia)).
  pose proof (div_nonneg (in_reserve * amount) (out_reserve - amount) ltac:(nia) ltac:(lia)).
  unfold fits. split_and!; [lia..|nia|nia].
Qed.

(** Shares minted for [amount] never exceed the proportion of the reserve added. *)
Lemma shares_value asset_reserve amount issuance shares :
  calculate_shares asset_reserve amount issuance = Some shares →
  asset_reserve ≠ 0 ∧ shares = issuance * amount / asset_reserve ∧ shares <= max_value u128.
Proof.
  unfold calculate_shares, to_balance. intros H. inv_cases. by propify.
Qed.

(** The second asset required is rounded up, the shares are rounded down. *)
Lemma liquidity_in_value a_reserve b_reserve amount required :
  calculate_liquidity_in a_reserve b_reserve amount = Ok required →
  a_reserve ≠ 0 ∧
  required = (if (amount =? 0) || (b_reserve =? 0) then 0 else amount * b_reserve / a_reserve + 1) ∧
  required <= max_value u128.
Proof.
  unfold calculate_liquidity_in, to_balance. intros H.
  inv_cases; propify; (split; [done|split; [done|]]); [|done].
  by apply max_value_nonneg.
Qed.

Lemma liquidity_in_pro_rata a_reserve b_reserve amount required :
  0 < a_reserve → 0 <= b_reserve → 0 <= amount →
  calculate_liquidity_in a_reserve b_reserve amount = Ok required →
  amount * b_reserve <= required * a_reserve ∧ 0 <= required.
Proof.
  intros Ha Hb Hx (_ & -> & _)%liquidity_in_value.
  case_match; propify; [nia|].
  pose proof (div_bounds (amount * b_reserve) a_reserve).
  pose proof (div_nonneg (amount * b_reserve) a_reserve). nia.
Qed.

Lemma liquidity_out_value a_reserve b_reserve amount total a b :
  calculate_liquidity_out a_reserve b_reserve amount total = Ok (a, b) →
  total ≠ 0 ∧ a = amount * a_reserve / total ∧ b = b_reserve * amount / total ∧
  a <= max_value u128 ∧ b <= max_value u128.
Proof.
  unfold calculate_liquidity_out, to_balance. intros H. inv_run.
  unfold mret, result_ret in *. inv_run. by propify.
Qed.

Lemma pool_trade_fee_bounds amount num den fee :
  0 <= amount → 0 <= num <= den →
  calculate_pool_trade_fee amount (num, den) = Some fee → 0 <= fee <= amount.
Proof.
  unfold calculate_pool_trade_fee. intros Ha Hn H.
  inv_cases; propify; try lia.
  pose proof (div_bounds amount den). pose proof (div_nonneg amount den). nia.
Qed.

(** ** Properties *)

(** [calculate_out_given_in] succeeds on every [u128] reserves and amount,
    pays out at most the reserve, and rounds in the pool's favour: the product
    of the reserves does not decrease, while paying out one unit more would
    make it decrease. *)
Theorem out_given_in_preserves_product in_reserve out_reserve amount :
  fits u128 in_reserve → fits u128 out_reserve → fits u128 amount →
  ∃ paid, calculate_out_given_in in_reserve out_reserve amount = Ok paid ∧
    0 <= paid <= out_reserve ∧
    in_reserve * out_reserve <= (in_reserve + amount) * (out_reserve - paid) ∧
    (0 < amount → (in_reserve + amount) * (out_reserve - (paid + 1)) < in_reserve * out_reserve).
Proof.
  intros Hin Hout Ha. eexists. split; [by apply out_given_in_value|].
  pose proof (out_given_in_le _ _ _ Hin Hout Ha).
  apply fits_nonneg in Hin, Hout, Ha.
  split_and!; [apply muldiv_nonneg; lia|done|..].
  - destruct (decide (in_reserve + amount = 0)) as [E|]; [nia|].
    pose proof (div_bounds (out_reserve * amount) (in_reserve + amount)). nia.
  - intros. pose proof (div_bounds (out_reserve * amount) (in_reserve + amount)). nia.
Qed.

Lemma out_given_in_preserves_product_witness :
  ∃ paid, calculate_out_given_in 1000 2000 100 = Ok paid ∧ paid = 181 ∧
    1000 * 2000 <= (1000 + 100) * (2000 - paid).
Proof.
  destruct (out_given_in_preserves_product 1000 2000 100) as (paid & Hok & _ & Hk & _);
    [compute_done..|].
  exists paid. split; [done|]. split; [|done].
  vm_compute in Hok. by injection Hok as <-.
Defined.

(** [calculate_in_given_out] on [u128] arguments, exhaustively: each error
    is returned exactly in its case, and a price of [paid] for [amount] leaves
    a product of reserves strictly above the old one, while a price of one unit
    less would not. *)
Theorem in_given_out_exhaustive out_reserve in_reserve amount :
  fits u128 out_reserve → fits u128 in_reserve → fits u128 amount →
  match calculate_in_given_out out_reserve in_reserve amount with
  | Ok paid =>
      (amount = 0 ∧ paid = 0) ∨
      (0 < amount < out_reserve ∧ fits u128 paid ∧
       in_reserve * out_reserve < (in_reserve + paid) * (out_reserve - amount) ∧
       (in_reserve + (paid - 1)) * (out_reserve - amount) <= in_reserve * out_reserve)
  | Err MathError.InsufficientOutReserve => out_reserve < amount
  | Err MathError.ZeroReserve => 0 < amount ∧ amount = out_reserve
  | Err MathError.Overflow =>
      0 < amount < out_reserve ∧
      max_value u128 * (out_reserve - amount) <= in_reserve * amount
  | Err _ => False
  end.
Proof.
  intros Hout Hin Ha.
  destruct (calculate_in_given_out out_reserve in_reserve amount) eqn:E.
  { by apply in_given_out_Ok. }
  rewrite in_given_out_value in E by done.
  pose proof (fits_nonneg _ _ Hout). pose proof (fits_nonneg _ _ Ha).
  destruct (Z.eqb_spec amount 0); [done|].
  destruct (Z.ltb_spec out_reserve amount); [by injection E as <-|].
  destruct (Z.eqb_spec out_reserve amount); [injection E as <-; lia|].
  cbv zeta in E. case_match; [done|]. injection E as <-. propify. split; [lia|].
  pose proof (div_bounds (in_reserve * amount) (out_reserve - amount) ltac:(lia)).
  assert (max_value u128 <= in_reserve * amount / (out_reserve - amount)) by lia. nia.
Qed.

Lemma in_given_out_exhaustive_witness :
  calculate_in_given_out 2000 1000 181 = Ok 100 ∧
  1000 * 2000 < (1000 + 100) * (2000 - 181).
Proof.
  pose proof (in_given_out_exhaustive 2000 1000 181 ltac:(compute_done) ltac:(compute_done)
                ltac:(compute_done)) as H.
  assert (E : calculate_in_given_out 2000 1000 181 = Ok 100) by compute_done.
  rewrite E in H. destruct H as [[H _]|(_ & _ & H & _)]; [discriminate H|exact (conj E H)].
Defined.

(** Trading back and forth against unchanged reserves gains nothing.
    Buying back the proceeds of a sale costs at most one unit more than was
    sold, and selling what a purchase cost yields at least what was bought. *)
Theorem trade_round_trip in_reserve out_reserve amount :
  fits u128 in_reserve → fits u128 out_reserve → fits u128 amount →
  0 < in_reserve → 0 < out_reserve → amount < max_value u128 →
  (∃ sold paid, calculate_out_given_in in_reserve out_reserve amount = Ok sold ∧
     calculate_in_given_out out_reserve in_reserve sold = Ok paid ∧ paid <= amount + 1) ∧
  (∀ paid, calculate_in_given_out out_reserve in_reserve amount = Ok paid →
     ∃ sold, calculate_out_given_in in_reserve out_reserve paid = Ok sold ∧ amount <= sold).
Proof.
  intros Hin Hout Ha Hin0 Hout0 Hmax. pose proof (fits_nonneg _ _ Ha). split.
  - pose proof (out_given_in_le _ _ _ Hin Hout Ha) as Hle.
    rewrite out_given_in_value by done.
    set (sold := out_reserve * amount / (in_reserve + amount)) in *.
    assert (0 <= sold) by (apply muldiv_nonneg; lia).
    assert (fits u128 sold) by (unfold fits in *; lia).
    pose proof (div_bounds (out_reserve * amount) (in_reserve + amount) ltac:(lia)).
    fold sold in H1. assert (sold < out_reserve) by nia.
    exists sold. rewrite in_given_out_value by done.
    destruct (Z.eqb_spec sold 0); [eexists; split; [done|]; split; [done|lia]|].
    rewrite (proj2 (Z.ltb_ge _ _)), (proj2 (Z.eqb_neq _ _)) by lia. simpl.
    assert (in_reserve * sold / (out_reserve - sold) <= amount) by (apply div_le_of_lt; nia).
    rewrite (proj2 (Z.leb_le _ _)) by lia.
    eexists; split; [done|]; split; [done|lia].
  - intros paid Hpaid.
    pose proof (in_given_out_value _ _ _ Hout Hin Ha) as Hv. rewrite Hpaid in Hv. symmetry in Hv.
    destruct (Z.eqb_spec amount 0); [inv_run; exists 0; split; [done|lia]|].
    destruct (Z.ltb_spec out_reserve amount); [done|].
    destruct (Z.eqb_spec out_reserve amount); [done|].
    cbv zeta in Hv. case_match; [|done]. inv_run. propify.
    set (q := in_reserve * amount / (out_reserve - amount)) in *.
    pose proof (div_bounds (in_reserve * amount) (out_reserve - amount) ltac:(lia)) as Hq.
    fold q in Hq.
    assert (0 <= q) by (apply muldiv_nonneg; lia).
    eexists. split; [apply out_given_in_value; [done..|unfold fits; lia]|].
    apply Z.div_le_lower_bound; nia.
Qed.

Lemma trade_round_trip_witness :
  ∃ sold paid, calculate_out_given_in 1000 2000 100 = Ok sold ∧
    calculate_in_given_out 2000 1000 sold = Ok paid ∧ paid <= 101.
Proof.
  exact (proj1 (trade_round_trip 1000 2000 100 ltac:(compute_done) ltac:(compute_done)
    ltac:(compute_done) ltac:(lia) ltac:(lia) ltac:(compute_done))).
Defined.

(** Adding liquidity and removing the minted shares again returns at most
    the amounts that were put in, of either asset. *)
Theorem liquidity_round_trip a_reserve b_reserve issuance amount b_in shares a_out b_out :
  0 < a_reserve → 0 <= b_reserve → 0 < issuance → 0 <= amount →
  calculate_liquidity_in a_reserve b_reserve amount = Ok b_in →
  calculate_shares a_reserve amount issuance = Some shares →
  calculate_liquidity_out (a_reserve + amount) (b_reserve + b_in) shares (issuance + shares)
    = Ok (a_out, b_out) →
  a_out <= amount ∧ b_out <= b_in.
Proof.
  intros Ha Hb Hs Hx Hin (_ & Hsh & _)%shares_value (Htot & -> & -> & _)%liquidity_out_value.
  apply liquidity_in_pro_rata in Hin as [Hin ?]; [|done..].
  assert (0 <= shares) by (subst; apply muldiv_nonneg; lia).
  destruct (add_liquidity_no_dilution a_reserve b_reserve issuance amount b_in shares); try lia.
  split; apply Z.div_le_upper_bound; nia.
Qed.

Lemma liquidity_round_trip_witness :
  calculate_liquidity_in 1000 2000 100 = Ok 201 ∧ calculate_shares 1000 100 500 = Some 50 ∧
  calculate_liquidity_out 1100 2201 50 550 = Ok (100, 200) ∧ 100 <= 100 ∧ 200 <= 201.
Proof.
  split_and!; [compute_done..| |];
    apply (liquidity_round_trip 1000 2000 500 100 201 50 100 200); compute_done.
Defined.
