(* ===== verification/XykPallet.v ===== *)
(** * The XYK pools pallet

    Models [pallets/xyk/src/lib.rs], [types.rs] and [trade_execution.rs]: the storage of the pallet,
    its dispatchables and the functions they are made of.  The ledger and the
    other components the pallet calls are the interface of [Currency] and the
    fields of [Config]. *)

From S2P Require Import Prelude Arithmetic Product Currency Ratio Broadcast Traits XykMath.

Record AssetPair := mkAssetPair { asset_in : AssetId; asset_out : AssetId }.

Definition ordered_pair (p : AssetPair) : AssetId * AssetId :=
  if asset_in p <=? asset_out p then (asset_in p, asset_out p) else (asset_out p, asset_in p).

(** [u32::to_le_bytes], bytes as integers. *)
Definition u32_to_le_bytes (x : Z) : list Z :=
  [x mod 256; x / 256 mod 256; x / 65536 mod 256; x / 16777216 mod 256].

(** Name of the share token: the ordered ids around the bytes of ["HDT"]. *)
Definition name (p : AssetPair) : list Z :=
  let '(asset_a, asset_b) := ordered_pair p in
  u32_to_le_bytes asset_a ++ [72; 68; 84] ++ u32_to_le_bytes asset_b.

Record AMMTransfer (AccountId : Type) := mkTransfer {
  origin : AccountId;
  assets : AssetPair;
  t_amount : Balance;
  amount_b : Balance;
  fee : AssetId * Balance;
}.
#[global] Arguments mkTransfer {AccountId} _ _ _ _ _.
#[global] Arguments origin {AccountId} _.
#[global] Arguments assets {AccountId} _.
#[global] Arguments t_amount {AccountId} _.
#[global] Arguments amount_b {AccountId} _.
#[global] Arguments fee {AccountId} _.

Module XykError.
Inductive t :=
| CannotCreatePoolWithSameAssets
| InsufficientLiquidity
| InsufficientTradingAmount
| ZeroLiquidity
| InvalidMintedLiquidity
| InvalidLiquidityAmount
| AssetAmountExceededLimit
| AssetAmountNotReachedLimit
| InsufficientAssetBalance
| InsufficientPoolAssetBalance
| InsufficientNativeCurrencyBalance
| TokenPoolNotFound
| TokenPoolAlreadyExists
| AddAssetAmountInvalid
| RemoveAssetAmountInvalid
| SellAssetAmountInvalid
| BuyAssetAmountInvalid
| FeeAmountInvalid
| MaxOutRatioExceeded
| MaxInRatioExceeded
| Overflow
| CannotCreatePool
| SlippageLimit.
End XykError.

Inductive XykEvent (AccountId : Type) :=
| LiquidityAdded (who : AccountId) (asset_a asset_b : AssetId) (amount_a amount_b : Balance)
| LiquidityRemoved (who : AccountId) (asset_a asset_b : AssetId) (shares : Balance)
| PoolCreated (who : AccountId) (asset_a asset_b : AssetId) (initial_shares_amount : Balance)
    (share_token : AssetId) (pool : AccountId)
| PoolDestroyed (who : AccountId) (asset_a asset_b : AssetId) (share_token : AssetId) (pool : AccountId)
| SellExecuted (who : AccountId) (asset_in asset_out : AssetId) (amount sale_price : Balance)
    (fee_asset : AssetId) (fee_amount : Balance) (pool : AccountId)
| BuyExecuted (who : AccountId) (asset_out asset_in : AssetId) (amount buy_price : Balance)
    (fee_asset : AssetId) (fee_amount : Balance) (pool : AccountId).
#[global] Arguments LiquidityAdded {AccountId} _ _ _ _ _.
#[global] Arguments LiquidityRemoved {AccountId} _ _ _ _.
#[global] Arguments PoolCreated {AccountId} _ _ _ _ _ _.
#[global] Arguments PoolDestroyed {AccountId} _ _ _ _ _.
#[global] Arguments SellExecuted {AccountId} _ _ _ _ _ _ _ _.
#[global] Arguments BuyExecuted {AccountId} _ _ _ _ _ _ _ _.

(** The associated types of the pallet's [Config]: constants, and the calls into
    other components.  The result of [on_create_pool] and of [remove_account] is
    ignored by the pallet, so they only transform the state. *)
Record Config (X AccountId : Type) := mkConfig {
  GetExchangeFee : Z * Z;
  MinTradingLimit : Balance;
  MinPoolLiquidity : Balance;
  MaxInRatio : Z;
  MaxOutRatio : Z;
  can_create : AssetId → AssetId → X → bool;
  from_assets : AssetId → AssetId → AccountId;
  name_fits : list Z → bool;
  get_or_register_insufficient_asset : list Z → X → result Z (AssetId * X);
  on_create_pool : AssetId → AssetId → X → X;
  add_account : AccountId → X → result Z X;
  remove_account : AccountId → X → X;
  on_trade : AssetId → AssetId → Balance → Balance → Balance → Balance → Ratio → option Balance →
    X → result Z X;
  on_liquidity_changed : AssetId → AssetId → Balance → Balance → Balance → Balance → Ratio →
    option Balance → X → result Z X;
}.
#[global] Arguments GetExchangeFee {X AccountId} _.
#[global] Arguments MinTradingLimit {X AccountId} _.
#[global] Arguments MinPoolLiquidity {X AccountId} _.
#[global] Arguments MaxInRatio {X AccountId} _.
#[global] Arguments MaxOutRatio {X AccountId} _.
#[global] Arguments can_create {X AccountId} _ _ _ _.
#[global] Arguments from_assets {X AccountId} _ _ _.
#[global] Arguments name_fits {X AccountId} _ _.
#[global] Arguments get_or_register_insufficient_asset {X AccountId} _ _ _.
#[global] Arguments on_create_pool {X AccountId} _ _ _ _.
#[global] Arguments add_account {X AccountId} _ _ _.
#[global] Arguments remove_account {X AccountId} _ _ _.
#[global] Arguments on_trade {X AccountId} _ _ _ _ _ _ _ _ _ _.
#[global] Arguments on_liquidity_changed {X AccountId} _ _ _ _ _ _ _ _ _ _.

Record state (X AccountId : Type) `{Countable AccountId} := mkState {
  ShareToken : gmap AccountId AssetId;
  TotalLiquidity : gmap AccountId Balance;
  PoolAssets : gmap AccountId (AssetId * AssetId);
  events : list (XykEvent AccountId);
  bcast : broadcast AccountId;
  ext : X;
}.
#[global] Arguments mkState {X AccountId _ _} _ _ _ _ _ _.
#[global] Arguments ShareToken {X AccountId _ _} _.
#[global] Arguments TotalLiquidity {X AccountId _ _} _.
#[global] Arguments PoolAssets {X AccountId _ _} _.
#[global] Arguments events {X AccountId _ _} _.
#[global] Arguments bcast {X AccountId _ _} _.
#[global] Arguments ext {X AccountId _ _} _.

Section pallet.
Context {X AccountId : Type} `{Countable AccountId} `{!MultiCurrency X AccountId}.
Context (T : Config X AccountId).

Notation state := (state X AccountId).
Notation DispatchM := (M state (DispatchError XykError.t)).
Implicit Types (s : state) (who : AccountId) (p : AssetPair).

Definition set_ext (x : X) s : state :=
  mkState (ShareToken s) (TotalLiquidity s) (PoolAssets s) (events s) (bcast s) x.
Definition put_share_token (acc : AccountId) (t : AssetId) s : state :=
  mkState (<[acc := t]> (ShareToken s)) (TotalLiquidity s) (PoolAssets s) (events s) (bcast s) (ext s).
Definition put_total_liquidity (acc : AccountId) (b : Balance) s : state :=
  mkState (ShareToken s) (<[acc := b]> (TotalLiquidity s)) (PoolAssets s) (events s) (bcast s) (ext s).
Definition put_pool_assets (acc : AccountId) (ab : AssetId * AssetId) s : state :=
  mkState (ShareToken s) (TotalLiquidity s) (<[acc := ab]> (PoolAssets s)) (events s) (bcast s) (ext s).
Definition remove_pool (acc : AccountId) s : state :=
  mkState (delete acc (ShareToken s)) (delete acc (TotalLiquidity s)) (delete acc (PoolAssets s))
    (events s) (bcast s) (ext s).
Definition deposit_event (e : XykEvent AccountId) : DispatchM unit :=
  modify (λ s, mkState (ShareToken s) (TotalLiquidity s) (PoolAssets s) (events s ++ [e]) (bcast s) (ext s)).
Definition broadcast_event (f : broadcast AccountId → broadcast AccountId) : DispatchM unit :=
  modify (λ s, mkState (ShareToken s) (TotalLiquidity s) (PoolAssets s) (events s) (f (bcast s)) (ext s)).

Definition call (f : X → result Z X) : DispatchM unit := on_ext_ ext set_ext f.
Definition math_or {A} (r : result MathError.t A) (e : XykError.t) : DispatchM A :=
  lift (map_err (λ _, ModuleError e) r).

Definition pair_account_from_assets (asset_a asset_b : AssetId) : AccountId :=
  from_assets T asset_a asset_b.
Definition get_pair_id p : AccountId := pair_account_from_assets (asset_in p) (asset_out p).
Definition pool_exists p s : bool := bool_decide (is_Some (ShareToken s !! get_pair_id p)).
Definition share_token (acc : AccountId) s : AssetId := default 0 (ShareToken s !! acc).
Definition total_liquidity (acc : AccountId) s : Balance := default 0 (TotalLiquidity s !! acc).
Definition get_share_token p s : AssetId := share_token (get_pair_id p) s.
Definition get_pool_assets (acc : AccountId) s : option (list AssetId) :=
  (λ ab : AssetId * AssetId, [ab.1; ab.2]) <$> PoolAssets s !! acc.
Definition get_pool_balances (pool_address : AccountId) s : option (list (AssetId * Balance)) :=
  Some (match get_pool_assets pool_address s with
        | Some assets => (λ item, (item, free_balance item pool_address (ext s))) <$> assets
        | None => []
        end).

Definition calculate_fee (amount : Balance) : DispatchM Balance :=
  some_or (calculate_pool_trade_fee amount (GetExchangeFee T)) XykError.FeeAmountInvalid.

Definition create_pool (o : RawOrigin AccountId) (asset_a : AssetId) (amount_a : Balance)
    (asset_b : AssetId) (amount_b : Balance) : DispatchM unit :=
  who ← lift (ensure_signed o);
  s ← get;
  ensure_or (can_create T asset_a asset_b (ext s)) XykError.CannotCreatePool;;
  ensure_or ((MinPoolLiquidity T <=? amount_a) && (MinPoolLiquidity T <=? amount_b))
    XykError.InsufficientLiquidity;;
  ensure_or (negb (asset_a =? asset_b)) XykError.CannotCreatePoolWithSameAssets;;
  let asset_pair := mkAssetPair asset_a asset_b in
  ensure_or (negb (pool_exists asset_pair s)) XykError.TokenPoolAlreadyExists;;
  let shares_added := if asset_a <? asset_b then amount_a else amount_b in
  ensure_or (amount_a <=? free_balance asset_a who (ext s)) XykError.InsufficientAssetBalance;;
  ensure_or (amount_b <=? free_balance asset_b who (ext s)) XykError.InsufficientAssetBalance;;
  let pair_account := get_pair_id asset_pair in
  let token_name := name asset_pair in
  ensure_or (name_fits T token_name) XykError.CannotCreatePool;;
  share_token ← on_ext ext set_ext (get_or_register_insufficient_asset T token_name);
  modify (λ s, set_ext (on_create_pool T asset_a asset_b (ext s)) s);;
  call (add_account T pair_account);;
  modify (put_share_token pair_account share_token);;
  modify (put_pool_assets pair_account (asset_a, asset_b));;
  deposit_event (PoolCreated who asset_a asset_b shares_added share_token pair_account);;
  call (transfer asset_a who pair_account amount_a AllowDeath);;
  call (transfer asset_b who pair_account amount_b AllowDeath);;
  call (deposit share_token who shares_added);;
  modify (put_total_liquidity pair_account shares_added).

Definition do_add_liquidity who (asset_a asset_b : AssetId)
    (amount_a amount_b_max_limit min_shares : Balance) : DispatchM Balance :=
  let asset_pair := mkAssetPair asset_a asset_b in
  s ← get;
  ensure_or (pool_exists asset_pair s) XykError.TokenPoolNotFound;;
  ensure_or (MinTradingLimit T <=? amount_a) XykError.InsufficientTradingAmount;;
  ensure_or (negb (amount_b_max_limit =? 0)) XykError.ZeroLiquidity;;
  ensure_or (amount_a <=? free_balance asset_a who (ext s)) XykError.InsufficientAssetBalance;;
  let pair_account := get_pair_id asset_pair in
  let share_token := share_token pair_account s in
  let account_shares := free_balance share_token who (ext s) in
  let asset_a_reserve := free_balance asset_a pair_account (ext s) in
  let asset_b_reserve := free_balance asset_b pair_account (ext s) in
  let share_issuance := total_liquidity pair_account s in
  amount_b ← math_or (calculate_liquidity_in asset_a_reserve asset_b_reserve amount_a)
    XykError.AddAssetAmountInvalid;
  ensure_or (amount_b <=? free_balance asset_b who (ext s)) XykError.InsufficientAssetBalance;;
  ensure_or (amount_b <=? amount_b_max_limit) XykError.AssetAmountExceededLimit;;
  shares_added ← some_or (calculate_shares asset_a_reserve amount_a share_issuance) XykError.Overflow;
  ensure_or (negb (shares_added =? 0)) XykError.InvalidMintedLiquidity;;
  ensure_or (min_shares <=? shares_added) XykError.SlippageLimit;;
  new_shares ← some_or (checked_add u128 account_shares shares_added) XykError.InvalidMintedLiquidity;
  ensure_or (MinPoolLiquidity T <=? new_shares) XykError.InsufficientLiquidity;;
  liquidity_amount ← some_or (checked_add u128 share_issuance shares_added)
    XykError.InvalidLiquidityAmount;
  call (transfer asset_a who pair_account amount_a AllowDeath);;
  call (transfer asset_b who pair_account amount_b AllowDeath);;
  call (deposit share_token who shares_added);;
  modify (put_total_liquidity pair_account liquidity_amount);;
  s ← get;
  let liquidity_a := total_balance asset_a pair_account (ext s) in
  let liquidity_b := total_balance asset_b pair_account (ext s) in
  call (on_liquidity_changed T asset_a asset_b amount_a amount_b liquidity_a liquidity_b
          (Ratio.new liquidity_a liquidity_b) (Some liquidity_amount));;
  deposit_event (LiquidityAdded who asset_a asset_b amount_a amount_b);;
  mret shares_added.

Definition add_liquidity (o : RawOrigin AccountId) (asset_a asset_b : AssetId)
    (amount_a amount_b_max_limit : Balance) : DispatchM unit :=
  who ← lift (ensure_signed o);
  do_add_liquidity who asset_a asset_b amount_a amount_b_max_limit 0;;
  mret tt.

Definition add_liquidity_with_limits (o : RawOrigin AccountId) (asset_a asset_b : AssetId)
    (amount_a amount_b_max_limit min_shares : Balance) : DispatchM unit :=
  who ← lift (ensure_signed o);
  do_add_liquidity who asset_a asset_b amount_a amount_b_max_limit min_shares;;
  mret tt.

Definition do_remove_liquidity who (asset_a asset_b : AssetId)
    (share_amount min_amount_a min_amount_b : Balance) : DispatchM unit :=
  let asset_pair := mkAssetPair asset_a asset_b in
  s ← get;
  ensure_or (0 <? share_amount) XykError.ZeroLiquidity;;
  ensure_or (pool_exists asset_pair s) XykError.TokenPoolNotFound;;
  let pair_account := get_pair_id asset_pair in
  let share_token := share_token pair_account s in
  let total_shares := total_liquidity pair_account s in
  let account_shares := free_balance share_token who (ext s) in
  ensure_or (share_amount <=? total_shares) XykError.InsufficientLiquidity;;
  ensure_or (share_amount <=? account_shares) XykError.InsufficientAssetBalance;;
  ensure_or ((MinPoolLiquidity T <=? saturating_sub account_shares share_amount)
             || (account_shares =? share_amount)) XykError.InsufficientLiquidity;;
  let asset_a_reserve := free_balance asset_a pair_account (ext s) in
  let asset_b_reserve := free_balance asset_b pair_account (ext s) in
  liquidity_out ← math_or
    (calculate_liquidity_out asset_a_reserve asset_b_reserve share_amount total_shares)
    XykError.RemoveAssetAmountInvalid;
  let '(remove_amount_a, remove_amount_b) := liquidity_out : Z * Z in
  ensure_or (remove_amount_a <=? free_balance asset_a pair_account (ext s))
    XykError.InsufficientPoolAssetBalance;;
  ensure_or (remove_amount_b <=? free_balance asset_b pair_account (ext s))
    XykError.InsufficientPoolAssetBalance;;
  ensure_or (min_amount_a <=? remove_amount_a) XykError.SlippageLimit;;
  ensure_or (min_amount_b <=? remove_amount_b) XykError.SlippageLimit;;
  liquidity_left ← some_or (checked_sub total_shares share_amount) XykError.InvalidLiquidityAmount;
  call (transfer asset_a pair_account who remove_amount_a AllowDeath);;
  call (transfer asset_b pair_account who remove_amount_b AllowDeath);;
  call (withdraw share_token who share_amount AllowDeath);;
  modify (put_total_liquidity pair_account liquidity_left);;
  s ← get;
  let liquidity_a := total_balance asset_a pair_account (ext s) in
  let liquidity_b := total_balance asset_b pair_account (ext s) in
  call (on_liquidity_changed T asset_a asset_b remove_amount_a remove_amount_b liquidity_a liquidity_b
          (Ratio.new liquidity_a liquidity_b) (Some liquidity_left));;
  deposit_event (LiquidityRemoved who asset_a asset_b share_amount);;
  if liquidity_left =? 0 then
    modify (remove_pool pair_account);;
    modify (λ s, set_ext (remove_account T pair_account (ext s)) s);;
    deposit_event (PoolDestroyed who asset_a asset_b share_token pair_account)
  else mret tt.

Definition remove_liquidity (o : RawOrigin AccountId) (asset_a asset_b : AssetId)
    (share_amount : Balance) : DispatchM unit :=
  who ← lift (ensure_signed o);
  do_remove_liquidity who asset_a asset_b share_amount 0 0.

Definition remove_liquidity_with_limits (o : RawOrigin AccountId) (asset_a asset_b : AssetId)
    (share_amount min_amount_a min_amount_b : Balance) : DispatchM unit :=
  who ← lift (ensure_signed o);
  do_remove_liquidity who asset_a asset_b share_amount min_amount_a min_amount_b.

Definition validate_sell who p (amount min_bought : Balance) : DispatchM (AMMTransfer AccountId) :=
  s ← get;
  ensure_or (MinTradingLimit T <=? amount) XykError.InsufficientTradingAmount;;
  ensure_or (pool_exists p s) XykError.TokenPoolNotFound;;
  ensure_or (amount <=? free_balance (asset_in p) who (ext s)) XykError.InsufficientAssetBalance;;
  let pair_account := get_pair_id p in
  let asset_in_reserve := free_balance (asset_in p) pair_account (ext s) in
  let asset_out_reserve := free_balance (asset_out p) pair_account (ext s) in
  max_in ← some_or (checked_div asset_in_reserve (MaxInRatio T)) XykError.Overflow;
  ensure_or (amount <=? max_in) XykError.MaxInRatioExceeded;;
  amount_out ← math_or (calculate_out_given_in asset_in_reserve asset_out_reserve amount)
    XykError.SellAssetAmountInvalid;
  max_out ← some_or (checked_div asset_out_reserve (MaxOutRatio T)) XykError.Overflow;
  ensure_or (amount_out <=? max_out) XykError.MaxOutRatioExceeded;;
  transfer_fee ← calculate_fee amount_out;
  amount_out_without_fee ← some_or (checked_sub amount_out transfer_fee) XykError.SellAssetAmountInvalid;
  ensure_or (amount_out <? asset_out_reserve) XykError.InsufficientAssetBalance;;
  ensure_or (min_bought <=? amount_out_without_fee) XykError.AssetAmountNotReachedLimit;;
  mret (mkTransfer who p amount amount_out_without_fee (asset_out p, transfer_fee)).

Definition execute_sell (tr : AMMTransfer AccountId) : DispatchM unit :=
  let pair_account := get_pair_id (assets tr) in
  let '(a_in, a_out) := (asset_in (assets tr), asset_out (assets tr)) in
  call (transfer a_in (origin tr) pair_account (t_amount tr) AllowDeath);;
  call (transfer a_out pair_account (origin tr) (amount_b tr) AllowDeath);;
  s ← get;
  let liquidity_in := total_balance a_in pair_account (ext s) in
  let liquidity_out := total_balance a_out pair_account (ext s) in
  call (on_trade T a_in a_out (t_amount tr) (amount_b tr) liquidity_in liquidity_out
          (Ratio.new liquidity_in liquidity_out) (Some (total_liquidity pair_account s)));;
  deposit_event (SellExecuted (origin tr) a_in a_out (t_amount tr) (amount_b tr)
                   (fee tr).1 (fee tr).2 pair_account);;
  s ← get;
  broadcast_event (deposit_trade_event (origin tr) pair_account
    (XYK (share_token pair_account s)) ExactIn
    [mkAsset a_in (t_amount tr)] [mkAsset a_out (amount_b tr)]
    [mkFee (fee tr).1 (fee tr).2 (Account pair_account)]).

Definition sell (o : RawOrigin AccountId) (asset_in asset_out : AssetId)
    (amount max_limit : Balance) (_discount : bool) : DispatchM unit :=
  who ← lift (ensure_signed o);
  tr ← validate_sell who (mkAssetPair asset_in asset_out) amount max_limit;
  execute_sell tr.

Definition validate_buy who p (amount max_limit : Balance) : DispatchM (AMMTransfer AccountId) :=
  s ← get;
  ensure_or (MinTradingLimit T <=? amount) XykError.InsufficientTradingAmount;;
  ensure_or (pool_exists p s) XykError.TokenPoolNotFound;;
  let pair_account := get_pair_id p in
  let asset_out_reserve := free_balance (asset_out p) pair_account (ext s) in
  let asset_in_reserve := free_balance (asset_in p) pair_account (ext s) in
  ensure_or (amount <? asset_out_reserve) XykError.InsufficientPoolAssetBalance;;
  max_out ← some_or (checked_div asset_out_reserve (MaxOutRatio T)) XykError.Overflow;
  ensure_or (amount <=? max_out) XykError.MaxOutRatioExceeded;;
  buy_price ← math_or (calculate_in_given_out asset_out_reserve asset_in_reserve amount)
    XykError.BuyAssetAmountInvalid;
  max_in ← some_or (checked_div asset_in_reserve (MaxInRatio T)) XykError.Overflow;
  ensure_or (buy_price <=? max_in) XykError.MaxInRatioExceeded;;
  transfer_fee ← calculate_fee buy_price;
  buy_price_with_fee ← some_or (checked_add u128 buy_price transfer_fee) XykError.BuyAssetAmountInvalid;
  ensure_or (buy_price_with_fee <=? max_limit) XykError.AssetAmountExceededLimit;;
  ensure_or (buy_price_with_fee <=? free_balance (asset_in p) who (ext s))
    XykError.InsufficientAssetBalance;;
  mret (mkTransfer who p amount buy_price (asset_in p, transfer_fee)).

(** The unchecked sum of price and fee was validated not to overflow. *)
Definition execute_buy (tr : AMMTransfer AccountId) (destination : option AccountId) : DispatchM unit :=
  let pair_account := get_pair_id (assets tr) in
  let '(a_in, a_out) := (asset_in (assets tr), asset_out (assets tr)) in
  call (transfer a_out pair_account (default (origin tr) destination) (t_amount tr) AllowDeath);;
  call (transfer a_in (origin tr) pair_account (wrapping_add u128 (amount_b tr) (fee tr).2) AllowDeath);;
  s ← get;
  let liquidity_in := total_balance a_in pair_account (ext s) in
  let liquidity_out := total_balance a_out pair_account (ext s) in
  call (on_trade T a_in a_out (amount_b tr) (t_amount tr) liquidity_in liquidity_out
          (Ratio.new liquidity_in liquidity_out) (Some (total_liquidity pair_account s)));;
  deposit_event (BuyExecuted (origin tr) a_out a_in (t_amount tr) (amount_b tr)
                   (fee tr).1 (fee tr).2 pair_account);;
  s ← get;
  broadcast_event (deposit_trade_event (origin tr) pair_account
    (XYK (share_token pair_account s)) ExactOut
    [mkAsset a_in (amount_b tr)] [mkAsset a_out (t_amount tr)]
    [mkFee (fee tr).1 (fee tr).2 (Account pair_account)]).

Definition buy (o : RawOrigin AccountId) (asset_out asset_in : AssetId)
    (amount max_limit : Balance) (_discount : bool) : DispatchM unit :=
  who ← lift (ensure_signed o);
  tr ← validate_buy who (mkAssetPair asset_in asset_out) amount max_limit;
  execute_buy tr None.

Definition buy_for who p (amount max_limit : Balance) (dest : AccountId) : DispatchM unit :=
  tr ← validate_buy who p amount max_limit;
  execute_buy tr (Some dest).

(** ** The executor interface of the router ([trade_execution.rs]) *)

Notation ExecM := (M state (ExecutorError.t (DispatchError XykError.t))).
Notation xyk_error e := (ExecutorError.Error (ModuleError e)).

Definition quote_out_given_in (pool_type : PoolType.t) (asset_in asset_out : AssetId)
    (amount_in : Balance) : ExecM Balance :=
  ensureM (bool_decide (pool_type = PoolType.XYK)) ExecutorError.NotSupported;;
  let assets := mkAssetPair asset_in asset_out in
  s ← get;
  ensureM (pool_exists assets s) (xyk_error XykError.TokenPoolNotFound);;
  let pair_account := get_pair_id assets in
  let asset_in_reserve := free_balance asset_in pair_account (ext s) in
  let asset_out_reserve := free_balance asset_out pair_account (ext s) in
  amount_out ← executor (math_or (calculate_out_given_in asset_in_reserve asset_out_reserve amount_in)
    XykError.SellAssetAmountInvalid);
  ensureM (amount_out <? asset_out_reserve) (xyk_error XykError.InsufficientPoolAssetBalance);;
  transfer_fee ← executor (calculate_fee amount_out);
  executor (some_or (checked_sub amount_out transfer_fee) XykError.SellAssetAmountInvalid).

Definition quote_in_given_out (pool_type : PoolType.t) (asset_in asset_out : AssetId)
    (amount_out : Balance) : ExecM Balance :=
  ensureM (bool_decide (pool_type = PoolType.XYK)) ExecutorError.NotSupported;;
  let assets := mkAssetPair asset_in asset_out in
  s ← get;
  ensureM (pool_exists assets s) (xyk_error XykError.TokenPoolNotFound);;
  let pair_account := get_pair_id assets in
  let asset_out_reserve := free_balance asset_out pair_account (ext s) in
  let asset_in_reserve := free_balance asset_in pair_account (ext s) in
  ensureM (amount_out <? asset_out_reserve) (xyk_error XykError.InsufficientPoolAssetBalance);;
  ensureM (MinTradingLimit T <=? amount_out) (xyk_error XykError.InsufficientTradingAmount);;
  amount_in ← executor (math_or (calculate_in_given_out asset_out_reserve asset_in_reserve amount_out)
    XykError.BuyAssetAmountInvalid);
  transfer_fee ← executor (calculate_fee amount_in);
  executor (some_or (checked_add u128 amount_in transfer_fee) XykError.BuyAssetAmountInvalid).

Definition executor_sell (o : RawOrigin AccountId) (pool_type : PoolType.t)
    (asset_in asset_out : AssetId) (amount_in min_limit : Balance) : ExecM unit :=
  ensureM (bool_decide (pool_type = PoolType.XYK)) ExecutorError.NotSupported;;
  executor (sell o asset_in asset_out amount_in min_limit false).

Definition executor_buy (o : RawOrigin AccountId) (pool_type : PoolType.t)
    (asset_in asset_out : AssetId) (amount_out max_limit : Balance) : ExecM unit :=
  ensureM (bool_decide (pool_type = PoolType.XYK)) ExecutorError.NotSupported;;
  executor (buy o asset_out asset_in amount_out max_limit false).

Definition get_liquidity_depth (pool_type : PoolType.t) (asset_a asset_b : AssetId) : ExecM Balance :=
  ensureM (bool_decide (pool_type = PoolType.XYK)) ExecutorError.NotSupported;;
  gets (λ s, free_balance asset_a (get_pair_id (mkAssetPair asset_a asset_b)) (ext s)).

(** The outer [None] is the panic of the fixed-point division. *)
Definition spot_price_with_fee `{SpArithmetic} (pool_type : PoolType.t) (asset_a asset_b : AssetId) s :
    option (result (ExecutorError.t (DispatchError XykError.t)) Z) :=
  if negb (bool_decide (pool_type = PoolType.XYK)) then Some (Err ExecutorError.NotSupported) else
  let pair_account := get_pair_id (mkAssetPair asset_b asset_a) in
  let asset_a_reserve := free_balance asset_a pair_account (ext s) in
  let asset_b_reserve := free_balance asset_b pair_account (ext s) in
  price ← calculate_spot_price_with_fee asset_a_reserve asset_b_reserve (Some (GetExchangeFee T));
  Some (price ← map_err (λ _, ExecutorError.Error (Arithmetic ArithmeticError.Overflow)) price;
        ok_or (fixed_checked_div DIV price) (ExecutorError.Error Corruption)).

(** [SpotPriceProvider] of [impls.rs]. *)
Definition spot_price `{SpArithmetic} (asset_a asset_b : AssetId) s : option Z :=
  if pool_exists (mkAssetPair asset_b asset_a) s then
    let pair_account := get_pair_id (mkAssetPair asset_b asset_a) in
    fixed_checked_from_rational (free_balance asset_a pair_account (ext s))
      (free_balance asset_b pair_account (ext s))
  else None.


(** ** Laws of the configuration

    The exchange fee is a fraction of at most one, the hooks into the oracle,
    the duster and the registry do not touch balances, and the account of a
    pool determines its unordered pair of assets. *)
Class ConfigLaws : Prop := {
  fee_fraction : 0 <= (GetExchangeFee T).1 <= (GetExchangeFee T).2;
  on_trade_frames a b x y la lb r i : frames_ledger (AccountId := AccountId) (on_trade T a b x y la lb r i);
  on_liquidity_changed_frames a b x y la lb r i :
    frames_ledger (AccountId := AccountId) (on_liquidity_changed T a b x y la lb r i);
  add_account_frames a : frames_ledger (AccountId := AccountId) (add_account T a);
  remove_account_frames a x : same_ledger (AccountId := AccountId) x (remove_account T a x);
  on_create_pool_frames a b x : same_ledger (AccountId := AccountId) x (on_create_pool T a b x);
  register_frames nm x t x' :
    get_or_register_insufficient_asset T nm x = Ok (t, x') → same_ledger (AccountId := AccountId) x x';
  from_assets_sym a b : from_assets T a b = from_assets T b a;
  from_assets_inj a b c d :
    from_assets T a b = from_assets T c d → (a = c ∧ b = d) ∨ (a = d ∧ b = c);
}.

Ltac inv_xyk :=
  unfold call, ensure_or, some_or, math_or, deposit_event, broadcast_event, ensure_signed in *;
  inv_ext; simpl in *.

Context `{!MultiCurrencyLaws X AccountId} `{!ConfigLaws}.

Lemma balance_nonneg (c : AssetId) (a : AccountId) (x : X) : 0 <= free_balance c a x.
Proof. eapply fits_nonneg, free_balance_fits. Qed.

Lemma calculate_fee_Ok amount s f s1 :
  0 <= amount → calculate_fee amount s = Ok (f, s1) → s1 = s ∧ 0 <= f <= amount.
Proof.
  unfold calculate_fee. intros Ha Hrun. inv_xyk. split; [done|].
  pose proof fee_fraction as Hff. destruct (GetExchangeFee T) as [num den].
  by eapply pool_trade_fee_bounds.
Qed.

(** A validated sale: the amounts and the guards that matter later. *)
Lemma validate_sell_Ok who p amount min_bought s tr s1 :
  fits u128 amount →
  validate_sell who p amount min_bought s = Ok (tr, s1) →
  s1 = s ∧
  ∃ out fee, tr = mkTransfer who p amount (out - fee) (asset_out p, fee) ∧
    out = free_balance (asset_out p) (get_pair_id p) (ext s) * amount
          / (free_balance (asset_in p) (get_pair_id p) (ext s) + amount) ∧
    0 <= fee <= out ∧ min_bought <= out - fee ∧
    out < free_balance (asset_out p) (get_pair_id p) (ext s) ∧
    amount <= free_balance (asset_in p) who (ext s) ∧
    is_Some (ShareToken s !! get_pair_id p).
Proof.
  intros Hamount Hrun. unfold validate_sell in Hrun. inv_xyk.
  match goal with Hc : calculate_out_given_in _ _ _ = Ok _ |- _ =>
    rewrite out_given_in_value in Hc by (done || apply free_balance_fits); inv_run end.
  match goal with Hf : calculate_fee _ _ = Ok _ |- _ =>
    apply calculate_fee_Ok in Hf as [-> ?] end.
  - unfold pool_exists in *. propify. split; [done|]. eauto 15 with lia.
  - pose proof (fits_nonneg _ _ Hamount).
    pose proof (balance_nonneg (asset_in p) (get_pair_id p) (ext s)).
    apply muldiv_nonneg; [apply balance_nonneg|lia..].
Qed.

Lemma validate_buy_Ok who p amount max_limit s tr s1 :
  fits u128 amount →
  validate_buy who p amount max_limit s = Ok (tr, s1) →
  s1 = s ∧
  ∃ price fee, tr = mkTransfer who p amount price (asset_in p, fee) ∧
    (amount = 0 ∧ price = 0 ∨
     free_balance (asset_in p) (get_pair_id p) (ext s) * free_balance (asset_out p) (get_pair_id p) (ext s)
     < (free_balance (asset_in p) (get_pair_id p) (ext s) + price)
       * (free_balance (asset_out p) (get_pair_id p) (ext s) - amount)) ∧
    0 <= price ∧ 0 <= fee <= price ∧ price + fee <= max_limit ∧ price + fee <= max_value u128 ∧
    amount < free_balance (asset_out p) (get_pair_id p) (ext s) ∧
    price + fee <= free_balance (asset_in p) who (ext s) ∧
    is_Some (ShareToken s !! get_pair_id p).
Proof.
  intros Hamount Hrun. unfold validate_buy in Hrun. inv_xyk.
  match goal with Hc : calculate_in_given_out _ _ _ = Ok ?x |- _ =>
    apply in_given_out_Ok in Hc; [|done || apply free_balance_fits..]; rename x into price end.
  assert (0 <= price) as Hprice by (unfold fits in *; naive_solver lia).
  match goal with Hf : calculate_fee _ _ = Ok _ |- _ =>
    apply calculate_fee_Ok in Hf as [-> ?]; [|done] end.
  unfold pool_exists in *. propify. split; [done|].
  do 2 eexists. split_and!; try done; [|lia..]. naive_solver.
Qed.

Definition same_pools s s' : Prop :=
  ShareToken s' = ShareToken s ∧ TotalLiquidity s' = TotalLiquidity s ∧ PoolAssets s' = PoolAssets s.

(** What a run does to the ledger, for rewriting: every balance and issuance
    after the call in terms of those before. *)
Ltac ledger_laws :=
  repeat match goal with
  | Ht : transfer _ _ _ _ _ _ = Ok _ |- _ =>
      apply transfer_moves in Ht as (? & ? & ?); [|assumption]
  | Hd : deposit _ _ _ _ = Ok _ |- _ => apply deposit_adds in Hd as (? & ?); [|assumption]
  | Hw : withdraw _ _ _ _ _ = Ok _ |- _ => apply withdraw_subtracts in Hw as (? & ? & ?); [|assumption]
  | Hh : on_trade _ _ _ _ _ _ _ _ _ _ = Ok _ |- _ => apply on_trade_frames in Hh as [? ?]
  | Hh : on_liquidity_changed _ _ _ _ _ _ _ _ _ _ = Ok _ |- _ =>
      apply on_liquidity_changed_frames in Hh as [? ?]
  | Hh : add_account _ _ _ = Ok _ |- _ => apply add_account_frames in Hh as [? ?]
  end.
Ltac ledger_rewrite :=
  repeat match goal with
  | Hx : ∀ c a, free_balance c a ?x = _ |- context [free_balance _ _ ?x] => rewrite Hx
  | Hx : ∀ c, total_issuance c ?x = _ |- context [total_issuance _ ?x] => rewrite Hx
  end.

Lemma execute_sell_effect tr s u s' :
  0 <= t_amount tr → 0 <= amount_b tr →
  execute_sell tr s = Ok (u, s') →
  same_pools s s' ∧
  (∀ c a, free_balance c a (ext s') = free_balance c a (ext s)
     + moved (asset_in (assets tr)) (origin tr) (get_pair_id (assets tr)) (t_amount tr) c a
     + moved (asset_out (assets tr)) (get_pair_id (assets tr)) (origin tr) (amount_b tr) c a) ∧
  (∀ c, total_issuance c (ext s') = total_issuance (AccountId := AccountId) c (ext s)).
Proof.
  intros Ha Hb Hrun. unfold execute_sell in Hrun. inv_xyk. ledger_laws.
  split; [done|]. split; intros; ledger_rewrite; lia.
Qed.

Lemma execute_buy_effect tr dest s u s' :
  0 <= t_amount tr → 0 <= amount_b tr → 0 <= (fee tr).2 →
  amount_b tr + (fee tr).2 <= max_value u128 →
  execute_buy tr dest s = Ok (u, s') →
  same_pools s s' ∧
  (∀ c a, free_balance c a (ext s') = free_balance c a (ext s)
     + moved (asset_out (assets tr)) (get_pair_id (assets tr)) (default (origin tr) dest) (t_amount tr) c a
     + moved (asset_in (assets tr)) (origin tr) (get_pair_id (assets tr)) (amount_b tr + (fee tr).2) c a) ∧
  (∀ c, total_issuance c (ext s') = total_issuance (AccountId := AccountId) c (ext s)).
Proof.
  intros Ha Hb Hf Hsum Hrun. unfold execute_buy in Hrun. inv_xyk.
  unfold wrapping_add in *.
  rewrite Z.mod_small in * by (unfold max_value in *; lia).
  assert (0 <= amount_b tr + (fee tr).2) by lia. ledger_laws.
  split; [done|]. split; intros; ledger_rewrite; lia.
Qed.

Lemma do_add_liquidity_effect who a b amount_a lim min_shares s shares s' :
  0 <= amount_a → 0 <= total_liquidity (get_pair_id (mkAssetPair a b)) s →
  do_add_liquidity who a b amount_a lim min_shares s = Ok (shares, s') →
  let pool := get_pair_id (mkAssetPair a b) in
  is_Some (ShareToken s !! pool) ∧
  ∃ amount_b,
    calculate_liquidity_in (free_balance a pool (ext s)) (free_balance b pool (ext s)) amount_a = Ok amount_b ∧
    calculate_shares (free_balance a pool (ext s)) amount_a (total_liquidity pool s) = Some shares ∧
    0 <= amount_b <= lim ∧ min_shares <= shares ∧ 0 < shares ∧
    ShareToken s' = ShareToken s ∧ PoolAssets s' = PoolAssets s ∧
    TotalLiquidity s' = <[pool := total_liquidity pool s + shares]> (TotalLiquidity s) ∧
    (∀ c acc, free_balance c acc (ext s') = free_balance c acc (ext s)
       + moved a who pool amount_a c acc + moved b who pool amount_b c acc
       + when (c = share_token pool s ∧ acc = who) shares) ∧
    (∀ c, total_issuance c (ext s') = total_issuance (AccountId := AccountId) c (ext s)
            + when (c = share_token pool s) shares).
Proof.
  intros Ha HS Hrun. unfold do_add_liquidity in Hrun. inv_xyk. propify.
  set (pool := get_pair_id (mkAssetPair a b)) in *.
  match goal with Hl : calculate_liquidity_in _ _ _ = Ok ?y, Hs : calculate_shares _ _ _ = Some ?z |- _ =>
    rename y into in_b; rename z into shares;
    assert (0 <= in_b) as Hb0 by (apply liquidity_in_value in Hl as (Hane & Hb & _); subst;
      case_match; [done|]; pose proof (muldiv_nonneg amount_a (free_balance b pool (ext s))
        (free_balance a pool (ext s)) Ha (balance_nonneg _ _ _) (balance_nonneg _ _ _)); lia);
    assert (0 <= shares) as Hs0 by (apply shares_value in Hs as (_ & -> & _);
      apply muldiv_nonneg; [done|done|apply balance_nonneg]) end.
  ledger_laws. unfold pool_exists in *. propify. split; [done|]. exists in_b.
  split_and!; try done; try lia; intros; ledger_rewrite; lia.
Qed.

Lemma do_remove_liquidity_effect who a b share_amount min_a min_b s u s' :
  0 <= total_liquidity (get_pair_id (mkAssetPair a b)) s →
  do_remove_liquidity who a b share_amount min_a min_b s = Ok (u, s') →
  let pool := get_pair_id (mkAssetPair a b) in
  let left := total_liquidity pool s - share_amount in
  is_Some (ShareToken s !! pool) ∧ 0 < share_amount <= total_liquidity pool s ∧
  share_amount <= free_balance (share_token pool s) who (ext s) ∧
  ∃ amount_a amount_b,
    amount_a = share_amount * free_balance a pool (ext s) / total_liquidity pool s ∧
    amount_b = free_balance b pool (ext s) * share_amount / total_liquidity pool s ∧
    min_a <= amount_a ∧ min_b <= amount_b ∧
    ShareToken s' = (if left =? 0 then delete pool (ShareToken s) else ShareToken s) ∧
    PoolAssets s' = (if left =? 0 then delete pool (PoolAssets s) else PoolAssets s) ∧
    TotalLiquidity s' = (if left =? 0 then delete pool (TotalLiquidity s)
                         else <[pool := left]> (TotalLiquidity s)) ∧
    (∀ c acc, free_balance c acc (ext s') = free_balance c acc (ext s)
       + moved a pool who amount_a c acc + moved b pool who amount_b c acc
       - when (c = share_token pool s ∧ acc = who) share_amount) ∧
    (∀ c, total_issuance c (ext s') = total_issuance (AccountId := AccountId) c (ext s)
            - when (c = share_token pool s) share_amount).
Proof.
  intros HS Hrun. unfold do_remove_liquidity in Hrun. inv_xyk.
  set (pool := get_pair_id (mkAssetPair a b)) in *.
  match goal with Hl : calculate_liquidity_out _ _ _ _ = Ok ?y |- _ => destruct y as [amount_a amount_b];
    apply liquidity_out_value in Hl as (Htot & Ha & Hb & _) end.
  inv_xyk. propify.
  pose proof (balance_nonneg a pool (ext s)) as HA. pose proof (balance_nonneg b pool (ext s)) as HB.
  assert (0 <= share_amount * free_balance a pool (ext s) / total_liquidity pool s)
    by (apply muldiv_nonneg; lia).
  assert (0 <= free_balance b pool (ext s) * share_amount / total_liquidity pool s)
    by (apply muldiv_nonneg; lia).
  assert (0 <= share_amount) by lia.
  ledger_laws. unfold pool_exists in *. propify.
  split; [done|]. split; [lia|]. split; [done|]. do 2 eexists. do 2 (split; [done|]).
  case_match eqn:El.
  - inv_xyk. match goal with |- context [remove_account T pool ?y] =>
      pose proof (remove_account_frames pool y) as [Hr1 Hr2] end.
    split_and!; try done.
    + by rewrite delete_insert_eq.
    + intros. rewrite Hr1. ledger_rewrite. lia.
    + intros. rewrite Hr2. ledger_rewrite. lia.
  - inv_run. split_and!; try done; intros; ledger_rewrite; lia.
Qed.

Lemma create_pool_effect o a amount_a b amount_b s u s' :
  0 <= amount_a → 0 <= amount_b →
  create_pool o a amount_a b amount_b s = Ok (u, s') →
  let pool := get_pair_id (mkAssetPair a b) in
  let shares := if a <? b then amount_a else amount_b in
  ∃ who t x, o = Signed who ∧ a ≠ b ∧ ShareToken s !! pool = None ∧
    get_or_register_insufficient_asset T (name (mkAssetPair a b)) (ext s) = Ok (t, x) ∧
    MinPoolLiquidity T <= amount_a ∧ MinPoolLiquidity T <= amount_b ∧
    ShareToken s' = <[pool := t]> (ShareToken s) ∧
    PoolAssets s' = <[pool := (a, b)]> (PoolAssets s) ∧
    TotalLiquidity s' = <[pool := shares]> (TotalLiquidity s) ∧
    (∀ c acc, free_balance c acc (ext s') = free_balance c acc (ext s)
       + moved a who pool amount_a c acc + moved b who pool amount_b c acc
       + when (c = t ∧ acc = who) shares) ∧
    (∀ c, total_issuance c (ext s') = total_issuance (AccountId := AccountId) c (ext s) + when (c = t) shares).
Proof.
  intros Ha Hb Hrun. unfold create_pool in Hrun. destruct o; inv_xyk; try done. propify.
  set (pool := get_pair_id (mkAssetPair a b)) in *.
  set (shares := if a <? b then amount_a else amount_b) in *.
  assert (0 <= shares) by (unfold shares; by case_match).
  match goal with Hr : get_or_register_insufficient_asset _ _ _ = Ok _ |- _ =>
    pose proof (register_frames _ _ _ _ Hr) as [? ?] end.
  match goal with Hr : add_account _ _ (on_create_pool _ _ _ ?y) = Ok _ |- _ =>
    pose proof (on_create_pool_frames a b y) as [? ?] end.
  ledger_laws. unfold pool_exists in *. propify.
  do 3 eexists. split_and!; try done; try (intros; ledger_rewrite; lia).
  by apply eq_None_not_Some.
Qed.

(** ** Transitions of the pallet

    [keyless who]: no pool account signs an extrinsic.  [fresh_share_token]:
    the registry hands out a token that nobody holds and no live pool uses. *)
Definition keyless who : Prop := ∀ a b, who ≠ from_assets T a b.
Definition fresh_share_token p s : Prop :=
  ∀ t x, get_or_register_insufficient_asset T (name p) (ext s) = Ok (t, x) →
    total_issuance (AccountId := AccountId) t (ext s) = 0 ∧ ∀ acc, ShareToken s !! acc ≠ Some t.

Inductive step s s' : Prop :=
| step_create who a amount_a b amount_b u :
    keyless who → fits u128 amount_a → fits u128 amount_b → fresh_share_token (mkAssetPair a b) s →
    create_pool (Signed who) a amount_a b amount_b s = Ok (u, s') → step s s'
| step_add who a b amount_a limit u :
    keyless who → fits u128 amount_a →
    add_liquidity (Signed who) a b amount_a limit s = Ok (u, s') → step s s'
| step_add_with_limits who a b amount_a limit min_shares u :
    keyless who → fits u128 amount_a →
    add_liquidity_with_limits (Signed who) a b amount_a limit min_shares s = Ok (u, s') → step s s'
| step_remove who a b share_amount u :
    keyless who → remove_liquidity (Signed who) a b share_amount s = Ok (u, s') → step s s'
| step_remove_with_limits who a b share_amount min_a min_b u :
    keyless who →
    remove_liquidity_with_limits (Signed who) a b share_amount min_a min_b s = Ok (u, s') → step s s'
| step_sell who a_in a_out amount limit discount u :
    keyless who → fits u128 amount →
    sell (Signed who) a_in a_out amount limit discount s = Ok (u, s') → step s s'
| step_buy who a_out a_in amount limit discount u :
    keyless who → fits u128 amount →
    buy (Signed who) a_out a_in amount limit discount s = Ok (u, s') → step s s'
| step_transfer who dest c amount x :
    keyless who → fits u128 amount →
    transfer c who dest amount AllowDeath (ext s) = Ok x → s' = set_ext x s → step s s'
| step_buy_for who p amount limit dest u :
    keyless who → fits u128 amount →
    buy_for who p amount limit dest s = Ok (u, s') → step s s'.

(** The reserves of the pool of [a] and [b], its shares, and their product. *)
Definition pool_of (a b : AssetId) : AccountId := from_assets T a b.
Definition reserve (a b c : AssetId) s : Z := free_balance c (pool_of a b) (ext s).
Definition product (a b : AssetId) s : Z := reserve a b a s * reserve a b b s.
Definition supply (a b : AssetId) s : Z := total_liquidity (pool_of a b) s.

(** [k] per squared share does not fall between [s] and [s']. *)
Definition value_le (a b : AssetId) s s' : Prop :=
  product a b s * (supply a b s' * supply a b s') <= product a b s' * (supply a b s * supply a b s).

(** A pool the operation is not about: it may only receive a donation. *)
Definition spared (a b : AssetId) s s' : Prop :=
  (∀ c, reserve a b c s <= reserve a b c s') ∧ supply a b s' = supply a b s ∧
  ShareToken s' !! pool_of a b = ShareToken s !! pool_of a b.

(** The invariant of the pallet: a pool has shares exactly while it has a
    share token, no two pools have the same token, and the recorded
    liquidity of a pool is the issuance of its token. *)
Record wf s : Prop := mk_wf {
  wf_nonneg acc : 0 <= total_liquidity acc s;
  wf_closed acc : ShareToken s !! acc = None → TotalLiquidity s !! acc = None;
  wf_inj acc acc' t : ShareToken s !! acc = Some t → ShareToken s !! acc' = Some t → acc = acc';
  wf_issuance acc t : ShareToken s !! acc = Some t →
    total_issuance (AccountId := AccountId) t (ext s) = total_liquidity acc s;
}.

Lemma wf_same s s' :
  ShareToken s' = ShareToken s → TotalLiquidity s' = TotalLiquidity s →
  (∀ c, total_issuance c (ext s') = total_issuance (AccountId := AccountId) c (ext s)) → wf s → wf s'.
Proof.
  intros Ht Hl Hi [Hn Hc Hj Hs]. unfold total_liquidity in *.
  split; unfold total_liquidity; rewrite ?Ht, ?Hl; try done. intros acc t. rewrite Hi. apply Hs.
Qed.

(** Minting or burning the shares of an open pool. *)
Lemma wf_shift acc n s s' :
  is_Some (ShareToken s !! acc) → 0 <= n → ShareToken s' = ShareToken s →
  TotalLiquidity s' = <[acc := n]> (TotalLiquidity s) →
  (∀ c, total_issuance c (ext s') = total_issuance (AccountId := AccountId) c (ext s)
          + when (c = share_token acc s) (n - total_liquidity acc s)) → wf s → wf s'.
Proof.
  intros [t Ht0] Hn0 Ht Hl Hi [Hn Hc Hj Hs]. unfold share_token, total_liquidity in *.
  rewrite Ht0 in Hi. simpl in Hi. split; unfold total_liquidity; rewrite ?Ht, ?Hl.
  - intros acc'. destruct (decide (acc' = acc)) as [->|]; simplify_map_eq; auto.
  - intros acc' E. destruct (decide (acc' = acc)) as [->|]; simplify_map_eq; auto.
  - done.
  - intros acc' t' E. rewrite Hi. destruct (decide (acc' = acc)) as [->|].
    + simplify_map_eq. rewrite (Hs acc) by done. unfold when. rewrite decide_True by done. lia.
    + rewrite lookup_insert_ne, (Hs acc'), when_other_asset by (try done; intros ->; naive_solver). lia.
Qed.

Lemma wf_close acc s s' :
  is_Some (ShareToken s !! acc) → ShareToken s' = delete acc (ShareToken s) →
  TotalLiquidity s' = delete acc (TotalLiquidity s) →
  (∀ c, c ≠ share_token acc s →
     total_issuance c (ext s') = total_issuance (AccountId := AccountId) c (ext s)) → wf s → wf s'.
Proof.
  intros [t Ht0] Ht Hl Hi [Hn Hc Hj Hs]. unfold share_token, total_liquidity in *.
  rewrite Ht0 in Hi. simpl in Hi. split; unfold total_liquidity; rewrite ?Ht, ?Hl.
  - intros acc'. destruct (decide (acc' = acc)) as [->|]; by simplify_map_eq.
  - intros acc' E. destruct (decide (acc' = acc)) as [->|]; simplify_map_eq; auto.
  - intros acc1 acc2 t' (_ & E1)%lookup_delete_Some (_ & E2)%lookup_delete_Some. eauto.
  - intros acc' t' E. apply lookup_delete_Some in E as [Hne E].
    rewrite lookup_delete_ne, Hi by (try done; intros ->; naive_solver). auto.
Qed.

Lemma wf_open acc t n s s' :
  ShareToken s !! acc = None → (∀ acc', ShareToken s !! acc' ≠ Some t) → 0 <= n →
  ShareToken s' = <[acc := t]> (ShareToken s) → TotalLiquidity s' = <[acc := n]> (TotalLiquidity s) →
  total_issuance (AccountId := AccountId) t (ext s) = 0 →
  (∀ c, total_issuance c (ext s') = total_issuance (AccountId := AccountId) c (ext s) + when (c = t) n) →
  wf s → wf s'.
Proof.
  intros Hnone Hnew Hn0 Ht Hl Hz Hi [Hn Hc Hj Hs]. unfold total_liquidity in *.
  split; unfold total_liquidity; rewrite ?Ht, ?Hl.
  - intros acc'. destruct (decide (acc' = acc)) as [->|]; simplify_map_eq; auto.
  - intros acc' E. destruct (decide (acc' = acc)) as [->|]; simplify_map_eq; auto.
  - intros acc1 acc2 t' E1 E2. rewrite !lookup_insert_Some in *. naive_solver.
  - intros acc' t' E. rewrite Hi. destruct (decide (acc' = acc)) as [->|].
    + simplify_map_eq. rewrite Hz. unfold when. rewrite decide_True by done. lia.
    + rewrite lookup_insert_ne in E by done.
      rewrite lookup_insert_ne, (Hs acc'), when_other_asset by (try done; intros ->; naive_solver). lia.
Qed.

(** What one operation on the pool of [c] and [d] does: it keeps its own
    pool's value per share and takes nothing from any other pool. *)
Definition pool_op (c d : AssetId) s s' : Prop :=
  is_Some (ShareToken s !! pool_of c d) ∧
  (c ≠ d → value_le c d s s') ∧
  (∀ a b, pool_of a b ≠ pool_of c d → spared a b s s') ∧
  (wf s → wf s').

Ltac unfold_pool :=
  unfold pool_op, spared, supply, total_liquidity, reserve, pool_of,
    get_pair_id, pair_account_from_assets in *; simpl in *.

Lemma value_le_same_supply a b s s' :
  supply a b s' = supply a b s → product a b s <= product a b s' → value_le a b s s'.
Proof. unfold value_le. intros ->. nia. Qed.

Lemma spared_value a b s s' : spared a b s s' → value_le a b s s'.
Proof.
  intros (Hr & HS & _). apply value_le_same_supply; [done|].
  apply Z.mul_le_mono_nonneg; auto; apply balance_nonneg.
Qed.

Lemma moved_from_other (c : AssetId) (f t : AccountId) v c' a :
  0 <= v → a ≠ f → 0 <= moved c f t v c' a.
Proof. unfold moved, when. intros. repeat case_decide; naive_solver lia. Qed.

Lemma sell_pool_op who c d amount limit discount s u s' :
  keyless who → fits u128 amount →
  sell (Signed who) c d amount limit discount s = Ok (u, s') → pool_op c d s s'.
Proof.
  intros Hk Ha Hrun. unfold sell in Hrun. inv_xyk.
  match goal with Hv : validate_sell _ _ _ _ _ = Ok _ |- _ =>
    apply validate_sell_Ok in Hv as (-> & out & f & -> & Hout & Hf & _ & Hlt & _ & Hex); [|done] end.
  pose proof (fits_nonneg _ _ Ha) as Ha0. simpl in *.
  match goal with He : execute_sell _ _ = Ok _ |- _ =>
    apply execute_sell_effect in He as ((Hst & Htl & _) & Hbal & Hiss); simpl in *; [|lia..] end.
  pose proof (Hk c d) as Hwho.
  split; [done|]. split; [intros Hcd; apply value_le_same_supply|].
  - unfold_pool. by rewrite Htl.
  - unfold product, reserve, pool_of, get_pair_id, pair_account_from_assets in *. simpl in *.
    rewrite !Hbal. autorewrite with ledger. rewrite Z.add_0_r, Z.add_0_r, Hout.
    apply sell_keeps_product; try apply balance_nonneg; lia.
  - split; [|by apply wf_same]. unfold_pool. rewrite Htl, Hst.
    intros a b Hne; split_and!; [|done..]; intros e.
    pose proof (Hk a b). rewrite Hbal. autorewrite with ledger. lia.
Qed.

Lemma buy_pool_op who c d amount limit dest s u s' :
  keyless who → fits u128 amount →
  (tr ← validate_buy who (mkAssetPair c d) amount limit; execute_buy tr dest) s = Ok (u, s') →
  pool_op c d s s'.
Proof.
  intros Hk Ha Hrun. inv_xyk.
  match goal with Hv : validate_buy _ _ _ _ _ = Ok _ |- _ =>
    apply validate_buy_Ok in Hv as (-> & price & f & -> & Hp & Hp0 & Hf & _ & Hsum & Hlt & _ & Hex); [|done] end.
  pose proof (fits_nonneg _ _ Ha) as Ha0. simpl in *.
  match goal with He : execute_buy _ _ _ = Ok _ |- _ =>
    apply execute_buy_effect in He as ((Hst & Htl & _) & Hbal & Hiss); simpl in *; [|lia..] end.
  pose proof (Hk c d) as Hwho.
  split; [done|]. split; [intros Hcd; apply value_le_same_supply|].
  - unfold_pool. by rewrite Htl.
  - unfold product, reserve, pool_of, get_pair_id, pair_account_from_assets in *. simpl in *.
    pose proof (balance_nonneg c (from_assets T c d) (ext s)) as HC.
    rewrite !Hbal. destruct (decide (default who dest = from_assets T c d)) as [E|];
      [rewrite E|]; autorewrite with ledger; rewrite ?Z.add_0_r;
      (apply (buy_keeps_product _ _ amount price f); [lia..|exact Hp|lia]).
  - split; [|by apply wf_same]. unfold_pool. rewrite Htl, Hst.
    intros a b Hne; split_and!; [|done..]; intros e.
    pose proof (Hk a b). rewrite Hbal.
    pose proof (moved_from_other d (from_assets T c d) (default who dest) amount e _ Ha0 Hne).
    pose proof (moved_from_other c who (from_assets T c d) (price + f) e (from_assets T a b)
      ltac:(lia) ltac:(done)). lia.
Qed.

Lemma liquidity_in_nonneg a_reserve b_reserve amount x :
  0 <= a_reserve → 0 <= b_reserve → 0 <= amount →
  calculate_liquidity_in a_reserve b_reserve amount = Ok x → 0 < a_reserve ∧ amount * b_reserve <= x * a_reserve.
Proof.
  intros Ha ? ? Hl. assert (0 < a_reserve).
  { apply liquidity_in_value in Hl as (? & _). lia. }
  split; [done|]. apply liquidity_in_pro_rata in Hl as [? _]; done.
Qed.

Lemma add_pool_op who c d amount lim min_shares s shares s' :
  keyless who → fits u128 amount → wf s →
  do_add_liquidity who c d amount lim min_shares s = Ok (shares, s') → pool_op c d s s'.
Proof.
  intros Hk Ha Hwf Hrun. pose proof (fits_nonneg _ _ Ha) as Ha0.
  apply do_add_liquidity_effect in Hrun as (Hex & y & Hin & Hsh & Hy & _ & Hs0 & Hst & _ & Htl & Hbal & Hiss);
    [|done|by apply wf_nonneg].
  apply liquidity_in_nonneg in Hin as [HC Hin]; [|by apply balance_nonneg..|done].
  apply shares_value in Hsh as (_ & Hsh & _).
  split; [done|]. pose proof (Hk c d) as Hwho. split_and!.
  - intros Hcd. unfold value_le, product. unfold_pool. rewrite Htl, !Hbal, lookup_insert_eq.
    autorewrite with ledger. simpl. rewrite !Z.add_0_r.
    destruct (add_liquidity_no_dilution _ _ (total_liquidity (from_assets T c d) s) amount y shares HC
      (balance_nonneg d (from_assets T c d) (ext s))) as [? ?]; try done; [by apply wf_nonneg|].
    pose proof (wf_nonneg _ Hwf (from_assets T c d)).
    apply product_per_share; try apply balance_nonneg; unfold total_liquidity in *; lia || done.
  - intros a b Hne. unfold_pool. rewrite Htl, Hst, lookup_insert_ne by done. split_and!; [|done..].
    intros e. pose proof (Hk a b). rewrite Hbal. autorewrite with ledger. lia.
  - pose proof (wf_nonneg _ Hwf (from_assets T c d)) as Hn.
    apply (wf_shift (from_assets T c d) (total_liquidity (from_assets T c d) s + shares)); try done; [unfold_pool; lia|].
    intros e. rewrite Hiss. f_equal. f_equal. unfold_pool. lia.
Qed.

Lemma remove_pool_op who c d share_amount min_a min_b s u s' :
  keyless who → wf s →
  do_remove_liquidity who c d share_amount min_a min_b s = Ok (u, s') → pool_op c d s s'.
Proof.
  intros Hk Hwf Hrun.
  apply do_remove_liquidity_effect in Hrun
    as (Hex & Hs0 & _ & x & y & Hx & Hy & _ & _ & Hst & _ & Htl & Hbal & Hiss); [|by apply wf_nonneg].
  assert (∀ acc, default 0 (TotalLiquidity s' !! acc) = if decide (acc = from_assets T c d)
    then total_liquidity (from_assets T c d) s - share_amount else default 0 (TotalLiquidity s !! acc)) as Htl'.
  { intros acc. unfold_pool. rewrite Htl. case_decide; subst; destruct (Z.eqb_spec
      (default 0 (TotalLiquidity s !! from_assets T c d) - share_amount) 0); by simplify_map_eq. }
  split; [done|]. pose proof (Hk c d) as Hwho. split_and!.
  - intros Hcd. unfold value_le, product. unfold_pool. rewrite Htl', decide_True, !Hbal by done.
    autorewrite with ledger. rewrite ?Z.add_0_r, ?Z.sub_0_r, !Z.add_opp_r, Hx, Hy, (Z.mul_comm _ share_amount).
    apply product_per_share; try apply balance_nonneg; try lia;
      apply remove_liquidity_no_dilution; try apply balance_nonneg; unfold total_liquidity in *; lia.
  - intros a b Hne. unfold_pool. rewrite Htl', decide_False, Hst by done. split_and!; [|done|].
    + intros e. pose proof (Hk a b). rewrite Hbal. autorewrite with ledger. lia.
    + case_match; [|done]. by rewrite lookup_delete_ne.
  - case_match.
    + apply (wf_close (from_assets T c d)); try done. intros e He.
      rewrite Hiss, when_other_asset by done. lia.
    + apply (wf_shift (from_assets T c d) (total_liquidity (from_assets T c d) s - share_amount)); try done;
        [unfold_pool; lia|].
      intros e. rewrite Hiss. unfold_pool. unfold when. case_decide; lia.
Qed.

Lemma create_pool_op who c x d y s u s' :
  keyless who → fits u128 x → fits u128 y → fresh_share_token (mkAssetPair c d) s → wf s →
  create_pool (Signed who) c x d y s = Ok (u, s') →
  ShareToken s !! pool_of c d = None ∧ (∀ a b, pool_of a b ≠ pool_of c d → spared a b s s') ∧ wf s'.
Proof.
  intros Hk Hx Hy Hf Hwf Hrun. pose proof (fits_nonneg _ _ Hx). pose proof (fits_nonneg _ _ Hy).
  apply create_pool_effect in Hrun as (? & t & z & [= <-] & Hcd & Hnone & Hreg & _ & _ & Hst & _ & Htl & Hbal & Hiss);
    [|done..]. apply Hf in Hreg as [Hz Hnew].
  assert (0 <= if c <? d then x else y) by (by case_match).
  split; [done|]. split.
  - intros a b Hne. unfold_pool. rewrite Htl, Hst, !lookup_insert_ne by done. split_and!; [|done..].
    intros e. pose proof (Hk a b). rewrite Hbal. autorewrite with ledger. lia.
  - by apply (wf_open (pool_of c d) t (if c <? d then x else y) s).
Qed.

Lemma transfer_pool_op who dest c amount s x :
  keyless who → fits u128 amount →
  transfer c who dest amount AllowDeath (ext s) = Ok x →
  (∀ a b, spared a b s (set_ext x s)) ∧ (wf s → wf (set_ext x s)).
Proof.
  intros Hk Ha Ht. pose proof (fits_nonneg _ _ Ha) as Ha0.
  apply transfer_moves in Ht as (_ & Hbal & Hiss); [|done]. split; [|by apply wf_same].
  intros a b. split_and!; [|done..]. intros e. unfold reserve. simpl. rewrite Hbal.
  pose proof (moved_from_other c who dest amount e (pool_of a b) Ha0 (λ E, Hk a b (eq_sym E))). lia.
Qed.

Lemma value_le_sym a b s s' : value_le a b s s' → value_le b a s s'.
Proof.
  unfold value_le, product, supply, reserve, pool_of. rewrite (from_assets_sym b a).
  intros ?. by rewrite !(Z.mul_comm (free_balance b _ _)).
Qed.

Definition kept s s' : Prop :=
  wf s' ∧ ∀ a b, a ≠ b → ShareToken s !! pool_of a b = None ∨ value_le a b s s'.

Lemma pool_op_kept c d s s' : wf s → pool_op c d s s' → kept s s'.
Proof.
  intros Hwf (_ & Hv & Hsp & Hwf'). split; [by apply Hwf'|]. intros a b Hab. right.
  destruct (decide (pool_of a b = pool_of c d)) as [E|]; [|by apply spared_value, Hsp].
  apply from_assets_inj in E as [[-> ->]|[-> ->]]; [by apply Hv|by apply value_le_sym, Hv].
Qed.

Lemma step_kept s s' : wf s → step s s' → kept s s'.
Proof.
  intros Hwf. destruct 1 as [who c x d y u Hk Hx Hy Hf Hr | who c d x l u Hk Hx Hr | who c d x l m u Hk Hx Hr
    | who c d x u Hk Hr | who c d x l m u Hk Hr | who c d x l disc u Hk Hx Hr
    | who d c x l disc u Hk Hx Hr | who dest c x y Hk Hx Hr -> | who [c d] x l dest u Hk Hx Hr].
  - apply create_pool_op in Hr as (Hnone & Hsp & Hwf'); [|done..]. split; [done|]. intros a b _.
    destruct (decide (pool_of a b = pool_of c d)) as [->|]; [by left|right; by apply spared_value, Hsp].
  - unfold add_liquidity in Hr. inv_xyk. by eapply pool_op_kept, add_pool_op.
  - unfold add_liquidity_with_limits in Hr. inv_xyk. by eapply pool_op_kept, add_pool_op.
  - unfold remove_liquidity in Hr. inv_xyk. by eapply pool_op_kept, remove_pool_op.
  - unfold remove_liquidity_with_limits in Hr. inv_xyk. by eapply pool_op_kept, remove_pool_op.
  - by eapply pool_op_kept, sell_pool_op.
  - eapply pool_op_kept, buy_pool_op; [done..|exact Hr].
  - apply transfer_pool_op in Hr as [Hsp Hwf']; [|done..]. split; [by apply Hwf'|].
    intros a b _. right. by apply spared_value.
  - eapply pool_op_kept, buy_pool_op; [done..|exact Hr].
Qed.

(** ** The value of a share

    One step of the chain through which the pool of [a] and [b] lives. *)
Definition alive_step (a b : AssetId) s s' : Prop :=
  step s s' ∧ 0 < supply a b s ∧ 0 < supply a b s'.

Lemma value_le_trans a b s1 s2 s3 :
  0 < supply a b s2 → value_le a b s1 s2 → value_le a b s2 s3 → value_le a b s1 s3.
Proof.
  unfold value_le. set (P1 := product a b s1). set (P2 := product a b s2). set (P3 := product a b s3).
  set (S1 := supply a b s1). set (S2 := supply a b s2). set (S3 := supply a b s3). intros HS H12 H23.
  apply (Zmult_le_reg_r _ _ (S2 * S2)); [nia|].
  transitivity (P2 * (S1 * S1) * (S3 * S3)); [|nia].
  replace (P1 * (S3 * S3) * (S2 * S2)) with (P1 * (S2 * S2) * (S3 * S3)) by ring.
  apply Z.mul_le_mono_nonneg_r; [apply Z.square_nonneg|done].
Qed.

Lemma supply_live a b s : wf s → 0 < supply a b s → is_Some (ShareToken s !! pool_of a b).
Proof.
  intros Hwf Hs. destruct (ShareToken s !! pool_of a b) eqn:E; [done|].
  apply (wf_closed _ Hwf) in E. unfold supply, total_liquidity in Hs. by rewrite E in Hs.
Qed.

(** C3: however users trade, add and remove liquidity, create pools and send
    tokens around, the product of a pool's reserves per squared share never
    falls while the pool lives: no sequence of operations dilutes a share. *)
Theorem share_value_never_falls a b s s' :
  a ≠ b → wf s → rtc (alive_step a b) s s' → value_le a b s s'.
Proof.
  intros Hab Hwf Htr. induction Htr as [s|s1 s2 s3 (Hst & Hs1 & Hs2) _ IH].
  - unfold value_le. lia.
  - apply step_kept in Hst as [Hwf2 Hv]; [|done].
    destruct (Hv a b Hab) as [E|Hle]; [by apply supply_live in Hs1 as [? ?]; [congruence|]|].
    apply (value_le_trans a b s1 s2 s3); auto.
Qed.


(** ** Quotes and settlement *)

(** Evaluates a run forward with the equations in the context. *)
Ltac eval_run :=
  unfold calculate_fee, executor, math_or, some_or, mbind, M_bind, ensureM, lift, get; simpl;
  rewrite ?bool_decide_true by done; simpl;
  repeat match goal with
  | E : ?l = _ |- context [ensure ?l _] => rewrite E; simpl
  | E : ?l = _ |- context [ok_or ?l _] => rewrite E; simpl
  | E : ?l = _ |- context [map_err _ ?l] => rewrite E; simpl
  end.

Lemma validate_sell_quote who c d amount min_bought s tr s1 :
  validate_sell who (mkAssetPair c d) amount min_bought s = Ok (tr, s1) →
  quote_out_given_in PoolType.XYK c d amount s = Ok (amount_b tr, s).
Proof.
  intros Hrun. unfold validate_sell, calculate_fee in Hrun. inv_xyk.
  unfold quote_out_given_in. eval_run. by rewrite checked_sub_ok.
Qed.

Lemma validate_buy_quote who c d amount max_limit s tr s1 :
  validate_buy who (mkAssetPair c d) amount max_limit s = Ok (tr, s1) →
  quote_in_given_out PoolType.XYK c d amount s = Ok (amount_b tr + (fee tr).2, s).
Proof.
  intros Hrun. unfold validate_buy, calculate_fee in Hrun. inv_xyk.
  unfold quote_in_given_out. eval_run. by rewrite checked_add_ok.
Qed.

(** A sale through the executor pays exactly what the quote on the state
    before it promised, at least the seller's limit; it takes exactly the sold
    amount, and no other balance of any account changes. *)
Theorem sell_settles_at_quote who c d amount limit s u s' :
  fits u128 amount →
  executor_sell (Signed who) PoolType.XYK c d amount limit s = Ok (u, s') →
  ∃ received, quote_out_given_in PoolType.XYK c d amount s = Ok (received, s) ∧ limit <= received ∧
    ∀ e acc, free_balance e acc (ext s') = free_balance e acc (ext s)
      + moved c who (pool_of c d) amount e acc + moved d (pool_of c d) who received e acc.
Proof.
  intros Ha Hrun. unfold executor_sell in Hrun. inv_xyk.
  rewrite executor_Ok in Hrun. unfold sell in Hrun. inv_xyk.
  pose proof (fits_nonneg _ _ Ha) as Ha0.
  match goal with Hv : validate_sell _ _ _ _ _ = Ok _ |- _ =>
    pose proof (validate_sell_quote _ _ _ _ _ _ _ _ Hv) as Hq;
    apply validate_sell_Ok in Hv as (-> & out & f & -> & Hout & Hf & Hlim & Hlt & _ & Hex); [|done] end.
  simpl in *. match goal with He : execute_sell _ _ = Ok _ |- _ =>
    apply execute_sell_effect in He as (_ & Hbal & _); simpl in *; [|lia..] end.
  eauto.
Qed.

(** A purchase through the executor costs exactly what the quote on the
    state before it promised, at most the buyer's limit; it delivers exactly
    the bought amount, and no other balance of any account changes. *)
Theorem buy_settles_at_quote who c d amount limit s u s' :
  fits u128 amount →
  executor_buy (Signed who) PoolType.XYK c d amount limit s = Ok (u, s') →
  ∃ paid, quote_in_given_out PoolType.XYK c d amount s = Ok (paid, s) ∧ paid <= limit ∧
    ∀ e acc, free_balance e acc (ext s') = free_balance e acc (ext s)
      + moved d (pool_of c d) who amount e acc + moved c who (pool_of c d) paid e acc.
Proof.
  intros Ha Hrun. unfold executor_buy in Hrun. inv_xyk.
  rewrite executor_Ok in Hrun. unfold buy in Hrun. inv_xyk.
  pose proof (fits_nonneg _ _ Ha) as Ha0.
  match goal with Hv : validate_buy _ _ _ _ _ = Ok _ |- _ =>
    pose proof (validate_buy_quote _ _ _ _ _ _ _ _ Hv) as Hq;
    apply validate_buy_Ok in Hv as (-> & price & f & -> & _ & Hp & Hf & Hlim & Hsum & _); [|done] end.
  simpl in *. match goal with He : execute_buy _ _ _ = Ok _ |- _ =>
    apply execute_buy_effect in He as (_ & Hbal & _); simpl in *; [|lia..] end.
  eauto.
Qed.
End pallet.

(** ** Names of share tokens *)

Lemma u32_to_le_bytes_inj x y :
  fits u32 x → fits u32 y → u32_to_le_bytes x = u32_to_le_bytes y → x = y.
Proof.
  unfold fits, max_value, u32, u32_to_le_bytes. intros Hx Hy [= H0 H1 H2 H3].
  change (2 ^ 32 - 1) with 4294967295 in *. Z.to_euclidean_division_equations. lia.
Qed.

(** Two pools have the same share-token name exactly when they are pools of
    the same two assets, in whatever order. *)
Theorem name_injective p q :
  fits u32 (asset_in p) → fits u32 (asset_out p) → fits u32 (asset_in q) → fits u32 (asset_out q) →
  name p = name q ↔
  (asset_in p = asset_in q ∧ asset_out p = asset_out q) ∨ (asset_in p = asset_out q ∧ asset_out p = asset_in q).
Proof.
  destruct p as [a b], q as [c d]. unfold name, ordered_pair.
  cbn [asset_in asset_out]. intros Ha Hb Hc Hd. split.
  - destruct (Z.leb_spec a b), (Z.leb_spec c d); intros [E1 [_ E2]%app_inj_1]%app_inj_1; try done;
      apply u32_to_le_bytes_inj in E1, E2; auto.
  - intros [[-> ->]|[-> ->]]; [done|]. destruct (Z.leb_spec c d), (Z.leb_spec d c); try done; [|lia].
    by replace d with c by lia.
Qed.

Lemma name_injective_witness : name (mkAssetPair 5 300) = name (mkAssetPair 300 5).
Proof. apply name_injective; simpl; compute_done. Defined.

(** ** A concrete chain

    A configuration on the concrete ledger, and a run on it: account [-1]
    creates the pool of assets 1 and 2, then trades and provides liquidity. *)
Module Demo.
Definition pool_account (a b : Z) : Z := Zpos (encode (Z.min a b, Z.max a b)).

Definition config : Config ledger Z := {|
  GetExchangeFee := (3, 1000);
  MinTradingLimit := 1000;
  MinPoolLiquidity := 1000;
  MaxInRatio := 3;
  MaxOutRatio := 3;
  can_create _ _ _ := true;
  from_assets := pool_account;
  name_fits l := bool_decide (length l <= 32)%nat;
  get_or_register_insufficient_asset nm l := Ok (Zpos (encode nm), l);
  on_create_pool _ _ l := l;
  add_account _ l := Ok l;
  remove_account _ l := l;
  on_trade _ _ _ _ _ _ _ _ l := Ok l;
  on_liquidity_changed _ _ _ _ _ _ _ _ l := Ok l;
|}.

#[global] Instance config_laws : ConfigLaws config.
Proof.
  split; simpl; try done; try (intros; intros ? ? [= ->]; done).
  - intros ? ? ? ? [= _ ->]. done.
  - intros. unfold pool_account. by rewrite Z.min_comm, Z.max_comm.
  - intros a b c d [= E%(inj encode)]. simplify_eq. lia.
Qed.

Definition alice : Z := -1.
Definition genesis : state ledger Z :=
  mkState ∅ ∅ ∅ [] (mkBroadcast 0 [] None [])
    {| balances := <[(1, alice) := 1000000000]> (<[(2, alice) := 1000000000]> ∅); issuance := ∅ |}.
Definition created := run (create_pool config (Signed alice) 1 1000000 2 2000000) genesis.
Definition sold := run (sell config (Signed alice) 1 2 10000 1 false) created.
Definition added := run (add_liquidity config (Signed alice) 1 2 500000 2000000) sold.
Definition bought := run (buy config (Signed alice) 1 2 7777 50000 false) added.
Definition removed := run (remove_liquidity config (Signed alice) 1 2 300000) bought.

Lemma alice_keyless : keyless config alice.
Proof. intros a b. unfold alice. simpl. unfold pool_account. done. Qed.

Lemma xyk_genesis_wf : wf genesis.
Proof. by split. Qed.

Lemma step_created : step config genesis created.
Proof.
  eapply (step_create _ _ _ alice 1 1000000 2 2000000 tt); [apply alice_keyless|compute_done..| |].
  - intros t x [= <- <-]. split; [by vm_compute|done].
  - apply (run_Ok (create_pool config (Signed alice) 1 1000000 2 2000000)). by vm_compute.
Qed.

Lemma created_wf : wf created.
Proof. apply (step_kept config genesis); [apply xyk_genesis_wf|apply step_created]. Qed.

Lemma alive_trace : rtc (alive_step config 1 2) created removed.
Proof.
  apply (rtc_l _ _ sold).
  { split; [|by vm_compute]. eapply step_sell; [apply alice_keyless| |apply run_Ok; by vm_compute]. compute_done. }
  apply (rtc_l _ _ added).
  { split; [|by vm_compute]. eapply step_add; [apply alice_keyless| |apply run_Ok; by vm_compute]. compute_done. }
  apply (rtc_l _ _ bought).
  { split; [|by vm_compute]. eapply step_buy; [apply alice_keyless| |apply run_Ok; by vm_compute]. compute_done. }
  apply rtc_once.
  split; [|by vm_compute]. eapply step_remove; [apply alice_keyless|apply run_Ok; by vm_compute].
Qed.

Lemma xyk_trace : rtc (step config) genesis removed.
Proof.
  eapply rtc_l; [apply step_created|]. eapply rtc_subrel; [|apply alive_trace]. by intros ? ? [].
Qed.
End Demo.

Lemma share_value_never_falls_witness : value_le Demo.config 1 2 Demo.created Demo.removed.
Proof. apply (share_value_never_falls Demo.config 1 2); [done|apply Demo.created_wf|apply Demo.alive_trace]. Defined.


Lemma sell_settles_at_quote_witness :
  ∃ received, quote_out_given_in Demo.config PoolType.XYK 1 2 10000 Demo.created = Ok (received, Demo.created) ∧
    100 <= received.
Proof.
  destruct (sell_settles_at_quote Demo.config Demo.alice 1 2 10000 100 Demo.created tt
    (run (sell Demo.config (Signed Demo.alice) 1 2 10000 100 false) Demo.created)) as (r & Hq & Hr & _).
  - compute_done.
  - vm_compute. reflexivity.
  - exists r. by split.
Defined.

Lemma buy_settles_at_quote_witness :
  ∃ paid, quote_in_given_out Demo.config PoolType.XYK 1 2 10000 Demo.created = Ok (paid, Demo.created) ∧
    paid <= 100000.
Proof.
  destruct (buy_settles_at_quote Demo.config Demo.alice 1 2 10000 100000 Demo.created tt
    (run (buy Demo.config (Signed Demo.alice) 2 1 10000 100000 false) Demo.created)) as (r & Hq & Hr & _).
  - compute_done.
  - vm_compute. reflexivity.
  - exists r. by split.
Defined.
