(* ===== verification/OmnipoolTypes.v ===== *)
(** * Data of the Omnipool math

    Models [math/src/omnipool/types.rs]: the state of an asset, the signed
    updates the math returns and their application, and the signed balance that
    accumulates hub-asset flow.  The theorems show that both signed types are
    exact integers: every operation is the integer one, or reports overflow. *)

From S2P Require Import Prelude Arithmetic Currency.

Record AssetReserveState := mkReserve {
  reserve : Balance;
  hub_reserve : Balance;
  shares : Balance;
  protocol_shares : Balance;
}.

Module BalanceUpdate.
Inductive t := Increase (amount : Balance) | Decrease (amount : Balance).

(** [CheckedAdd], also behind [merge]. *)
Definition checked_add (self v : t) : option t :=
  match self, v with
  | Increase a, Increase b => c ← Prelude.checked_add u128 a b; Some (Increase c)
  | Decrease a, Decrease b => c ← Prelude.checked_add u128 a b; Some (Decrease c)
  | Increase a, Decrease b =>
      if b <=? a then c ← checked_sub a b; Some (Increase c)
      else c ← checked_sub b a; Some (Decrease c)
  | Decrease a, Increase b =>
      if b <=? a then c ← checked_sub a b; Some (Decrease c)
      else c ← checked_sub b a; Some (Increase c)
  end.
Definition merge (self other : t) : option t := checked_add self other.

(** [SaturatingAdd], behind [saturating_merge]. *)
Definition saturating_add (self rhs : t) : t :=
  match self, rhs with
  | Increase a, Increase b => Increase (Prelude.saturating_add u128 a b)
  | Decrease a, Decrease b => Decrease (Prelude.saturating_add u128 a b)
  | Increase a, Decrease b =>
      if b <=? a then Increase (saturating_sub a b) else Decrease (saturating_sub b a)
  | Decrease a, Increase b =>
      if b <=? a then Decrease (saturating_sub a b) else Increase (saturating_sub b a)
  end.
Definition saturating_merge (self other : t) : t := saturating_add self other.

Definition default : t := Increase 0.

(** [Deref]: the magnitude. *)
Definition deref (self : t) : Balance := match self with Increase a | Decrease a => a end.

(** [Add<Balance>]: applying the update to a balance. *)
Definition add (self : t) (rhs : Balance) : option Balance :=
  match self with
  | Increase amount => Prelude.checked_add u128 rhs amount
  | Decrease amount => checked_sub rhs amount
  end.

(** The integer an update stands for. *)
Definition value (self : t) : Z := match self with Increase a => a | Decrease a => - a end.
Definition valid (self : t) : Prop := fits u128 (deref self).
End BalanceUpdate.

Export BalanceUpdate(Increase, Decrease).

Record AssetStateChange := mkChange {
  delta_reserve : BalanceUpdate.t;
  delta_hub_reserve : BalanceUpdate.t;
  delta_shares : BalanceUpdate.t;
  delta_protocol_shares : BalanceUpdate.t;
  extra_hub_reserve_amount : BalanceUpdate.t;
}.

Definition price `{SpArithmetic} (self : AssetReserveState) : option Z :=
  fixed_checked_from_rational (hub_reserve self) (reserve self).

Definition delta_update (self : AssetReserveState) (delta : AssetStateChange) : option AssetReserveState :=
  r ← BalanceUpdate.add (delta_reserve delta) (reserve self);
  h ← BalanceUpdate.add (delta_hub_reserve delta) (hub_reserve self);
  s ← BalanceUpdate.add (delta_shares delta) (shares self);
  p ← BalanceUpdate.add (delta_protocol_shares delta) (protocol_shares self);
  Some (mkReserve r h s p).

Definition total_delta_hub_reserve (self : AssetStateChange) : BalanceUpdate.t :=
  BalanceUpdate.saturating_merge (delta_hub_reserve self) (extra_hub_reserve_amount self).

Definition asset_account_for_fee_taken (self : AssetStateChange) (amt_to_burn : Balance) : AssetStateChange :=
  mkChange (delta_reserve self) (delta_hub_reserve self) (delta_shares self) (delta_protocol_shares self)
    (BalanceUpdate.saturating_merge (extra_hub_reserve_amount self) (Decrease amt_to_burn)).

Record TradeFee := mkTradeFee {
  asset_fee : Balance;
  protocol_fee : Balance;
  burned_protocol_fee : Balance;
}.

Record TradeStateChange := mkTradeChange {
  change_in : AssetStateChange;
  change_out : AssetStateChange;
  trade_fee : TradeFee;
}.

Record HubTradeStateChange := mkHubTradeChange {
  hub_change : AssetStateChange;
  hub_trade_fee : TradeFee;
}.

Definition calculate_burn_amount_based_on_fee_taken
    (taken_fee total_fee_amount extra_hub_amount : Balance) : Balance :=
  if total_fee_amount =? 0 then 0 else
  saturated_into u128 (saturating_mul u256 taken_fee extra_hub_amount / total_fee_amount).

Definition trade_account_for_fee_taken (self : TradeStateChange) (taken_fee : Balance) : TradeStateChange :=
  let extra_amt := calculate_burn_amount_based_on_fee_taken taken_fee (asset_fee (trade_fee self))
    (BalanceUpdate.deref (extra_hub_reserve_amount (change_out self))) in
  mkTradeChange (change_in self) (asset_account_for_fee_taken (change_out self) extra_amt) (trade_fee self).

Definition hub_account_for_fee_taken (self : HubTradeStateChange) (taken_fee : Balance) : HubTradeStateChange :=
  let extra_amt := calculate_burn_amount_based_on_fee_taken taken_fee (asset_fee (hub_trade_fee self))
    (BalanceUpdate.deref (extra_hub_reserve_amount (hub_change self))) in
  mkHubTradeChange (asset_account_for_fee_taken (hub_change self) extra_amt) (hub_trade_fee self).

Record LiquidityStateChange := mkLiquidityChange {
  liquidity_change : AssetStateChange;
  delta_position_reserve : BalanceUpdate.t;
  delta_position_shares : BalanceUpdate.t;
  lp_hub_amount : Balance;
}.

Record Position := mkPosition {
  position_amount : Balance;
  position_shares : Balance;
  position_price : Balance * Balance;
}.

Definition price_of_position `{SpArithmetic} (self : Position) : option Z :=
  fixed_checked_from_rational (position_price self).1 (position_price self).2.

Module SignedBalance.
Inductive t := Positive (v : Balance) | Negative (v : Balance).

Definition zero : t := Positive 0.
Definition is_positive (self : t) : bool := match self with Positive v => 0 <? v | Negative _ => false end.
Definition is_negative (self : t) : bool := match self with Negative v => 0 <? v | Positive _ => false end.
Definition abs (self : t) : Balance := match self with Positive v | Negative v => v end.
Definition is_zero (self : t) : bool := abs self =? 0.
Definition negate (self : t) : t :=
  match self with Positive v => Negative v | Negative v => Positive v end.

Definition checked_add (self other : t) : option t :=
  match self, other with
  | Positive a, Positive b => c ← Prelude.checked_add u128 a b; Some (Positive c)
  | Negative a, Negative b => c ← Prelude.checked_add u128 a b; Some (Negative c)
  | Positive a, Negative b | Negative b, Positive a =>
      if b <=? a then Some (Positive (a - b)) else Some (Negative (b - a))
  end.

Definition add_to_unsigned (self : t) (balance : Balance) : option Balance :=
  match self with
  | Positive v => Prelude.checked_add u128 balance v
  | Negative v => checked_sub balance v
  end.

(** The integer a signed balance stands for. *)
Definition value (self : t) : Z := match self with Positive v => v | Negative v => - v end.
Definition valid (self : t) : Prop := fits u128 (abs self).
End SignedBalance.

Export SignedBalance(Positive, Negative).

Record TradeSlipFees := mkSlip {
  asset_in_hub_reserve : Balance;
  asset_in_delta : SignedBalance.t;
  asset_out_hub_reserve : Balance;
  asset_out_delta : SignedBalance.t;
  max_slip_fee : Z;
}.

Record HubTradeSlipFees := mkHubSlip {
  asset_hub_reserve : Balance;
  asset_delta : SignedBalance.t;
  hub_max_slip_fee : Z;
}.

(** ** The signed types are exact integers *)

(** Adding two balance updates is integer addition, and fails exactly when
    the sum does not fit the width of a balance. *)
Theorem update_checked_add_exact u v :
  BalanceUpdate.valid u → BalanceUpdate.valid v →
  match BalanceUpdate.checked_add u v with
  | Some w => BalanceUpdate.valid w ∧ BalanceUpdate.value w = BalanceUpdate.value u + BalanceUpdate.value v
  | None => max_value u128 < Z.abs (BalanceUpdate.value u + BalanceUpdate.value v)
  end.
Proof.
  unfold BalanceUpdate.valid, fits. destruct u as [a|a], v as [b|b]; simpl; intros Hu Hv;
    unfold Prelude.checked_add, checked_sub;
    repeat (case_match; simplify_eq/=; propify); simpl in *; lia.
Qed.

Lemma update_checked_add_exact_witness :
  match BalanceUpdate.checked_add (Increase 5) (Decrease 7) with
  | Some w => BalanceUpdate.value w = -2
  | None => False
  end.
Proof.
  pose proof (update_checked_add_exact (Increase 5) (Decrease 7)) as H.
  simpl in *. destruct H as [_ H]; [compute_done..|]. exact H.
Defined.

Lemma update_add_spec u x :
  BalanceUpdate.valid u → fits u128 x →
  match BalanceUpdate.add u x with
  | Some y => y = x + BalanceUpdate.value u ∧ fits u128 y
  | None => ¬ fits u128 (x + BalanceUpdate.value u)
  end.
Proof.
  unfold BalanceUpdate.valid, fits. destruct u; simpl; intros;
    unfold Prelude.checked_add, checked_sub; repeat (case_match; simplify_eq/=; propify); lia.
Qed.

Lemma update_add_Some u x y : BalanceUpdate.add u x = Some y → y = x + BalanceUpdate.value u.
Proof. destruct u; simpl; intros; inv_run; lia. Qed.

(** An update whose result is a balance applies. *)
Lemma update_add_fits u x :
  fits u128 (x + BalanceUpdate.value u) → BalanceUpdate.add u x = Some (x + BalanceUpdate.value u).
Proof.
  unfold fits. destruct u; simpl; intros; [apply checked_add_ok; lia|].
  by rewrite checked_sub_ok by lia.
Qed.

(** A merged update stands for the sum; the magnitudes stay unsigned. *)
Lemma update_merge_Some u v w :
  0 <= BalanceUpdate.deref u → 0 <= BalanceUpdate.deref v → BalanceUpdate.merge u v = Some w →
  0 <= BalanceUpdate.deref w ∧ BalanceUpdate.value w = BalanceUpdate.value u + BalanceUpdate.value v.
Proof.
  unfold BalanceUpdate.merge. destruct u as [a|a], v as [b|b]; simpl; intros Hu Hv Hw;
    repeat case_match; inv_run; propify; simpl; lia.
Qed.

Lemma update_saturating_merge_unsigned u v :
  0 <= BalanceUpdate.deref u → 0 <= BalanceUpdate.deref v →
  0 <= BalanceUpdate.deref (BalanceUpdate.saturating_merge u v).
Proof.
  pose proof (max_value_nonneg u128 ltac:(done)). unfold BalanceUpdate.saturating_merge.
  destruct u as [a|a], v as [b|b]; simpl; intros Hu Hv; repeat case_match; propify; simpl;
    unfold Prelude.saturating_add, saturating_sub; lia.
Qed.

(** Merging is exact short of the width. *)
Lemma update_saturating_merge_exact u v :
  0 <= BalanceUpdate.deref u → 0 <= BalanceUpdate.deref v →
  Z.abs (BalanceUpdate.value u + BalanceUpdate.value v) <= max_value u128 →
  BalanceUpdate.value (BalanceUpdate.saturating_merge u v) = BalanceUpdate.value u + BalanceUpdate.value v.
Proof.
  destruct u as [a|a], v as [b|b]; simpl; intros;
    repeat case_match; propify; simpl; unfold Prelude.saturating_add, saturating_sub; lia.
Qed.

Lemma update_add_unsigned u x y :
  0 <= BalanceUpdate.deref u → fits u128 x → BalanceUpdate.add u x = Some y →
  fits u128 y ∧ y = x + BalanceUpdate.value u.
Proof. unfold fits. destruct u; simpl; intros; inv_run; lia. Qed.

Lemma signed_checked_add_cases c d :
  SignedBalance.valid c → SignedBalance.valid d →
  (∃ w, SignedBalance.checked_add c d = Some w ∧ SignedBalance.valid w ∧
        SignedBalance.value w = SignedBalance.value c + SignedBalance.value d) ∨
  (SignedBalance.checked_add c d = None ∧
   max_value u128 < Z.abs (SignedBalance.value c + SignedBalance.value d)).
Proof.
  unfold SignedBalance.valid, fits. destruct c as [a|a], d as [b|b]; simpl; intros;
    unfold Prelude.checked_add; repeat (case_match; simplify_eq/=; propify);
    try (right; split; [done|lia]); left; eexists; (split; [done|]); simpl; lia.
Qed.

Lemma signed_add_to_unsigned_cases w x :
  SignedBalance.valid w → fits u128 x →
  (SignedBalance.add_to_unsigned w x = Some (x + SignedBalance.value w) ∧ fits u128 (x + SignedBalance.value w)) ∨
  (SignedBalance.add_to_unsigned w x = None ∧ ¬ fits u128 (x + SignedBalance.value w)).
Proof.
  unfold SignedBalance.valid, fits. destruct w; simpl; intros;
    unfold Prelude.checked_add, checked_sub; repeat (case_match; simplify_eq/=; propify);
    (left; split; [f_equal; lia|lia]) || (right; split; [done|lia]).
Qed.

Lemma signed_abs_value w : SignedBalance.valid w → SignedBalance.abs w = Z.abs (SignedBalance.value w).
Proof. unfold SignedBalance.valid, fits. destruct w; simpl; lia. Qed.

(** Accumulating signed flow is integer addition; applying it to a balance
    is integer addition too, and is refused exactly when the result would be
    negative or too large for a balance. *)
Theorem signed_balance_exact c d x :
  SignedBalance.valid c → SignedBalance.valid d → fits u128 x →
  match SignedBalance.checked_add c d with
  | Some w =>
      SignedBalance.valid w ∧ SignedBalance.value w = SignedBalance.value c + SignedBalance.value d ∧
      match SignedBalance.add_to_unsigned w x with
      | Some y => y = x + SignedBalance.value c + SignedBalance.value d ∧ fits u128 y
      | None => ¬ fits u128 (x + SignedBalance.value c + SignedBalance.value d)
      end
  | None => max_value u128 < Z.abs (SignedBalance.value c + SignedBalance.value d)
  end.
Proof.
  intros Hc Hd Hx. destruct (signed_checked_add_cases c d Hc Hd) as [(w & -> & Hw & E)|[-> ?]]; [|done].
  split_and!; [done|done|]. rewrite <- Z.add_assoc, <- E.
  destruct (signed_add_to_unsigned_cases w x Hw Hx) as [[-> ?]|[-> ?]]; done.
Qed.

Lemma signed_balance_exact_witness :
  match SignedBalance.checked_add (Positive 5) (Negative 9) with
  | Some w => SignedBalance.add_to_unsigned w 100 = Some 96
  | None => False
  end.
Proof.
  pose proof (signed_balance_exact (Positive 5) (Negative 9) 100) as H. simpl in *.
  destruct H as (_ & _ & -> & _); [compute_done..|]. reflexivity.
Defined.

(** ** Fees taken out of a trade *)

Lemma burn_amount_value taken total extra :
  0 <= taken <= total → fits u128 extra → fits u128 total →
  let burned := if total =? 0 then 0 else taken * extra / total in
  calculate_burn_amount_based_on_fee_taken taken total extra = burned ∧ 0 <= burned <= extra.
Proof.
  intros Ht He Hf. unfold calculate_burn_amount_based_on_fee_taken, saturated_into, saturating_mul.
  pose proof (fits_nonneg _ _ He). destruct (Z.eqb_spec total 0); [lia|]. simpl.
  rewrite (Z.min_l (taken * extra)) by (apply u256_mul_bound; unfold fits in *; lia).
  rewrite Z.mul_comm. assert (0 <= extra * taken / total <= extra).
  { split; [apply muldiv_nonneg; lia|apply muldiv_le; lia]. }
  unfold fits in *. lia.
Qed.

(** When the fee receiver takes at most the asset fee of a trade, the hub
    asset burned for it is at most what the trade minted: the correction leaves
    a non-negative mint and never saturates. *)
Theorem fee_taken_leaves_mint ch taken extra :
  extra_hub_reserve_amount (change_out ch) = Increase extra →
  fits u128 extra → fits u128 (asset_fee (trade_fee ch)) → 0 <= taken <= asset_fee (trade_fee ch) →
  ∃ burned, 0 <= burned <= extra ∧
    burned = (if asset_fee (trade_fee ch) =? 0 then 0 else taken * extra / asset_fee (trade_fee ch)) ∧
    extra_hub_reserve_amount (change_out (trade_account_for_fee_taken ch taken)) = Increase (extra - burned).
Proof.
  intros Hex He Hf Ht. unfold trade_account_for_fee_taken. simpl. rewrite Hex. simpl.
  destruct (burn_amount_value taken (asset_fee (trade_fee ch)) extra) as [-> Hb]; [done..|].
  eexists. split; [exact Hb|]. split; [done|]. rewrite (proj2 (Z.leb_le _ _)) by lia.
  unfold saturating_sub. f_equal. lia.
Qed.

Lemma fee_taken_leaves_mint_witness :
  let ch := mkTradeChange
    (mkChange (Increase 10) (Decrease 5) BalanceUpdate.default BalanceUpdate.default BalanceUpdate.default)
    (mkChange (Decrease 7) (Increase 5) BalanceUpdate.default BalanceUpdate.default (Increase 9))
    (mkTradeFee 4 1 1) in
  extra_hub_reserve_amount (change_out (trade_account_for_fee_taken ch 2)) = Increase 5.
Proof.
  intros ch. destruct (fee_taken_leaves_mint ch 2 9) as (b & _ & -> & ->); [compute_done..|]. reflexivity.
Defined.
