(* ===== verification/SlipFee.v ===== *)
(** * Slip fees of the Omnipool

    Models [math/src/omnipool/slip_fee.rs]: the fee that grows with the hub
    asset that flowed through an asset in a block, and its inversions, which
    find the gross amount that leaves a wanted net amount.  The theorems bound
    the fee by its cap and by the uncapped formula, and show that the buy-side
    inversion always covers the amount it was asked for. *)

From S2P Require Import Prelude Arithmetic Currency OmnipoolTypes.

Definition PERMILL_SCALE : Z := 1000000.

Definition slip_rate_exceeds_cap (abs_cumulative denom : Balance) (max_slip_fee : Z) : option bool :=
  if (denom =? 0) || (abs_cumulative =? 0) then Some false else
  let max_parts := max_slip_fee in
  lhs ← checked_mul u256 abs_cumulative PERMILL_SCALE;
  rhs ← checked_mul u256 max_parts denom;
  Some (rhs <? lhs).

Definition slip_rate_exceeds_cap_from_state (hub_reserve_at_block_start : Balance)
    (prior_delta delta_q : SignedBalance.t) (max_slip_fee : Z) : option bool :=
  cumulative ← SignedBalance.checked_add prior_delta delta_q;
  denom ← SignedBalance.add_to_unsigned cumulative hub_reserve_at_block_start;
  slip_rate_exceeds_cap (SignedBalance.abs cumulative) denom max_slip_fee.

Section slip_fee.
Context `{SpArithmetic}.

Definition calculate_slip_fee_amount (hub_reserve_at_block_start : Balance)
    (prior_delta delta_q : SignedBalance.t) (max_slip_fee : Z) (base_amount : Balance) : option Balance :=
  if (hub_reserve_at_block_start =? 0) || (base_amount =? 0) then Some 0 else
  cumulative ← SignedBalance.checked_add prior_delta delta_q;
  denom ← SignedBalance.add_to_unsigned cumulative hub_reserve_at_block_start;
  if denom =? 0 then None else
  if SignedBalance.is_zero cumulative then Some 0 else
  let abs_cumulative := SignedBalance.abs cumulative in
  exceeds ← slip_rate_exceeds_cap abs_cumulative denom max_slip_fee;
  if exceeds : bool then Some (permill_mul_floor max_slip_fee base_amount) else
  v ← checked_mul u256 abs_cumulative base_amount;
  amount_hp ← checked_div v denom;
  ok (to_balance amount_hp).

(** The second case solves [2 g^2 + (l + 2 c - d_net) g - d_net (l + c) = 0]
    for the gross amount [g], with [c] negative. *)
Definition invert_buy_side_slip_uncapped (d_net l : Balance) (c : SignedBalance.t) : option Balance :=
  s_buy ← SignedBalance.add_to_unsigned c l;
  if s_buy =? 0 then None else
  if l <=? d_net then None else
  l_minus_d ← checked_sub l d_net;
  v ← checked_mul u256 d_net s_buy;
  v ← checked_div v l_minus_d;
  d_gross_case1_hp ← checked_add u256 v 1;
  d_gross_case1 ← ok (to_balance d_gross_case1_hp);
  let abs_c := SignedBalance.abs c in
  if SignedBalance.is_positive c || (abs_c <=? d_gross_case1) then Some d_gross_case1 else
  two_c ← checked_mul u128 abs_c 2;
  l_minus_2c ← checked_sub l two_c;
  let b_positive := d_net <=? l_minus_2c in
  b_abs ← (if b_positive then checked_sub l_minus_2c d_net else checked_sub d_net l_minus_2c);
  b_sq ← checked_mul u256 b_abs b_abs;
  eight_d ← checked_mul u256 8 d_net;
  eight_ds ← checked_mul u256 eight_d s_buy;
  let disc := saturating_add u256 b_sq eight_ds in
  let sqrt_disc := u256_integer_sqrt disc in
  d_gross_hp ← (if b_positive then
                  let denom := saturating_add u256 b_abs sqrt_disc in
                  two_d ← checked_mul u256 2 d_net;
                  two_ds ← checked_mul u256 two_d s_buy;
                  checked_div two_ds denom
                else checked_div (saturating_add u256 b_abs sqrt_disc) 4);
  d_gross ← ok (to_balance d_gross_hp);
  checked_add u128 d_gross 1.

Definition invert_buy_side_slip_capped (d_net : Balance) (max_slip_fee : Z) : option Balance :=
  let max_parts := max_slip_fee in
  one_minus_max ← checked_sub PERMILL_SCALE max_parts;
  if one_minus_max =? 0 then None else
  v ← checked_mul u256 d_net PERMILL_SCALE;
  d_gross_hp ← checked_div v one_minus_max;
  ok (to_balance d_gross_hp).

Definition invert_buy_side_slip (d_net l : Balance) (c : SignedBalance.t) (max_slip_fee : Z) :
    option Balance :=
  match invert_buy_side_slip_uncapped d_net l c with
  | Some d_gross_uncapped =>
      exceeds ← slip_rate_exceeds_cap_from_state l c (Positive d_gross_uncapped) max_slip_fee;
      if exceeds : bool then invert_buy_side_slip_capped d_net max_slip_fee else Some d_gross_uncapped
  | None => invert_buy_side_slip_capped d_net max_slip_fee
  end.

(** Case B of the sell side: the flow so far is positive and covers the trade.
    The outer [None] is an early return of the whole inversion. *)
Definition invert_sell_case_b (d_gross l s abs_c pf_parts k_parts : Z) : option (option Balance) :=
  if pf_parts =? 0 then
    let num := saturating_mul u256 d_gross s in
    let denom := saturating_add u256 d_gross l in
    u_hp ← checked_div num denom;
    u ← ok (to_balance u_hp);
    Some (checked_add u128 u 1)
  else
    let ks := saturating_mul u256 k_parts s in
    let d_scaled := saturating_mul u256 d_gross PERMILL_SCALE in
    let c_scaled := saturating_mul u256 abs_c PERMILL_SCALE in
    let b_sum := saturating_add u256 ks d_scaled in
    let b_positive := c_scaled <=? b_sum in
    let b_abs := if b_positive then saturating_sub b_sum c_scaled else saturating_sub c_scaled b_sum in
    b_sq ← checked_mul u256 b_abs b_abs;
    v ← checked_mul u256 4 pf_parts;
    v ← checked_mul u256 v d_gross;
    v ← checked_mul u256 v s;
    four_a_ds ← checked_mul u256 v PERMILL_SCALE;
    let disc := saturating_add u256 b_sq four_a_ds in
    let sqrt_disc := u256_integer_sqrt disc in
    let two_a := saturating_mul u256 pf_parts 2 in
    let c_u256 := saturating_mul u256 (saturating_mul u256 d_gross s) PERMILL_SCALE in
    u_hp ← (if b_positive then
              let denom := saturating_add u256 b_abs sqrt_disc in
              two_c ← checked_mul u256 2 c_u256;
              checked_div two_c denom
            else
              let numerator := saturating_add u256 b_abs sqrt_disc in
              checked_div numerator two_a);
    u ← ok (to_balance u_hp);
    Some (checked_add u128 u 1).

(** Case A: the trade turns the flow negative. *)
Definition invert_sell_case_a (d_gross s abs_c k_parts : Z) (c_is_positive : bool) : option Balance :=
  a_u256 ← checked_add u128 k_parts PERMILL_SCALE;
  let ks := saturating_mul u256 k_parts s in
  let d_scaled := saturating_mul u256 d_gross PERMILL_SCALE in
  let c_scaled := saturating_mul u256 abs_c PERMILL_SCALE in
  b_u256 ← (if c_is_positive then
              Some (saturating_add u256 (saturating_add u256 ks d_scaled) c_scaled)
            else
              let sum := saturating_add u256 ks d_scaled in
              checked_sub sum c_scaled);
  let c_u256 := saturating_mul u256 (saturating_mul u256 d_gross s) PERMILL_SCALE in
  b_sq ← checked_mul u256 b_u256 b_u256;
  v ← checked_mul u256 4 a_u256;
  four_ac ← checked_mul u256 v c_u256;
  if b_sq <? four_ac then None else
  let disc := saturating_sub b_sq four_ac in
  let sqrt_disc := u256_integer_sqrt disc in
  let two_a := saturating_mul u256 a_u256 2 in
  if b_u256 <? sqrt_disc then None else
  u_hp ← checked_div (saturating_sub b_u256 sqrt_disc) two_a;
  u ← ok (to_balance u_hp);
  checked_add u128 u 1.

Definition invert_sell_side_fees_uncapped (d_gross : Balance) (protocol_fee : Z) (l : Balance)
    (c : SignedBalance.t) : option Balance :=
  let abs_c := SignedBalance.abs c in
  let c_is_positive := SignedBalance.is_positive c in
  s ← (if c_is_positive then checked_add u128 l abs_c else checked_sub l abs_c);
  let pf_parts := protocol_fee in
  k_parts ← checked_sub PERMILL_SCALE pf_parts;
  if c_is_positive then
    u_b ← invert_sell_case_b d_gross l s abs_c pf_parts k_parts;
    match u_b with
    | Some u => if u <=? abs_c then Some u else invert_sell_case_a d_gross s abs_c k_parts c_is_positive
    | None => invert_sell_case_a d_gross s abs_c k_parts c_is_positive
    end
  else invert_sell_case_a d_gross s abs_c k_parts c_is_positive.

Definition invert_sell_side_fees_capped (d_gross : Balance) (protocol_fee max_slip_fee : Z) : option Balance :=
  let pf_parts := protocol_fee in
  let max_parts := max_slip_fee in
  v ← checked_sub PERMILL_SCALE pf_parts;
  denom_parts ← checked_sub v max_parts;
  if denom_parts =? 0 then None else
  v ← checked_mul u256 d_gross PERMILL_SCALE;
  u_hp ← checked_div v denom_parts;
  ok (to_balance u_hp).

Definition invert_sell_side_fees (d_gross : Balance) (protocol_fee : Z) (l : Balance)
    (c : SignedBalance.t) (max_slip_fee : Z) : option Balance :=
  match invert_sell_side_fees_uncapped d_gross protocol_fee l c with
  | Some u_uncapped =>
      exceeds ← slip_rate_exceeds_cap_from_state l c (Negative u_uncapped) max_slip_fee;
      if exceeds : bool then invert_sell_side_fees_capped d_gross protocol_fee max_slip_fee
      else Some u_uncapped
  | None => invert_sell_side_fees_capped d_gross protocol_fee max_slip_fee
  end.
End slip_fee.

(** ** The fee is the smaller of the uncapped fee and the cap *)

Lemma slip_rate_exceeds_cap_value x denom m :
  fits u128 x → fits u128 denom → is_permill m → denom ≠ 0 →
  slip_rate_exceeds_cap x denom m = Some (m * denom <? x * PERMILL_SCALE).
Proof.
  intros Hx Hd Hm Hne. unfold slip_rate_exceeds_cap.
  rewrite (proj2 (Z.eqb_neq denom 0) Hne). destruct (Z.eqb_spec x 0) as [->|]; simpl.
  - rewrite (proj2 (Z.ltb_ge _ _)); [done|]. unfold fits, is_permill in *. nia.
  - unfold is_permill, PERMILL, PERMILL_SCALE in *.
    rewrite !checked_mul_ok by (apply u256_mul_bound; [done || (unfold fits, max_value, u128; lia)..]).
    reflexivity.
Qed.

Section slip_fee_lemmas.
Context `{SpArithmeticLaws}.

Lemma slip_fee_minimum x denom m base :
  fits u128 x → fits u128 denom → denom ≠ 0 → is_permill m → fits u128 base →
  (exceeds ← slip_rate_exceeds_cap x denom m;
   if exceeds : bool then Some (permill_mul_floor m base) else
   v ← checked_mul u256 x base; amount_hp ← checked_div v denom; ok (to_balance amount_hp))
  = Some (Z.min (x * base / denom) (m * base / PERMILL)).
Proof.
  intros Hx Hd Hne Hm Hb. rewrite slip_rate_exceeds_cap_value by done. simpl.
  pose proof (permill_mul_floor_bounds m base Hm Hb) as Hcap.
  rewrite permill_mul_floor_spec in * by done. unfold fits, is_permill in *.
  pose proof (div_bounds (x * base) denom) as Hu.
  pose proof (div_bounds (m * base) PERMILL) as Hc. unfold PERMILL_SCALE, PERMILL in *.
  set (u := x * base / denom) in *. set (k := m * base / 1000000) in *.
  destruct (Z.ltb_spec (m * denom) (x * 1000000)).
  - f_equal. symmetry. apply Z.min_r. apply Z.div_le_lower_bound; [lia|].
    assert (denom * k * 1000000 <= x * base * 1000000) by nia. lia.
  - rewrite checked_mul_ok by (apply u256_mul_bound; done). simpl. rewrite checked_div_ok by done. simpl.
    fold u. assert (u <= k).
    { apply Z.div_le_lower_bound; [lia|]. assert (1000000 * u * denom <= m * base * denom) by nia. nia. }
    unfold to_balance. rewrite try_from_ok by lia. simpl. f_equal. lia.
Qed.

Lemma slip_fee_value l c dq m base :
  fits u128 l → fits u128 base → SignedBalance.valid c → SignedBalance.valid dq → is_permill m →
  l ≠ 0 → base ≠ 0 →
  let cumulative := SignedBalance.value c + SignedBalance.value dq in
  calculate_slip_fee_amount l c dq m base =
    if bool_decide (Z.abs cumulative <= max_value u128 ∧ 0 < l + cumulative <= max_value u128)
    then Some (Z.min (Z.abs cumulative * base / (l + cumulative)) (m * base / PERMILL))
    else None.
Proof.
  intros Hl Hb Hc Hd Hm Hl0 Hb0 cum. unfold calculate_slip_fee_amount.
  rewrite (proj2 (Z.eqb_neq l 0) Hl0), (proj2 (Z.eqb_neq base 0) Hb0). simpl.
  destruct (signed_checked_add_cases c dq Hc Hd) as [(w & -> & Hw & E)|[-> ?]]; simpl;
    [fold cum in E|rewrite bool_decide_false by lia; done].
  destruct (signed_add_to_unsigned_cases w l Hw Hl) as [[-> Hy]|[-> Hn]]; rewrite ?E in *; simpl;
    [|rewrite bool_decide_false by (unfold fits in *; lia); done].
  pose proof (signed_abs_value w Hw) as Ha. rewrite E in Ha. unfold SignedBalance.valid in Hw.
  unfold SignedBalance.is_zero. rewrite Ha in *.
  destruct (Z.eqb_spec (l + cum) 0) as [|Hne]; [rewrite bool_decide_false by lia; done|].
  rewrite bool_decide_true by (unfold fits in *; lia).
  assert (0 <= m * base / PERMILL) by (apply muldiv_nonneg; unfold is_permill, fits, PERMILL in *; lia).
  destruct (Z.eqb_spec (Z.abs cum) 0) as [->|Hc0];
    [by rewrite Z.mul_0_l, Z.div_0_l, Z.min_l|].
  by apply slip_fee_minimum.
Qed.

(** The slip fee is the minimum of the uncapped fee
    [|cumulative| * base / (hub reserve at block start + cumulative)] and of
    the cap on the base, each rounded down; it fails exactly when the
    cumulative flow does not fit or would drain the hub reserve. *)
Theorem slip_fee_is_capped_minimum l c dq m base :
  fits u128 l → fits u128 base → SignedBalance.valid c → SignedBalance.valid dq → is_permill m →
  let cumulative := SignedBalance.value c + SignedBalance.value dq in
  calculate_slip_fee_amount l c dq m base =
    if (l =? 0) || (base =? 0) then Some 0 else
    if bool_decide (Z.abs cumulative <= max_value u128 ∧ 0 < l + cumulative <= max_value u128)
    then Some (Z.min (Z.abs cumulative * base / (l + cumulative)) (m * base / PERMILL))
    else None.
Proof.
  intros. destruct (Z.eqb_spec l 0) as [->|]; [done|].
  destruct (Z.eqb_spec base 0) as [->|]; simpl; [|by apply slip_fee_value].
  unfold calculate_slip_fee_amount. by rewrite orb_true_r.
Qed.

(** The two upper bounds, multiplied out. *)
Lemma slip_fee_bounds l c dq m base fee :
  fits u128 l → fits u128 base → SignedBalance.valid c → SignedBalance.valid dq → is_permill m →
  calculate_slip_fee_amount l c dq m base = Some fee →
  0 <= fee ∧ PERMILL * fee <= m * base ∧
  (l ≠ 0 → base ≠ 0 → 0 < l + (SignedBalance.value c + SignedBalance.value dq) ∧
   fee * (l + (SignedBalance.value c + SignedBalance.value dq))
     <= Z.abs (SignedBalance.value c + SignedBalance.value dq) * base).
Proof.
  intros Hl Hb Hc Hd Hm Hf. unfold is_permill, PERMILL in *. pose proof (fits_nonneg _ _ Hb).
  destruct (decide (l = 0)) as [->|Hl0]; [injection Hf as <-; split_and!; [lia|nia|lia]|].
  destruct (decide (base = 0)) as [->|Hb0].
  { unfold calculate_slip_fee_amount in Hf. rewrite orb_true_r in Hf. injection Hf as <-. lia. }
  rewrite slip_fee_value in Hf by done. case_bool_decide as Hr; [|done]. injection Hf as Hf.
  set (cum := SignedBalance.value c + SignedBalance.value dq) in *.
  pose proof (div_bounds (Z.abs cum * base) (l + cum)). pose proof (div_bounds (m * base) PERMILL).
  assert (0 <= Z.abs cum * base / (l + cum)) by (apply muldiv_nonneg; lia).
  assert (0 <= m * base / PERMILL) by (apply muldiv_nonneg; unfold PERMILL; lia).
  unfold PERMILL in *. set (x := Z.abs cum * base / (l + cum)) in *. split_and!; [lia|lia|nia].
Qed.

(** ** The buy-side inversion covers

    [gross_covers d l v g]: a gross amount [g] on top of the flow [v] leaves at
    least [d] after the uncapped fee, in the two regimes of the sign of the
    cumulative flow. *)
Definition gross_covers (d l v g : Z) : Prop :=
  (0 <= v + g → d * (l + v + g) <= g * l) ∧
  (v + g < 0 → 0 <= 2 * g * g + (l + 2 * v - d) * g - d * (l + v)).

Lemma uncapped_covers d l v g fee :
  0 <= d → 0 <= g → 0 <= l + v → 0 < l + (v + g) → gross_covers d l v g →
  fee * (l + (v + g)) <= Z.abs (v + g) * g → d <= g - fee.
Proof.
  intros Hd Hg Hs Hpos [Hp Hn] Hf. destruct (Z.le_gt_cases 0 (v + g)).
  - rewrite Z.abs_eq in Hf by done. specialize (Hp ltac:(done)).
    destruct (Z.le_gt_cases d (g - fee)); [done|exfalso].
    assert ((g - d + 1) * (l + (v + g)) <= fee * (l + (v + g))) by nia. nia.
  - rewrite Z.abs_neq in Hf by lia. specialize (Hn ltac:(done)).
    destruct (Z.le_gt_cases d (g - fee)); [done|exfalso].
    assert ((g - d + 1) * (l + (v + g)) <= fee * (l + (v + g))) by nia. nia.
Qed.

Lemma capped_covers d m g fee :
  0 <= d → is_permill m → m < PERMILL → g = d * PERMILL / (PERMILL - m) → PERMILL * fee <= m * g →
  d <= g - fee.
Proof.
  unfold is_permill. intros Hd Hm Hlt -> Hf. unfold PERMILL in *.
  pose proof (div_bounds (d * 1000000) (1000000 - m)) as Hg.
  set (g := d * 1000000 / (1000000 - m)) in *. nia.
Qed.

(** Roots of [2 g^2 + b g - p = 0], rounded up. *)
Lemma root_up_pos b p g q :
  0 <= b → 0 <= p → 0 <= g → q * q <= b * b + 8 * p < (q + 1) * (q + 1) → 0 <= q → 0 < b + q →
  2 * p < g * (b + q) → p <= 2 * g * g + b * g.
Proof.
  intros. destruct (Z.le_gt_cases p (2 * g * g + b * g)); [done|exfalso].
  assert ((4 * g + b) * (4 * g + b) < (q + 1) * (q + 1)) by nia.
  assert (4 * g + b <= q) by nia.
  assert (4 * (g * (b + q)) > (q - b) * (q + b)) by nia. nia.
Qed.

Lemma root_up_neg b p g q :
  0 <= b → 0 <= p → b * b + 8 * p < (q + 1) * (q + 1) → 0 <= q → b + q < 4 * g →
  p <= 2 * g * g - b * g.
Proof. intros. assert (q + 1 <= 4 * g - b) by lia. nia. Qed.

Lemma linear_covers d l s g : 0 <= d < l → 0 <= s → d * s / (l - d) + 1 <= g → d * (s + g) <= g * l.
Proof. intros. pose proof (div_bounds (d * s) (l - d) ltac:(lia)). nia. Qed.

Lemma signed_not_below c g :
  SignedBalance.valid c → SignedBalance.is_positive c = true ∨ SignedBalance.abs c <= g → 0 <= g →
  0 <= SignedBalance.value c + g.
Proof. unfold SignedBalance.valid, fits. intros ? [] ?; destruct c; simpl in *; propify; lia. Qed.

Lemma signed_negative c x :
  SignedBalance.valid c → SignedBalance.is_positive c = false → 0 <= x → x + 1 < SignedBalance.abs c →
  SignedBalance.value c = - SignedBalance.abs c.
Proof. unfold SignedBalance.valid, fits. destruct c; simpl; intros; propify; lia. Qed.

Lemma slip_root b d s l :
  0 <= b <= l → 0 <= d <= l → 0 <= s <= l → l <= max_value 126 →
  ∃ q, u256_integer_sqrt (saturating_add u256 (b * b) (8 * d * s)) = q ∧
    q * q <= b * b + 8 * (d * s) < (q + 1) * (q + 1) ∧ 0 <= q ∧ saturating_add u256 b q = b + q.
Proof.
  intros Hb Hd Hs Hl. set (D := b * b + 8 * (d * s)).
  assert (0 <= D <= 9 * (l * l)) as HD by (subst D; nia).
  assert (9 * (l * l) <= max_value u256) as Hmax.
  { transitivity (9 * (max_value 126 * max_value 126)); [nia|vm_compute; discriminate]. }
  unfold saturating_add. replace (b * b + 8 * d * s) with D by (subst D; ring).
  rewrite Z.min_l, u256_integer_sqrt_spec by (unfold fits; lia).
  exists (Z.sqrt D). pose proof (Z.sqrt_spec D ltac:(lia)) as Hq. pose proof (Z.sqrt_nonneg D) as Hq0.
  unfold Z.succ in Hq. split_and!; [done|lia|lia|lia|]. apply Z.min_l.
  assert (Z.sqrt D <= 3 * l) by nia.
  transitivity (4 * max_value 126); [lia|vm_compute; discriminate].
Qed.

Lemma invert_uncapped_covers d l c g :
  fits u128 d → 0 <= l <= max_value 126 → SignedBalance.valid c →
  invert_buy_side_slip_uncapped d l c = Some g →
  0 < g ∧ 0 < l ∧ 0 <= l + SignedBalance.value c ∧ gross_covers d l (SignedBalance.value c) g.
Proof.
  intros Hd Hl Hc Hrun. pose proof (fits_nonneg _ _ Hd) as Hd0.
  assert (Hl' : fits u128 l) by (unfold fits, max_value, u128 in *; lia).
  unfold invert_buy_side_slip_uncapped in Hrun.
  destruct (signed_add_to_unsigned_cases c l Hc Hl') as [[E Hs]|[E _]]; rewrite E in Hrun; [|done].
  pose proof (fits_nonneg _ _ Hs) as Hs0. simpl in Hrun. set (v := SignedBalance.value c) in *.
  unfold to_balance in Hrun. inv_cases; propify;
    assert (0 <= d * (l + v) / (l - d)) by (apply muldiv_nonneg; lia).
  - set (g := d * (l + v) / (l - d) + 1) in *.
    split_and!; [lia|lia|lia|]. split; intros; [apply linear_covers; lia|exfalso].
    pose proof (signed_not_below c g Hc). naive_solver lia.
  - assert (v = - SignedBalance.abs c) as Hv by (by eapply signed_negative).
    set (n := SignedBalance.abs c) in *.
    destruct (slip_root (l - n * 2 - d) d (l + v) l) as (q & Eq & Hq & Hq0 & Es); [lia..|].
    rewrite Eq, Es in *.
    assert (0 < l - n * 2 - d + q) as Hden by lia.
    pose proof (div_bounds (2 * d * (l + v)) (l - n * 2 - d + q) Hden) as Hg.
    set (x := 2 * d * (l + v) / (l - n * 2 - d + q)) in *.
    assert (Hp : 0 <= d * (l + v)) by (apply Z.mul_nonneg_nonneg; lia).
    assert (0 <= x) by (apply div_nonneg; lia).
    split_and!; [lia|lia|lia|]. split; intros; [apply linear_covers; lia|].
    replace (l + 2 * v - d) with (l - n * 2 - d) by lia.
    pose proof (root_up_pos (l - n * 2 - d) (d * (l + v)) (x + 1) q ltac:(lia) Hp ltac:(lia) Hq Hq0 Hden
      ltac:(lia)). lia.
  - assert (v = - SignedBalance.abs c) as Hv by (by eapply signed_negative).
    set (n := SignedBalance.abs c) in *.
    destruct (slip_root (d - (l - n * 2)) d (l + v) l) as (q & Eq & Hq & Hq0 & Es); [lia..|].
    rewrite Eq, Es in *.
    pose proof (div_bounds (d - (l - n * 2) + q) 4 ltac:(done)) as Hg.
    set (x := (d - (l - n * 2) + q) / 4) in *.
    assert (Hp : 0 <= d * (l + v)) by (apply Z.mul_nonneg_nonneg; lia).
    split_and!; [lia|lia|lia|]. split; intros; [apply linear_covers; lia|].
    replace (l + 2 * v - d) with (- (d - (l - n * 2))) by lia.
    pose proof (root_up_neg (d - (l - n * 2)) (d * (l + v)) (x + 1) q ltac:(lia) Hp ltac:(lia) Hq0
      ltac:(lia)). lia.
Qed.

(** C35: the gross amount the buy-side inversion returns is enough: after the
    slip fee charged on it, at least the wanted net amount enters the pool.
    The hub reserve is assumed below [2^126], so that the discriminant of the
    quadratic fits. *)
Theorem buy_inversion_covers d l c m g fee :
  fits u128 d → 0 <= l <= max_value 126 → SignedBalance.valid c → is_permill m → fits u128 g →
  invert_buy_side_slip d l c m = Some g →
  calculate_slip_fee_amount l c (Positive g) m g = Some fee →
  d <= g - fee.
Proof.
  intros Hd Hl Hc Hm Hg Hinv Hfee. pose proof (fits_nonneg _ _ Hd).
  assert (Hl' : fits u128 l) by (unfold fits, max_value, u128 in *; lia).
  destruct (slip_fee_bounds l c (Positive g) m g fee) as (Hf0 & Hcap & Hunc); [done..|].
  assert (Hcapped : invert_buy_side_slip_capped d m = Some g → d <= g - fee).
  { unfold invert_buy_side_slip_capped, to_balance. intros Hi. inv_cases. propify.
    unfold PERMILL_SCALE in *. apply (capped_covers d m _ fee); [done|done|unfold PERMILL in *; lia| |done].
    reflexivity. }
  unfold invert_buy_side_slip in Hinv.
  destruct (invert_buy_side_slip_uncapped d l c) as [g'|] eqn:Eu; [|auto]. inv_cases; [auto|].
  apply invert_uncapped_covers in Eu as (Hg0 & Hl0 & Hs & Hcov); [|done..].
  destruct Hunc as [Hpos Hunc]; [lia..|]. simpl in *.
  eapply (uncapped_covers d l (SignedBalance.value c)); (done || lia).
Qed.
End slip_fee_lemmas.

Lemma slip_fee_is_capped_minimum_witness :
  @calculate_slip_fee_amount reference_arithmetic 1000000 (Negative 400) (Positive 2400) 50000 2400 = Some 4.
Proof.
  rewrite (@slip_fee_is_capped_minimum reference_arithmetic reference_arithmetic_laws); compute_done.
Defined.

(** A flow of [-60000] that a purchase partly reverts: the quadratic case. *)
Lemma buy_inversion_covers_witness :
  @invert_buy_side_slip reference_arithmetic 20000 1000000 (Negative 60000) 100000 = Some 20850 ∧
  @calculate_slip_fee_amount reference_arithmetic 1000000 (Negative 60000) (Positive 20850) 100000 20850
  = Some 849 ∧ 20000 <= 20850 - 849.
Proof.
  split; [compute_done|]. split; [compute_done|].
  apply (@buy_inversion_covers reference_arithmetic reference_arithmetic_laws
           20000 1000000 (Negative 60000) 100000); compute_done.
Defined.

(** ** Signs of the inversions *)

Section inversion_signs.
Context `{SpArithmeticLaws}.

Lemma sqrt_nonneg_u256 x : fits u256 x → 0 <= u256_integer_sqrt x.
Proof. intros. rewrite u256_integer_sqrt_spec by done. apply Z.sqrt_nonneg. Qed.

Lemma invert_buy_side_slip_nonneg d l c m g :
  fits u128 d → fits u128 l → SignedBalance.valid c → is_permill m →
  invert_buy_side_slip d l c m = Some g → fits u128 g.
Proof.
  intros Hd Hl Hc Hm Hg. pose proof (fits_nonneg _ _ Hd). unfold is_permill in Hm.
  assert (invert_buy_side_slip_capped d m = Some g → fits u128 g) as Hcap.
  { unfold invert_buy_side_slip_capped, to_balance, PERMILL_SCALE. intros Hx. inv_cases. propify.
    split; [|done]. apply div_nonneg; lia. }
  unfold invert_buy_side_slip in Hg.
  destruct (invert_buy_side_slip_uncapped d l c) as [g'|] eqn:Eu; [|auto]. inv_cases; [auto|].
  unfold invert_buy_side_slip_uncapped in Eu.
  destruct (signed_add_to_unsigned_cases c l Hc Hl) as [[E Hs]|[E _]]; rewrite E in Eu; [|done].
  pose proof (fits_nonneg _ _ Hs). simpl in Eu. unfold to_balance in Eu. inv_cases; propify; (split; [|done]).
  all: apply Z.add_nonneg_nonneg; [|done]; apply div_nonneg; try lia.
  1-2: repeat apply Z.mul_nonneg_nonneg; lia.
  all: apply saturating_add_nonneg; [done|lia|]; apply sqrt_nonneg_u256, saturating_add_fits; [done|nia..].
Qed.

Lemma invert_sell_case_b_nonneg d l s c pf k u :
  0 <= d → 0 <= l → 0 <= s → 0 <= c → 0 <= pf → 0 <= k →
  invert_sell_case_b d l s c pf k = Some (Some u) → fits u128 u.
Proof.
  intros Hd Hl Hs Hc Hpf Hk Hu. unfold invert_sell_case_b, to_balance in Hu.
  assert (0 <= PERMILL_SCALE) by done.
  inv_cases; propify; (split; [|done]); apply Z.add_nonneg_nonneg; try done; apply div_nonneg;
    auto 8 with nonneg.
  all: apply saturating_add_nonneg; [done|auto with nonneg|]; apply sqrt_nonneg_u256, saturating_add_fits;
    auto 8 with nonneg; nia.
Qed.

Lemma invert_sell_case_a_nonneg d s c k pos u :
  0 <= k → invert_sell_case_a d s c k pos = Some u → fits u128 u.
Proof.
  intros Hk Hu. unfold invert_sell_case_a, to_balance in Hu. assert (0 <= PERMILL_SCALE) by done.
  destruct pos; inv_cases; propify; (split; [|done]); apply Z.add_nonneg_nonneg; try done;
    apply div_nonneg; auto 8 with nonneg.
Qed.

Lemma invert_sell_side_fees_fits d pf l c m u :
  fits u128 d → fits u128 l → SignedBalance.valid c → is_permill pf → is_permill m →
  invert_sell_side_fees d pf l c m = Some u → fits u128 u.
Proof.
  intros Hd Hl Hc Hpf Hm Hu. pose proof (fits_nonneg _ _ Hd). pose proof (fits_nonneg _ _ Hl).
  pose proof (fits_nonneg _ _ Hc). unfold is_permill in *.
  assert (invert_sell_side_fees_capped d pf m = Some u → fits u128 u) as Hcap.
  { unfold invert_sell_side_fees_capped, to_balance, PERMILL_SCALE. intros Hx. inv_cases. propify.
    split; [|done]. apply div_nonneg; lia. }
  unfold invert_sell_side_fees in Hu.
  destruct (invert_sell_side_fees_uncapped d pf l c) as [u'|] eqn:Eu; [|auto]. inv_cases; [auto|].
  unfold invert_sell_side_fees_uncapped in Eu. inv_cases;
    first [eapply invert_sell_case_a_nonneg; [|done]; lia
          |eapply invert_sell_case_b_nonneg; [| | | | | |done]; lia].
Qed.
End inversion_signs.
