(* ===== verification/OmnipoolMath.v ===== *)
(** * Omnipool arithmetic

    Models [math/src/omnipool/math.rs]: the state changes of trades, of trades
    with the hub asset, of adding and removing liquidity, and the prices and
    caps.  Each asset is a constant-product pool of the asset against the hub
    asset.  The theorems show that every trade keeps each pool's product, that
    the hub asset leaving one pool is the hub asset entering the other plus the
    protocol fee, and that liquidity providers get at most their part. *)

From S2P Require Import Prelude Arithmetic Product Currency OmnipoolTypes SlipFee.

Section omnipool.
Context `{SpArithmetic}.
Implicit Types (state : AssetReserveState).

Definition no_change : AssetStateChange :=
  mkChange BalanceUpdate.default BalanceUpdate.default BalanceUpdate.default
    BalanceUpdate.default BalanceUpdate.default.

Definition amount_without_fee (amount : Balance) (fee : Z) : option Balance :=
  v ← checked_sub PERMILL fee;
  Some (permill_mul_floor v amount).

(** Hub asset minted for the asset fee that stays in the pool. *)
Definition fee_mint (asset_fee : Z) (hub_reserve d : Balance) : option Balance :=
  v ← checked_add u256 hub_reserve d;
  v ← checked_mul u256 v d;
  v ← checked_div v hub_reserve;
  v ← ok (to_balance v);
  Some (permill_mul_floor asset_fee v).

Definition calculate_sell_state_changes (asset_in_state asset_out_state : AssetReserveState)
    (amount : Balance) (asset_fee protocol_fee m : Z) (slip : option TradeSlipFees) :
    option TradeStateChange :=
  v ← checked_mul u256 amount (hub_reserve asset_in_state);
  w ← checked_add u256 (reserve asset_in_state) amount;
  delta_hub_reserve_in ← checked_div v w;
  delta_hub_reserve_in ← ok (to_balance delta_hub_reserve_in);
  let protocol_fee_amount := permill_mul_floor protocol_fee delta_hub_reserve_in in
  slip_sell_amount ← match slip with
    | Some slip => calculate_slip_fee_amount (asset_in_hub_reserve slip) (asset_in_delta slip)
        (Negative delta_hub_reserve_in) (max_slip_fee slip) delta_hub_reserve_in
    | None => Some 0
    end;
  v ← checked_sub delta_hub_reserve_in protocol_fee_amount;
  d_gross ← checked_sub v slip_sell_amount;
  slip_buy_amount ← match slip with
    | Some slip => calculate_slip_fee_amount (asset_out_hub_reserve slip) (asset_out_delta slip)
        (Positive d_gross) (max_slip_fee slip) d_gross
    | None => Some 0
    end;
  d_net ← checked_sub d_gross slip_buy_amount;
  v ← checked_mul u256 (reserve asset_out_state) d_net;
  w ← checked_add u256 (hub_reserve asset_out_state) d_net;
  delta_reserve_out_hp ← checked_div v w;
  amount_out ← ok (to_balance delta_reserve_out_hp);
  delta_reserve_out ← amount_without_fee amount_out asset_fee;
  let asset_fee_amount := saturating_sub amount_out delta_reserve_out in
  delta_out_m ← fee_mint asset_fee (hub_reserve asset_out_state) d_net;
  v ← checked_add u128 protocol_fee_amount slip_sell_amount;
  total_protocol_fee ← checked_add u128 v slip_buy_amount;
  let burned_protocol_fee := permill_mul_floor m total_protocol_fee in
  Some (mkTradeChange
    (mkChange (Increase amount) (Decrease delta_hub_reserve_in) BalanceUpdate.default
       BalanceUpdate.default BalanceUpdate.default)
    (mkChange (Decrease delta_reserve_out) (Increase d_net) BalanceUpdate.default
       BalanceUpdate.default (Increase delta_out_m))
    (mkTradeFee asset_fee_amount total_protocol_fee burned_protocol_fee)).

Definition calculate_sell_hub_state_changes (asset_out_state : AssetReserveState)
    (hub_asset_amount : Balance) (asset_fee : Z) (slip : option HubTradeSlipFees) :
    option HubTradeStateChange :=
  slip_buy_amount ← match slip with
    | Some slip => calculate_slip_fee_amount (asset_hub_reserve slip) (asset_delta slip)
        (Positive hub_asset_amount) (hub_max_slip_fee slip) hub_asset_amount
    | None => Some 0
    end;
  effective_hub ← checked_sub hub_asset_amount slip_buy_amount;
  v ← checked_mul u256 (reserve asset_out_state) effective_hub;
  w ← checked_add u256 (hub_reserve asset_out_state) effective_hub;
  delta_reserve_out_hp ← checked_div v w;
  amount_out ← ok (to_balance delta_reserve_out_hp);
  delta_reserve_out ← amount_without_fee amount_out asset_fee;
  let asset_fee_amount := saturating_sub amount_out delta_reserve_out in
  delta_q_m ← fee_mint asset_fee (hub_reserve asset_out_state) effective_hub;
  Some (mkHubTradeChange
    (mkChange (Decrease delta_reserve_out) (Increase hub_asset_amount) BalanceUpdate.default
       BalanceUpdate.default (Increase delta_q_m))
    (mkTradeFee asset_fee_amount slip_buy_amount 0)).

Definition calculate_fee_amount_for_buy (fee : Z) (amount : Balance) : Balance :=
  if fee =? 0 then 0 else
  if fee =? PERMILL then amount else
  let '(numerator, denominator) := (fee, 1000000) in
  if numerator =? denominator then amount else
  saturating_add u128 (saturating_mul u128 numerator amount / saturating_sub denominator numerator) 1.

Definition calculate_buy_for_hub_asset_state_changes (asset_out_state : AssetReserveState)
    (asset_out_amount : Balance) (asset_fee : Z) (slip : option HubTradeSlipFees) :
    option HubTradeStateChange :=
  reserve_no_fee ← amount_without_fee (reserve asset_out_state) asset_fee;
  hub_denominator ← checked_sub reserve_no_fee asset_out_amount;
  v ← checked_mul u256 (hub_reserve asset_out_state) asset_out_amount;
  v ← checked_div v hub_denominator;
  d_net_hp ← checked_add u256 v 1;
  d_net ← ok (to_balance d_net_hp);
  slip_buy_amount ← match slip with
    | Some slip =>
        d_gross ← invert_buy_side_slip d_net (asset_hub_reserve slip) (asset_delta slip)
          (hub_max_slip_fee slip);
        checked_sub d_gross d_net
    | None => Some 0
    end;
  let fee_amount := calculate_fee_amount_for_buy asset_fee asset_out_amount in
  v ← checked_add u256 (hub_reserve asset_out_state) d_net;
  v ← checked_mul u256 v asset_out_amount;
  v ← ok (to_balance v);
  let n := permill_mul_floor asset_fee v in
  delta_q_m ← checked_div n hub_denominator;
  d_gross ← checked_add u128 d_net slip_buy_amount;
  Some (mkHubTradeChange
    (mkChange (Decrease asset_out_amount) (Increase d_gross) BalanceUpdate.default
       BalanceUpdate.default (Increase delta_q_m))
    (mkTradeFee fee_amount slip_buy_amount 0)).

Definition calculate_buy_state_changes (asset_in_state asset_out_state : AssetReserveState)
    (amount : Balance) (asset_fee protocol_fee m : Z) (slip : option TradeSlipFees) :
    option TradeStateChange :=
  reserve_no_fee ← amount_without_fee (reserve asset_out_state) asset_fee;
  v ← checked_mul u256 (hub_reserve asset_out_state) amount;
  w ← checked_sub reserve_no_fee amount;
  d_net_hp ← checked_div v w;
  d_net ← ok (to_balance d_net_hp);
  d_net ← checked_add u128 d_net 1;
  d_gross ← match slip with
    | Some slip => invert_buy_side_slip d_net (asset_out_hub_reserve slip) (asset_out_delta slip)
        (max_slip_fee slip)
    | None => Some d_net
    end;
  delta_hub_reserve_in ← match slip with
    | Some slip => invert_sell_side_fees d_gross protocol_fee (asset_in_hub_reserve slip)
        (asset_in_delta slip) (max_slip_fee slip)
    | None => fixed_checked_div d_net (fixed_from_permill (saturating_sub PERMILL protocol_fee))
    end;
  if hub_reserve asset_in_state <=? delta_hub_reserve_in then None else
  v ← checked_mul u256 (reserve asset_in_state) delta_hub_reserve_in;
  w ← checked_sub (hub_reserve asset_in_state) delta_hub_reserve_in;
  delta_reserve_in ← checked_div v w;
  delta_reserve_in ← ok (to_balance delta_reserve_in);
  delta_reserve_in ← checked_add u128 delta_reserve_in 1;
  let asset_fee_amount := calculate_fee_amount_for_buy asset_fee amount in
  let protocol_fee_amount := permill_mul_floor protocol_fee delta_hub_reserve_in in
  slip_sell_amount ← match slip with
    | Some slip => calculate_slip_fee_amount (asset_in_hub_reserve slip) (asset_in_delta slip)
        (Negative delta_hub_reserve_in) (max_slip_fee slip) delta_hub_reserve_in
    | None => Some 0
    end;
  v ← checked_sub delta_hub_reserve_in protocol_fee_amount;
  d_gross_forward ← checked_sub v slip_sell_amount;
  slip_buy_amount ← match slip with
    | Some slip => calculate_slip_fee_amount (asset_out_hub_reserve slip) (asset_out_delta slip)
        (Positive d_gross_forward) (max_slip_fee slip) d_gross_forward
    | None => Some 0
    end;
  d_net_forward ← checked_sub d_gross_forward slip_buy_amount;
  v ← checked_add u128 protocol_fee_amount slip_sell_amount;
  total_protocol_fee ← checked_add u128 v slip_buy_amount;
  delta_out_m ← fee_mint asset_fee (hub_reserve asset_out_state) d_net_forward;
  let burned_protocol_fee := permill_mul_floor m total_protocol_fee in
  Some (mkTradeChange
    (mkChange (Increase delta_reserve_in) (Decrease delta_hub_reserve_in) BalanceUpdate.default
       BalanceUpdate.default BalanceUpdate.default)
    (mkChange (Decrease amount) (Increase d_net_forward) BalanceUpdate.default
       BalanceUpdate.default (Increase delta_out_m))
    (mkTradeFee asset_fee_amount total_protocol_fee burned_protocol_fee)).

Definition calculate_add_liquidity_state_changes (asset_state : AssetReserveState) (amount : Balance) :
    option LiquidityStateChange :=
  p ← price asset_state;
  delta_hub_reserve ← fixed_checked_mul_int p amount;
  v ← checked_mul u256 (shares asset_state) amount;
  delta_shares_hp ← checked_div v (reserve asset_state);
  delta_shares ← ok (to_balance delta_shares_hp);
  Some (mkLiquidityChange
    (mkChange (Increase amount) (Increase delta_hub_reserve) (Increase delta_shares)
       BalanceUpdate.default BalanceUpdate.default)
    BalanceUpdate.default BalanceUpdate.default 0).

(** [None] is the panic of the fixed-point division. *)
Definition calculate_withdrawal_fee (spot_price oracle_price min_withdrawal_fee : Z) : option Z :=
  let price_diff :=
    if oracle_price <=? spot_price then saturating_sub spot_price oracle_price
    else saturating_sub oracle_price spot_price in
  let min_fee := fixed_from_permill min_withdrawal_fee in
  if oracle_price =? 0 then Some min_fee else
  v ← fixed_checked_div price_diff oracle_price;
  Some (Z.min (Z.max v min_fee) DIV).

Definition calculate_remove_liquidity_state_changes (asset_state : AssetReserveState)
    (shares_removed : Balance) (position : Position) (withdrawal_fee : Z) : option LiquidityStateChange :=
  let current_shares := shares asset_state in
  let current_reserve := reserve asset_state in
  let current_hub_reserve := hub_reserve asset_state in
  current_price ← price asset_state;
  position_price ← price_of_position position;
  v ← fixed_checked_mul_int position_price current_reserve;
  p_x_r ← checked_add u256 v 1;
  delta_b_hp ← (if current_price <? position_price then
                  v ← checked_sub p_x_r current_hub_reserve;
                  numer ← checked_mul u256 v shares_removed;
                  denom ← checked_add u256 p_x_r current_hub_reserve;
                  v ← checked_div numer denom;
                  checked_add u256 v 1
                else Some 0);
  delta_shares_hp ← checked_sub shares_removed delta_b_hp;
  v ← checked_mul u256 current_reserve delta_shares_hp;
  delta_reserve_hp ← checked_div v current_shares;
  v ← checked_mul u256 delta_reserve_hp current_hub_reserve;
  delta_hub_reserve_hp ← checked_div v current_reserve;
  v ← checked_mul u256 shares_removed (position_amount position);
  delta_position_amount_hp ← checked_div v (position_shares position);
  delta_reserve ← ok (to_balance delta_reserve_hp);
  delta_hub_reserve ← ok (to_balance delta_hub_reserve_hp);
  delta_position_amount ← ok (to_balance delta_position_amount_hp);
  delta_shares ← ok (to_balance delta_shares_hp);
  delta_b ← ok (to_balance delta_b_hp);
  hub_transferred ← (if position_price <? current_price then
                       sub ← checked_sub current_hub_reserve p_x_r;
                       sum ← checked_add u256 current_hub_reserve p_x_r;
                       v ← checked_mul u256 current_hub_reserve sub;
                       div1 ← checked_div v sum;
                       v ← checked_mul u256 div1 delta_shares_hp;
                       v ← checked_div v current_shares;
                       ok (to_balance v)
                     else Some 0);
  let fee_complement := saturating_sub DIV withdrawal_fee in
  delta_reserve ← fixed_checked_mul_int fee_complement delta_reserve;
  delta_hub_reserve ← fixed_checked_mul_int fee_complement delta_hub_reserve;
  hub_transferred ← fixed_checked_mul_int fee_complement hub_transferred;
  Some (mkLiquidityChange
    (mkChange (Decrease delta_reserve) (Decrease delta_hub_reserve) (Decrease delta_shares)
       (Increase delta_b) BalanceUpdate.default)
    (Decrease delta_position_amount) (Decrease shares_removed) hub_transferred).

Definition calculate_tvl (hub_reserve : Balance) (stable_asset : Balance * Balance) : option Balance :=
  v ← checked_mul u256 hub_reserve stable_asset.1;
  tvl ← checked_div v stable_asset.2;
  ok (to_balance tvl).

Definition fee_multiplier (fee : Z) : option Z :=
  parts ← checked_sub PERMILL fee;
  fixed_checked_from_rational parts 1000000.

Definition calculate_spot_price (asset_a asset_b : AssetReserveState) (fee : option (Z * Z)) : option Z :=
  price_a ← fixed_checked_from_rational (hub_reserve asset_a) (reserve asset_a);
  price_b ← fixed_checked_from_rational (reserve asset_b) (hub_reserve asset_b);
  spot_price_without_fee ← fixed_checked_mul price_a price_b;
  match fee with
  | Some (protocol_fee, asset_fee) =>
      protocol_fee_multiplier ← fee_multiplier protocol_fee;
      asset_fee_multiplier ← fee_multiplier asset_fee;
      v ← fixed_checked_mul spot_price_without_fee protocol_fee_multiplier;
      fixed_checked_mul v asset_fee_multiplier
  | None => Some spot_price_without_fee
  end.

Definition calculate_lrna_spot_price (asset : AssetReserveState) (fee : option Z) : option Z :=
  spot_price_without_fee ← fixed_checked_from_rational (reserve asset) (hub_reserve asset);
  match fee with
  | Some asset_fee =>
      asset_fee_multiplier ← fee_multiplier asset_fee;
      fixed_checked_mul spot_price_without_fee asset_fee_multiplier
  | None => Some spot_price_without_fee
  end.

Definition calculate_cap_difference (asset : AssetReserveState) (asset_cap : Z)
    (total_hub_reserve : Balance) : option Balance :=
  max_allowed ← fixed_checked_mul_int asset_cap total_hub_reserve;
  p ← fixed_checked_from_rational (hub_reserve asset) max_allowed;
  if DIV <? p then Some 0 else
  v ← checked_sub DIV p;
  fixed_checked_mul_int v (reserve asset).

Definition calculate_tvl_cap_difference (asset stable_asset : AssetReserveState)
    (tvl_cap total_hub_reserve : Balance) : option Balance :=
  v ← checked_mul u256 tvl_cap (hub_reserve stable_asset);
  max_hub_reserve ← checked_div v (reserve stable_asset);
  if max_hub_reserve <? total_hub_reserve then Some 0 else
  delta_q ← checked_sub max_hub_reserve total_hub_reserve;
  v ← checked_mul u256 delta_q (reserve asset);
  amount ← checked_div v (hub_reserve asset);
  ok (to_balance amount).

Definition verify_asset_cap (asset : AssetReserveState) (asset_cap : Z)
    (hub_amount total_hub_reserve : Balance) : option bool :=
  n ← checked_add u128 (hub_reserve asset) hub_amount;
  d ← checked_add u128 total_hub_reserve hub_amount;
  weight ← fixed_checked_from_rational n d;
  Some (weight <=? asset_cap).
End omnipool.

(** ** Trades keep the product of each pool *)

Definition valid_state (s : AssetReserveState) : Prop :=
  fits u128 (reserve s) ∧ fits u128 (hub_reserve s) ∧ fits u128 (shares s) ∧ fits u128 (protocol_shares s).

Definition valid_slip (slip : option TradeSlipFees) : Prop :=
  match slip with
  | Some s => fits u128 (asset_in_hub_reserve s) ∧ SignedBalance.valid (asset_in_delta s) ∧
              fits u128 (asset_out_hub_reserve s) ∧ SignedBalance.valid (asset_out_delta s) ∧
              is_permill (max_slip_fee s)
  | None => True
  end.

Definition valid_hub_slip (slip : option HubTradeSlipFees) : Prop :=
  match slip with
  | Some s => fits u128 (asset_hub_reserve s) ∧ SignedBalance.valid (asset_delta s) ∧
              is_permill (hub_max_slip_fee s)
  | None => True
  end.

(** The reserves of an asset after a change, as integers. *)
Definition reserve_after (s : AssetReserveState) (ch : AssetStateChange) : Z :=
  reserve s + BalanceUpdate.value (delta_reserve ch).
Definition hub_after (s : AssetReserveState) (ch : AssetStateChange) : Z :=
  hub_reserve s + BalanceUpdate.value (delta_hub_reserve ch).

(** A change that leaves non-negative reserves with a product no smaller. *)
Definition keeps_product (s : AssetReserveState) (ch : AssetStateChange) : Prop :=
  0 <= reserve_after s ch ∧ 0 <= hub_after s ch ∧
  reserve s * hub_reserve s <= reserve_after s ch * hub_after s ch.

Section trades.
Context `{SpArithmeticLaws}.

Lemma amount_without_fee_Some a f x :
  is_permill f → fits u128 a → amount_without_fee a f = Some x → 0 <= x <= a.
Proof.
  intros Hf Ha Hx. unfold amount_without_fee in Hx. inv_run.
  apply permill_mul_floor_bounds; [|done]. unfold is_permill, PERMILL in *. lia.
Qed.

Lemma fee_mint_Some f q d x :
  is_permill f → fits u128 q → fits u128 d → fee_mint f q d = Some x → fits u128 x.
Proof.
  intros Hf Hq Hd Hx. unfold fee_mint, to_balance in Hx. inv_run.
  pose proof (fits_nonneg _ _ Hq). pose proof (fits_nonneg _ _ Hd).
  match goal with |- fits _ (permill_mul_floor f ?y) =>
    assert (fits u128 y) as Hy by (split; [apply div_nonneg; nia|done]);
    pose proof (permill_mul_floor_bounds f y Hf Hy); unfold fits in *; lia end.
Qed.

Lemma slip_amount_nonneg (slip : option TradeSlipFees) l c dq base x :
  (∀ s, slip = Some s → fits u128 (l s) ∧ SignedBalance.valid (c s) ∧ is_permill (max_slip_fee s)) →
  SignedBalance.valid dq → fits u128 base →
  match slip with
  | Some s => calculate_slip_fee_amount (l s) (c s) dq (max_slip_fee s) base
  | None => Some 0
  end = Some x → 0 <= x.
Proof.
  intros Hv Hdq Hb Hx. destruct slip as [s|]; [|by injection Hx as <-].
  destruct (Hv s eq_refl) as (? & ? & ?). eapply slip_fee_bounds in Hx as [? _]; done.
Qed.

(** Selling into a pool: the product with the hub reserve is kept. *)
Lemma sell_side_keeps s amount dq :
  valid_state s → 0 <= amount → dq = amount * hub_reserve s / (reserve s + amount) →
  reserve s + amount ≠ 0 →
  0 <= dq <= hub_reserve s ∧
  reserve s * hub_reserve s <= (reserve s + amount) * (hub_reserve s - dq).
Proof.
  intros (Hr & Hq & _) Ha -> Hne. pose proof (fits_nonneg _ _ Hr). pose proof (fits_nonneg _ _ Hq).
  rewrite Z.mul_comm. split; [split; [apply muldiv_nonneg; lia|apply muldiv_le; lia]|].
  pose proof (sell_keeps_product (reserve s) (hub_reserve s) amount 0) as Hk.
  rewrite Z.sub_0_r in Hk. apply Hk; lia.
Qed.

(** Buying from a pool with the hub asset: at most [d * R / (Q + d)] leaves. *)
Lemma buy_side_keeps s d out gross :
  valid_state s → 0 <= d → gross = reserve s * d / (hub_reserve s + d) →
  0 <= out <= gross →
  0 <= reserve s - out ∧ reserve s * hub_reserve s <= (reserve s - out) * (hub_reserve s + d).
Proof.
  intros (Hr & Hq & _) Hd -> Ho. pose proof (fits_nonneg _ _ Hr). pose proof (fits_nonneg _ _ Hq).
  destruct (Z.eq_dec (hub_reserve s + d) 0) as [Hz|Hne]; [rewrite Hz, Zdiv_0_r in *; nia|].
  assert (reserve s * d / (hub_reserve s + d) <= reserve s) by (apply muldiv_le; lia).
  split; [lia|].
  pose proof (sell_keeps_product (hub_reserve s) (reserve s) d
    (reserve s * d / (hub_reserve s + d) - out)) as Hk.
  rewrite Z.mul_comm, (Z.mul_comm (reserve s - out)). etransitivity; [apply Hk; lia|].
  apply Z.mul_le_mono_nonneg_l; lia.
Qed.

(** What a computed sale looks like, and the facts on its amounts. *)
Lemma sell_changes_Some a_in a_out amount fa fp m slip ch :
  valid_state a_in → valid_state a_out → fits u128 amount →
  is_permill fa → is_permill fp → is_permill m → valid_slip slip →
  calculate_sell_state_changes a_in a_out amount fa fp m slip = Some ch →
  ∃ dq d_net out minted fee_a fee_p burned,
    ch = mkTradeChange
      (mkChange (Increase amount) (Decrease dq) BalanceUpdate.default BalanceUpdate.default BalanceUpdate.default)
      (mkChange (Decrease out) (Increase d_net) BalanceUpdate.default BalanceUpdate.default (Increase minted))
      (mkTradeFee fee_a fee_p burned) ∧
    dq = d_net + fee_p ∧ 0 <= d_net ∧ 0 <= burned <= fee_p ∧ 0 <= out ∧ fits u128 fee_a ∧ fits u128 minted ∧
    out + fee_a = reserve a_out * d_net / (hub_reserve a_out + d_net) ∧
    keeps_product a_in (change_in ch) ∧ keeps_product a_out (change_out ch).
Proof.
  intros Hin Hout Ha Hfa Hfp Hm Hslip Hrun. unfold calculate_sell_state_changes, to_balance in Hrun.
  pose proof (fits_nonneg _ _ Ha) as Ha0.
  inv_run. rename x0 into f_s. rename x1 into f_b. rename x3 into out. rename x4 into minted.
  destruct (sell_side_keeps a_in amount (amount * hub_reserve a_in / (reserve a_in + amount)))
    as [Hdq Hk]; [done..|].
  set (dq := amount * hub_reserve a_in / (reserve a_in + amount)) in *.
  assert (fits u128 dq) as Hfdq by (split; lia).
  pose proof (permill_mul_floor_bounds fp dq Hfp Hfdq) as Hpf. set (f_p := permill_mul_floor fp dq) in *.
  assert (0 <= f_s) as Hfs.
  { eapply (slip_amount_nonneg slip asset_in_hub_reserve asset_in_delta (Negative dq) dq); [|done..|done].
    intros ? ->. by destruct Hslip as (? & ? & ? & ? & ?). }
  assert (fits u128 (dq - f_p - f_s)) as Hfg by (unfold fits in *; lia).
  assert (0 <= f_b) as Hfb.
  { eapply (slip_amount_nonneg slip asset_out_hub_reserve asset_out_delta
      (Positive (dq - f_p - f_s)) (dq - f_p - f_s)); [|done..|done].
    intros ? ->. by destruct Hslip as (? & ? & ? & ? & ?). }
  set (d := dq - f_p - f_s - f_b) in *. assert (fits u128 d) as Hd by (unfold fits in *; lia).
  assert (0 <= d) as Hd0 by lia. pose proof Hout as (HR & HQ & _). pose proof Hin as (HRi & _).
  set (g := reserve a_out * d / (hub_reserve a_out + d)) in *.
  assert (fits u128 g) as Hg by (split; [apply muldiv_nonneg; unfold fits in *; lia|done]).
  match goal with Hw : amount_without_fee _ _ = Some _ |- _ => apply amount_without_fee_Some in Hw; [|done..] end.
  match goal with Hw : fee_mint _ _ _ = Some _ |- _ => apply fee_mint_Some in Hw; [|done..] end.
  destruct (buy_side_keeps a_out d out g) as [Ho Hk2]; [done..|].
  pose proof (permill_mul_floor_bounds m (f_p + f_s + f_b) Hm) as Hb.
  unfold keeps_product, reserve_after, hub_after. simpl. unfold saturating_sub. unfold fits in *.
  do 7 eexists. split; [reflexivity|]. subst d. split_and!; simpl; try lia.
Qed.

(** A sale keeps the product of the reserves of both pools, the hub asset
    that leaves the sold asset's pool is exactly the hub asset that enters the
    bought asset's pool plus the protocol fee, and at most the protocol fee is
    burned; slip fees are part of the protocol fee. *)
Theorem sell_keeps_products a_in a_out amount fa fp m slip ch :
  valid_state a_in → valid_state a_out → fits u128 amount →
  is_permill fa → is_permill fp → is_permill m → valid_slip slip →
  calculate_sell_state_changes a_in a_out amount fa fp m slip = Some ch →
  keeps_product a_in (change_in ch) ∧ keeps_product a_out (change_out ch) ∧
  hub_after a_in (change_in ch) + hub_after a_out (change_out ch) + protocol_fee (trade_fee ch)
    = hub_reserve a_in + hub_reserve a_out ∧
  0 <= burned_protocol_fee (trade_fee ch) <= protocol_fee (trade_fee ch).
Proof.
  intros Hin Hout Ha Hfa Hfp Hm Hslip Hrun.
  destruct (sell_changes_Some _ _ _ _ _ _ _ _ Hin Hout Ha Hfa Hfp Hm Hslip Hrun)
    as (dq & d & out & mn & fa' & fp' & b & -> & Hdq & _ & Hb & _ & _ & _ & _ & Hk1 & Hk2).
  split; [done|]. split; [done|]. unfold hub_after. simpl. lia.
Qed.

Lemma sell_hub_changes_Some a_out amount fa slip ch :
  valid_state a_out → fits u128 amount → is_permill fa → valid_hub_slip slip →
  calculate_sell_hub_state_changes a_out amount fa slip = Some ch →
  ∃ out minted fee_a fee_s,
    ch = mkHubTradeChange
      (mkChange (Decrease out) (Increase amount) BalanceUpdate.default BalanceUpdate.default (Increase minted))
      (mkTradeFee fee_a fee_s 0) ∧
    0 <= out ∧ fits u128 fee_a ∧ 0 <= fee_s <= amount ∧ fits u128 minted ∧
    out + fee_a = reserve a_out * (amount - fee_s) / (hub_reserve a_out + (amount - fee_s)) ∧
    keeps_product a_out (hub_change ch).
Proof.
  intros Hout Ha Hfa Hslip Hrun. unfold calculate_sell_hub_state_changes, to_balance in Hrun.
  pose proof (fits_nonneg _ _ Ha) as Ha0. inv_run. rename x into f. rename x1 into out. rename x2 into minted.
  assert (0 <= f) as Hf.
  { destruct slip as [sl|]; inv_run; [|done]. destruct Hslip as (? & ? & ?).
    match goal with Hx : calculate_slip_fee_amount _ _ _ _ _ = Some _ |- _ =>
      eapply slip_fee_bounds in Hx as [? _]; done end. }
  set (d := amount - f) in *. assert (fits u128 d) as Hd by (unfold fits in *; lia).
  assert (0 <= d) as Hd0 by lia. pose proof Hout as (HR & HQ & _).
  set (g := reserve a_out * d / (hub_reserve a_out + d)) in *.
  assert (fits u128 g) as Hg by (split; [apply muldiv_nonneg; unfold fits in *; lia|done]).
  match goal with Hw : amount_without_fee _ _ = Some _ |- _ => apply amount_without_fee_Some in Hw; [|done..] end.
  match goal with Hw : fee_mint _ _ _ = Some _ |- _ => apply fee_mint_Some in Hw; [|done..] end.
  destruct (buy_side_keeps a_out d out g) as [Ho Hk2]; [done..|].
  assert ((reserve a_out - out) * (hub_reserve a_out + d) <= (reserve a_out - out) * (hub_reserve a_out + amount))
    by (apply Z.mul_le_mono_nonneg_l; lia).
  unfold keeps_product, reserve_after, hub_after. simpl. unfold saturating_sub. unfold fits in *.
  do 4 eexists. split; [reflexivity|]. split_and!; simpl; fold d; fold g; lia.
Qed.

(** Selling the hub asset keeps the product of the bought asset's pool;
    the whole amount paid enters the pool, its slip fee included. *)
Theorem sell_hub_keeps_product a_out amount fa slip ch :
  valid_state a_out → fits u128 amount → is_permill fa → valid_hub_slip slip →
  calculate_sell_hub_state_changes a_out amount fa slip = Some ch →
  keeps_product a_out (hub_change ch) ∧ hub_after a_out (hub_change ch) = hub_reserve a_out + amount ∧
  0 <= protocol_fee (hub_trade_fee ch) <= amount.
Proof.
  intros Hout Ha Hfa Hslip Hrun.
  destruct (sell_hub_changes_Some _ _ _ _ _ Hout Ha Hfa Hslip Hrun)
    as (o & mn & f1 & f2 & -> & _ & _ & Hf & _ & _ & Hk). done.
Qed.

(** A purchase priced on the reserve without fee pays for itself. *)
Lemma buy_amount_keeps s amount r_nf d :
  valid_state s → 0 <= amount <= r_nf → r_nf <= reserve s → r_nf - amount ≠ 0 →
  hub_reserve s * amount / (r_nf - amount) + 1 <= d →
  0 <= d ∧ 0 <= reserve s - amount ∧
  reserve s * hub_reserve s <= (reserve s - amount) * (hub_reserve s + d).
Proof.
  intros (Hr & Hq & _) Ha Hnf Hne Hd. pose proof (fits_nonneg _ _ Hq).
  pose proof (div_bounds (hub_reserve s * amount) (r_nf - amount) ltac:(lia)).
  assert (0 <= hub_reserve s * amount / (r_nf - amount)) by (apply muldiv_nonneg; lia).
  set (x := hub_reserve s * amount / (r_nf - amount)) in *. split_and!; [lia|lia|].
  assert (hub_reserve s * amount <= (r_nf - amount) * d) by nia.
  assert ((r_nf - amount) * d <= (reserve s - amount) * d) by nia. nia.
Qed.

Lemma fee_amount_for_buy_fits f x : is_permill f → fits u128 x → fits u128 (calculate_fee_amount_for_buy f x).
Proof.
  unfold is_permill. intros Hf Hx. unfold calculate_fee_amount_for_buy. repeat case_match; try done.
  apply saturating_add_fits; [done| |lia]. apply div_nonneg; [|apply saturating_sub_nonneg].
  apply fits_nonneg in Hx. apply saturating_mul_nonneg; [done|lia..].
Qed.

Lemma buy_hub_changes_Some a_out amount fa slip ch :
  valid_state a_out → fits u128 amount → is_permill fa →
  calculate_buy_for_hub_asset_state_changes a_out amount fa slip = Some ch →
  ∃ d minted fee_a fee_s,
    ch = mkHubTradeChange
      (mkChange (Decrease amount) (Increase d) BalanceUpdate.default BalanceUpdate.default (Increase minted))
      (mkTradeFee fee_a fee_s 0) ∧
    0 <= fee_s <= d ∧ fits u128 fee_a ∧ fits u128 d ∧ fits u128 minted ∧ keeps_product a_out (hub_change ch).
Proof.
  intros Hout Ha Hfa Hrun. unfold calculate_buy_for_hub_asset_state_changes, to_balance in Hrun.
  pose proof (fits_nonneg _ _ Ha) as Ha0. pose proof Hout as (HR & HQ & _). inv_run.
  match goal with Hw : amount_without_fee _ _ = Some ?y |- _ =>
    apply amount_without_fee_Some in Hw; [|done..]; rename y into r_nf end.
  match goal with Hs : match slip with _ => _ end = Some ?y |- _ => rename y into f; rename Hs into Hf end.
  assert (0 <= f) by (destruct slip; inv_run; lia).
  set (d := hub_reserve a_out * amount / (r_nf - amount) + 1) in *.
  destruct (buy_amount_keeps a_out amount r_nf (d + f)) as (? & ? & Hk); [done|lia..|].
  destruct (buy_amount_keeps a_out amount r_nf d) as (? & ? & _); [done|lia..|].
  pose proof (fee_amount_for_buy_fits fa amount Hfa Ha) as Hfee.
  assert (fits u128 ((hub_reserve a_out + d) * amount)) as Hv by (split; [unfold fits in *; nia|done]).
  pose proof (permill_mul_floor_bounds fa _ Hfa Hv).
  unfold keeps_product, reserve_after, hub_after. simpl. do 4 eexists. split; [reflexivity|].
  split_and!; simpl; try (unfold fits in *; lia). apply fits_div; unfold fits in *; lia.
Qed.

(** The fee of a purchase, less the unit that stays, is at most [f / (1 - f)] of it. *)
Lemma fee_amount_for_buy_spent f a spent :
  is_permill f → fits u128 a → f ≠ PERMILL →
  0 <= spent <= saturating_sub (calculate_fee_amount_for_buy f a) 1 → spent * (PERMILL - f) <= f * a.
Proof.
  unfold is_permill, calculate_fee_amount_for_buy, saturating_sub, saturating_add, saturating_mul, fits, PERMILL.
  intros Hf Ha Hne Hs. destruct (Z.eqb_spec f 0); [lia|]. destruct (Z.eqb_spec f 1000000); [lia|].
  rewrite (Z.max_r 0 (1000000 - f)) in Hs by lia.
  pose proof (div_bounds (Z.min (f * a) (max_value u128)) (1000000 - f) ltac:(lia)) as [Hd _].
  assert (Z.min (f * a) (max_value u128) <= f * a) by lia.
  assert (0 <= Z.min (f * a) (max_value u128) / (1000000 - f)) by (apply div_nonneg; unfold max_value, u128; nia).
  set (w := Z.min (f * a) (max_value u128) / (1000000 - f)) in *. clearbody w.
  assert (spent * (1000000 - f) <= w * (1000000 - f)) by (apply Z.mul_le_mono_nonneg_r; lia). lia.
Qed.

(** A purchase priced on the reserve without fee pays for itself and for the
    part of its fee that leaves the pool. *)
Lemma buy_with_fee_keeps s amount f r_nf d spent :
  valid_state s → is_permill f → fits u128 amount → amount_without_fee (reserve s) f = Some r_nf →
  amount <= r_nf → r_nf - amount ≠ 0 → hub_reserve s * amount / (r_nf - amount) + 1 <= d →
  0 <= spent <= saturating_sub (calculate_fee_amount_for_buy f amount) 1 →
  0 <= reserve s - amount - spent ∧
  reserve s * hub_reserve s <= (reserve s - amount - spent) * (hub_reserve s + d).
Proof.
  intros (Hr & Hq & _) Hf Ha Hnf Hle Hne Hd Hs. unfold amount_without_fee in Hnf. inv_run.
  pose proof Hf as Hf'. unfold is_permill in Hf'.
  assert (is_permill (PERMILL - f)) as Hp by (unfold is_permill; lia). rewrite permill_mul_floor_spec in * by done.
  pose proof (div_bounds ((PERMILL - f) * reserve s) PERMILL ltac:(done)) as Hb.
  set (r_nf := (PERMILL - f) * reserve s / PERMILL) in *. clearbody r_nf.
  pose proof (fits_nonneg _ _ Hr). pose proof (fits_nonneg _ _ Hq). pose proof (fits_nonneg _ _ Ha).
  assert (f ≠ PERMILL) as Hf1 by (intros E; rewrite E, Z.sub_diag in Hb; unfold PERMILL in *; lia).
  pose proof (fee_amount_for_buy_spent _ _ _ Hf Ha Hf1 Hs) as Hsp.
  set (left := reserve s - amount - spent) in *.
  assert (PERMILL * (r_nf - amount) <= left * (PERMILL - f)) as Hl by (subst left; lia).
  pose proof (div_bounds (hub_reserve s * amount) (r_nf - amount) ltac:(lia)).
  assert (0 <= hub_reserve s * amount / (r_nf - amount)) by (apply muldiv_nonneg; lia).
  assert (hub_reserve s * amount <= (r_nf - amount) * d) by nia.
  unfold PERMILL in *. assert (0 <= left) by nia. split; [done|].
  assert ((1000000 - f) * (hub_reserve s * (amount + spent)) <= (1000000 - f) * (left * d)).
  { assert (1000000 * (r_nf - amount) * d <= left * (1000000 - f) * d) by (apply Z.mul_le_mono_nonneg_r; nia).
    assert (hub_reserve s * ((amount + spent) * (1000000 - f)) <= hub_reserve s * (1000000 * amount))
      by (apply Z.mul_le_mono_nonneg_l; lia). lia. }
  assert (hub_reserve s * (amount + spent) <= left * d) by nia. subst left. lia.
Qed.

(** Buying with the hub asset keeps the product of the pool, and the slip
    fee comes on top of the amount the product needs. *)
Theorem buy_for_hub_keeps_product a_out amount fa slip ch :
  valid_state a_out → fits u128 amount → is_permill fa →
  calculate_buy_for_hub_asset_state_changes a_out amount fa slip = Some ch →
  keeps_product a_out (hub_change ch) ∧ reserve_after a_out (hub_change ch) = reserve a_out - amount ∧
  0 <= protocol_fee (hub_trade_fee ch) <= hub_after a_out (hub_change ch) - hub_reserve a_out.
Proof.
  intros Hout Ha Hfa Hrun.
  destruct (buy_hub_changes_Some _ _ _ _ _ Hout Ha Hfa Hrun) as (d & mn & f1 & f2 & -> & Hf & _ & _ & _ & Hk).
  split; [done|]. unfold reserve_after, hub_after. simpl. lia.
Qed.

(** Without slip fees the inversion of the protocol fee is exact: the amount
    found leaves the wanted amount after the fee. *)
Lemma protocol_fee_inversion fp d u :
  is_permill fp → fits u128 d →
  fixed_checked_div d (fixed_from_permill (saturating_sub PERMILL fp)) = Some u →
  fits u128 u ∧ u - permill_mul_floor fp u = d.
Proof.
  intros Hfp Hd Hu. unfold is_permill, saturating_sub in *. rewrite Z.max_r in Hu by lia.
  rewrite fixed_from_permill_spec in Hu by (unfold is_permill; lia).
  set (k := PERMILL - fp) in *. assert (0 <= k <= PERMILL) as Hk by lia.
  change (DIV / PERMILL) with 1000000000000 in Hu. unfold PERMILL in *.
  rewrite fixed_checked_div_spec in Hu by (done || (unfold fits, max_value, u128; lia)).
  destruct (Z.eqb_spec (k * 1000000000000) 0); [done|]. inv_run.
  replace (d * DIV) with (d * 1000000 * 1000000000000) in * by (unfold DIV; ring).
  rewrite Z.div_mul_cancel_r in * by lia. pose proof (fits_nonneg _ _ Hd).
  pose proof (div_bounds (d * 1000000) k ltac:(lia)) as Hb.
  assert (fits u128 (d * 1000000 / k)) as Hf by (split; [apply div_nonneg; lia|done]).
  split; [done|]. rewrite permill_mul_floor_spec by (unfold is_permill, PERMILL; lia || done).
  set (u := d * 1000000 / k) in *. pose proof (div_bounds (fp * u) PERMILL ltac:(done)) as Hc.
  unfold PERMILL in *. set (p := fp * u / 1000000) in *.
  assert (fp * u = 1000000 * u - k * u) by (unfold k; ring). lia.
Qed.

Lemma buy_changes_Some a_in a_out amount fa fp m slip ch :
  valid_state a_in → valid_state a_out → fits u128 amount →
  is_permill fa → is_permill fp → is_permill m → valid_slip slip →
  calculate_buy_state_changes a_in a_out amount fa fp m slip = Some ch →
  ∃ dr dq d_net minted fee_a fee_p burned,
    ch = mkTradeChange
      (mkChange (Increase dr) (Decrease dq) BalanceUpdate.default BalanceUpdate.default BalanceUpdate.default)
      (mkChange (Decrease amount) (Increase d_net) BalanceUpdate.default BalanceUpdate.default (Increase minted))
      (mkTradeFee fee_a fee_p burned) ∧
    dq = d_net + fee_p ∧ 0 <= d_net ∧ 0 <= burned <= fee_p ∧ 0 < dr ∧ fits u128 fee_a ∧ fits u128 minted ∧
    keeps_product a_in (change_in ch) ∧ amount <= reserve a_out ∧
    (slip = None → ∀ spent, 0 <= spent <= saturating_sub fee_a 1 →
       0 <= reserve a_out - amount - spent ∧
       reserve a_out * hub_reserve a_out <= (reserve a_out - amount - spent) * (hub_reserve a_out + d_net)).
Proof.
  intros Hin Hout Ha Hfa Hfp Hm Hslip Hrun. unfold calculate_buy_state_changes, to_balance in Hrun.
  pose proof (fits_nonneg _ _ Ha) as Ha0. pose proof Hout as (HR & HQ & _). pose proof Hin as (HRi & HQi & _).
  inv_run. match goal with Hx : (if ?b then _ else _) = _ |- _ => destruct b eqn:Hlt; [done|] end.
  inv_run. propify.
  match goal with Hw : amount_without_fee _ _ = Some ?y |- _ =>
    apply amount_without_fee_Some in Hw as Hnf; [|done..]; rename y into r_nf end.
  rename x2 into u. rename x3 into f_s. rename x4 into f_b. rename x5 into minted.
  set (d := hub_reserve a_out * amount / (r_nf - amount) + 1) in *.
  destruct (buy_amount_keeps a_out amount r_nf d) as (Hd0 & Ho & Hk2); [done|lia..|].
  assert (fits u128 d) as Hd by (unfold fits; lia).
  assert (fits u128 u ∧ (slip = None → u - permill_mul_floor fp u = d)) as [Hu Hexact].
  { destruct slip as [sl|]; inv_run.
    - destruct Hslip as (? & ? & ? & ? & ?). split; [|done].
      match goal with Hg : invert_buy_side_slip _ _ _ _ = Some _ |- _ =>
        apply invert_buy_side_slip_nonneg in Hg; [|done..] end.
      match goal with Hg : invert_sell_side_fees _ _ _ _ _ = Some _ |- _ =>
        by apply invert_sell_side_fees_fits in Hg end.
    - match goal with Hg : fixed_checked_div _ _ = Some _ |- _ =>
        apply protocol_fee_inversion in Hg as [? ?]; done end. }
  pose proof (permill_mul_floor_bounds fp u Hfp Hu) as Hpf. set (f_p := permill_mul_floor fp u) in *.
  assert (0 <= f_s) as Hfs.
  { eapply (slip_amount_nonneg slip asset_in_hub_reserve asset_in_delta (Negative u) u); [|done..|done].
    intros ? ->. by destruct Hslip as (? & ? & ? & ? & ?). }
  assert (fits u128 (u - f_p - f_s)) as Hfg by (unfold fits in *; lia).
  assert (0 <= f_b) as Hfb.
  { eapply (slip_amount_nonneg slip asset_out_hub_reserve asset_out_delta
      (Positive (u - f_p - f_s)) (u - f_p - f_s)); [|done..|done].
    intros ? ->. by destruct Hslip as (? & ? & ? & ? & ?). }
  assert (fits u128 (u - f_p - f_s - f_b)) as Hfd by (unfold fits in *; lia).
  match goal with Hw : fee_mint _ _ _ = Some _ |- _ => apply fee_mint_Some in Hw; [|done..] end.
  pose proof (permill_mul_floor_bounds m (f_p + f_s + f_b) Hm) as Hb.
  pose proof (fee_amount_for_buy_fits fa amount Hfa Ha) as Hfee.
  pose proof (div_bounds (reserve a_in * u) (hub_reserve a_in - u) ltac:(lia)) as Hdr.
  assert (0 <= reserve a_in * u / (hub_reserve a_in - u)) by (unfold fits in *; apply muldiv_nonneg; lia).
  set (dr := reserve a_in * u / (hub_reserve a_in - u)) in *.
  assert (reserve a_in * hub_reserve a_in <= (reserve a_in + (dr + 1)) * (hub_reserve a_in - u)) by nia.
  unfold keeps_product, reserve_after, hub_after. simpl. unfold fits in *.
  do 7 eexists. split; [reflexivity|]. split_and!; simpl; try lia.
  intros E. specialize (Hexact E). subst slip. inv_run. rewrite !Z.sub_0_r, Hexact.
  intros spent Hsp. eapply (buy_with_fee_keeps _ _ fa r_nf); done || lia.
Qed.

(** The amounts of a trade are balances. *)
Lemma sell_out_fits a_in a_out amount fa fp m slip ch :
  valid_state a_in → valid_state a_out → fits u128 amount →
  is_permill fa → is_permill fp → is_permill m → valid_slip slip →
  calculate_sell_state_changes a_in a_out amount fa fp m slip = Some ch →
  fits u128 (BalanceUpdate.deref (delta_reserve (change_out ch))).
Proof.
  intros Hin Hout Ha Hfa Hfp Hm Hslip Hrun.
  destruct (sell_changes_Some _ _ _ _ _ _ _ _ Hin Hout Ha Hfa Hfp Hm Hslip Hrun)
    as (dq & d & out & mn & fa' & fp' & b & -> & _ & Hd & _ & Ho & [? _] & _ & E & _).
  destruct Hout as ([? ?] & [? ?] & _). simpl.
  pose proof (muldiv_le (reserve a_out) d (hub_reserve a_out + d)). unfold fits.
  destruct (decide (hub_reserve a_out + d = 0)) as [Hz|]; [rewrite Hz, Zdiv_0_r in E|]; lia.
Qed.

Lemma sell_hub_out_fits a_out amount fa slip ch :
  valid_state a_out → fits u128 amount → is_permill fa → valid_hub_slip slip →
  calculate_sell_hub_state_changes a_out amount fa slip = Some ch →
  fits u128 (BalanceUpdate.deref (delta_reserve (hub_change ch))).
Proof.
  intros Hout Ha Hfa Hslip Hrun.
  destruct (sell_hub_changes_Some _ _ _ _ _ Hout Ha Hfa Hslip Hrun)
    as (out & mn & fa' & fs & -> & Ho & [? _] & ? & _ & E & _).
  destruct Hout as ([? ?] & [? ?] & _). simpl. set (d := amount - fs) in *.
  pose proof (muldiv_le (reserve a_out) d (hub_reserve a_out + d)). unfold fits.
  destruct (decide (hub_reserve a_out + d = 0)) as [Hz|]; [rewrite Hz, Zdiv_0_r in E|]; lia.
Qed.

Lemma buy_in_fits a_in a_out amount fa fp m slip ch :
  valid_state a_in → valid_state a_out → fits u128 amount →
  is_permill fa → is_permill fp → is_permill m → valid_slip slip →
  calculate_buy_state_changes a_in a_out amount fa fp m slip = Some ch →
  fits u128 (BalanceUpdate.deref (delta_reserve (change_in ch))).
Proof.
  intros Hin Hout Ha Hfa Hfp Hm Hslip Hrun.
  destruct (buy_changes_Some _ _ _ _ _ _ _ _ Hin Hout Ha Hfa Hfp Hm Hslip Hrun)
    as (dr & dq & d & mn & fa' & fp' & b & E & _ & _ & _ & Hdr & _).
  unfold calculate_buy_state_changes in Hrun. inv_run. case_match; [done|]. inv_run. subst. simpl in *.
  unfold fits in *. lia.
Qed.

(** A purchase conserves the hub asset, burns at most its protocol fee and
    keeps the product of the paying pool; without slip fees it also keeps the
    product of the bought asset's pool. *)
Theorem buy_keeps_products a_in a_out amount fa fp m slip ch :
  valid_state a_in → valid_state a_out → fits u128 amount →
  is_permill fa → is_permill fp → is_permill m → valid_slip slip →
  calculate_buy_state_changes a_in a_out amount fa fp m slip = Some ch →
  keeps_product a_in (change_in ch) ∧ (slip = None → keeps_product a_out (change_out ch)) ∧
  reserve_after a_out (change_out ch) = reserve a_out - amount ∧ amount <= reserve a_out ∧
  hub_after a_in (change_in ch) + hub_after a_out (change_out ch) + protocol_fee (trade_fee ch)
    = hub_reserve a_in + hub_reserve a_out ∧
  0 <= burned_protocol_fee (trade_fee ch) <= protocol_fee (trade_fee ch).
Proof.
  intros Hin Hout Ha Hfa Hfp Hm Hslip Hrun.
  destruct (buy_changes_Some _ _ _ _ _ _ _ _ Hin Hout Ha Hfa Hfp Hm Hslip Hrun)
    as (dr & dq & d & mn & fa' & fp' & b & -> & Hdq & Hd & Hb & _ & _ & _ & Hk1 & Hle & Hk2).
  split; [done|]. split; [|unfold reserve_after, hub_after; simpl; lia].
  intros E. destruct (Hk2 E 0) as [? ?]; [pose proof (saturating_sub_nonneg fa' 1); lia|].
  destruct Hout as (_ & Hq & _). apply fits_nonneg in Hq.
  unfold keeps_product, reserve_after, hub_after. simpl. rewrite Z.sub_0_r in *. split_and!; lia.
Qed.
End trades.

(** ** Liquidity *)

Section liquidity.
Context `{SpArithmeticLaws}.

Definition shares_after (s : AssetReserveState) (ch : AssetStateChange) : Z :=
  shares s + BalanceUpdate.value (delta_shares ch).

(** Adding liquidity raises neither the hub-asset price of the asset nor
    the number of shares per unit of the reserve: the shares of the others
    keep at least the reserve they had. *)
Theorem add_liquidity_no_dilution_omnipool s amount ch :
  valid_state s → fits u128 amount →
  calculate_add_liquidity_state_changes s amount = Some ch →
  reserve_after s (liquidity_change ch) = reserve s + amount ∧
  hub_after s (liquidity_change ch) * reserve s <= hub_reserve s * reserve_after s (liquidity_change ch) ∧
  reserve s * shares_after s (liquidity_change ch) <= reserve_after s (liquidity_change ch) * shares s.
Proof.
  intros (HR & HQ & HS & _) Ha Hrun.
  unfold calculate_add_liquidity_state_changes, price, to_balance in Hrun.
  pose proof (fits_nonneg _ _ HR). pose proof (fits_nonneg _ _ HQ). pose proof (fits_nonneg _ _ HS).
  pose proof (fits_nonneg _ _ Ha). rewrite fixed_checked_from_rational_spec in Hrun by done.
  destruct (Z.eqb_spec (reserve s) 0); [done|]. inv_run.
  set (p := hub_reserve s * DIV / reserve s) in *.
  assert (fits u128 p) as Hp by (split; [apply div_nonneg; unfold DIV; lia|done]).
  match goal with Hm : fixed_checked_mul_int _ _ = Some _ |- _ =>
    rewrite fixed_checked_mul_int_spec in Hm by done end. inv_run.
  unfold reserve_after, hub_after, shares_after. simpl.
  pose proof (div_bounds (hub_reserve s * DIV) (reserve s) ltac:(lia)) as Hp1. fold p in Hp1.
  pose proof (div_bounds (p * amount) DIV ltac:(done)) as Hp2.
  pose proof (div_bounds (shares s * amount) (reserve s) ltac:(lia)).
  set (q := p * amount / DIV) in *. set (ds := shares s * amount / reserve s) in *.
  split_and!; [done| |nia].
  assert (DIV * q * reserve s <= DIV * hub_reserve s * amount) by nia. unfold DIV in *. nia.
Qed.

Lemma mul_int_complement f x y :
  fits u128 f → fits u128 x → fixed_checked_mul_int (saturating_sub DIV f) x = Some y → 0 <= y <= x.
Proof.
  intros Hf Hx Hy. pose proof (fits_nonneg _ _ Hf). pose proof (fits_nonneg _ _ Hx). unfold saturating_sub in Hy.
  assert (0 <= Z.max 0 (DIV - f) <= DIV) as Hc by (unfold DIV; lia).
  rewrite fixed_checked_mul_int_spec in Hy; [|unfold fits, max_value, u128, DIV in *; lia|done]. inv_run.
  rewrite Z.mul_comm. split; [apply muldiv_nonneg; unfold DIV; lia|apply muldiv_le; unfold DIV in *; lia].
Qed.

Lemma add_changes_Some s amount ch :
  valid_state s → fits u128 amount → calculate_add_liquidity_state_changes s amount = Some ch →
  ∃ dh ds,
    ch = mkLiquidityChange
      (mkChange (Increase amount) (Increase dh) (Increase ds) BalanceUpdate.default BalanceUpdate.default)
      BalanceUpdate.default BalanceUpdate.default 0 ∧ fits u128 dh ∧ fits u128 ds.
Proof.
  intros (HR & HQ & HS & _) Ha Hrun.
  unfold calculate_add_liquidity_state_changes, price, to_balance in Hrun.
  pose proof (fits_nonneg _ _ HR). pose proof (fits_nonneg _ _ HQ). pose proof (fits_nonneg _ _ HS).
  pose proof (fits_nonneg _ _ Ha). rewrite fixed_checked_from_rational_spec in Hrun by done.
  destruct (Z.eqb_spec (reserve s) 0); [done|]. inv_run.
  assert (fits u128 (hub_reserve s * DIV / reserve s)) as Hp
    by (split; [apply div_nonneg; unfold DIV; lia|done]).
  match goal with Hm : fixed_checked_mul_int _ _ = Some _ |- _ =>
    rewrite fixed_checked_mul_int_spec in Hm by done end. inv_run.
  do 2 eexists. split; [reflexivity|]. pose proof (fits_nonneg _ _ Hp).
  split; (split; [|done]); auto with nonneg. apply div_nonneg; [nia|unfold DIV; lia].
Qed.

(** What a computed removal looks like, and the widths of its amounts. *)
Lemma remove_changes_Some s shares_removed pos fee ch :
  valid_state s → fits u128 shares_removed → fits u128 fee →
  fits u128 (position_amount pos) → fits u128 (position_shares pos) →
  fits u128 (position_price pos).1 → fits u128 (position_price pos).2 →
  calculate_remove_liquidity_state_changes s shares_removed pos fee = Some ch →
  ∃ r h b db pa hub,
    ch = mkLiquidityChange
      (mkChange (Decrease r) (Decrease h) (Decrease b) (Increase db) BalanceUpdate.default)
      (Decrease pa) (Decrease shares_removed) hub ∧
    b + db = shares_removed ∧ 0 <= r ∧ 0 <= h ∧ 0 <= b ∧ 0 <= db ∧ 0 <= pa ∧ 0 <= hub.
Proof.
  intros (HR & HQ & HS & _) Hsr Hf Hpa Hps Hp1 Hp2 Hrun.
  unfold calculate_remove_liquidity_state_changes, price_of_position, to_balance in Hrun.
  pose proof (fits_nonneg _ _ HR). pose proof (fits_nonneg _ _ HQ). pose proof (fits_nonneg _ _ Hsr).
  pose proof (fits_nonneg _ _ HS). pose proof (fits_nonneg _ _ Hpa). pose proof (fits_nonneg _ _ Hps).
  inv_run. rename x into p. rename x0 into p_pos. rename x2 into db. rename x8 into hub.
  assert (0 <= db) as Hdb.
  { destruct (Z.ltb_spec p p_pos); inv_run; [|done]. apply Z.add_nonneg_nonneg; [|done].
    apply div_nonneg; [apply Z.mul_nonneg_nonneg|]; lia. }
  rewrite fixed_checked_from_rational_spec in H8 by done.
  destruct (Z.eqb_spec (position_price pos).2 0); [done|]. inv_run.
  set (p_pos := (position_price pos).1 * DIV / (position_price pos).2) in *.
  assert (fits u128 p_pos) as Hpp
    by (split; [apply div_nonneg; unfold fits, DIV in *; lia|done]).
  rewrite fixed_checked_mul_int_spec in H9 by done. inv_run.
  assert (0 <= p_pos * reserve s / DIV) by (apply div_nonneg; unfold fits, DIV in *; nia).
  assert (fits u128 hub) as Hhub.
  { destruct (Z.ltb_spec p_pos p); inv_run; [|done]. split; [|done].
    apply muldiv_nonneg; [apply muldiv_nonneg|..]; lia. }
  set (a := reserve s * (shares_removed - db) / shares s) in *.
  assert (fits u128 a) as Ha by (split; [apply muldiv_nonneg; lia|done]). pose proof (fits_nonneg _ _ Ha).
  assert (fits u128 (a * hub_reserve s / reserve s)) as Hb by (split; [apply muldiv_nonneg; lia|done]).
  repeat match goal with Hx : fixed_checked_mul_int _ _ = Some _ |- _ =>
    apply mul_int_complement in Hx; [|done..] end.
  do 6 eexists. split; [reflexivity|]. split_and!; try lia. apply muldiv_nonneg; lia.
Qed.

(** Removing liquidity splits the removed shares between those burned and
    those that go to the protocol, takes at most the burned shares' part of
    both reserves, gives shares to the protocol only if the price fell below
    the position's, and pays hub asset only if it rose above. *)
Theorem remove_liquidity_pro_rata s shares_removed pos fee ch :
  valid_state s → fits u128 shares_removed → fits u128 fee → 0 < shares s →
  calculate_remove_liquidity_state_changes s shares_removed pos fee = Some ch →
  ∃ burned to_protocol p p_pos,
    delta_shares (liquidity_change ch) = Decrease burned ∧
    delta_protocol_shares (liquidity_change ch) = Increase to_protocol ∧
    burned + to_protocol = shares_removed ∧ 0 <= burned ∧
    delta_position_shares ch = Decrease shares_removed ∧
    reserve s * (shares s - burned) <= reserve_after s (liquidity_change ch) * shares s ∧
    hub_reserve s * (shares s - burned) <= hub_after s (liquidity_change ch) * shares s ∧
    price s = Some p ∧ price_of_position pos = Some p_pos ∧
    (p_pos <= p → to_protocol = 0) ∧ (p <= p_pos → lp_hub_amount ch = 0).
Proof.
  intros (HR & HQ & HS & _) Hsr Hf HS0 Hrun.
  unfold calculate_remove_liquidity_state_changes, to_balance in Hrun.
  pose proof (fits_nonneg _ _ HR). pose proof (fits_nonneg _ _ HQ). pose proof (fits_nonneg _ _ Hsr).
  inv_run. rename x into p. rename x0 into p_pos. rename x2 into db. rename x8 into hub.
  assert (0 <= db ∧ (p_pos <= p → db = 0)) as [Hdb Hdb0].
  { destruct (Z.ltb_spec p p_pos); inv_run; [|done]. split; [|lia]. apply Z.add_nonneg_nonneg; [|done].
    apply div_nonneg; [apply Z.mul_nonneg_nonneg|]; lia. }
  assert (p <= p_pos → hub = 0) as Hhub by (destruct (Z.ltb_spec p_pos p); intros; inv_run; lia).
  set (a := reserve s * (shares_removed - db) / shares s) in *.
  assert (fits u128 a) as Ha by (split; [apply muldiv_nonneg; lia|done]). pose proof (fits_nonneg _ _ Ha) as Ha0.
  set (b := a * hub_reserve s / reserve s) in *.
  assert (fits u128 b) as Hb by (split; [apply muldiv_nonneg; lia|done]).
  match goal with Hx : fixed_checked_mul_int _ a = Some _ |- _ => apply mul_int_complement in Hx; [|done..] end.
  match goal with Hx : fixed_checked_mul_int _ b = Some _ |- _ => apply mul_int_complement in Hx; [|done..] end.
  pose proof (div_bounds (reserve s * (shares_removed - db)) (shares s) HS0) as Hba. fold a in Hba.
  pose proof (div_bounds (a * hub_reserve s) (reserve s) ltac:(lia)) as Hbb. fold b in Hbb.
  exists (shares_removed - db), db, p, p_pos. unfold reserve_after, hub_after. simpl.
  split_and!; try done; try lia; [nia| |].
  - assert (reserve s * (shares s * b) <= reserve s * ((shares_removed - db) * hub_reserve s)) by nia.
    assert (shares s * b <= (shares_removed - db) * hub_reserve s) by nia. nia.
  - intros Hp. specialize (Hhub Hp). subst hub.
    match goal with Hx : fixed_checked_mul_int _ 0 = Some _ |- _ => apply mul_int_complement in Hx; [|done..] end.
    lia.
Qed.

(** The withdrawal fee is at least the configured minimum and at most the
    whole amount. *)
Theorem withdrawal_fee_in_range spot oracle min_fee fee :
  is_permill min_fee → calculate_withdrawal_fee spot oracle min_fee = Some fee →
  min_fee * DIV <= PERMILL * fee /\ fee <= DIV.
Proof.
  intros Hm Hrun. unfold calculate_withdrawal_fee in Hrun. rewrite fixed_from_permill_spec in Hrun by done.
  unfold is_permill in Hm. change (DIV / PERMILL) with 1000000000000 in Hrun. unfold PERMILL, DIV in *.
  destruct (oracle =? 0); inv_run; lia.
Qed.
End liquidity.

(** ** Concrete trades *)

Module OmnipoolDemo.
Definition dot : AssetReserveState := mkReserve 5000000000000 3000000000 5000000000000 0.
Definition hdx : AssetReserveState := mkReserve 9000000000000 2000000000 9000000000000 1000000.
Definition slip : option TradeSlipFees :=
  Some (mkSlip 3000000000 (Negative 5000000) 2000000000 (Positive 7000000) 50000).
Definition hub_slip : option HubTradeSlipFees := Some (mkHubSlip 2000000000 (Negative 3000000) 50000).
Definition position : Position := mkPosition 1000000000 1000000000 (2000000000, 5000000000000).

Definition sold := @calculate_sell_state_changes reference_arithmetic dot hdx 10000000000 2500 500 500000 slip.
Definition bought := @calculate_buy_state_changes reference_arithmetic dot hdx 10000000000 2500 500 500000 None.
Definition sold_hub := @calculate_sell_hub_state_changes reference_arithmetic hdx 1000000 2500 hub_slip.
Definition bought_hub := @calculate_buy_for_hub_asset_state_changes reference_arithmetic hdx 1000000000 2500 hub_slip.
Definition added := @calculate_add_liquidity_state_changes reference_arithmetic dot 10000000000.
Definition removed := @calculate_remove_liquidity_state_changes reference_arithmetic dot 100000000 position 1000000000000000.

Lemma dot_valid : valid_state dot.
Proof. compute_done. Qed.
Lemma hdx_valid : valid_state hdx.
Proof. compute_done. Qed.
End OmnipoolDemo.

Import OmnipoolDemo.

Lemma sell_keeps_products_witness :
  ∃ ch, sold = Some ch ∧ keeps_product dot (change_in ch) ∧ keeps_product hdx (change_out ch).
Proof.
  destruct sold as [ch|] eqn:E; [|vm_compute in E; discriminate]. exists ch. split; [reflexivity|].
  pose proof (@sell_keeps_products reference_arithmetic reference_arithmetic_laws dot hdx 10000000000
    2500 500 500000 slip ch) as Hk.
  destruct Hk as (H1 & H2 & _); [apply dot_valid|apply hdx_valid|compute_done..|exact E|]. exact (conj H1 H2).
Defined.

Lemma buy_keeps_products_witness :
  ∃ ch, bought = Some ch ∧ keeps_product dot (change_in ch) ∧ keeps_product hdx (change_out ch).
Proof.
  destruct bought as [ch|] eqn:E; [|vm_compute in E; discriminate]. exists ch. split; [reflexivity|].
  pose proof (@buy_keeps_products reference_arithmetic reference_arithmetic_laws dot hdx 10000000000
    2500 500 500000 None ch) as Hk.
  destruct Hk as (H1 & H2 & _); [apply dot_valid|apply hdx_valid|compute_done..|exact E|]. exact (conj H1 (H2 eq_refl)).
Defined.

Lemma sell_hub_keeps_product_witness :
  ∃ ch, sold_hub = Some ch ∧ keeps_product hdx (hub_change ch).
Proof.
  destruct sold_hub as [ch|] eqn:E; [|vm_compute in E; discriminate]. exists ch. split; [reflexivity|].
  pose proof (@sell_hub_keeps_product reference_arithmetic reference_arithmetic_laws hdx 1000000 2500
    hub_slip ch) as Hk.
  destruct Hk as (H1 & _); [apply hdx_valid|compute_done..|exact E|]. exact H1.
Defined.

Lemma buy_for_hub_keeps_product_witness :
  ∃ ch, bought_hub = Some ch ∧ keeps_product hdx (hub_change ch).
Proof.
  destruct bought_hub as [ch|] eqn:E; [|vm_compute in E; discriminate]. exists ch. split; [reflexivity|].
  pose proof (@buy_for_hub_keeps_product reference_arithmetic reference_arithmetic_laws hdx 1000000000 2500
    hub_slip ch) as Hk.
  destruct Hk as (H1 & _); [apply hdx_valid|compute_done..|exact E|]. exact H1.
Defined.

Lemma add_liquidity_no_dilution_omnipool_witness :
  ∃ ch, added = Some ch ∧
    reserve dot * shares_after dot (liquidity_change ch) <= reserve_after dot (liquidity_change ch) * shares dot.
Proof.
  destruct added as [ch|] eqn:E; [|vm_compute in E; discriminate]. exists ch. split; [reflexivity|].
  pose proof (@add_liquidity_no_dilution_omnipool reference_arithmetic reference_arithmetic_laws dot
    10000000000 ch) as Hk.
  destruct Hk as (_ & _ & H1); [apply dot_valid|compute_done|exact E|]. exact H1.
Defined.

Lemma remove_liquidity_pro_rata_witness :
  ∃ ch burned, removed = Some ch ∧
    reserve dot * (shares dot - burned) <= reserve_after dot (liquidity_change ch) * shares dot.
Proof.
  destruct removed as [ch|] eqn:E; [|vm_compute in E; discriminate]. exists ch.
  destruct (@remove_liquidity_pro_rata reference_arithmetic reference_arithmetic_laws dot
    100000000 position 1000000000000000 ch) as (b & tp & p & pp & _ & _ & _ & _ & _ & H1 & _);
    [apply dot_valid|compute_done..|exact E|]. exists b. exact (conj eq_refl H1).
Defined.

Lemma withdrawal_fee_in_range_witness :
  ∃ fee, @calculate_withdrawal_fee reference_arithmetic 600000000000000 500000000000000 100 = Some fee ∧ fee <= DIV.
Proof.
  eexists. split; [vm_compute; reflexivity|].
  apply (@withdrawal_fee_in_range reference_arithmetic reference_arithmetic_laws
    600000000000000 500000000000000 100); compute_done.
Defined.
