(* ===== verification/Otc.v ===== *)
(** * Over-the-counter orders

    Models [pallets/otc/src/lib.rs]: placing, filling (wholly, partly, or with
    deferred delivery) and cancelling orders whose sold asset is held in a named
    reserve of the maker. *)

From S2P Require Import Prelude Arithmetic Currency NamedReserve Broadcast.

Record Order (AccountId : Type) := mkOrder {
  owner : AccountId;
  order_asset_in : AssetId;
  order_asset_out : AssetId;
  order_amount_in : Balance;
  order_amount_out : Balance;
  partially_fillable : bool;
}.
#[global] Arguments mkOrder {AccountId} _ _ _ _ _ _.
#[global] Arguments owner {AccountId} _.
#[global] Arguments order_asset_in {AccountId} _.
#[global] Arguments order_asset_out {AccountId} _.
#[global] Arguments order_amount_in {AccountId} _.
#[global] Arguments order_amount_out {AccountId} _.
#[global] Arguments partially_fillable {AccountId} _.

Module OtcError.
Inductive t :=
| AssetNotRegistered
| OrderNotFound
| OrderIdOutOfBound
| OrderNotPartiallyFillable
| OrderAmountTooSmall
| MathError
| Forbidden
| InsufficientReservedAmount.
End OtcError.

Inductive OtcEvent (AccountId : Type) :=
| Cancelled (order_id : Z)
| Filled (order_id : Z) (who : AccountId) (amount_in amount_out fee : Balance)
| PartiallyFilled (order_id : Z) (who : AccountId) (amount_in amount_out fee : Balance)
| Placed (order_id : Z) (asset_in asset_out : AssetId) (amount_in amount_out : Balance)
    (partially_fillable : bool).
#[global] Arguments Cancelled {AccountId} _.
#[global] Arguments Filled {AccountId} _ _ _ _ _.
#[global] Arguments PartiallyFilled {AccountId} _ _ _ _ _.
#[global] Arguments Placed {AccountId} _ _ _ _ _ _.

Record OtcConfig (X AccountId : Type) := mkOtcConfig {
  asset_exists : AssetId → X → bool;
  ExistentialDeposits : AssetId → X → Balance;
  ExistentialDepositMultiplier : Z;
  OtcFee : Z;
  FeeReceiver : AccountId;
  inc_providers : AccountId → X → X;
  dec_providers : AccountId → X → result Z X;
}.
#[global] Arguments asset_exists {X AccountId} _ _ _.
#[global] Arguments ExistentialDeposits {X AccountId} _ _ _.
#[global] Arguments ExistentialDepositMultiplier {X AccountId} _.
#[global] Arguments OtcFee {X AccountId} _.
#[global] Arguments FeeReceiver {X AccountId} _.
#[global] Arguments inc_providers {X AccountId} _ _ _.
#[global] Arguments dec_providers {X AccountId} _ _ _.

Record otc (X AccountId : Type) := mkOtc {
  NextOrderId : Z;
  Orders : gmap Z (Order AccountId);
  otc_events : list (OtcEvent AccountId);
  otc_bcast : broadcast AccountId;
  otc_ext : X;
}.
#[global] Arguments mkOtc {X AccountId} _ _ _ _ _.
#[global] Arguments NextOrderId {X AccountId} _.
#[global] Arguments Orders {X AccountId} _.
#[global] Arguments otc_events {X AccountId} _.
#[global] Arguments otc_bcast {X AccountId} _.
#[global] Arguments otc_ext {X AccountId} _.

Section otc.
Context {X AccountId : Type} `{EqDecision AccountId} `{SpArithmetic}.
Context `{!MultiCurrency X AccountId} `{!NamedReserve X AccountId}.
Context (T : OtcConfig X AccountId).

Notation otc := (otc X AccountId).
Notation OtcM := (M otc (DispatchError OtcError.t)).
Implicit Types (s : otc) (who filler : AccountId) (order : Order AccountId) (order_id : Z).

Definition otc_set_ext (x : X) s : otc := mkOtc (NextOrderId s) (Orders s) (otc_events s) (otc_bcast s) x.
Definition set_orders (m : gmap Z (Order AccountId)) s : otc :=
  mkOtc (NextOrderId s) m (otc_events s) (otc_bcast s) (otc_ext s).
Definition set_next_order_id (n : Z) s : otc :=
  mkOtc n (Orders s) (otc_events s) (otc_bcast s) (otc_ext s).
Definition otc_deposit_event (e : OtcEvent AccountId) : OtcM unit :=
  modify (λ s, mkOtc (NextOrderId s) (Orders s) (otc_events s ++ [e]) (otc_bcast s) (otc_ext s)).
Definition otc_broadcast (f : broadcast AccountId → broadcast AccountId) : OtcM unit :=
  modify (λ s, mkOtc (NextOrderId s) (Orders s) (otc_events s) (f (otc_bcast s)) (otc_ext s)).
Definition otc_call (f : X → result Z X) : OtcM unit := on_ext_ otc_ext otc_set_ext f.
Definition otc_ensure (b : bool) (e : OtcError.t) : OtcM unit := ensureM b (ModuleError e).
Definition otc_some {A} (o : option A) (e : OtcError.t) : OtcM A := lift (ok_or o (ModuleError e)).

Definition calculate_fee (amount : Balance) : Balance := permill_mul_ceil (OtcFee T) amount.

Definition ensure_min_order_amount (asset : AssetId) (amount : Balance) : OtcM unit :=
  s ← get;
  min_amount ← otc_some (checked_mul u128 (ExistentialDeposits T asset (otc_ext s))
    (ExistentialDepositMultiplier T)) OtcError.MathError;
  otc_ensure (min_amount <=? amount) OtcError.OrderAmountTooSmall.

Definition ensure_remaining_order_valid (asset_in asset_out : AssetId)
    (new_amount_in new_amount_out : Balance) : OtcM unit :=
  let remaining_fee := calculate_fee new_amount_out in
  ensure_min_order_amount asset_in new_amount_in;;
  v ← otc_some (checked_sub new_amount_out remaining_fee) OtcError.MathError;
  ensure_min_order_amount asset_out v.

Definition partial_amount_out (order_amount_out amount_in order_amount_in : Balance) : OtcM Balance :=
  amount_out ← otc_some (v ← checked_mul u256 order_amount_out amount_in; checked_div v order_amount_in)
    OtcError.MathError;
  otc_some (try_from u128 amount_out) OtcError.MathError.

Definition release_reserved_asset_out (asset_out : AssetId) (own filler : AccountId)
    (amount_out fee : Balance) : OtcM unit :=
  remaining_to_unreserve ← on_ext otc_ext otc_set_ext (λ x, Ok (unreserve_named asset_out own amount_out x));
  otc_ensure (remaining_to_unreserve =? 0) OtcError.InsufficientReservedAmount;;
  amount_out_without_fee ← otc_some (checked_sub amount_out fee) OtcError.MathError;
  otc_call (transfer asset_out own filler amount_out_without_fee AllowDeath);;
  otc_call (transfer asset_out own (FeeReceiver T) fee AllowDeath).

Definition execute_order order who (amount_in amount_out fee : Balance) : OtcM unit :=
  otc_call (transfer (order_asset_in order) who (owner order) amount_in AllowDeath);;
  release_reserved_asset_out (order_asset_out order) (owner order) who amount_out fee.

Definition deposit_fill_events order_id (own filler : AccountId) (asset_in asset_out : AssetId)
    (amount_in amount_out fee : Balance) (is_full_fill : bool) : OtcM unit :=
  otc_deposit_event (if is_full_fill then Filled order_id filler amount_in amount_out fee
                     else PartiallyFilled order_id filler amount_in amount_out fee);;
  let '(swapper, broadcast_filler) := if is_full_fill then (filler, own) else (own, filler) in
  otc_broadcast (deposit_trade_event swapper broadcast_filler (OTC order_id) ExactIn
    [mkAsset asset_in amount_in] [mkAsset asset_out amount_out]
    [mkFee asset_out fee (Account (FeeReceiver T))]).

Definition place_order (o : RawOrigin AccountId) (asset_in asset_out : AssetId)
    (amount_in amount_out : Balance) (fillable : bool) : OtcM unit :=
  own ← lift (ensure_signed o);
  let order := mkOrder own asset_in asset_out amount_in amount_out fillable in
  s ← get;
  otc_ensure (asset_exists T asset_in (otc_ext s)) OtcError.AssetNotRegistered;;
  let fee := calculate_fee amount_out in
  ensure_min_order_amount asset_in amount_in;;
  v ← otc_some (checked_sub amount_out fee) OtcError.MathError;
  ensure_min_order_amount asset_out v;;
  order_id ← gets NextOrderId;
  otc_call (reserve_named asset_out own amount_out);;
  modify (λ s, set_orders (<[order_id := order]> (Orders s)) s);;
  otc_deposit_event (Placed order_id asset_in asset_out amount_in amount_out fillable);;
  next ← otc_some (checked_add u32 order_id 1) OtcError.OrderIdOutOfBound;
  modify (set_next_order_id next).

Definition partial_fill_order (o : RawOrigin AccountId) order_id (amount_in : Balance) : OtcM unit :=
  who ← lift (ensure_signed o);
  s ← get;
  order ← otc_some (Orders s !! order_id) OtcError.OrderNotFound;
  otc_ensure (partially_fillable order) OtcError.OrderNotPartiallyFillable;;
  amount_out ← partial_amount_out (order_amount_out order) amount_in (order_amount_in order);
  let fee := calculate_fee amount_out in
  new_amount_in ← otc_some (checked_sub (order_amount_in order) amount_in) OtcError.MathError;
  new_amount_out ← otc_some (checked_sub (order_amount_out order) amount_out) OtcError.MathError;
  ensure_remaining_order_valid (order_asset_in order) (order_asset_out order) new_amount_in new_amount_out;;
  let order := mkOrder (owner order) (order_asset_in order) (order_asset_out order)
    new_amount_in new_amount_out (partially_fillable order) in
  execute_order order who amount_in amount_out fee;;
  deposit_fill_events order_id (owner order) who (order_asset_in order) (order_asset_out order)
    amount_in amount_out fee false;;
  modify (λ s, set_orders (<[order_id := order]> (Orders s)) s).

Definition fill_order (o : RawOrigin AccountId) order_id : OtcM unit :=
  who ← lift (ensure_signed o);
  s ← get;
  order ← otc_some (Orders s !! order_id) OtcError.OrderNotFound;
  let fee := calculate_fee (order_amount_out order) in
  execute_order order who (order_amount_in order) (order_amount_out order) fee;;
  modify (λ s, set_orders (delete order_id (Orders s)) s);;
  deposit_fill_events order_id (owner order) who (order_asset_in order) (order_asset_out order)
    (order_amount_in order) (order_amount_out order) fee true.

Definition cancel_order (o : RawOrigin AccountId) order_id : OtcM unit :=
  who ← lift (ensure_signed o);
  s ← get;
  order ← otc_some (Orders s !! order_id) OtcError.OrderNotFound;
  otc_ensure (bool_decide (owner order = who)) OtcError.Forbidden;;
  remaining_to_unreserve ← on_ext otc_ext otc_set_ext
    (λ x, Ok (unreserve_named (order_asset_out order) (owner order) (order_amount_out order) x));
  otc_ensure (remaining_to_unreserve =? 0) OtcError.InsufficientReservedAmount;;
  otc_deposit_event (Cancelled order_id);;
  modify (λ s, set_orders (delete order_id (Orders s)) s).

(** [deliver] is the caller's closure; the order written back at the end is the
    one read at the start. *)
Definition fill_order_with_deferred_delivery order_id filler (amount_in : Balance)
    (deliver : Balance → OtcM unit) : OtcM unit :=
  s ← get;
  order ← otc_some (Orders s !! order_id) OtcError.OrderNotFound;
  let own := owner order in
  let asset_in := order_asset_in order in
  let asset_out := order_asset_out order in
  otc_ensure (amount_in <=? order_amount_in order) OtcError.MathError;;
  let is_full_fill := amount_in =? order_amount_in order in
  amount_out ← (if is_full_fill then mret (order_amount_out order)
                else
                  otc_ensure (partially_fillable order) OtcError.OrderNotPartiallyFillable;;
                  partial_amount_out (order_amount_out order) amount_in (order_amount_in order));
  let fee := calculate_fee amount_out in
  amount_out_without_fee ← otc_some (checked_sub amount_out fee) OtcError.MathError;
  remaining ← (if is_full_fill then mret None
               else
                 new_amount_in ← otc_some (checked_sub (order_amount_in order) amount_in) OtcError.MathError;
                 new_amount_out ← otc_some (checked_sub (order_amount_out order) amount_out)
                   OtcError.MathError;
                 ensure_remaining_order_valid asset_in asset_out new_amount_in new_amount_out;;
                 mret (Some (new_amount_in, new_amount_out)));
  modify (λ s, otc_set_ext (inc_providers T own (otc_ext s)) s);;
  release_reserved_asset_out asset_out own filler amount_out fee;;
  deliver amount_out_without_fee;;
  otc_call (transfer asset_in filler own amount_in AllowDeath);;
  otc_call (dec_providers T own);;
  deposit_fill_events order_id own filler asset_in asset_out amount_in amount_out fee is_full_fill;;
  modify (λ s, set_orders
    (match remaining with
     | None => delete order_id (Orders s)
     | Some (new_amount_in, new_amount_out) =>
         <[order_id := mkOrder own asset_in asset_out new_amount_in new_amount_out
                         (partially_fillable order)]> (Orders s)
     end) s).

(** ** Laws of the configuration *)
Class OtcConfigLaws : Prop := {
  otc_fee_permill : is_permill (OtcFee T);
  inc_providers_frames a x c b :
    free_balance c b (inc_providers T a x) = free_balance c b x ∧
    reserved_named c b (inc_providers T a x) = reserved_named c b x;
  dec_providers_frames a x x' c b :
    dec_providers T a x = Ok x' →
    free_balance c b x' = free_balance c b x ∧ reserved_named c b x' = reserved_named c b x;
}.

Context `{!SpArithmeticLaws} `{!MultiCurrencyLaws X AccountId} `{!NamedReserveLaws X AccountId}.
Context `{!OtcConfigLaws}.

Ltac inv_otc :=
  unfold otc_call, otc_ensure, otc_some, otc_deposit_event, otc_broadcast, ensure_signed in *;
  inv_ext; simpl in *.

Lemma calculate_fee_bounds amount : fits u128 amount → 0 <= calculate_fee amount <= amount.
Proof. intros. unfold calculate_fee. apply permill_mul_ceil_bounds; [apply otc_fee_permill|done]. Qed.

Lemma ensure_min_order_amount_Ok asset amount s u s' :
  ensure_min_order_amount asset amount s = Ok (u, s') → s' = s.
Proof. unfold ensure_min_order_amount. intros. by inv_otc. Qed.

Lemma ensure_remaining_order_valid_Ok a b x y s u s' :
  ensure_remaining_order_valid a b x y s = Ok (u, s') → s' = s.
Proof.
  unfold ensure_remaining_order_valid. intros. inv_otc.
  repeat match goal with Hm : ensure_min_order_amount _ _ _ = Ok _ |- _ =>
    apply ensure_min_order_amount_Ok in Hm; subst end. done.
Qed.

Lemma partial_amount_out_Ok o a i s r s' :
  fits u128 o → fits u128 i → 0 <= a → partial_amount_out o a i s = Ok (r, s') →
  s' = s ∧ r = o * a / i ∧ i ≠ 0 ∧ fits u128 r ∧ r * i <= o * a.
Proof.
  intros Ho Hi Ha Hr. unfold partial_amount_out in Hr. inv_otc.
  pose proof (fits_nonneg _ _ Ho). pose proof (fits_nonneg _ _ Hi).
  pose proof (div_bounds (o * a) i ltac:(lia)).
  split_and!; [done|done|done| |lia]. split; [apply muldiv_nonneg; lia|done].
Qed.

Lemma transfer_effect c f t amount er (x x' : X) :
  transfer c f t amount er x = Ok x' → 0 <= amount →
  amount <= free_balance c f x ∧
  (∀ c' a, free_balance c' a x' = free_balance c' a x + moved c f t amount c' a) ∧
  (∀ c' a, reserved_named c' a x' = reserved_named c' a x).
Proof.
  intros Ht Ha. pose proof (transfer_keeps_reserves _ _ _ _ _ _ _ Ha Ht).
  apply transfer_moves in Ht as (? & ? & _); done.
Qed.

Ltac otc_ledger :=
  repeat match goal with
  | Ht : transfer _ _ _ _ _ _ = Ok _ |- _ => apply transfer_effect in Ht as (? & ? & ?); [|lia]
  end.
Ltac otc_rewrite :=
  repeat match goal with
  | Hx : ∀ c a, free_balance c a ?x = _ |- context [free_balance _ _ ?x] => rewrite Hx
  | Hx : ∀ c a, reserved_named c a ?x = _ |- context [reserved_named _ _ ?x] => rewrite Hx
  end.

(** Only the ledger of the pallet's state differs. *)
Definition same_orders s s' : Prop := NextOrderId s' = NextOrderId s ∧ Orders s' = Orders s.

(** Balance of [a] in [c] that changes when [own]'s reserve pays [amount_out]
    to [filler], less [fee] to the fee receiver. *)
Definition released (asset : AssetId) (own filler : AccountId) (amount_out fee : Z) (c : AssetId) (a : AccountId) : Z :=
  when (c = asset ∧ a = own) amount_out + moved asset own filler (amount_out - fee) c a
  + moved asset own (FeeReceiver T) fee c a.

Lemma release_effect asset own filler amount_out fee s u s' :
  0 <= fee → 0 <= amount_out →
  release_reserved_asset_out asset own filler amount_out fee s = Ok (u, s') →
  same_orders s s' ∧ fee <= amount_out ∧
  (∀ c a, free_balance c a (otc_ext s') = free_balance c a (otc_ext s) + released asset own filler amount_out fee c a) ∧
  (∀ c a, reserved_named c a (otc_ext s')
          = reserved_named c a (otc_ext s) - when (c = asset ∧ a = own) amount_out).
Proof.
  intros Hf Ha Hrun. unfold release_reserved_asset_out in Hrun. inv_otc. propify.
  match goal with Hu : unreserve_named _ _ _ _ = (?r, _) |- _ =>
    apply unreserve_named_moves in Hu as (? & Hfree & Hres); [|done] end. subst.
  otc_ledger. split; [done|]. split; [done|]. unfold released.
  replace (amount_out - (amount_out - amount_out `min` reserved_named asset own (otc_ext s)))
    with amount_out in * by lia.
  split; intros; otc_rewrite; lia.
Qed.

(** ** The reserves back the orders *)

Definition order_reserve (c : AssetId) (a : AccountId) order : Z :=
  when (c = order_asset_out order ∧ a = owner order) (order_amount_out order).

(** The maker's reserve is exactly what the open orders sell, and identifiers
    below the next one are used up. *)
Record otc_wf s : Prop := mk_otc_wf {
  otc_reserved c a : reserved_named c a (otc_ext s) = sum_map (order_reserve c a) (Orders s);
  otc_ids id order : Orders s !! id = Some order → id < NextOrderId s;
  otc_amounts id order : Orders s !! id = Some order →
    fits u128 (order_amount_in order) ∧ fits u128 (order_amount_out order);
}.

Lemma order_reserve_nonneg c a order : 0 <= order_amount_out order → 0 <= order_reserve c a order.
Proof. intros. unfold order_reserve, when. by case_decide. Qed.

(** The reserve of an open order is there. *)
Lemma order_reserved s id order :
  otc_wf s → Orders s !! id = Some order →
  order_amount_out order <= reserved_named (order_asset_out order) (owner order) (otc_ext s).
Proof.
  intros Hwf Ho. rewrite (otc_reserved _ Hwf), (sum_map_delete _ _ id order Ho).
  unfold order_reserve at 1, when. rewrite decide_True by done.
  match goal with |- _ <= _ + ?r => assert (0 <= r); [|lia] end.
  apply sum_map_nonneg. intros k v Hk. apply order_reserve_nonneg.
  apply lookup_delete_Some in Hk as [_ Hk]. eapply fits_nonneg. by eapply (otc_amounts _ Hwf k).
Qed.

Lemma otc_wf_closed s s' id order :
  Orders s !! id = Some order → NextOrderId s' = NextOrderId s → Orders s' = delete id (Orders s) →
  (∀ c a, reserved_named c a (otc_ext s') = reserved_named c a (otc_ext s)
          - when (c = order_asset_out order ∧ a = owner order) (order_amount_out order)) →
  otc_wf s → otc_wf s'.
Proof.
  intros Ho Hn Hd Hr [Hres Hids Ham]. split; rewrite ?Hd, ?Hn.
  - intros c a. rewrite Hr, Hres, (sum_map_delete _ _ id order Ho). unfold order_reserve. lia.
  - intros id' o [_ E]%lookup_delete_Some. eauto.
  - intros id' o [_ E]%lookup_delete_Some. eauto.
Qed.

Lemma otc_wf_filled s s' id order order' amount_out :
  Orders s !! id = Some order → NextOrderId s' = NextOrderId s → Orders s' = <[id := order']> (Orders s) →
  owner order' = owner order → order_asset_out order' = order_asset_out order →
  order_amount_out order' = order_amount_out order - amount_out →
  fits u128 (order_amount_in order') → fits u128 (order_amount_out order') →
  (∀ c a, reserved_named c a (otc_ext s') = reserved_named c a (otc_ext s)
          - when (c = order_asset_out order ∧ a = owner order) amount_out) →
  otc_wf s → otc_wf s'.
Proof.
  intros Ho Hn Hd Ho1 Ho2 Ho3 Hf1 Hf2 Hr [Hres Hids Ham]. split; rewrite ?Hd, ?Hn.
  - intros c a. rewrite Hr, Hres, (sum_map_update _ _ id order order' Ho).
    unfold order_reserve at 3 4, when. rewrite Ho1, Ho2, Ho3. case_decide; lia.
  - intros id' o. rewrite lookup_insert_Some. intros [[<- _]|[_ E]]; eauto.
  - intros id' o. rewrite lookup_insert_Some. intros [[_ <-]|[_ E]]; eauto.
Qed.

Lemma otc_wf_opened s s' order :
  NextOrderId s' = NextOrderId s + 1 → Orders s' = <[NextOrderId s := order]> (Orders s) →
  fits u128 (order_amount_in order) → fits u128 (order_amount_out order) →
  (∀ c a, reserved_named c a (otc_ext s') = reserved_named c a (otc_ext s)
          + when (c = order_asset_out order ∧ a = owner order) (order_amount_out order)) →
  otc_wf s → otc_wf s'.
Proof.
  intros Hn Hd Hf1 Hf2 Hr [Hres Hids Ham].
  assert (Orders s !! NextOrderId s = None) as Hfresh.
  { destruct (Orders s !! NextOrderId s) eqn:E; [|done]. apply Hids in E. lia. }
  split; rewrite ?Hd, ?Hn.
  - intros c a. rewrite Hr, Hres, sum_map_insert by done. unfold order_reserve. lia.
  - intros id o. rewrite lookup_insert_Some. intros [[<- _]|[_ E]]; [lia|]. apply Hids in E. lia.
  - intros id o. rewrite lookup_insert_Some. intros [[_ <-]|[_ E]]; eauto.
Qed.

Lemma otc_wf_framed s s' :
  same_orders s s' → (∀ c a, reserved_named c a (otc_ext s') = reserved_named c a (otc_ext s)) →
  otc_wf s → otc_wf s'.
Proof. intros [Hn Ho] Hr [Hres Hids Ham]. split; rewrite ?Ho, ?Hn; [intros; rewrite Hr|..]; auto. Qed.

(** ** Effects of the dispatchables *)

Lemma place_order_wf o a b x y fillable s u s' :
  fits u128 x → fits u128 y → otc_wf s →
  place_order o a b x y fillable s = Ok (u, s') → otc_wf s'.
Proof.
  intros Hx Hy Hwf Hrun. unfold place_order in Hrun. destruct o; inv_otc; try done.
  repeat match goal with Hm : ensure_min_order_amount _ _ _ = Ok _ |- _ =>
    apply ensure_min_order_amount_Ok in Hm; subst end.
  match goal with Hr : reserve_named _ _ _ _ = Ok _ |- _ =>
    apply reserve_named_moves in Hr as [_ Hres]; [|by eapply fits_nonneg] end.
  by eapply (otc_wf_opened s).
Qed.

Lemma cancel_order_wf o id s u s' :
  otc_wf s → cancel_order o id s = Ok (u, s') → otc_wf s'.
Proof.
  intros Hwf Hrun. unfold cancel_order in Hrun. destruct o; inv_otc; try done. propify. subst.
  match goal with Ho : Orders s !! id = Some ?order |- _ =>
    destruct (otc_amounts _ Hwf id order Ho) as [_ Hout]; eapply (otc_wf_closed s _ id order); eauto end.
  intros c a. simpl. pose proof (fits_nonneg _ _ Hout).
  match goal with Hu : unreserve_named _ _ _ _ = _ |- _ =>
    apply unreserve_named_moves in Hu as (E & _ & Hr); [|done] end.
  rewrite Hr. f_equal. f_equal. lia.
Qed.

(** What a fill of [amount_in] against [amount_out] does to the free balances. *)
Definition settled order filler (amount_in amount_out fee : Z) (c : AssetId) (a : AccountId) : Z :=
  moved (order_asset_in order) filler (owner order) amount_in c a
  + released (order_asset_out order) (owner order) filler amount_out fee c a.

Lemma execute_order_effect order filler amount_in amount_out fee s u s' :
  0 <= fee → 0 <= amount_out → 0 <= amount_in →
  execute_order order filler amount_in amount_out fee s = Ok (u, s') →
  same_orders s s' ∧
  (∀ c a, free_balance c a (otc_ext s')
          = free_balance c a (otc_ext s) + settled order filler amount_in amount_out fee c a) ∧
  (∀ c a, reserved_named c a (otc_ext s') = reserved_named c a (otc_ext s)
          - when (c = order_asset_out order ∧ a = owner order) amount_out).
Proof.
  intros Hf Ho Hi Hrun. unfold execute_order in Hrun. inv_otc.
  match goal with Hr : release_reserved_asset_out _ _ _ _ _ _ = Ok _ |- _ =>
    apply release_effect in Hr as ([? ?] & _ & Hfree & Hres); [|done..] end. simpl in *.
  otc_ledger. split; [done|]. unfold settled. split; intros; rewrite ?Hfree, ?Hres; otc_rewrite; lia.
Qed.

Lemma partial_fill_order_effect o id amount_in s u s' :
  fits u128 amount_in → otc_wf s → partial_fill_order o id amount_in s = Ok (u, s') →
  ∃ who order amount_out, o = Signed who ∧ Orders s !! id = Some order ∧ partially_fillable order = true ∧
    amount_out = order_amount_out order * amount_in / order_amount_in order ∧
    amount_in <= order_amount_in order ∧ amount_out <= order_amount_out order ∧
    amount_out * order_amount_in order <= order_amount_out order * amount_in ∧
    NextOrderId s' = NextOrderId s ∧
    Orders s' = <[id := mkOrder (owner order) (order_asset_in order) (order_asset_out order)
                   (order_amount_in order - amount_in) (order_amount_out order - amount_out)
                   (partially_fillable order)]> (Orders s) ∧
    (∀ c a, free_balance c a (otc_ext s') = free_balance c a (otc_ext s)
            + settled order who amount_in amount_out (calculate_fee amount_out) c a) ∧ otc_wf s'.
Proof.
  intros Ha Hwf Hrun. pose proof (fits_nonneg _ _ Ha) as Ha0.
  unfold partial_fill_order, deposit_fill_events in Hrun. destruct o; inv_otc; try done.
  match goal with Ho : Orders s !! id = Some ?o |- _ => rename o into order; rename Ho into Hord end.
  destruct (otc_amounts _ Hwf id order Hord) as [Hin Hout].
  match goal with Hp : partial_amount_out _ _ _ _ = Ok (?r, _) |- _ =>
    apply partial_amount_out_Ok in Hp as (-> & Hr & Hne & Hrf & Hrle); [|done..]; rename r into out end.
  match goal with He : ensure_remaining_order_valid _ _ _ _ _ = Ok _ |- _ =>
    apply ensure_remaining_order_valid_Ok in He; subst end.
  pose proof (calculate_fee_bounds _ Hrf). pose proof (fits_nonneg _ _ Hrf).
  match goal with He : execute_order _ _ _ _ _ _ = Ok _ |- _ =>
    apply execute_order_effect in He as ([Hn Ho] & Hfree & Hres); simpl in *; [|lia..] end.
  do 3 eexists. split_and!; try done; try lia.
  - by rewrite Ho.
  - refine (otc_wf_filled s _ id order (mkOrder _ _ _ _ _ _) _ Hord _ _ _ _ _ _ _ _ Hwf); simpl;
      [done|by rewrite Ho|done|done|done|unfold fits in *; lia..|done].
Qed.

Lemma fill_order_effect o id s u s' :
  otc_wf s → fill_order o id s = Ok (u, s') →
  ∃ who order, o = Signed who ∧ Orders s !! id = Some order ∧
    NextOrderId s' = NextOrderId s ∧ Orders s' = delete id (Orders s) ∧
    (∀ c a, free_balance c a (otc_ext s') = free_balance c a (otc_ext s)
            + settled order who (order_amount_in order) (order_amount_out order)
                (calculate_fee (order_amount_out order)) c a) ∧ otc_wf s'.
Proof.
  intros Hwf Hrun. unfold fill_order, deposit_fill_events in Hrun. destruct o; inv_otc; try done.
  match goal with Ho : Orders s !! id = Some ?o |- _ => rename o into order; rename Ho into Hord end.
  destruct (otc_amounts _ Hwf id order Hord) as [Hin Hout].
  pose proof (calculate_fee_bounds _ Hout). pose proof (fits_nonneg _ _ Hin). pose proof (fits_nonneg _ _ Hout).
  match goal with He : execute_order _ _ _ _ _ _ = Ok _ |- _ =>
    apply execute_order_effect in He as ([Hn Ho] & Hfree & Hres); simpl in *; [|lia..] end.
  do 2 eexists. split_and!; try done; [by rewrite Ho|].
  eapply (otc_wf_closed s _ id order); simpl; eauto. by rewrite Ho.
Qed.

(** A delivery closure that leaves the orders and the reserves alone. *)
Definition delivers (deliver : Balance → OtcM unit) : Prop :=
  ∀ v s u s', deliver v s = Ok (u, s') →
    same_orders s s' ∧ ∀ c a, reserved_named c a (otc_ext s') = reserved_named c a (otc_ext s).

Lemma deferred_amounts order amount_in s amount_out s1 :
  fits u128 (order_amount_in order) → fits u128 (order_amount_out order) → 0 <= amount_in →
  (if amount_in =? order_amount_in order then mret (order_amount_out order)
   else otc_ensure (partially_fillable order) OtcError.OrderNotPartiallyFillable;;
        partial_amount_out (order_amount_out order) amount_in (order_amount_in order)) s = Ok (amount_out, s1) →
  s1 = s ∧ fits u128 amount_out ∧
  (amount_in = order_amount_in order → amount_out = order_amount_out order).
Proof.
  intros Hi Ho Ha Hrun. destruct (Z.eqb_spec amount_in (order_amount_in order)); inv_otc; [done|].
  match goal with Hp : partial_amount_out _ _ _ _ = Ok _ |- _ =>
    apply partial_amount_out_Ok in Hp as (-> & _ & _ & Hf & _); [|done..] end. done.
Qed.

Lemma deferred_remaining order amount_in amount_out s rem s1 :
  (if amount_in =? order_amount_in order then mret None
   else new_in ← otc_some (checked_sub (order_amount_in order) amount_in) OtcError.MathError;
        new_out ← otc_some (checked_sub (order_amount_out order) amount_out) OtcError.MathError;
        ensure_remaining_order_valid (order_asset_in order) (order_asset_out order) new_in new_out;;
        mret (Some (new_in, new_out))) s = Ok (rem, s1) →
  s1 = s ∧
  (amount_in = order_amount_in order ∧ rem = None ∨
   rem = Some (order_amount_in order - amount_in, order_amount_out order - amount_out) ∧
   amount_in <= order_amount_in order ∧ amount_out <= order_amount_out order).
Proof.
  intros Hrun. destruct (Z.eqb_spec amount_in (order_amount_in order)); inv_otc; [by auto|].
  match goal with He : ensure_remaining_order_valid _ _ _ _ _ = Ok _ |- _ =>
    apply ensure_remaining_order_valid_Ok in He; subst end. auto.
Qed.

Lemma deposit_fill_events_Ok id own filler a b x y f full s u s' :
  deposit_fill_events id own filler a b x y f full s = Ok (u, s') →
  same_orders s s' ∧ otc_ext s' = otc_ext s.
Proof. unfold deposit_fill_events. intros. destruct full; by inv_otc. Qed.

Lemma deferred_fill_wf id filler amount_in deliver s u s' :
  fits u128 amount_in → delivers deliver → otc_wf s →
  fill_order_with_deferred_delivery id filler amount_in deliver s = Ok (u, s') → otc_wf s'.
Proof.
  intros Ha Hdel Hwf Hrun. pose proof (fits_nonneg _ _ Ha) as Ha0.
  unfold fill_order_with_deferred_delivery in Hrun. inv_otc.
  match goal with Ho : Orders s !! id = Some ?o |- _ => rename o into order; rename Ho into Hord end.
  destruct (otc_amounts _ Hwf id order Hord) as [Hin Hout].
  match goal with Hp : _ = Ok (?r, _), Hf : calculate_fee ?r <= ?r |- _ =>
    apply deferred_amounts in Hp as (-> & Hof & Hofull); [|done..]; rename r into out end.
  match goal with Hp : _ = Ok (?r, _) |- context [match ?r with _ => _ end] =>
    apply deferred_remaining in Hp as (-> & Hrem); rename r into rem end.
  pose proof (calculate_fee_bounds _ Hof). pose proof (fits_nonneg _ _ Hof).
  match goal with Hr : release_reserved_asset_out _ _ _ _ _ _ = Ok _ |- _ =>
    apply release_effect in Hr as ([Hn1 Ho1] & _ & _ & Hr1); [|lia..] end. simpl in *.
  match goal with Hd : deliver _ _ = Ok _ |- _ => apply Hdel in Hd as ([Hn2 Ho2] & Hr2) end.
  match goal with Hd : dec_providers _ _ _ = Ok _ |- _ =>
    pose proof (λ c a, proj2 (dec_providers_frames _ _ _ c a Hd)) as Hr3 end.
  match goal with Hd : deposit_fill_events _ _ _ _ _ _ _ _ _ _ = Ok _ |- _ =>
    apply deposit_fill_events_Ok in Hd as ([Hn4 Ho4] & Hx4) end. otc_ledger. simpl in *.
  assert (∀ c a, reserved_named c a x = reserved_named c a (otc_ext s)
    - when (c = order_asset_out order ∧ a = owner order) out) as Hres.
  { intros c a. rewrite Hr3. otc_rewrite.
    by rewrite (proj2 (inc_providers_frames (owner order) (otc_ext s) c a)). }
  destruct Hrem as [[Hfull ->]|(-> & Hle1 & Hle2)].
  - apply (otc_wf_closed s _ id order); simpl; try congruence. rewrite Hx4, <- (Hofull Hfull). done.
  - refine (otc_wf_filled s _ id order (mkOrder _ _ _ _ _ _) out Hord _ _ _ _ _ _ _ _ Hwf); simpl;
      [congruence|by rewrite Ho4, Ho2, Ho1|done..|unfold fits in *; lia|unfold fits in *; lia|].
    by rewrite Hx4.
Qed.

(** ** Traces *)

Inductive otc_step s s' : Prop :=
| otc_place o a b x y fillable u :
    fits u128 x → fits u128 y → place_order o a b x y fillable s = Ok (u, s') → otc_step s s'
| otc_partial_fill o id amount_in u :
    fits u128 amount_in → partial_fill_order o id amount_in s = Ok (u, s') → otc_step s s'
| otc_fill o id u : fill_order o id s = Ok (u, s') → otc_step s s'
| otc_cancel o id u : cancel_order o id s = Ok (u, s') → otc_step s s'
| otc_deferred id filler amount_in deliver u :
    fits u128 amount_in → delivers deliver →
    fill_order_with_deferred_delivery id filler amount_in deliver s = Ok (u, s') → otc_step s s'
| otc_transfer c f t amount x :
    0 <= amount → transfer c f t amount AllowDeath (otc_ext s) = Ok x → s' = otc_set_ext x s → otc_step s s'.

Lemma otc_step_wf s s' : otc_wf s → otc_step s s' → otc_wf s'.
Proof.
  intros Hwf. destruct 1 as [o a b x y fl u Hx Hy Hr|o id x u Hx Hr|o id u Hr|o id u Hr
    |id f x d u Hx Hd Hr|c f t amount x Ha Ht ->].
  - exact (place_order_wf o a b x y fl s u s' Hx Hy Hwf Hr).
  - apply partial_fill_order_effect in Hr as (? & ? & ? & ? & ? & ? & ? & ? & ? & ? & ? & ? & ? & ?); done.
  - apply fill_order_effect in Hr as (? & ? & ? & ? & ? & ? & ? & ?); done.
  - exact (cancel_order_wf o id s u s' Hwf Hr).
  - exact (deferred_fill_wf id f x d s u s' Hx Hd Hwf Hr).
  - apply transfer_effect in Ht as (_ & _ & Hr); [|done]. by eapply (otc_wf_framed s).
Qed.

(** C17: whatever sequence of placements, fills, cancellations and transfers
    runs, the named reserve of every account in every asset is exactly the sum
    of what its open orders sell. *)
Theorem otc_reserves_back_orders s s' : otc_wf s → rtc otc_step s s' → otc_wf s'.
Proof. intros Hwf Htr. induction Htr; [done|]. eauto using otc_step_wf. Qed.

(** C36: the owner can always cancel an open order, which returns exactly what
    the order still sells, removes the order and touches nothing else. *)
Theorem cancel_returns_everything s id order :
  otc_wf s → Orders s !! id = Some order →
  ∃ s', cancel_order (Signed (owner order)) id s = Ok (tt, s') ∧
    Orders s' = delete id (Orders s) ∧ NextOrderId s' = NextOrderId s ∧
    ∀ c a, free_balance c a (otc_ext s') = free_balance c a (otc_ext s)
      + when (c = order_asset_out order ∧ a = owner order) (order_amount_out order).
Proof.
  intros Hwf Ho. pose proof (order_reserved s id order Hwf Ho) as Hres.
  destruct (otc_amounts _ Hwf id order Ho) as [_ Hout]. pose proof (fits_nonneg _ _ Hout) as Hout0.
  destruct (unreserve_named (order_asset_out order) (owner order) (order_amount_out order) (otc_ext s))
    as [rem x] eqn:Eu.
  apply unreserve_named_moves in Eu as E; [|done]. destruct E as (Hrem & Hfree & _).
  assert (rem = 0) as -> by lia.
  eexists. split.
  - unfold cancel_order, otc_some, otc_ensure, mbind, M_bind, lift, get, ensureM, on_ext. simpl.
    rewrite Ho. simpl. rewrite bool_decide_true by done. simpl. rewrite Eu. simpl. reflexivity.
  - simpl. split_and!; [done|done|]. intros. rewrite Hfree. by rewrite Z.sub_0_r.
Qed.

(** A partial fill settles at the order's price in the maker's favour: the
    filler pays exactly [amount_in] to the maker and receives the pro-rata
    amount rounded down less the fee, which goes to the fee receiver; the order
    keeps the exact remainder of both amounts, no other balance moves. *)
Theorem partial_fill_settles o id amount_in s u s' :
  fits u128 amount_in → otc_wf s → partial_fill_order o id amount_in s = Ok (u, s') →
  ∃ filler order amount_out, o = Signed filler ∧ Orders s !! id = Some order ∧
    partially_fillable order = true ∧
    amount_out * order_amount_in order <= order_amount_out order * amount_in ∧
    Orders s' = <[id := mkOrder (owner order) (order_asset_in order) (order_asset_out order)
                   (order_amount_in order - amount_in) (order_amount_out order - amount_out) true]> (Orders s) ∧
    ∀ c a, free_balance c a (otc_ext s') = free_balance c a (otc_ext s)
      + moved (order_asset_in order) filler (owner order) amount_in c a
      + (when (c = order_asset_out order ∧ a = owner order) amount_out
         + moved (order_asset_out order) (owner order) filler (amount_out - calculate_fee amount_out) c a
         + moved (order_asset_out order) (owner order) (FeeReceiver T) (calculate_fee amount_out) c a).
Proof.
  intros Ha Hwf Hrun.
  destruct (partial_fill_order_effect o id amount_in s u s' Ha Hwf Hrun)
    as (who & order & out & -> & Ho & Hpf & _ & _ & _ & Hp & _ & Hos & Hfree & _).
  exists who, order, out. split_and!; try done; [by rewrite Hos, Hpf|].
  intros. rewrite Hfree. unfold settled, released. lia.
Qed.
End otc.

(** ** A concrete market

    Maker 1 sells asset 20 for asset 10; filler 2 fills a part; account 3
    receives the fees. *)
Module OtcDemo.
#[local] Existing Instance reference_arithmetic.
#[local] Existing Instance reference_arithmetic_laws.

Definition config : OtcConfig vault Z := {|
  asset_exists _ _ := true;
  ExistentialDeposits _ _ := 10;
  ExistentialDepositMultiplier := 5;
  OtcFee := 1000;
  FeeReceiver := 3;
  inc_providers _ v := v;
  dec_providers _ v := Ok v;
|}.

#[global] Instance config_laws : OtcConfigLaws config.
Proof. split; [compute_done|done|]. intros ? ? ? ? ? [= ->]. done. Qed.


Definition genesis : otc vault Z :=
  mkOtc 0 ∅ [] (mkBroadcast 0 [] None [])
    (mkVault (<[(20, 1) := (5000, 0)]> (<[(10, 2) := (7000, 0)]> ∅)) ∅).
Definition placed := run (place_order config (Signed 1) 10 20 1000 2000 true) genesis.
Definition filled := run (partial_fill_order config (Signed 2) 0 333) placed.
Definition cancelled := run (cancel_order (Signed 1) 0) filled.

Lemma otc_genesis_wf : otc_wf genesis.
Proof.
  split; simpl; [|by intros ? ?|by intros ? ?].
  intros c a. rewrite sum_map_empty. unfold vault_reserved, entry. simpl.
  rewrite !lookup_insert. repeat case_decide; vm_compute; reflexivity.
Qed.

Lemma placed_step : otc_step config genesis placed.
Proof. eapply otc_place; [..|apply run_Ok; by vm_compute]; compute_done. Qed.
Lemma placed_wf : otc_wf placed.
Proof. apply (otc_step_wf config genesis); [apply otc_genesis_wf|apply placed_step]. Qed.

Lemma otc_trace : rtc (otc_step config) genesis cancelled.
Proof.
  eapply rtc_l; [apply placed_step|]. apply (rtc_l _ _ filled).
  { eapply otc_partial_fill; [|apply run_Ok; by vm_compute]. compute_done. }
  apply rtc_once. eapply otc_cancel. apply run_Ok. by vm_compute.
Qed.
End OtcDemo.

Lemma otc_reserves_back_orders_witness : otc_wf OtcDemo.cancelled.
Proof.
  apply (@otc_reserves_back_orders vault Z _ reference_arithmetic _ _ OtcDemo.config
    reference_arithmetic_laws _ _ _ OtcDemo.genesis);
    [apply OtcDemo.otc_genesis_wf|apply OtcDemo.otc_trace].
Defined.

Lemma cancel_returns_everything_witness :
  ∃ s', cancel_order (Signed 1) 0 OtcDemo.placed = Ok (tt, s') ∧ Orders s' = delete 0 (Orders OtcDemo.placed).
Proof.
  destruct (cancel_returns_everything OtcDemo.placed 0 (mkOrder 1 10 20 1000 2000 true)) as (s' & H1 & H2 & _);
    [apply OtcDemo.placed_wf|vm_compute; reflexivity|]. exists s'. exact (conj H1 H2).
Defined.

Lemma partial_fill_settles_witness :
  ∃ order amount_out, Orders OtcDemo.placed !! 0 = Some order ∧
    amount_out * order_amount_in order <= order_amount_out order * 333.
Proof.
  destruct (@partial_fill_settles vault Z _ reference_arithmetic _ _ OtcDemo.config
    reference_arithmetic_laws _ _ _ (Signed 2) 0 333 OtcDemo.placed tt OtcDemo.filled)
    as (f & order & out & _ & H1 & _ & H2 & _);
    [compute_done|apply OtcDemo.placed_wf|apply run_Ok; vm_compute; reflexivity|].
  exists order, out. exact (conj H1 H2).
Defined.
