(* ===== verification/CircuitBreaker.v ===== *)
(** * The circuit breaker

    Models [pallets/circuit-breaker]: per-block limits on the net trade volume
    and on the liquidity of an asset, the global withdraw limit with its
    decaying accumulator and lockdown, and the fuse that locks deposits when the
    issuance of an asset grows too fast.

    The block number and the timestamp are fields of the state; a failing call
    leaves the state as it was. *)

From S2P Require Import Prelude Arithmetic Currency.

Notation Moment := Z (only parsing).

Definition MAX_LIMIT_VALUE : Z := 10000.

Record TradeVolumeLimit := mkTradeVolumeLimit { volume_in : Balance; volume_out : Balance; trade_limit : Balance }.
Record LiquidityLimit := mkLiquidityLimit { liquidity : Balance; liquidity_limit : Balance }.

Inductive LockdownStatus := Locked (until : Z) | Unlocked (last_reset_at : Z) (last_issuance : Balance).

Inductive GlobalAssetCategory := External | Local.

Record GlobalWithdrawLimitParameters := mkWithdrawLimit { limit : Balance; window : Moment }.

Module CbError.
Inductive t :=
| InvalidLimitValue
| LiquidityLimitNotStoredForAsset
| TokenOutflowLimitReached
| TokenInfluxLimitReached
| MaxLiquidityLimitPerBlockReached
| NotAllowed
| AssetInLockdown
| AssetNotInLockdown
| InvalidAmount
| DepositLimitExceededForWhitelistedAccount
| WithdrawLockdownActive
| GlobalWithdrawLimitExceeded
| FailedToConvertAsset.
End CbError.

Inductive CbEvent (AccountId : Type) :=
| TradeVolumeLimitChanged (asset_id : AssetId) (trade_volume_limit : Z * Z)
| AddLiquidityLimitChanged (asset_id : AssetId) (liquidity_limit : option (Z * Z))
| RemoveLiquidityLimitChanged (asset_id : AssetId) (liquidity_limit : option (Z * Z))
| AssetLockdown (asset_id : AssetId) (until : Z)
| AssetLockdownRemoved (asset_id : AssetId)
| DepositReleased (who : AccountId) (asset_id : AssetId)
| WithdrawLockdownLifted
| WithdrawLockdownReset
| WithdrawLimitConfigUpdated (limit : Balance) (window : Moment)
| WithdrawLockdownTriggered (until : Moment)
| EgressAccountsAdded (count : Z)
| EgressAccountsRemoved (count : Z)
| AssetCategoryUpdated (asset_id : AssetId) (category : option GlobalAssetCategory).
#[global] Arguments TradeVolumeLimitChanged {AccountId} _ _.
#[global] Arguments AddLiquidityLimitChanged {AccountId} _ _.
#[global] Arguments RemoveLiquidityLimitChanged {AccountId} _ _.
#[global] Arguments AssetLockdown {AccountId} _ _.
#[global] Arguments AssetLockdownRemoved {AccountId} _.
#[global] Arguments DepositReleased {AccountId} _ _.
#[global] Arguments WithdrawLockdownLifted {AccountId}.
#[global] Arguments WithdrawLockdownReset {AccountId}.
#[global] Arguments WithdrawLimitConfigUpdated {AccountId} _ _.
#[global] Arguments WithdrawLockdownTriggered {AccountId} _.
#[global] Arguments EgressAccountsAdded {AccountId} _.
#[global] Arguments EgressAccountsRemoved {AccountId} _.
#[global] Arguments AssetCategoryUpdated {AccountId} _ _.

(** Constants and the deposit limiter of the pallet's [Config]. *)
Record CbConfig (X AccountId : Type) := mkCbConfig {
  authority : RawOrigin AccountId → bool;
  WhitelistedAccounts : AccountId → bool;
  DepositLockWhitelist : AccountId → bool;
  DefaultMaxNetTradeVolumeLimitPerBlock : Z * Z;
  DefaultMaxAddLiquidityLimitPerBlock : option (Z * Z);
  DefaultMaxRemoveLiquidityLimitPerBlock : option (Z * Z);
  OmnipoolHubAsset : AssetId;
  DepositLimit : AssetId → X → option Balance;
  Period : Z;
  Issuance : AssetId → X → Balance;
  OnLimitReached : AssetId → X → X;
  OnLockdownDeposit : AssetId → AccountId → Balance → X → result Z X;
  OnDepositRelease : AssetId → AccountId → X → result Z X;
}.
#[global] Arguments authority {X AccountId} _ _.
#[global] Arguments WhitelistedAccounts {X AccountId} _ _.
#[global] Arguments DepositLockWhitelist {X AccountId} _ _.
#[global] Arguments DefaultMaxNetTradeVolumeLimitPerBlock {X AccountId} _.
#[global] Arguments DefaultMaxAddLiquidityLimitPerBlock {X AccountId} _.
#[global] Arguments DefaultMaxRemoveLiquidityLimitPerBlock {X AccountId} _.
#[global] Arguments OmnipoolHubAsset {X AccountId} _.
#[global] Arguments DepositLimit {X AccountId} _ _ _.
#[global] Arguments Period {X AccountId} _.
#[global] Arguments Issuance {X AccountId} _ _ _.
#[global] Arguments OnLimitReached {X AccountId} _ _ _.
#[global] Arguments OnLockdownDeposit {X AccountId} _ _ _ _ _.
#[global] Arguments OnDepositRelease {X AccountId} _ _ _ _.

(** The storage of the pallet, its events, the clock and the rest of the chain. *)
Record breaker (X AccountId : Type) `{Countable AccountId} := mkBreaker {
  TradeVolumeLimitPerAsset : gmap Z (Z * Z);
  AllowedTradeVolumeLimitPerAsset : gmap Z TradeVolumeLimit;
  LiquidityAddLimitPerAsset : gmap Z (option (Z * Z));
  AllowedAddLiquidityAmountPerAsset : gmap Z LiquidityLimit;
  AssetLockdownState : gmap Z LockdownStatus;
  LiquidityRemoveLimitPerAsset : gmap Z (option (Z * Z));
  AllowedRemoveLiquidityAmountPerAsset : gmap Z LiquidityLimit;
  GlobalWithdrawLimitConfig : option GlobalWithdrawLimitParameters;
  WithdrawLimitAccumulator : Balance * Moment;
  WithdrawLockdownUntil : option Moment;
  EgressAccounts : gset AccountId;
  IgnoreWithdrawLimit : bool;
  GlobalAssetOverrides : gmap Z GlobalAssetCategory;
  XcmEgressBuffer : option (Balance * Balance);
  cb_events : list (CbEvent AccountId);
  block_number : Z;
  timestamp : Moment;
  cb_ext : X;
}.
#[global] Arguments mkBreaker {X AccountId _ _} _ _ _ _ _ _ _ _ _ _ _ _ _ _ _ _ _ _.
#[global] Arguments TradeVolumeLimitPerAsset {X AccountId _ _} _.
#[global] Arguments AllowedTradeVolumeLimitPerAsset {X AccountId _ _} _.
#[global] Arguments LiquidityAddLimitPerAsset {X AccountId _ _} _.
#[global] Arguments AllowedAddLiquidityAmountPerAsset {X AccountId _ _} _.
#[global] Arguments AssetLockdownState {X AccountId _ _} _.
#[global] Arguments LiquidityRemoveLimitPerAsset {X AccountId _ _} _.
#[global] Arguments AllowedRemoveLiquidityAmountPerAsset {X AccountId _ _} _.
#[global] Arguments GlobalWithdrawLimitConfig {X AccountId _ _} _.
#[global] Arguments WithdrawLimitAccumulator {X AccountId _ _} _.
#[global] Arguments WithdrawLockdownUntil {X AccountId _ _} _.
#[global] Arguments EgressAccounts {X AccountId _ _} _.
#[global] Arguments IgnoreWithdrawLimit {X AccountId _ _} _.
#[global] Arguments GlobalAssetOverrides {X AccountId _ _} _.
#[global] Arguments XcmEgressBuffer {X AccountId _ _} _.
#[global] Arguments cb_events {X AccountId _ _} _.
#[global] Arguments block_number {X AccountId _ _} _.
#[global] Arguments timestamp {X AccountId _ _} _.
#[global] Arguments cb_ext {X AccountId _ _} _.

Section circuit_breaker.
Context {X AccountId : Type} `{Countable AccountId} `{SpArithmetic}.
Context (T : CbConfig X AccountId).

Notation breaker := (breaker X AccountId).
Notation CbM := (M breaker (DispatchError CbError.t)).
Implicit Types (s : breaker) (who : AccountId) (asset_id : AssetId).

Definition set_TradeVolumeLimitPerAsset (v : gmap Z (Z * Z)) s : breaker :=
  mkBreaker v (AllowedTradeVolumeLimitPerAsset s) (LiquidityAddLimitPerAsset s)
    (AllowedAddLiquidityAmountPerAsset s) (AssetLockdownState s) (LiquidityRemoveLimitPerAsset s)
    (AllowedRemoveLiquidityAmountPerAsset s) (GlobalWithdrawLimitConfig s)
    (WithdrawLimitAccumulator s) (WithdrawLockdownUntil s) (EgressAccounts s) (IgnoreWithdrawLimit
    s) (GlobalAssetOverrides s) (XcmEgressBuffer s) (cb_events s) (block_number s) (timestamp s)
    (cb_ext s).
Definition set_AllowedTradeVolumeLimitPerAsset (v : gmap Z TradeVolumeLimit) s : breaker :=
  mkBreaker (TradeVolumeLimitPerAsset s) v (LiquidityAddLimitPerAsset s)
    (AllowedAddLiquidityAmountPerAsset s) (AssetLockdownState s) (LiquidityRemoveLimitPerAsset s)
    (AllowedRemoveLiquidityAmountPerAsset s) (GlobalWithdrawLimitConfig s)
    (WithdrawLimitAccumulator s) (WithdrawLockdownUntil s) (EgressAccounts s) (IgnoreWithdrawLimit
    s) (GlobalAssetOverrides s) (XcmEgressBuffer s) (cb_events s) (block_number s) (timestamp s)
    (cb_ext s).
Definition set_LiquidityAddLimitPerAsset (v : gmap Z (option (Z * Z))) s : breaker :=
  mkBreaker (TradeVolumeLimitPerAsset s) (AllowedTradeVolumeLimitPerAsset s) v
    (AllowedAddLiquidityAmountPerAsset s) (AssetLockdownState s) (LiquidityRemoveLimitPerAsset s)
    (AllowedRemoveLiquidityAmountPerAsset s) (GlobalWithdrawLimitConfig s)
    (WithdrawLimitAccumulator s) (WithdrawLockdownUntil s) (EgressAccounts s) (IgnoreWithdrawLimit
    s) (GlobalAssetOverrides s) (XcmEgressBuffer s) (cb_events s) (block_number s) (timestamp s)
    (cb_ext s).
Definition set_AllowedAddLiquidityAmountPerAsset (v : gmap Z LiquidityLimit) s : breaker :=
  mkBreaker (TradeVolumeLimitPerAsset s) (AllowedTradeVolumeLimitPerAsset s)
    (LiquidityAddLimitPerAsset s) v (AssetLockdownState s) (LiquidityRemoveLimitPerAsset s)
    (AllowedRemoveLiquidityAmountPerAsset s) (GlobalWithdrawLimitConfig s)
    (WithdrawLimitAccumulator s) (WithdrawLockdownUntil s) (EgressAccounts s) (IgnoreWithdrawLimit
    s) (GlobalAssetOverrides s) (XcmEgressBuffer s) (cb_events s) (block_number s) (timestamp s)
    (cb_ext s).
Definition set_AssetLockdownState (v : gmap Z LockdownStatus) s : breaker :=
  mkBreaker (TradeVolumeLimitPerAsset s) (AllowedTradeVolumeLimitPerAsset s)
    (LiquidityAddLimitPerAsset s) (AllowedAddLiquidityAmountPerAsset s) v
    (LiquidityRemoveLimitPerAsset s) (AllowedRemoveLiquidityAmountPerAsset s)
    (GlobalWithdrawLimitConfig s) (WithdrawLimitAccumulator s) (WithdrawLockdownUntil s)
    (EgressAccounts s) (IgnoreWithdrawLimit s) (GlobalAssetOverrides s) (XcmEgressBuffer s)
    (cb_events s) (block_number s) (timestamp s) (cb_ext s).
Definition set_LiquidityRemoveLimitPerAsset (v : gmap Z (option (Z * Z))) s : breaker :=
  mkBreaker (TradeVolumeLimitPerAsset s) (AllowedTradeVolumeLimitPerAsset s)
    (LiquidityAddLimitPerAsset s) (AllowedAddLiquidityAmountPerAsset s) (AssetLockdownState s) v
    (AllowedRemoveLiquidityAmountPerAsset s) (GlobalWithdrawLimitConfig s)
    (WithdrawLimitAccumulator s) (WithdrawLockdownUntil s) (EgressAccounts s) (IgnoreWithdrawLimit
    s) (GlobalAssetOverrides s) (XcmEgressBuffer s) (cb_events s) (block_number s) (timestamp s)
    (cb_ext s).
Definition set_AllowedRemoveLiquidityAmountPerAsset (v : gmap Z LiquidityLimit) s : breaker :=
  mkBreaker (TradeVolumeLimitPerAsset s) (AllowedTradeVolumeLimitPerAsset s)
    (LiquidityAddLimitPerAsset s) (AllowedAddLiquidityAmountPerAsset s) (AssetLockdownState s)
    (LiquidityRemoveLimitPerAsset s) v (GlobalWithdrawLimitConfig s) (WithdrawLimitAccumulator s)
    (WithdrawLockdownUntil s) (EgressAccounts s) (IgnoreWithdrawLimit s) (GlobalAssetOverrides s)
    (XcmEgressBuffer s) (cb_events s) (block_number s) (timestamp s) (cb_ext s).
Definition set_GlobalWithdrawLimitConfig (v : option GlobalWithdrawLimitParameters) s : breaker :=
  mkBreaker (TradeVolumeLimitPerAsset s) (AllowedTradeVolumeLimitPerAsset s)
    (LiquidityAddLimitPerAsset s) (AllowedAddLiquidityAmountPerAsset s) (AssetLockdownState s)
    (LiquidityRemoveLimitPerAsset s) (AllowedRemoveLiquidityAmountPerAsset s) v
    (WithdrawLimitAccumulator s) (WithdrawLockdownUntil s) (EgressAccounts s) (IgnoreWithdrawLimit
    s) (GlobalAssetOverrides s) (XcmEgressBuffer s) (cb_events s) (block_number s) (timestamp s)
    (cb_ext s).
Definition set_WithdrawLimitAccumulator (v : Balance * Moment) s : breaker :=
  mkBreaker (TradeVolumeLimitPerAsset s) (AllowedTradeVolumeLimitPerAsset s)
    (LiquidityAddLimitPerAsset s) (AllowedAddLiquidityAmountPerAsset s) (AssetLockdownState s)
    (LiquidityRemoveLimitPerAsset s) (AllowedRemoveLiquidityAmountPerAsset s)
    (GlobalWithdrawLimitConfig s) v (WithdrawLockdownUntil s) (EgressAccounts s)
    (IgnoreWithdrawLimit s) (GlobalAssetOverrides s) (XcmEgressBuffer s) (cb_events s)
    (block_number s) (timestamp s) (cb_ext s).
Definition set_WithdrawLockdownUntil (v : option Moment) s : breaker :=
  mkBreaker (TradeVolumeLimitPerAsset s) (AllowedTradeVolumeLimitPerAsset s)
    (LiquidityAddLimitPerAsset s) (AllowedAddLiquidityAmountPerAsset s) (AssetLockdownState s)
    (LiquidityRemoveLimitPerAsset s) (AllowedRemoveLiquidityAmountPerAsset s)
    (GlobalWithdrawLimitConfig s) (WithdrawLimitAccumulator s) v (EgressAccounts s)
    (IgnoreWithdrawLimit s) (GlobalAssetOverrides s) (XcmEgressBuffer s) (cb_events s)
    (block_number s) (timestamp s) (cb_ext s).
Definition set_EgressAccounts (v : gset AccountId) s : breaker :=
  mkBreaker (TradeVolumeLimitPerAsset s) (AllowedTradeVolumeLimitPerAsset s)
    (LiquidityAddLimitPerAsset s) (AllowedAddLiquidityAmountPerAsset s) (AssetLockdownState s)
    (LiquidityRemoveLimitPerAsset s) (AllowedRemoveLiquidityAmountPerAsset s)
    (GlobalWithdrawLimitConfig s) (WithdrawLimitAccumulator s) (WithdrawLockdownUntil s) v
    (IgnoreWithdrawLimit s) (GlobalAssetOverrides s) (XcmEgressBuffer s) (cb_events s)
    (block_number s) (timestamp s) (cb_ext s).
Definition set_IgnoreWithdrawLimit (v : bool) s : breaker :=
  mkBreaker (TradeVolumeLimitPerAsset s) (AllowedTradeVolumeLimitPerAsset s)
    (LiquidityAddLimitPerAsset s) (AllowedAddLiquidityAmountPerAsset s) (AssetLockdownState s)
    (LiquidityRemoveLimitPerAsset s) (AllowedRemoveLiquidityAmountPerAsset s)
    (GlobalWithdrawLimitConfig s) (WithdrawLimitAccumulator s) (WithdrawLockdownUntil s)
    (EgressAccounts s) v (GlobalAssetOverrides s) (XcmEgressBuffer s) (cb_events s) (block_number
    s) (timestamp s) (cb_ext s).
Definition set_GlobalAssetOverrides (v : gmap Z GlobalAssetCategory) s : breaker :=
  mkBreaker (TradeVolumeLimitPerAsset s) (AllowedTradeVolumeLimitPerAsset s)
    (LiquidityAddLimitPerAsset s) (AllowedAddLiquidityAmountPerAsset s) (AssetLockdownState s)
    (LiquidityRemoveLimitPerAsset s) (AllowedRemoveLiquidityAmountPerAsset s)
    (GlobalWithdrawLimitConfig s) (WithdrawLimitAccumulator s) (WithdrawLockdownUntil s)
    (EgressAccounts s) (IgnoreWithdrawLimit s) v (XcmEgressBuffer s) (cb_events s) (block_number s)
    (timestamp s) (cb_ext s).
Definition set_XcmEgressBuffer (v : option (Balance * Balance)) s : breaker :=
  mkBreaker (TradeVolumeLimitPerAsset s) (AllowedTradeVolumeLimitPerAsset s)
    (LiquidityAddLimitPerAsset s) (AllowedAddLiquidityAmountPerAsset s) (AssetLockdownState s)
    (LiquidityRemoveLimitPerAsset s) (AllowedRemoveLiquidityAmountPerAsset s)
    (GlobalWithdrawLimitConfig s) (WithdrawLimitAccumulator s) (WithdrawLockdownUntil s)
    (EgressAccounts s) (IgnoreWithdrawLimit s) (GlobalAssetOverrides s) v (cb_events s)
    (block_number s) (timestamp s) (cb_ext s).
Definition set_cb_events (v : list (CbEvent AccountId)) s : breaker :=
  mkBreaker (TradeVolumeLimitPerAsset s) (AllowedTradeVolumeLimitPerAsset s)
    (LiquidityAddLimitPerAsset s) (AllowedAddLiquidityAmountPerAsset s) (AssetLockdownState s)
    (LiquidityRemoveLimitPerAsset s) (AllowedRemoveLiquidityAmountPerAsset s)
    (GlobalWithdrawLimitConfig s) (WithdrawLimitAccumulator s) (WithdrawLockdownUntil s)
    (EgressAccounts s) (IgnoreWithdrawLimit s) (GlobalAssetOverrides s) (XcmEgressBuffer s) v
    (block_number s) (timestamp s) (cb_ext s).
Definition set_block_number (v : Z) s : breaker :=
  mkBreaker (TradeVolumeLimitPerAsset s) (AllowedTradeVolumeLimitPerAsset s)
    (LiquidityAddLimitPerAsset s) (AllowedAddLiquidityAmountPerAsset s) (AssetLockdownState s)
    (LiquidityRemoveLimitPerAsset s) (AllowedRemoveLiquidityAmountPerAsset s)
    (GlobalWithdrawLimitConfig s) (WithdrawLimitAccumulator s) (WithdrawLockdownUntil s)
    (EgressAccounts s) (IgnoreWithdrawLimit s) (GlobalAssetOverrides s) (XcmEgressBuffer s)
    (cb_events s) v (timestamp s) (cb_ext s).
Definition set_timestamp (v : Moment) s : breaker :=
  mkBreaker (TradeVolumeLimitPerAsset s) (AllowedTradeVolumeLimitPerAsset s)
    (LiquidityAddLimitPerAsset s) (AllowedAddLiquidityAmountPerAsset s) (AssetLockdownState s)
    (LiquidityRemoveLimitPerAsset s) (AllowedRemoveLiquidityAmountPerAsset s)
    (GlobalWithdrawLimitConfig s) (WithdrawLimitAccumulator s) (WithdrawLockdownUntil s)
    (EgressAccounts s) (IgnoreWithdrawLimit s) (GlobalAssetOverrides s) (XcmEgressBuffer s)
    (cb_events s) (block_number s) v (cb_ext s).
Definition set_cb_ext (v : X) s : breaker :=
  mkBreaker (TradeVolumeLimitPerAsset s) (AllowedTradeVolumeLimitPerAsset s)
    (LiquidityAddLimitPerAsset s) (AllowedAddLiquidityAmountPerAsset s) (AssetLockdownState s)
    (LiquidityRemoveLimitPerAsset s) (AllowedRemoveLiquidityAmountPerAsset s)
    (GlobalWithdrawLimitConfig s) (WithdrawLimitAccumulator s) (WithdrawLockdownUntil s)
    (EgressAccounts s) (IgnoreWithdrawLimit s) (GlobalAssetOverrides s) (XcmEgressBuffer s)
    (cb_events s) (block_number s) (timestamp s) v.

Definition cb_deposit_event (e : CbEvent AccountId) : CbM unit :=
  modify (λ s, set_cb_events (cb_events s ++ [e]) s).
Definition cb_call (f : X → result Z X) : CbM unit := on_ext_ cb_ext set_cb_ext f.
Definition cb_ensure (b : bool) (e : CbError.t) : CbM unit := ensureM b (ModuleError e).
Definition cb_some {A} (o : option A) (e : CbError.t) : CbM A := lift (ok_or o (ModuleError e)).
Definition arith {A} (o : option A) (e : ArithmeticError.t) : CbM A := lift (ok_or o (Arithmetic e)).
Definition ensure_authority (o : RawOrigin AccountId) : CbM unit := ensureM (authority T o) BadOrigin.

(** ** Volume and liquidity limits *)

Definition update_amounts (l : TradeVolumeLimit) (amount_in amount_out : Balance) : CbM TradeVolumeLimit :=
  vi ← arith (checked_add u128 (volume_in l) amount_in) ArithmeticError.Overflow;
  vo ← arith (checked_add u128 (volume_out l) amount_out) ArithmeticError.Overflow;
  mret (mkTradeVolumeLimit vi vo (trade_limit l)).

Definition check_outflow_limit (l : TradeVolumeLimit) : CbM unit :=
  if volume_in l <? volume_out l then
    diff ← arith (checked_sub (volume_out l) (volume_in l)) ArithmeticError.Underflow;
    cb_ensure (diff <=? trade_limit l) CbError.TokenOutflowLimitReached
  else mret tt.

Definition check_influx_limit (l : TradeVolumeLimit) : CbM unit :=
  if volume_out l <? volume_in l then
    diff ← arith (checked_sub (volume_in l) (volume_out l)) ArithmeticError.Underflow;
    cb_ensure (diff <=? trade_limit l) CbError.TokenInfluxLimitReached
  else mret tt.

Definition check_limits (l : TradeVolumeLimit) : CbM unit :=
  check_outflow_limit l;; check_influx_limit l.

Definition update_amount (l : LiquidityLimit) (liquidity_in : Balance) : CbM LiquidityLimit :=
  v ← arith (checked_add u128 (liquidity l) liquidity_in) ArithmeticError.Overflow;
  mret (mkLiquidityLimit v (liquidity_limit l)).

Definition check_limit (l : LiquidityLimit) : CbM unit :=
  cb_ensure (liquidity l <=? liquidity_limit l) CbError.MaxLiquidityLimitPerBlockReached.

Definition trade_volume_limit_per_asset asset_id s : Z * Z :=
  default (DefaultMaxNetTradeVolumeLimitPerBlock T) (TradeVolumeLimitPerAsset s !! asset_id).
Definition add_liquidity_limit_per_asset asset_id s : option (Z * Z) :=
  default (DefaultMaxAddLiquidityLimitPerBlock T) (LiquidityAddLimitPerAsset s !! asset_id).
Definition remove_liquidity_limit_per_asset asset_id s : option (Z * Z) :=
  default (DefaultMaxRemoveLiquidityLimitPerBlock T) (LiquidityRemoveLimitPerAsset s !! asset_id).

Definition validate_limit (l : Z * Z) : CbM unit :=
  let '(numerator, denominator) := l in
  cb_ensure ((numerator <=? MAX_LIMIT_VALUE) && (denominator <=? MAX_LIMIT_VALUE)) CbError.InvalidLimitValue;;
  cb_ensure (negb (numerator =? 0) && negb (denominator =? 0)) CbError.InvalidLimitValue.

Definition calculate_limit (liquidity : Balance) (l : Z * Z) : CbM Balance :=
  let '(numerator, denominator) := l in
  v ← arith (checked_mul u128 liquidity numerator) ArithmeticError.Overflow;
  arith (checked_div v denominator) ArithmeticError.DivisionByZero.

Definition initialize_trade_limit asset_id (initial_asset_reserve : Balance) : CbM unit :=
  s ← get;
  if negb (asset_id =? OmnipoolHubAsset T)
     && negb (bool_decide (is_Some (AllowedTradeVolumeLimitPerAsset s !! asset_id))) then
    l ← calculate_limit initial_asset_reserve (trade_volume_limit_per_asset asset_id s);
    modify (λ s, set_AllowedTradeVolumeLimitPerAsset
      (<[asset_id := mkTradeVolumeLimit 0 0 l]> (AllowedTradeVolumeLimitPerAsset s)) s)
  else mret tt.

Definition calculate_and_store_liquidity_limits asset_id (initial_liquidity : Balance) : CbM unit :=
  if asset_id =? OmnipoolHubAsset T then mret tt else
  s ← get;
  match add_liquidity_limit_per_asset asset_id s with
  | Some l =>
      if negb (bool_decide (is_Some (AllowedAddLiquidityAmountPerAsset s !! asset_id))) then
        max_limit ← calculate_limit initial_liquidity l;
        modify (λ s, set_AllowedAddLiquidityAmountPerAsset
          (<[asset_id := mkLiquidityLimit 0 max_limit]> (AllowedAddLiquidityAmountPerAsset s)) s)
      else mret tt
  | None => mret tt
  end;;
  s ← get;
  match remove_liquidity_limit_per_asset asset_id s with
  | Some l =>
      if negb (bool_decide (is_Some (AllowedRemoveLiquidityAmountPerAsset s !! asset_id))) then
        max_limit ← calculate_limit initial_liquidity l;
        modify (λ s, set_AllowedRemoveLiquidityAmountPerAsset
          (<[asset_id := mkLiquidityLimit 0 max_limit]> (AllowedRemoveLiquidityAmountPerAsset s)) s)
      else mret tt
  | None => mret tt
  end.

(** One leg of a trade: the stored range of the asset is updated and checked. *)
Definition update_trade_leg asset_id (amount_in amount_out : Balance) : CbM unit :=
  if negb (asset_id =? OmnipoolHubAsset T) then
    s ← get;
    range ← cb_some (AllowedTradeVolumeLimitPerAsset s !! asset_id) CbError.LiquidityLimitNotStoredForAsset;
    range ← update_amounts range amount_in amount_out;
    check_limits range;;
    modify (λ s, set_AllowedTradeVolumeLimitPerAsset
      (<[asset_id := range]> (AllowedTradeVolumeLimitPerAsset s)) s)
  else mret tt.

Definition ensure_and_update_trade_volume_limit (asset_in : AssetId) (amount_in : Balance)
    (asset_out : AssetId) (amount_out : Balance) : CbM unit :=
  update_trade_leg asset_in amount_in 0;;
  update_trade_leg asset_out 0 amount_out.

Definition ensure_and_update_add_liquidity_limit asset_id (added_liquidity : Balance) : CbM unit :=
  s ← get;
  if negb (asset_id =? OmnipoolHubAsset T)
     && bool_decide (is_Some (add_liquidity_limit_per_asset asset_id s)) then
    l ← cb_some (AllowedAddLiquidityAmountPerAsset s !! asset_id) CbError.LiquidityLimitNotStoredForAsset;
    l ← update_amount l added_liquidity;
    check_limit l;;
    modify (λ s, set_AllowedAddLiquidityAmountPerAsset
      (<[asset_id := l]> (AllowedAddLiquidityAmountPerAsset s)) s)
  else mret tt.

Definition ensure_and_update_remove_liquidity_limit asset_id (removed_liquidity : Balance) : CbM unit :=
  s ← get;
  if negb (asset_id =? OmnipoolHubAsset T)
     && bool_decide (is_Some (remove_liquidity_limit_per_asset asset_id s)) then
    l ← cb_some (AllowedRemoveLiquidityAmountPerAsset s !! asset_id) CbError.LiquidityLimitNotStoredForAsset;
    l ← update_amount l removed_liquidity;
    check_limit l;;
    modify (λ s, set_AllowedRemoveLiquidityAmountPerAsset
      (<[asset_id := l]> (AllowedRemoveLiquidityAmountPerAsset s)) s)
  else mret tt.

Definition ensure_pool_state_change_limit (asset_in : AssetId) (asset_in_reserve amount_in : Balance)
    (asset_out : AssetId) (asset_out_reserve amount_out : Balance) : CbM unit :=
  initialize_trade_limit asset_in asset_in_reserve;;
  initialize_trade_limit asset_out asset_out_reserve;;
  ensure_and_update_trade_volume_limit asset_in amount_in asset_out amount_out.

Definition is_origin_whitelisted_or_root (o : RawOrigin AccountId) : CbM bool :=
  who ← lift (ensure_signed_or_root o);
  mret (match who with
        | Some account => if WhitelistedAccounts T account then true else false
        | None => true
        end).

Definition ensure_add_liquidity_limit (o : RawOrigin AccountId) asset_id
    (initial_liquidity added_liquidity : Balance) : CbM unit :=
  is_whitelisted ← is_origin_whitelisted_or_root o;
  if is_whitelisted : bool then mret tt else
  calculate_and_store_liquidity_limits asset_id initial_liquidity;;
  ensure_and_update_add_liquidity_limit asset_id added_liquidity.

Definition ensure_remove_liquidity_limit (o : RawOrigin AccountId) asset_id
    (initial_liquidity removed_liquidity : Balance) : CbM unit :=
  is_whitelisted ← is_origin_whitelisted_or_root o;
  if is_whitelisted : bool then mret tt else
  calculate_and_store_liquidity_limits asset_id initial_liquidity;;
  ensure_and_update_remove_liquidity_limit asset_id removed_liquidity.

(** ** The global withdraw limit *)

Definition is_lockdown_at (target : Moment) s : bool :=
  match WithdrawLockdownUntil s with Some u => target <? u | None => false end.

Definition try_to_decay_withdraw_limit_accumulator s : breaker :=
  match GlobalWithdrawLimitConfig s with
  | None => s
  | Some params =>
      if window params <? 1 then s else
      let now := timestamp s in
      let '(current, last_update) := WithdrawLimitAccumulator s in
      let time_diff := saturating_sub now last_update in
      if negb (time_diff =? 0) && negb (is_lockdown_at now s) then
        let capped_dt := Z.min time_diff (window params) in
        let p := perbill_from_rational capped_dt (window params) in
        let decay := perbill_mul_floor p current in
        let new_current := saturating_sub current decay in
        set_WithdrawLimitAccumulator (new_current, now) s
      else s
  end.

Definition note_egress (amount : Balance) : CbM unit :=
  s ← get;
  match GlobalWithdrawLimitConfig s with
  | None => mret tt
  | Some params =>
      let now := timestamp s in
      cb_ensure (negb (is_lockdown_at now s)) CbError.WithdrawLockdownActive;;
      modify try_to_decay_withdraw_limit_accumulator;;
      if window params <? 1 then mret tt else
      s ← get;
      let '(current, _) := WithdrawLimitAccumulator s in
      new_current ← arith (checked_add u128 current amount) ArithmeticError.Overflow;
      cb_ensure (new_current <? limit params) CbError.GlobalWithdrawLimitExceeded;;
      modify (set_WithdrawLimitAccumulator (new_current, now))
  end.

Definition ensure_xcm_withdraw_can_proceed (amount buffered_egress : Balance) : CbM unit :=
  s ← get;
  match GlobalWithdrawLimitConfig s with
  | None => mret tt
  | Some params =>
      let now := timestamp s in
      cb_ensure (negb (is_lockdown_at now s)) CbError.WithdrawLockdownActive;;
      modify try_to_decay_withdraw_limit_accumulator;;
      if window params <? 1 then mret tt else
      s ← get;
      let '(current, _) := WithdrawLimitAccumulator s in
      projected ← arith (v ← checked_add u128 current buffered_egress; checked_add u128 v amount)
        ArithmeticError.Overflow;
      cb_ensure (projected <? limit params) CbError.GlobalWithdrawLimitExceeded
  end.

Definition note_deposit (amount : Balance) s : breaker :=
  let now := timestamp s in
  if negb (is_lockdown_at now s) then
    let s := try_to_decay_withdraw_limit_accumulator s in
    let '(current, _) := WithdrawLimitAccumulator s in
    let new_current := saturating_sub current amount in
    set_WithdrawLimitAccumulator (new_current, now) s
  else s.

(** ** Lockdown of assets *)

Definition do_reset_deposit_limits asset_id (extra_amount : Balance) : CbM unit :=
  modify (λ s, set_AssetLockdownState
    (<[asset_id := Unlocked (block_number s)
         (saturating_sub (Issuance T asset_id (cb_ext s)) extra_amount)]> (AssetLockdownState s)) s).

Definition do_lockdown_asset asset_id (until : Z) : CbM unit :=
  modify (λ s, set_AssetLockdownState (<[asset_id := Locked until]> (AssetLockdownState s)) s);;
  modify (λ s, set_cb_ext (OnLimitReached T asset_id (cb_ext s)) s);;
  cb_deposit_event (AssetLockdown asset_id until).

Definition do_lift_lockdown asset_id (extra_amount : Balance) : CbM unit :=
  do_reset_deposit_limits asset_id extra_amount;;
  cb_deposit_event (AssetLockdownRemoved asset_id).

Definition do_lock_deposit who asset_id (amount : Balance) : CbM unit :=
  cb_ensure (negb (DepositLockWhitelist T who)) CbError.DepositLimitExceededForWhitelistedAccount;;
  cb_call (OnLockdownDeposit T asset_id who amount).

(** ** The issuance fuse ([fuses/issuance.rs]) *)

Inductive DepositAction :=
| InitialDeposit
| LockdownActive
| LockdownExpired
| PeriodExpired
| WithinPeriod (last_issuance : Balance).

Record DepositContext := mkContext {
  action : DepositAction;
  context_limit : Balance;
  lockdown_until : Z;
  asset_issuance : Balance;
}.

Definition classify_state (state : option LockdownStatus) (current_block period : Z) : DepositAction :=
  match state with
  | None => InitialDeposit
  | Some (Locked until) => if current_block <? until then LockdownActive else LockdownExpired
  | Some (Unlocked last_reset_at last_issuance) =>
      if saturating_add u32 last_reset_at (saturated_into u32 period) <=? current_block
      then PeriodExpired else WithinPeriod last_issuance
  end.

Definition get_context asset_id s : option DepositContext :=
  if Period T =? 0 then None else
  l ← DepositLimit T asset_id (cb_ext s);
  let current_block := block_number s in
  let lockdown_until := saturating_add u32 current_block (saturated_into u32 (Period T)) in
  let asset_issuance := Issuance T asset_id (cb_ext s) in
  let action := classify_state (AssetLockdownState s !! asset_id) current_block (Period T) in
  Some (mkContext action l lockdown_until asset_issuance).

Definition can_mint asset_id (amount : Balance) s : bool :=
  match get_context asset_id s with
  | None => true
  | Some context =>
      match action context with
      | LockdownActive => false
      | InitialDeposit | LockdownExpired | PeriodExpired => amount <=? context_limit context
      | WithinPeriod last_issuance =>
          let issuance_increase_in_period := saturating_sub (asset_issuance context) last_issuance in
          saturating_add u128 issuance_increase_in_period amount <=? context_limit context
      end
  end.

Definition handle_limit_reset (context : DepositContext) who asset_id (amount : Balance) : CbM unit :=
  if context_limit context <? amount then
    let to_lock := saturating_sub amount (context_limit context) in
    do_lock_deposit who asset_id to_lock;;
    do_lockdown_asset asset_id (lockdown_until context)
  else do_reset_deposit_limits asset_id amount.

Definition handle_lockdown_expired (context : DepositContext) who asset_id (amount : Balance) : CbM unit :=
  if context_limit context <? amount then
    let to_lock := saturating_sub amount (context_limit context) in
    do_lock_deposit who asset_id to_lock;;
    do_lockdown_asset asset_id (lockdown_until context)
  else do_lift_lockdown asset_id amount.

Definition handle_within_period (context : DepositContext) who asset_id (_amount last_issuance : Balance) :
    CbM unit :=
  let issuance_increase_in_period := saturating_sub (asset_issuance context) last_issuance in
  if context_limit context <? issuance_increase_in_period then
    let to_lock := saturating_sub (asset_issuance context)
      (saturating_add u128 last_issuance (context_limit context)) in
    do_lock_deposit who asset_id to_lock;;
    do_lockdown_asset asset_id (lockdown_until context)
  else mret tt.

Definition process_deposit_action (context : DepositContext) who asset_id (amount : Balance) : CbM unit :=
  match action context with
  | InitialDeposit | PeriodExpired => handle_limit_reset context who asset_id amount
  | LockdownExpired => handle_lockdown_expired context who asset_id amount
  | LockdownActive => do_lock_deposit who asset_id amount
  | WithinPeriod last_issuance => handle_within_period context who asset_id amount last_issuance
  end.

Definition on_deposit asset_id who (amount : Balance) : CbM unit :=
  s ← get;
  match get_context asset_id s with
  | None => mret tt
  | Some context => process_deposit_action context who asset_id amount
  end.

(** ** Dispatchables and hooks *)

Definition set_trade_volume_limit (o : RawOrigin AccountId) asset_id (trade_volume_limit : Z * Z) : CbM unit :=
  ensure_authority o;;
  cb_ensure (negb (asset_id =? OmnipoolHubAsset T)) CbError.NotAllowed;;
  validate_limit trade_volume_limit;;
  modify (λ s, set_TradeVolumeLimitPerAsset
    (<[asset_id := trade_volume_limit]> (TradeVolumeLimitPerAsset s)) s);;
  cb_deposit_event (TradeVolumeLimitChanged asset_id trade_volume_limit).

Definition validate_optional (l : option (Z * Z)) : CbM unit :=
  match l with Some l => validate_limit l | None => mret tt end.

Definition set_add_liquidity_limit (o : RawOrigin AccountId) asset_id (l : option (Z * Z)) : CbM unit :=
  ensure_authority o;;
  cb_ensure (negb (asset_id =? OmnipoolHubAsset T)) CbError.NotAllowed;;
  validate_optional l;;
  modify (λ s, set_LiquidityAddLimitPerAsset (<[asset_id := l]> (LiquidityAddLimitPerAsset s)) s);;
  cb_deposit_event (AddLiquidityLimitChanged asset_id l).

Definition set_remove_liquidity_limit (o : RawOrigin AccountId) asset_id (l : option (Z * Z)) : CbM unit :=
  ensure_authority o;;
  cb_ensure (negb (asset_id =? OmnipoolHubAsset T)) CbError.NotAllowed;;
  validate_optional l;;
  modify (λ s, set_LiquidityRemoveLimitPerAsset (<[asset_id := l]> (LiquidityRemoveLimitPerAsset s)) s);;
  cb_deposit_event (RemoveLiquidityLimitChanged asset_id l).

Definition lockdown_asset (o : RawOrigin AccountId) asset_id (until : Z) : CbM unit :=
  ensure_authority o;; do_lockdown_asset asset_id until.

Definition force_lift_lockdown (o : RawOrigin AccountId) asset_id : CbM unit :=
  ensure_authority o;;
  s ← get;
  last_state ← cb_some (AssetLockdownState s !! asset_id) CbError.AssetNotInLockdown;
  cb_ensure (match last_state with Locked _ => true | Unlocked _ _ => false end) CbError.AssetNotInLockdown;;
  do_lift_lockdown asset_id 0.

Definition release_deposit (o : RawOrigin AccountId) who asset_id : CbM unit :=
  match ensure_signed_or_root (E := CbError.t) o with
  | Ok _ => mret tt
  | Err _ => ensure_authority o
  end;;
  s ← get;
  cb_ensure (match AssetLockdownState s !! asset_id with
             | Some (Locked until) => negb (block_number s <? until)
             | _ => true
             end) CbError.AssetInLockdown;;
  cb_call (OnDepositRelease T asset_id who);;
  cb_deposit_event (DepositReleased who asset_id).

Definition set_global_withdraw_limit_params (o : RawOrigin AccountId)
    (parameters : GlobalWithdrawLimitParameters) : CbM unit :=
  ensure_authority o;;
  modify (set_GlobalWithdrawLimitConfig (Some parameters));;
  cb_deposit_event (WithdrawLimitConfigUpdated (limit parameters) (window parameters)).

Definition reset_withdraw_lockdown (o : RawOrigin AccountId) : CbM unit :=
  ensure_authority o;;
  modify (λ s, set_WithdrawLimitAccumulator (0, timestamp s) s);;
  modify (set_WithdrawLockdownUntil None);;
  cb_deposit_event WithdrawLockdownReset.

Definition add_egress_accounts (o : RawOrigin AccountId) (accounts : list AccountId) : CbM unit :=
  ensure_authority o;;
  modify (λ s, set_EgressAccounts (EgressAccounts s ∪ list_to_set accounts) s);;
  cb_deposit_event (EgressAccountsAdded (Z.of_nat (length accounts))).

Definition remove_egress_accounts (o : RawOrigin AccountId) (accounts : list AccountId) : CbM unit :=
  ensure_authority o;;
  modify (λ s, set_EgressAccounts (EgressAccounts s ∖ list_to_set accounts) s);;
  cb_deposit_event (EgressAccountsRemoved (Z.of_nat (length accounts))).

Definition set_global_withdraw_lockdown (o : RawOrigin AccountId) (until : Moment) : CbM unit :=
  ensure_authority o;;
  modify (set_WithdrawLockdownUntil (Some until));;
  cb_deposit_event (WithdrawLockdownTriggered until).

Definition set_asset_category (o : RawOrigin AccountId) asset_id (category : option GlobalAssetCategory) :
    CbM unit :=
  ensure_authority o;;
  modify (λ s, set_GlobalAssetOverrides
    (match category with
     | Some cat => <[asset_id := cat]> (GlobalAssetOverrides s)
     | None => delete asset_id (GlobalAssetOverrides s)
     end) s);;
  cb_deposit_event (AssetCategoryUpdated asset_id category).

Definition on_initialize s : breaker :=
  match WithdrawLockdownUntil s with
  | Some until =>
      if until <=? timestamp s then
        let s := set_WithdrawLockdownUntil None s in
        set_cb_events (cb_events s ++ [WithdrawLockdownLifted]) s
      else s
  | None => s
  end.

Definition on_finalize s : breaker :=
  let s := set_AllowedTradeVolumeLimitPerAsset ∅ s in
  let s := set_AllowedAddLiquidityAmountPerAsset ∅ s in
  let s := set_AllowedRemoveLiquidityAmountPerAsset ∅ s in
  let s := set_IgnoreWithdrawLimit false s in
  set_XcmEgressBuffer None s.

(** ** Trades of a block

    The calls of [ensure_pool_state_change_limit] that succeeded in a block,
    in order. *)

Record PoolTrade := mkTrade {
  t_asset_in : AssetId; t_reserve_in : Balance; t_amount_in : Balance;
  t_asset_out : AssetId; t_reserve_out : Balance; t_amount_out : Balance;
}.

Definition guard_trade (t : PoolTrade) : CbM unit :=
  ensure_pool_state_change_limit (t_asset_in t) (t_reserve_in t) (t_amount_in t)
    (t_asset_out t) (t_reserve_out t) (t_amount_out t).

Fixpoint guard_trades (ts : list PoolTrade) : CbM unit :=
  match ts with
  | [] => mret tt
  | t :: ts => guard_trade t;; guard_trades ts
  end.

(** What a trade, and a list of trades, add to the reserve of an asset. *)
Definition flow (a : AssetId) (t : PoolTrade) : Z :=
  (if t_asset_in t =? a then t_amount_in t else 0) - (if t_asset_out t =? a then t_amount_out t else 0).
Fixpoint net_flow (a : AssetId) (ts : list PoolTrade) : Z :=
  match ts with [] => 0 | t :: ts => flow a t + net_flow a ts end.

(** The reserve of the asset when it was first traded. *)
Fixpoint opening_reserve (a : AssetId) (ts : list PoolTrade) : option Balance :=
  match ts with
  | [] => None
  | t :: ts =>
      if t_asset_in t =? a then Some (t_reserve_in t)
      else if t_asset_out t =? a then Some (t_reserve_out t)
      else opening_reserve a ts
  end.

(** ** Histories of the withdraw limit

    [egress_step s d s'] is a change of the state by one call or hook that
    leaves the configuration of the withdraw limit and its accumulator to the
    accounting; [d] is the value, in the reference currency, that leaves the
    chain (negative for a deposit). *)

Inductive egress_step : breaker → Z → breaker → Prop :=
| step_note_egress s s' amount :
    0 <= amount → note_egress amount s = Ok (tt, s') → egress_step s amount s'
| step_note_deposit s amount :
    0 <= amount → egress_step s (- amount) (note_deposit amount s)
| step_xcm_check s s' amount buffered :
    ensure_xcm_withdraw_can_proceed amount buffered s = Ok (tt, s') → egress_step s 0 s'
| step_new_block s n now :
    timestamp s <= now → egress_step s 0 (set_timestamp now (set_block_number n s))
| step_on_initialize s : egress_step s 0 (on_initialize s)
| step_on_finalize s : egress_step s 0 (on_finalize s)
| step_lockdown s s' o until :
    set_global_withdraw_lockdown o until s = Ok (tt, s') → egress_step s 0 s'
| step_add_egress_accounts s s' o accounts :
    add_egress_accounts o accounts s = Ok (tt, s') → egress_step s 0 s'
| step_remove_egress_accounts s s' o accounts :
    remove_egress_accounts o accounts s = Ok (tt, s') → egress_step s 0 s'
| step_set_asset_category s s' o a c :
    set_asset_category o a c s = Ok (tt, s') → egress_step s 0 s'
| step_set_trade_volume_limit s s' o a l :
    set_trade_volume_limit o a l s = Ok (tt, s') → egress_step s 0 s'
| step_set_add_liquidity_limit s s' o a l :
    set_add_liquidity_limit o a l s = Ok (tt, s') → egress_step s 0 s'
| step_set_remove_liquidity_limit s s' o a l :
    set_remove_liquidity_limit o a l s = Ok (tt, s') → egress_step s 0 s'
| step_lockdown_asset s s' o a until :
    lockdown_asset o a until s = Ok (tt, s') → egress_step s 0 s'
| step_force_lift_lockdown s s' o a :
    force_lift_lockdown o a s = Ok (tt, s') → egress_step s 0 s'
| step_release_deposit s s' o who a :
    release_deposit o who a s = Ok (tt, s') → egress_step s 0 s'
| step_on_deposit s s' a who amount :
    on_deposit a who amount s = Ok (tt, s') → egress_step s 0 s'
| step_guard_trade s s' t :
    guard_trade t s = Ok (tt, s') → egress_step s 0 s'
| step_add_liquidity s s' o a initial added :
    ensure_add_liquidity_limit o a initial added s = Ok (tt, s') → egress_step s 0 s'
| step_remove_liquidity s s' o a initial removed :
    ensure_remove_liquidity_limit o a initial removed s = Ok (tt, s') → egress_step s 0 s'.

Inductive egress_history : breaker → Z → breaker → Prop :=
| history_nil s : egress_history s 0 s
| history_step s1 d s2 e s3 :
    egress_step s1 d s2 → egress_history s2 e s3 → egress_history s1 (d + e) s3.

(** ** The trade volume of a block stays within its limit *)

Notation entry s a := (AllowedTradeVolumeLimitPerAsset s !! a).
Notation rates s := (TradeVolumeLimitPerAsset s).

Definition net_volume (l : TradeVolumeLimit) : Z := volume_in l - volume_out l.

(** The limit an asset with the given reserve gets in a block. *)
Definition block_limit (a : AssetId) (reserve : Balance) s : Z :=
  let '(n, d) := trade_volume_limit_per_asset a s in reserve * n / d.

(** The entry a trade of the asset finds: the stored one, or a fresh one. *)
Definition opened s (a : AssetId) (reserve : Balance) (l : TradeVolumeLimit) : Prop :=
  entry s a = Some l ∨ entry s a = None ∧ l = mkTradeVolumeLimit 0 0 (block_limit a reserve s).

(** A later entry of the same asset: [d] was added to the net volume, which was
    checked against the same limit. *)
Definition moved (d : Z) (l l' : TradeVolumeLimit) : Prop :=
  net_volume l' = net_volume l + d ∧ trade_limit l' = trade_limit l ∧
  (0 <= trade_limit l → Z.abs (net_volume l') <= trade_limit l).

Lemma check_limits_Ok l s u s' :
  check_limits l s = Ok (u, s') → s' = s ∧ (0 <= trade_limit l → Z.abs (net_volume l) <= trade_limit l).
Proof.
  unfold check_limits, check_outflow_limit, check_influx_limit, arith, cb_ensure, net_volume.
  intros Hr. inv_cases; propify; split; done || lia.
Qed.

Lemma initialize_trade_limit_Ok b r s s' :
  initialize_trade_limit b r s = Ok (tt, s') →
  rates s' = rates s ∧ (∀ a, a ≠ b → entry s' a = entry s a) ∧
  (b ≠ OmnipoolHubAsset T → ∃ l, opened s b r l ∧ entry s' b = Some l).
Proof.
  unfold initialize_trade_limit, calculate_limit, arith, opened, block_limit. intros Hr.
  inv_cases; propify.
  - match goal with H : ¬ is_Some _ |- _ => apply eq_None_not_Some in H as Hnone end. simpl.
    split_and!; [done|intros; by rewrite lookup_insert_ne|].
    intros _. eexists. split; [by right|by rewrite lookup_insert_eq].
  - split_and!; [done..|]. intros ?. destruct (entry s b) as [l|] eqn:E; [by eauto|].
    match goal with H : _ ∨ _ |- _ => destruct H end; propify; [done|].
    match goal with H : is_Some _ |- _ => by apply is_Some_None in H end.
Qed.

Lemma update_trade_leg_Ok b i o s s' :
  update_trade_leg b i o s = Ok (tt, s') →
  rates s' = rates s ∧ (∀ a, a ≠ b → entry s' a = entry s a) ∧
  (b ≠ OmnipoolHubAsset T → ∃ l l', entry s b = Some l ∧ entry s' b = Some l' ∧ moved (i - o) l l').
Proof.
  unfold update_trade_leg, update_amounts, arith, cb_some. intros Hr. inv_cases; propify; [|naive_solver].
  match goal with H : check_limits _ _ = _ |- _ => apply check_limits_Ok in H as [-> Hl] end.
  simpl. split_and!; [done|intros; by rewrite lookup_insert_ne|]. intros _.
  eexists _, _. split_and!; [done|by rewrite lookup_insert_eq|].
  split_and!; [unfold net_volume; simpl; lia|done|done].
Qed.

Lemma moved_trans d e l l' l'' : moved d l l' → moved e l' l'' → moved (d + e) l l''.
Proof. intros (? & El & ?) (? & ? & ?). rewrite El in *. split_and!; [lia|congruence|done]. Qed.

Lemma opened_found s a r l l' : entry s a = Some l → opened s a r l' → l' = l.
Proof. intros E [E'|[E' _]]; rewrite E in E'; by simplify_eq. Qed.

Lemma opened_frame s s' a r l :
  rates s' = rates s → entry s' a = entry s a → opened s' a r l → opened s a r l.
Proof. unfold opened, block_limit, trade_volume_limit_per_asset. by intros -> ->. Qed.

(** The effect of one guarded trade on the entry of an asset. *)
Lemma guard_trade_Ok t s s' a :
  guard_trade t s = Ok (tt, s') → a ≠ OmnipoolHubAsset T →
  rates s' = rates s ∧
  match opening_reserve a [t] with
  | Some r => ∃ l l', opened s a r l ∧ entry s' a = Some l' ∧ moved (flow a t) l l'
  | None => entry s' a = entry s a ∧ flow a t = 0
  end.
Proof.
  unfold guard_trade, ensure_pool_state_change_limit, ensure_and_update_trade_volume_limit.
  destruct t as [ai ri xi ao ro xo]; unfold flow; simpl. intros Hr Ha.
  apply M_bind_Ok in Hr as ([] & s1 & (R1 & F1 & I1)%initialize_trade_limit_Ok & Hr).
  apply M_bind_Ok in Hr as ([] & s2 & (R2 & F2 & I2)%initialize_trade_limit_Ok & Hr).
  apply M_bind_Ok in Hr as ([] & s3 & (R3 & F3 & I3)%update_trade_leg_Ok & Hr).
  apply update_trade_leg_Ok in Hr as (R4 & F4 & I4). split; [congruence|].
  destruct (Z.eqb_spec ai a) as [->|Hi], (Z.eqb_spec ao a) as [->|Ho].
  - destruct (I1 Ha) as (l1 & O1 & E1), (I2 Ha) as (l2 & O2 & E2).
    destruct (I3 Ha) as (l2' & l3 & E2' & E3 & M3), (I4 Ha) as (l3' & l4 & E3' & E4 & M4).
    pose proof (opened_found _ _ _ _ _ E1 O2). simplify_eq. exists l1, l4.
    split_and!; [done..|]. replace (xi - xo) with ((xi - 0) + (0 - xo)) by lia.
    by eapply moved_trans.
  - destruct (I1 Ha) as (l1 & O1 & E1), (I3 Ha) as (l2 & l3 & E2 & E3 & M3).
    rewrite F2 in E2 by congruence. simplify_eq. exists l1, l3.
    split_and!; [done|by rewrite F4 by congruence|done].
  - destruct (I2 Ha) as (l1 & O1 & E1), (I4 Ha) as (l2 & l3 & E2 & E3 & M3).
    rewrite F3 in E2 by congruence. simplify_eq. exists l1, l3.
    split_and!; [|done..]. eapply opened_frame; [exact R1|apply F1; congruence|done].
  - by rewrite F4, F3, F2, F1 by congruence.
Qed.

Lemma guard_trades_Ok ts s s' a :
  guard_trades ts s = Ok (tt, s') → a ≠ OmnipoolHubAsset T →
  rates s' = rates s ∧
  match opening_reserve a ts with
  | Some r => ∃ l l', opened s a r l ∧ entry s' a = Some l' ∧ moved (net_flow a ts) l l'
  | None => entry s' a = entry s a ∧ net_flow a ts = 0
  end.
Proof.
  revert s. induction ts as [|t ts IH]; intros s Hr Ha; simpl in Hr.
  { by inv_run. }
  apply M_bind_Ok in Hr as ([] & s1 & Ht & Hr).
  destruct (guard_trade_Ok _ _ _ _ Ht Ha) as [R1 Ht'], (IH s1 Hr Ha) as [R2 IH'].
  split; [congruence|].
  assert (opening_reserve a (t :: ts) =
    match opening_reserve a [t] with Some r => Some r | None => opening_reserve a ts end) as ->
    by (simpl; by repeat case_match).
  simpl net_flow. destruct (opening_reserve a [t]) as [r|].
  - destruct Ht' as (l & l1 & O & E1 & M1). destruct (opening_reserve a ts) as [r'|].
    + destruct IH' as (l1' & l2 & O1 & E2 & M2). rewrite (opened_found _ _ _ _ _ E1 O1) in M2.
      exists l, l2. split_and!; [done..|by eapply moved_trans].
    + destruct IH' as [E2 ->]. exists l, l1. rewrite Z.add_0_r. split_and!; [done|congruence|done].
  - destruct Ht' as [E1 ->]. destruct (opening_reserve a ts) as [r'|].
    + destruct IH' as (l & l' & O & ? & ?). exists l, l'. split_and!; [|done..].
      by eapply opened_frame.
    + destruct IH' as [? ->]. split; [congruence|done].
Qed.

(** The rates governance set are fractions of natural numbers. *)
Definition rate_ok (r : Z * Z) : Prop := 0 <= r.1 ∧ 0 <= r.2.

(** C34: in a block, which starts with the volumes cleared by [on_finalize], any
    sequence of trades that pass [ensure_pool_state_change_limit] leaves the net
    flow of every asset but the hub asset, in absolute value, within the
    configured fraction of the reserve the asset had at its first trade of the
    block, and the stored entry records exactly that limit and that net flow. *)
Theorem trade_volume_within_limit ts s s' a r :
  guard_trades ts (on_finalize s) = Ok (tt, s') → a ≠ OmnipoolHubAsset T →
  opening_reserve a ts = Some r → 0 <= r → rate_ok (trade_volume_limit_per_asset a s) →
  Z.abs (net_flow a ts) <= block_limit a r s ∧
  ∃ l, entry s' a = Some l ∧ net_volume l = net_flow a ts ∧ trade_limit l = block_limit a r s.
Proof.
  intros Hr Ha Ho Hp Hrate.
  destruct (guard_trades_Ok _ _ _ _ Hr Ha) as [_ Ht]. rewrite Ho in Ht.
  destruct Ht as (l & l' & [E|[_ ->]] & E' & HM & HL & HB); [done|]. simpl in *.
  assert (Hpos : 0 <= block_limit a r s).
  { unfold block_limit. destruct (trade_volume_limit_per_asset a s), Hrate. simpl in *.
    auto with nonneg. }
  change (block_limit a r (on_finalize s)) with (block_limit a r s) in *.
  specialize (HB Hpos). unfold net_volume in HM at 2. simpl in HM. rewrite HM, Z.add_0_l in HB.
  split; [exact HB|]. exists l'. split_and!; [done|by rewrite HM|done].
Qed.

(** ** The rate of egress is bounded *)

(** Calls that have nothing to do with the accumulator leave it alone. *)
Definition egress_frame s s' : Prop :=
  GlobalWithdrawLimitConfig s' = GlobalWithdrawLimitConfig s ∧
  WithdrawLimitAccumulator s' = WithdrawLimitAccumulator s ∧ timestamp s' = timestamp s.

Lemma egress_frame_refl s : egress_frame s s.
Proof. done. Qed.
Lemma egress_frame_trans s1 s2 s3 : egress_frame s1 s2 → egress_frame s2 s3 → egress_frame s1 s3.
Proof. unfold egress_frame. intuition congruence. Qed.

Create HintDb egress.
Definition keeps_egress {A} (m : CbM A) : Prop := ∀ s a s', m s = Ok (a, s') → egress_frame s s'.

Lemma keeps_egress_ret {A} (a : A) : keeps_egress (mret a).
Proof. intros s b s' Hr. inv_run. apply egress_frame_refl. Qed.
Lemma keeps_egress_get : keeps_egress get.
Proof. intros s b s' Hr. inv_run. apply egress_frame_refl. Qed.
Lemma keeps_egress_lift {A} (r : result _ A) : keeps_egress (lift r).
Proof. intros s b s' Hr. inv_run. apply egress_frame_refl. Qed.
Lemma keeps_egress_modify f : (∀ s, egress_frame s (f s)) → keeps_egress (modify f).
Proof. intros Hf s b s' Hr. inv_run. apply Hf. Qed.
Lemma keeps_egress_call f : keeps_egress (cb_call f).
Proof. intros s b s' Hr. unfold cb_call in Hr. inv_ext. done. Qed.
Lemma keeps_egress_bind {A B} (m : CbM A) (k : A → CbM B) :
  keeps_egress m → (∀ a, keeps_egress (k a)) → keeps_egress (a ← m; k a).
Proof.
  intros Hm Hk s b s' Hr. inv_run. eapply egress_frame_trans; [by eapply Hm|by eapply Hk].
Qed.

Ltac keep_egress :=
  repeat (intros; first
    [ apply keeps_egress_bind | apply keeps_egress_ret | apply keeps_egress_get
    | apply keeps_egress_lift | apply keeps_egress_call | (apply keeps_egress_modify; intros ?; by split_and!)
    | progress case_match ]).

Lemma on_deposit_keeps a who amount : keeps_egress (on_deposit a who amount).
Proof.
  unfold on_deposit, process_deposit_action, handle_limit_reset, handle_lockdown_expired,
    handle_within_period, do_lift_lockdown, do_lock_deposit, do_lockdown_asset,
    do_reset_deposit_limits, cb_deposit_event, cb_ensure, ensureM.
  keep_egress.
Qed.

Lemma update_trade_leg_keeps a i o : keeps_egress (update_trade_leg a i o).
Proof.
  unfold update_trade_leg, update_amounts, check_limits, check_outflow_limit, check_influx_limit,
    cb_some, arith, cb_ensure, ensureM. keep_egress.
Qed.
Lemma initialize_trade_limit_keeps a r : keeps_egress (initialize_trade_limit a r).
Proof. unfold initialize_trade_limit, calculate_limit, arith. keep_egress. Qed.

Lemma guard_trade_keeps t : keeps_egress (guard_trade t).
Proof.
  unfold guard_trade, ensure_pool_state_change_limit, ensure_and_update_trade_volume_limit.
  repeat (intros; first [ apply update_trade_leg_keeps | apply initialize_trade_limit_keeps
    | apply keeps_egress_bind ]).
Qed.

Ltac keep_call :=
  unfold is_origin_whitelisted_or_root, calculate_and_store_liquidity_limits,
    ensure_and_update_add_liquidity_limit, ensure_and_update_remove_liquidity_limit, calculate_limit,
    update_amount, check_limit, validate_optional, validate_limit, do_lift_lockdown,
    do_lockdown_asset, do_reset_deposit_limits, ensure_authority, cb_some, arith, cb_deposit_event,
    cb_ensure, ensureM;
  keep_egress.

Lemma ensure_add_liquidity_limit_keeps o a initial x : keeps_egress (ensure_add_liquidity_limit o a initial x).
Proof. unfold ensure_add_liquidity_limit. keep_call. Qed.
Lemma ensure_remove_liquidity_limit_keeps o a initial x : keeps_egress (ensure_remove_liquidity_limit o a initial x).
Proof. unfold ensure_remove_liquidity_limit. keep_call. Qed.
Lemma set_trade_volume_limit_keeps o a l : keeps_egress (set_trade_volume_limit o a l).
Proof. unfold set_trade_volume_limit. keep_call. Qed.
Lemma set_add_liquidity_limit_keeps o a l : keeps_egress (set_add_liquidity_limit o a l).
Proof. unfold set_add_liquidity_limit. keep_call. Qed.
Lemma set_remove_liquidity_limit_keeps o a l : keeps_egress (set_remove_liquidity_limit o a l).
Proof. unfold set_remove_liquidity_limit. keep_call. Qed.
Lemma lockdown_asset_keeps o a until : keeps_egress (lockdown_asset o a until).
Proof. unfold lockdown_asset. keep_call. Qed.
Lemma force_lift_lockdown_keeps o a : keeps_egress (force_lift_lockdown o a).
Proof. unfold force_lift_lockdown. keep_call. Qed.
Lemma release_deposit_keeps o who a : keeps_egress (release_deposit o who a).
Proof. unfold release_deposit. keep_call. Qed.
Lemma add_egress_accounts_keeps o accounts : keeps_egress (add_egress_accounts o accounts).
Proof. unfold add_egress_accounts. keep_call. Qed.
Lemma remove_egress_accounts_keeps o accounts : keeps_egress (remove_egress_accounts o accounts).
Proof. unfold remove_egress_accounts. keep_call. Qed.
Lemma set_asset_category_keeps o a c : keeps_egress (set_asset_category o a c).
Proof. unfold set_asset_category. keep_call. Qed.
Lemma set_global_withdraw_lockdown_keeps o until : keeps_egress (set_global_withdraw_lockdown o until).
Proof. unfold set_global_withdraw_lockdown. keep_call. Qed.
#[local] Hint Resolve on_deposit_keeps guard_trade_keeps
  ensure_add_liquidity_limit_keeps ensure_remove_liquidity_limit_keeps
  set_trade_volume_limit_keeps set_add_liquidity_limit_keeps
  set_remove_liquidity_limit_keeps lockdown_asset_keeps
  force_lift_lockdown_keeps release_deposit_keeps
  add_egress_accounts_keeps remove_egress_accounts_keeps
  set_asset_category_keeps set_global_withdraw_lockdown_keeps : egress.

Section rate.
Context `{!SpArithmeticLaws} (L W : Z) (HW : 1 <= W <= PERBILL) (HL : fits u128 L).

(** The accumulator is within the limit, and the clock has not run back. *)
Definition egress_ok s : Prop :=
  GlobalWithdrawLimitConfig s = Some (mkWithdrawLimit L W) ∧
  0 <= (WithdrawLimitAccumulator s).1 <= L ∧ (WithdrawLimitAccumulator s).2 <= timestamp s.

(** The accumulator less the decay that is due, in units of [1 / W]. *)
Definition pending s : Z :=
  let '(current, last) := WithdrawLimitAccumulator s in
  current * (W - Z.min (timestamp s - last) W).

Lemma decay_bound current dt :
  0 <= current <= L → 0 <= dt →
  let decay := perbill_mul_floor (perbill_from_rational (Z.min dt W) W) current in
  0 <= decay <= current ∧ W * decay <= current * Z.min dt W.
Proof.
  intros Hc Hdt. set (m := Z.min dt W).
  assert (Hm : 0 <= m <= W) by (unfold m; lia).
  assert (Hf : fits u128 current) by (unfold fits in *; lia).
  pose proof (perbill_from_rational_wf m W Hm ltac:(lia)) as Hp.
  split; [by apply perbill_mul_floor_bounds|].
  rewrite perbill_mul_floor_spec by done. rewrite perbill_from_rational_spec in * by lia.
  pose proof (div_bounds (m * PERBILL) W ltac:(lia)) as [B1 _].
  set (p := m * PERBILL / W) in *.
  pose proof (div_bounds (p * current) PERBILL ltac:(unfold PERBILL; lia)) as [B2 _].
  set (d := p * current / PERBILL) in *.
  apply (Zmult_le_reg_r _ _ PERBILL); [unfold PERBILL; lia|].
  assert (W * p * current <= m * PERBILL * current) by (apply Z.mul_le_mono_nonneg_r; lia).
  assert (W * (PERBILL * d) <= W * (p * current)) by (apply Z.mul_le_mono_nonneg_l; lia).
  nia.
Qed.

(** Decay keeps the invariant and never lowers the pending amount. *)
Lemma decay_ok s : egress_ok s →
  let s' := try_to_decay_withdraw_limit_accumulator s in
  egress_ok s' ∧ timestamp s' = timestamp s ∧ pending s <= pending s' ∧
  (is_lockdown_at (timestamp s) s = false → (WithdrawLimitAccumulator s').2 = timestamp s).
Proof.
  intros Hok. pose proof Hok as (Hc & Ha & Ht).
  unfold try_to_decay_withdraw_limit_accumulator. rewrite Hc. simpl.
  destruct (Z.ltb_spec W 1); [lia|].
  destruct (WithdrawLimitAccumulator s) as [current last] eqn:EA. simpl in Ha, Ht.
  replace (saturating_sub (timestamp s) last) with (timestamp s - last)
    by (unfold saturating_sub; lia).
  destruct (Z.eqb_spec (timestamp s - last) 0); simpl.
  { split_and!; [done|done|lia|]. rewrite EA. simpl. lia. }
  destruct (is_lockdown_at _ _); simpl; [split_and!; done || lia|].
  destruct (decay_bound current (timestamp s - last)) as [Hd HWd]; [done|lia|].
  unfold saturating_sub. rewrite Z.max_r by lia.
  set (d := perbill_mul_floor _ _) in *. split_and!; [|done| |done].
  - split_and!; [done|simpl; lia..].
  - unfold pending. rewrite EA. simpl. rewrite Z.sub_diag, (Z.min_l 0) by lia. lia.
Qed.

(** Without a delay since the last update nothing is pending. *)
Lemma pending_fresh s : (WithdrawLimitAccumulator s).2 = timestamp s →
  pending s = W * (WithdrawLimitAccumulator s).1.
Proof.
  unfold pending. destruct (WithdrawLimitAccumulator s). simpl. intros ->.
  rewrite Z.sub_diag, Z.min_l by lia. lia.
Qed.

(** What one step does: the invariant holds after it, and the amount that left
    is covered by the growth of the pending amount and by the time that passed. *)
Definition accounted s d s' : Prop :=
  egress_ok s' ∧ timestamp s <= timestamp s' ∧
  W * d <= pending s' - pending s + L * (timestamp s' - timestamp s).

Lemma accounted_frame s s' : egress_ok s → egress_frame s s' → accounted s 0 s'.
Proof.
  intros Hok (E1 & E2 & E3). unfold accounted, egress_ok, pending in *. rewrite E1, E2, E3.
  split_and!; [apply Hok..|lia|]. destruct (WithdrawLimitAccumulator s). lia.
Qed.

(** A decayed accumulator, moved by at least [d]. *)
Lemma accounted_put s d v :
  egress_ok s → is_lockdown_at (timestamp s) s = false →
  let s1 := try_to_decay_withdraw_limit_accumulator s in
  0 <= v <= L → d <= v - (WithdrawLimitAccumulator s1).1 →
  accounted s d (set_WithdrawLimitAccumulator (v, timestamp s) s1).
Proof.
  intros Hok Hlock s1 Hv Hd. destruct (decay_ok s Hok) as ((Hc1 & _) & Et & Hp & Hfresh).
  specialize (Hfresh Hlock). fold s1 in Hc1, Et, Hp, Hfresh.
  rewrite (pending_fresh s1) in Hp by congruence.
  split_and!; [split_and!; [done|simpl; lia..]|simpl; lia|].
  rewrite pending_fresh by (simpl; congruence). simpl. rewrite Et. nia.
Qed.

Lemma note_egress_accounted s s' amount :
  egress_ok s → 0 <= amount → note_egress amount s = Ok (tt, s') → accounted s amount s'.
Proof.
  intros Hok Hamt Hr. pose proof Hok as (Hc & _ & _).
  unfold note_egress, cb_ensure, arith in Hr. apply M_bind_Ok in Hr as (? & ? & [-> ->]%get_Ok & Hr).
  rewrite Hc in Hr. inv_run. simpl in Hr. propify.
  destruct (Z.ltb_spec W 1); [lia|].
  destruct (decay_ok s Hok) as ((_ & Ha & _) & _).
  apply M_bind_Ok in Hr as (? & ? & [-> ->]%get_Ok & Hr).
  destruct (WithdrawLimitAccumulator _) as [current last] eqn:EA in Hr. rewrite EA in Ha.
  inv_run. propify. simpl in *. apply accounted_put; [done..|lia|rewrite EA; simpl; lia].
Qed.

Lemma note_deposit_accounted s amount :
  egress_ok s → 0 <= amount → accounted s (- amount) (note_deposit amount s).
Proof.
  intros Hok Hamt. unfold note_deposit.
  destruct (is_lockdown_at _ _) eqn:Hlock; simpl.
  { destruct (accounted_frame s s Hok (egress_frame_refl s)) as (? & ? & ?).
    split_and!; [done..|lia]. }
  destruct (decay_ok s Hok) as ((_ & Ha & _) & _).
  destruct (WithdrawLimitAccumulator _) as [current last] eqn:EA. simpl in Ha.
  apply accounted_put; [done..| |rewrite EA; simpl]; unfold saturating_sub; lia.
Qed.

Lemma xcm_check_accounted s s' amount buffered :
  egress_ok s → ensure_xcm_withdraw_can_proceed amount buffered s = Ok (tt, s') → accounted s 0 s'.
Proof.
  intros Hok Hr. pose proof Hok as (Hc & _ & _).
  destruct (decay_ok s Hok) as (Hok' & Et & Hp & _).
  unfold ensure_xcm_withdraw_can_proceed, cb_ensure, arith in Hr.
  apply M_bind_Ok in Hr as (? & ? & [-> ->]%get_Ok & Hr). rewrite Hc in Hr. inv_run. simpl in Hr.
  destruct (Z.ltb_spec W 1); [lia|].
  apply M_bind_Ok in Hr as (? & ? & [-> ->]%get_Ok & Hr).
  destruct (WithdrawLimitAccumulator _) as [current last] eqn:EA in Hr. inv_run.
  split_and!; [done|lia|]. rewrite Et. lia.
Qed.

Lemma new_block_accounted s n now :
  egress_ok s → timestamp s <= now → accounted s 0 (set_timestamp now (set_block_number n s)).
Proof.
  intros (Hc & Ha & Ht) Hnow. split_and!; [split; [done|split; [done|simpl; lia]]|done|].
  unfold pending. simpl. destruct (WithdrawLimitAccumulator s) as [current last]. simpl in *.
  assert (Z.min (now - last) W - Z.min (timestamp s - last) W <= now - timestamp s) by lia.
  set (m := Z.min (now - last) W) in *. set (m' := Z.min (timestamp s - last) W) in *.
  assert (m' <= m) by lia. nia.
Qed.

Lemma egress_step_accounted s d s' : egress_ok s → egress_step s d s' → accounted s d s'.
Proof.
  intros Hok Hs. revert Hok. destruct Hs; intros Hok.
  1: by apply note_egress_accounted.
  1: by apply note_deposit_accounted.
  1: by eapply xcm_check_accounted.
  1: by apply new_block_accounted.
  all: apply accounted_frame; [done|]; try match goal with Hr : ?m _ = Ok _ |- _ =>
    assert (Hk : keeps_egress m) by auto with egress nocore; exact (Hk _ _ _ Hr) end.
  - unfold on_initialize. by repeat case_match.
  - done.
Qed.

Lemma egress_history_accounted s d s' : egress_history s d s' → egress_ok s → accounted s d s'.
Proof.
  induction 1 as [s|s1 d s2 e s3 Hs _ IH]; intros Hok.
  { by apply accounted_frame. }
  destruct (egress_step_accounted _ _ _ Hok Hs) as (Hok2 & ? & ?).
  destruct (IH Hok2) as (? & ? & ?). split_and!; [done|lia|lia].
Qed.

End rate.

(** ** The issuance fuse *)

(** What a mint of [amount] does to the rest of the chain, as far as the fuse
    looks: the issuance grows by [amount], the limit stays. *)
Definition minted (a : AssetId) (amount : Balance) (x x' : X) : Prop :=
  DepositLimit T a x' = DepositLimit T a x ∧ Issuance T a x' = Issuance T a x + amount ∧
  0 <= amount ∧ fits u128 (Issuance T a x').

Lemma get_context_minted a amount s x' :
  minted a amount (cb_ext s) x' →
  get_context a (set_cb_ext x' s) =
    (λ c, mkContext (action c) (context_limit c) (lockdown_until c) (asset_issuance c + amount)) <$>
      get_context a s.
Proof.
  intros (HL & HI & _). unfold get_context. simpl. rewrite HL, HI.
  case_match; [done|]. by destruct (DepositLimit T a (cb_ext s)).
Qed.

Lemma get_context_Some a s act lim until iss :
  get_context a s = Some (mkContext act lim until iss) →
  iss = Issuance T a (cb_ext s) ∧
  ∀ last, act = WithinPeriod last → ∃ at_, AssetLockdownState s !! a = Some (Unlocked at_ last).
Proof.
  unfold get_context. case_match; [done|].
  intros (? & _ & [= <- _ _ <-])%bind_Some. split; [done|]. intros last Hact.
  unfold classify_state in Hact. repeat case_match; naive_solver.
Qed.

(** When [can_mint] allows a mint, the deposit that follows it succeeds, for
    any recipient, without locking any of it, and the asset is not put in
    lockdown: it is left unlocked if it has a deposit limit, and its state is
    untouched if it has none. *)
Theorem can_mint_sound a amount who s x' :
  (∀ at_ base, AssetLockdownState s !! a = Some (Unlocked at_ base) → 0 <= base) →
  can_mint a amount s = true → minted a amount (cb_ext s) x' →
  ∃ s', on_deposit a who amount (set_cb_ext x' s) = Ok (tt, s') ∧ cb_ext s' = x' ∧
    match get_context a s with
    | None => AssetLockdownState s' = AssetLockdownState s
    | Some _ => ∃ at_ base, AssetLockdownState s' !! a = Some (Unlocked at_ base)
    end.
Proof.
  intros Hbase Hm Hx. unfold on_deposit, can_mint in *. pose proof Hx as (_ & HI & Hamt & Hfit).
  assert (Hrun : ∀ k : breaker → CbM unit, (get ≫= k) (set_cb_ext x' s) = k (set_cb_ext x' s) (set_cb_ext x' s))
    by done.
  rewrite Hrun, (get_context_minted _ _ _ _ Hx).
  destruct (get_context a s) as [[act lim until iss]|] eqn:Hc; simpl in *; [|by eauto].
  apply get_context_Some in Hc as [-> Hlast].
  unfold process_deposit_action, handle_limit_reset, handle_lockdown_expired, handle_within_period.
  destruct act as [| | | |last]; simpl in *; propify; try done.
  1-3: (destruct (Z.ltb_spec lim amount); [lia|]); eexists; split; [reflexivity|];
    split; [done|]; simpl; rewrite lookup_insert_eq; by eauto.
  destruct (Hlast last eq_refl) as [at_ Hat]. rewrite <- HI. specialize (Hbase _ _ Hat).
  unfold saturating_sub, saturating_add, fits in *.
  destruct (Z.ltb_spec lim (Z.max 0 (Issuance T a x' - last))); [lia|].
  eexists. split; [reflexivity|]. by eauto.
Qed.
End circuit_breaker.

(** ** A concrete breaker

    The rest of the chain is the issuance of each asset; assets 5 and 10 are
    traded, asset 1 is the hub asset, asset 5 may grow by 1,000 in 100 blocks. *)
Module BreakerDemo.
#[local] Existing Instance reference_arithmetic.
#[local] Existing Instance reference_arithmetic_laws.

Definition config : CbConfig (gmap Z Z) Z := {|
  authority o := match o with Root => true | _ => false end;
  WhitelistedAccounts who := who =? 99;
  DepositLockWhitelist who := who =? 98;
  DefaultMaxNetTradeVolumeLimitPerBlock := (5000, 10000);
  DefaultMaxAddLiquidityLimitPerBlock := Some (500, 10000);
  DefaultMaxRemoveLiquidityLimitPerBlock := Some (500, 10000);
  OmnipoolHubAsset := 1;
  DepositLimit a _ := if a =? 5 then Some 1000 else None;
  Period := 100;
  Issuance a x := default 0 (x !! a);
  OnLimitReached _ x := x;
  OnLockdownDeposit _ _ _ x := Ok x;
  OnDepositRelease _ _ x := Ok x;
|}.

Definition genesis : breaker (gmap Z Z) Z :=
  mkBreaker ∅ ∅ ∅ ∅ ∅ ∅ ∅ (Some (mkWithdrawLimit 1000 100)) (0, 0) None ∅ false ∅ None [] 1 0 {[5 := 3000]}.


Definition trades : list PoolTrade :=
  [mkTrade 5 10000 3000 10 40000 9000; mkTrade 10 31000 2000 5 13000 700; mkTrade 5 12300 2700 1 900 80].

Lemma trade_volume_within_limit_witness :
  Z.abs (net_flow 5 trades) <= block_limit config 5 10000 genesis ∧ net_flow 5 trades = 5000.
Proof.
  split; [|reflexivity].
  refine (proj1 (trade_volume_within_limit config trades genesis
    (run (guard_trades config trades) (on_finalize genesis)) 5 10000 _ _ _ _ _)).
  - apply run_Ok. vm_compute. reflexivity.
  - discriminate.
  - reflexivity.
  - discriminate.
  - split; discriminate.
Defined.

(** 900 leaves, 40 of 100 milliseconds pass, and 400 more may leave. *)
Definition spent := run (note_egress 900) genesis.
Definition later := set_timestamp 40 (set_block_number 2 spent).
Definition spent_again := run (note_egress 400) later.


Lemma can_mint_sound_witness : ∃ s',
  on_deposit config 5 7 1000 (set_cb_ext {[5 := 4000]} genesis) = Ok (tt, s') ∧ cb_ext s' = {[5 := 4000]}.
Proof.
  destruct (can_mint_sound config 5 1000 7 genesis {[5 := 4000]}) as (s' & H1 & H2 & _).
  - by intros ? ?.
  - reflexivity.
  - split_and!; [reflexivity|vm_compute; reflexivity|discriminate|vm_compute; split; discriminate].
  - exists s'. exact (conj H1 H2).
Defined.
End BreakerDemo.
