(* ===== verification/OmnipoolPallet.v ===== *)
(** * The Omnipool pallet

    Models [pallets/omnipool]: every dispatchable, the hub-asset trades, the
    slip-fee bookkeeping of a block, the position NFTs, the defensive checks at
    the end of a trade or liquidity change, the price barrier of [traits.rs] and
    the router's executor interface.  The arithmetic is [OmnipoolMath].

    The currency, the NFT handler, the asset registry, the dynamic fees, the
    oracle and the hooks are parameters.  A call that fails leaves the storage
    unchanged, which is what [#[transactional]] does. *)

From S2P Require Import Prelude Arithmetic Currency Ratio Broadcast Traits OmnipoolTypes OmnipoolMath.

(** ** Data ([types.rs], [traits.rs]) *)

(** Bit flags in a [u8]. *)
Module Tradability.
Definition FROZEN : Z := 0.
Definition SELL : Z := 1.
Definition BUY : Z := 2.
Definition ADD_LIQUIDITY : Z := 4.
Definition REMOVE_LIQUIDITY : Z := 8.
Definition contains (self other : Z) : bool := Z.land self other =? other.
Definition default : Z := Z.lor (Z.lor (Z.lor SELL BUY) ADD_LIQUIDITY) REMOVE_LIQUIDITY.
Definition is_safe_withdrawal (self : Z) : bool :=
  (self =? Z.lor ADD_LIQUIDITY REMOVE_LIQUIDITY) || (self =? REMOVE_LIQUIDITY).
End Tradability.

Module AssetState.
Record t := mk {
  hub_reserve : Balance;
  shares : Balance;
  protocol_shares : Balance;
  cap : Z;
  tradable : Z;
}.
End AssetState.

(** The state of an asset together with its reserve. *)
Module ReserveState.
Record t := mk {
  reserve : Balance;
  hub_reserve : Balance;
  shares : Balance;
  protocol_shares : Balance;
  cap : Z;
  tradable : Z;
}.

Definition default : t := mk 0 0 0 0 0 Tradability.default.
Definition of_asset_state (st : AssetState.t) (reserve : Balance) : t :=
  mk reserve (AssetState.hub_reserve st) (AssetState.shares st) (AssetState.protocol_shares st)
    (AssetState.cap st) (AssetState.tradable st).
Definition to_asset_state (s : t) : AssetState.t :=
  AssetState.mk (hub_reserve s) (shares s) (protocol_shares s) (cap s) (tradable s).
Definition to_math (s : t) : AssetReserveState :=
  mkReserve (reserve s) (hub_reserve s) (shares s) (protocol_shares s).
Definition price `{SpArithmetic} (s : t) : option Z :=
  fixed_checked_from_rational (hub_reserve s) (reserve s).
Definition weight_cap (s : t) : Z := cap s.
Definition delta_update (s : t) (delta : AssetStateChange) : option t :=
  r ← BalanceUpdate.add (delta_reserve delta) (reserve s);
  h ← BalanceUpdate.add (total_delta_hub_reserve delta) (hub_reserve s);
  sh ← BalanceUpdate.add (delta_shares delta) (shares s);
  p ← BalanceUpdate.add (delta_protocol_shares delta) (protocol_shares s);
  Some (mk r h sh p (cap s) (tradable s)).
End ReserveState.

Module LpPosition.
Record t := mk {
  asset_id : AssetId;
  amount : Balance;
  shares : Balance;
  price : Balance * Balance;
}.

Definition to_math (p : t) : Position := mkPosition (amount p) (shares p) (price p).
Definition price_from_rational `{SpArithmetic} (p : t) : option Z :=
  fixed_checked_from_rational (price p).1 (price p).2.
Definition delta_update (p : t) (delta_reserve delta_shares : BalanceUpdate.t) : option t :=
  a ← BalanceUpdate.add delta_reserve (amount p);
  sh ← BalanceUpdate.add delta_shares (shares p);
  Some (mk (asset_id p) a sh (price p)).
End LpPosition.

(** [SlipFeeConfig]: the maximal slip fee, a [Permill]. *)
Record SlipFeeConfig := mkSlipFeeConfig { config_max_slip_fee : Z }.

Record AssetInfo := mkAssetInfo {
  info_asset_id : AssetId;
  before : ReserveState.t;
  after : ReserveState.t;
  delta_changes : AssetStateChange;
  safe_withdrawal : bool;
}.

Module OmniError.
Inductive t :=
| InsufficientBalance
| AssetAlreadyAdded
| AssetNotFound
| MissingBalance
| InvalidInitialAssetPrice
| BuyLimitNotReached
| SellLimitExceeded
| PositionNotFound
| InsufficientShares
| NotAllowed
| Forbidden
| AssetWeightCapExceeded
| AssetNotRegistered
| InsufficientLiquidity
| InsufficientTradingAmount
| SameAssetTradeNotAllowed
| HubAssetUpdateError
| InvalidSharesAmount
| InvalidHubAssetTradableState
| AssetRefundNotAllowed
| MaxOutRatioExceeded
| MaxInRatioExceeded
| PriceDifferenceTooHigh
| InvalidOraclePrice
| InvalidWithdrawalFee
| FeeOverdraft
| SharesRemaining
| AssetNotFrozen
| ZeroAmountOut
| ExistentialDepositNotAvailable
| SlippageLimit
| ProtocolFeeNotConsumed
| MaxSlipFeeTooHigh
| InvariantError
| InvalidOmnipoolHubReserve.
End OmniError.

Inductive OmniEvent (AccountId : Type) :=
| TokenAdded (asset_id : AssetId) (initial_amount : Balance) (initial_price : Z)
| TokenRemoved (asset_id : AssetId) (amount hub_withdrawn : Balance)
| LiquidityAdded (who : AccountId) (asset_id : AssetId) (amount : Balance) (position_id : Z)
| LiquidityRemoved (who : AccountId) (position_id : Z) (asset_id : AssetId) (shares_removed : Balance) (fee : Z)
| ProtocolLiquidityRemoved (who : AccountId) (asset_id : AssetId) (amount hub_amount shares_removed : Balance)
| SellExecuted (who : AccountId) (asset_in asset_out : AssetId)
    (amount_in amount_out hub_amount_in hub_amount_out asset_fee_amount protocol_fee_amount : Balance)
| BuyExecuted (who : AccountId) (asset_in asset_out : AssetId)
    (amount_in amount_out hub_amount_in hub_amount_out asset_fee_amount protocol_fee_amount : Balance)
| PositionCreated (position_id : Z) (owner : AccountId) (asset : AssetId) (amount shares : Balance) (price : Z)
| PositionDestroyed (position_id : Z) (owner : AccountId)
| PositionUpdated (position_id : Z) (owner : AccountId) (asset : AssetId) (amount shares : Balance) (price : Z)
| TradableStateUpdated (asset_id : AssetId) (state : Z)
| AssetRefunded (asset_id : AssetId) (amount : Balance) (recipient : AccountId)
| AssetWeightCapUpdated (asset_id : AssetId) (cap : Z)
| SlipFeeSet (slip_fee : option SlipFeeConfig).
#[global] Arguments TokenAdded {AccountId} _ _ _.
#[global] Arguments TokenRemoved {AccountId} _ _ _.
#[global] Arguments LiquidityAdded {AccountId} _ _ _ _.
#[global] Arguments LiquidityRemoved {AccountId} _ _ _ _ _.
#[global] Arguments ProtocolLiquidityRemoved {AccountId} _ _ _ _ _.
#[global] Arguments SellExecuted {AccountId} _ _ _ _ _ _ _ _ _.
#[global] Arguments BuyExecuted {AccountId} _ _ _ _ _ _ _ _ _.
#[global] Arguments PositionCreated {AccountId} _ _ _ _ _ _.
#[global] Arguments PositionDestroyed {AccountId} _ _.
#[global] Arguments PositionUpdated {AccountId} _ _ _ _ _ _.
#[global] Arguments TradableStateUpdated {AccountId} _ _.
#[global] Arguments AssetRefunded {AccountId} _ _ _.
#[global] Arguments AssetWeightCapUpdated {AccountId} _ _.
#[global] Arguments SlipFeeSet {AccountId} _.

(** The pallet's [Config].  Components outside the pallet act on the rest of the
    chain [X]; the fees of [GetDynamicFee] are a pair (asset fee, protocol fee).
    The result of creating the NFT collection is ignored by the pallet, so that
    call only transforms the state. *)
Record OmniConfig (X AccountId : Type) := mkOmniConfig {
  AuthorityOrigin : RawOrigin AccountId → bool;
  UpdateTradabilityOrigin : RawOrigin AccountId → bool;
  HdxAssetId : AssetId;
  HubAssetId : AssetId;
  protocol_account : AccountId;
  MinWithdrawalFee : Z;
  MinimumTradingLimit : Balance;
  MinimumPoolLiquidity : Balance;
  MaxInRatio : Z;
  MaxOutRatio : Z;
  BurnProtocolFee : Z;
  registry_exists : AssetId → X → bool;
  existential_deposit : AssetId → X → option Balance;
  fee_get : AssetId → Balance → X → Z * Z;
  fee_get_and_store : AssetId → Balance → X → (Z * Z) * X;
  nft_create_collection : X → X;
  nft_owner : Z → X → option AccountId;
  nft_mint_into : Z → AccountId → X → result Z X;
  nft_burn : Z → option AccountId → X → result Z X;
  price_barrier : AccountId → AssetId → AssetId → Ratio → X → bool;
  external_price : AssetId → AssetId → X → result Z Ratio;
  on_liquidity_changed : RawOrigin AccountId → AssetInfo → X → result Z X;
  on_trade : RawOrigin AccountId → AssetInfo → AssetInfo → X → result Z X;
  on_hub_asset_trade : RawOrigin AccountId → AssetInfo → X → result Z X;
  on_trade_fee : AccountId → AccountId → AssetId → Balance → X →
    result Z (list (option (Balance * AccountId)) * X);
}.
#[global] Arguments AuthorityOrigin {X AccountId} _.
#[global] Arguments UpdateTradabilityOrigin {X AccountId} _.
#[global] Arguments HdxAssetId {X AccountId} _.
#[global] Arguments HubAssetId {X AccountId} _.
#[global] Arguments protocol_account {X AccountId} _.
#[global] Arguments MinWithdrawalFee {X AccountId} _.
#[global] Arguments MinimumTradingLimit {X AccountId} _.
#[global] Arguments MinimumPoolLiquidity {X AccountId} _.
#[global] Arguments MaxInRatio {X AccountId} _.
#[global] Arguments MaxOutRatio {X AccountId} _.
#[global] Arguments BurnProtocolFee {X AccountId} _.
#[global] Arguments registry_exists {X AccountId} _.
#[global] Arguments existential_deposit {X AccountId} _.
#[global] Arguments fee_get {X AccountId} _.
#[global] Arguments fee_get_and_store {X AccountId} _.
#[global] Arguments nft_create_collection {X AccountId} _.
#[global] Arguments nft_owner {X AccountId} _.
#[global] Arguments nft_mint_into {X AccountId} _.
#[global] Arguments nft_burn {X AccountId} _.
#[global] Arguments price_barrier {X AccountId} _.
#[global] Arguments external_price {X AccountId} _.
#[global] Arguments on_liquidity_changed {X AccountId} _.
#[global] Arguments on_trade {X AccountId} _.
#[global] Arguments on_hub_asset_trade {X AccountId} _.
#[global] Arguments on_trade_fee {X AccountId} _.

(** The storage of the pallet, its events, the broadcast pallet and the rest of
    the chain. *)
Record omni (X AccountId : Type) := mkOmni {
  Assets : gmap Z AssetState.t;
  HubAssetTradability : Z;
  Positions : gmap Z LpPosition.t;
  NextPositionId : Z;
  SlipFee : option SlipFeeConfig;
  SlipFeeHubReserveAtBlockStart : gmap Z Balance;
  SlipFeeDelta : gmap Z SignedBalance.t;
  omni_events : list (OmniEvent AccountId);
  omni_bcast : broadcast AccountId;
  omni_ext : X;
}.
#[global] Arguments mkOmni {X AccountId} _ _ _ _ _ _ _ _ _ _.
#[global] Arguments Assets {X AccountId} _.
#[global] Arguments HubAssetTradability {X AccountId} _.
#[global] Arguments Positions {X AccountId} _.
#[global] Arguments NextPositionId {X AccountId} _.
#[global] Arguments SlipFee {X AccountId} _.
#[global] Arguments SlipFeeHubReserveAtBlockStart {X AccountId} _.
#[global] Arguments SlipFeeDelta {X AccountId} _.
#[global] Arguments omni_events {X AccountId} _.
#[global] Arguments omni_bcast {X AccountId} _.
#[global] Arguments omni_ext {X AccountId} _.

Section omnipool_pallet.
Context {X AccountId : Type} `{!EqDecision AccountId} `{!MultiCurrency X AccountId} `{SpArithmetic}.
Context (T : OmniConfig X AccountId).

Notation omni := (omni X AccountId).
Notation OmniM := (M omni (DispatchError OmniError.t)).
Implicit Types (s : omni) (who : AccountId) (o : RawOrigin AccountId) (a : AssetId).

Definition set_Assets (v : gmap Z AssetState.t) s : omni :=
  mkOmni v (HubAssetTradability s) (Positions s) (NextPositionId s) (SlipFee s)
    (SlipFeeHubReserveAtBlockStart s) (SlipFeeDelta s) (omni_events s) (omni_bcast s) (omni_ext s).
Definition set_HubAssetTradability (v : Z) s : omni :=
  mkOmni (Assets s) v (Positions s) (NextPositionId s) (SlipFee s) (SlipFeeHubReserveAtBlockStart s)
    (SlipFeeDelta s) (omni_events s) (omni_bcast s) (omni_ext s).
Definition set_Positions (v : gmap Z LpPosition.t) s : omni :=
  mkOmni (Assets s) (HubAssetTradability s) v (NextPositionId s) (SlipFee s)
    (SlipFeeHubReserveAtBlockStart s) (SlipFeeDelta s) (omni_events s) (omni_bcast s) (omni_ext s).
Definition set_NextPositionId (v : Z) s : omni :=
  mkOmni (Assets s) (HubAssetTradability s) (Positions s) v (SlipFee s)
    (SlipFeeHubReserveAtBlockStart s) (SlipFeeDelta s) (omni_events s) (omni_bcast s) (omni_ext s).
Definition set_SlipFee (v : option SlipFeeConfig) s : omni :=
  mkOmni (Assets s) (HubAssetTradability s) (Positions s) (NextPositionId s) v
    (SlipFeeHubReserveAtBlockStart s) (SlipFeeDelta s) (omni_events s) (omni_bcast s) (omni_ext s).
Definition set_SlipFeeHubReserveAtBlockStart (v : gmap Z Balance) s : omni :=
  mkOmni (Assets s) (HubAssetTradability s) (Positions s) (NextPositionId s) (SlipFee s) v
    (SlipFeeDelta s) (omni_events s) (omni_bcast s) (omni_ext s).
Definition set_SlipFeeDelta (v : gmap Z SignedBalance.t) s : omni :=
  mkOmni (Assets s) (HubAssetTradability s) (Positions s) (NextPositionId s) (SlipFee s)
    (SlipFeeHubReserveAtBlockStart s) v (omni_events s) (omni_bcast s) (omni_ext s).
Definition set_omni_events (v : list (OmniEvent AccountId)) s : omni :=
  mkOmni (Assets s) (HubAssetTradability s) (Positions s) (NextPositionId s) (SlipFee s)
    (SlipFeeHubReserveAtBlockStart s) (SlipFeeDelta s) v (omni_bcast s) (omni_ext s).
Definition set_omni_bcast (v : broadcast AccountId) s : omni :=
  mkOmni (Assets s) (HubAssetTradability s) (Positions s) (NextPositionId s) (SlipFee s)
    (SlipFeeHubReserveAtBlockStart s) (SlipFeeDelta s) (omni_events s) v (omni_ext s).
Definition set_omni_ext (v : X) s : omni :=
  mkOmni (Assets s) (HubAssetTradability s) (Positions s) (NextPositionId s) (SlipFee s)
    (SlipFeeHubReserveAtBlockStart s) (SlipFeeDelta s) (omni_events s) (omni_bcast s) v.

Definition deposit_event (e : OmniEvent AccountId) : OmniM unit :=
  modify (λ s, set_omni_events (omni_events s ++ [e]) s).
Definition broadcast_event (f : broadcast AccountId → broadcast AccountId) : OmniM unit :=
  modify (λ s, set_omni_bcast (f (omni_bcast s)) s).
Definition call (f : X → result Z X) : OmniM unit := on_ext_ omni_ext set_omni_ext f.
Definition get_and_store_fee a (reserve : Balance) : OmniM (Z * Z) := λ s,
  let '(fees, x) := fee_get_and_store T a reserve (omni_ext s) in Ok (fees, set_omni_ext x s).

(** ** Asset state *)

Definition load_asset_state a : OmniM ReserveState.t :=
  s ← get;
  state ← some_or (Assets s !! a) OmniError.AssetNotFound;
  mret (ReserveState.of_asset_state state (free_balance a (protocol_account T) (omni_ext s))).

Definition set_asset_state a (new_state : ReserveState.t) : OmniM unit :=
  modify (λ s, set_Assets (<[a := ReserveState.to_asset_state new_state]> (Assets s)) s).

(** [Assets::try_mutate] with the state that must be there. *)
Definition try_mutate_asset a (f : AssetState.t → OmniM AssetState.t) : OmniM unit :=
  s ← get;
  asset_state ← some_or (Assets s !! a) OmniError.AssetNotFound;
  asset_state ← f asset_state;
  modify (λ s, set_Assets (<[a := asset_state]> (Assets s)) s).

Definition allow_assets (asset_in asset_out : ReserveState.t) : bool :=
  Tradability.contains (ReserveState.tradable asset_in) Tradability.SELL
  && Tradability.contains (ReserveState.tradable asset_out) Tradability.BUY.

Definition update_hub_asset_liquidity (delta_amount : BalanceUpdate.t) : OmniM unit :=
  match delta_amount with
  | Increase amount => call (deposit (HubAssetId T) (protocol_account T) amount)
  | Decrease amount => call (withdraw (HubAssetId T) (protocol_account T) amount AllowDeath)
  end.

(** ** Slip fees of the block *)

Definition slip_fee_delta a s : SignedBalance.t := default SignedBalance.zero (SlipFeeDelta s !! a).

Definition snapshot_q0 a (current_hub_reserve : Balance) : OmniM Balance :=
  s ← get;
  match SlipFeeHubReserveAtBlockStart s !! a with
  | Some q0 => mret q0
  | None =>
      modify (λ s, set_SlipFeeHubReserveAtBlockStart
        (<[a := current_hub_reserve]> (SlipFeeHubReserveAtBlockStart s)) s);;
      mret current_hub_reserve
  end.

Definition ensure_q0_snapshot a (current_hub_reserve : Balance) : OmniM unit :=
  s ← get;
  match SlipFee s with
  | Some _ => snapshot_q0 a current_hub_reserve;; mret tt
  | None => mret tt
  end.

Definition load_trade_slip_fees asset_in (in_hub_reserve : Balance) asset_out (out_hub_reserve : Balance) :
    OmniM (option TradeSlipFees) :=
  s ← get;
  match SlipFee s with
  | None => mret None
  | Some config =>
      in_q0 ← snapshot_q0 asset_in in_hub_reserve;
      in_delta ← gets (slip_fee_delta asset_in);
      out_q0 ← snapshot_q0 asset_out out_hub_reserve;
      out_delta ← gets (slip_fee_delta asset_out);
      mret (Some (mkSlip in_q0 in_delta out_q0 out_delta (config_max_slip_fee config)))
  end.

Definition load_hub_trade_slip_fees asset_out (out_hub_reserve : Balance) :
    OmniM (option HubTradeSlipFees) :=
  s ← get;
  match SlipFee s with
  | None => mret None
  | Some config =>
      q0 ← snapshot_q0 asset_out out_hub_reserve;
      delta ← gets (slip_fee_delta asset_out);
      mret (Some (mkHubSlip q0 delta (config_max_slip_fee config)))
  end.

Definition peek_trade_slip_fees asset_in (in_hub_reserve : Balance) asset_out (out_hub_reserve : Balance) s :
    option TradeSlipFees :=
  config ← SlipFee s;
  Some (mkSlip (default in_hub_reserve (SlipFeeHubReserveAtBlockStart s !! asset_in))
    (slip_fee_delta asset_in s)
    (default out_hub_reserve (SlipFeeHubReserveAtBlockStart s !! asset_out))
    (slip_fee_delta asset_out s) (config_max_slip_fee config)).

Definition peek_hub_trade_slip_fees asset_out (out_hub_reserve : Balance) s : option HubTradeSlipFees :=
  config ← SlipFee s;
  Some (mkHubSlip (default out_hub_reserve (SlipFeeHubReserveAtBlockStart s !! asset_out))
    (slip_fee_delta asset_out s) (config_max_slip_fee config)).

(** [SlipFeeDelta::try_mutate] adding [delta]. *)
Definition add_slip_fee_delta a (delta : SignedBalance.t) : OmniM unit :=
  s ← get;
  d ← math_or (SignedBalance.checked_add (slip_fee_delta a s) delta) ArithmeticError.Overflow;
  modify (λ s, set_SlipFeeDelta (<[a := d]> (SlipFeeDelta s)) s).

Definition update_slip_fee_delta asset_in (delta_hub_in : Balance) asset_out (delta_hub_out : Balance) :
    OmniM unit :=
  s ← get;
  match SlipFee s with
  | None => mret tt
  | Some _ =>
      add_slip_fee_delta asset_in (Negative delta_hub_in);;
      add_slip_fee_delta asset_out (Positive delta_hub_out)
  end.

Definition update_slip_fee_delta_hub_trade asset_out (delta_hub_out : Balance) : OmniM unit :=
  s ← get;
  match SlipFee s with
  | None => mret tt
  | Some _ => add_slip_fee_delta asset_out (Positive delta_hub_out)
  end.

(** ** Fees *)

Definition increase_hdx_subpool_hub_reserve o (amount : Balance) : OmniM unit :=
  if amount =? 0 then mret tt else
  hdx_state_before ← load_asset_state (HdxAssetId T);
  try_mutate_asset (HdxAssetId T) (λ asset_state,
    hub_reserve ← math_or (checked_add u128 (AssetState.hub_reserve asset_state) amount)
      ArithmeticError.Overflow;
    mret (AssetState.mk hub_reserve (AssetState.shares asset_state)
            (AssetState.protocol_shares asset_state) (AssetState.cap asset_state)
            (AssetState.tradable asset_state)));;
  hdx_state_after ← load_asset_state (HdxAssetId T);
  let hdx_delta_changes := mkChange BalanceUpdate.default (Increase amount) BalanceUpdate.default
    BalanceUpdate.default BalanceUpdate.default in
  let hdx_info := mkAssetInfo (HdxAssetId T) hdx_state_before hdx_state_after hdx_delta_changes false in
  call (on_hub_asset_trade T o hdx_info);;
  get_and_store_fee (HdxAssetId T) (ReserveState.reserve hdx_state_after);;
  mret tt.

Definition process_protocol_fee o (protocol_fee burned : Balance) : OmniM (list (Fee AccountId)) :=
  if protocol_fee =? 0 then mret [] else
  let remaining_protocol_fee := saturating_sub protocol_fee burned in
  let fee_report := if 0 <? burned then [mkFee (HubAssetId T) burned Burned] else [] in
  if remaining_protocol_fee =? 0 then mret fee_report else
  update_hub_asset_liquidity (Increase remaining_protocol_fee);;
  increase_hdx_subpool_hub_reserve o remaining_protocol_fee;;
  mret (fee_report ++ [mkFee (HubAssetId T) remaining_protocol_fee (Account (protocol_account T))]).

(** The fees the hook reports, without the empty ones. *)
Definition taken_fee_entries a (taken_fee : list (option (Balance * AccountId))) : list (Fee AccountId) :=
  filter (λ fee, 0 < fee_amount fee)
    (omap (λ opt, (λ br : Balance * AccountId, mkFee a br.1 (Account br.2)) <$> opt) taken_fee).
Definition taken_fee_total (entries : list (Fee AccountId)) : option Balance :=
  foldl (λ acc fee, acc ← acc; checked_add u128 acc (fee_amount fee)) (Some 0) entries.

Definition process_trade_fee (trader : AccountId) a (amount : Balance) :
    OmniM (Balance * list (Fee AccountId)) :=
  let account := protocol_account T in
  original_asset_reserve ← gets (λ s, free_balance a account (omni_ext s));
  let allowed_amount := saturating_sub amount 1 in
  taken_fee ← on_ext omni_ext set_omni_ext (on_trade_fee T account trader a allowed_amount);
  let entries := taken_fee_entries a taken_fee in
  total ← math_or (taken_fee_total entries) ArithmeticError.Overflow;
  asset_reserve ← gets (λ s, free_balance a account (omni_ext s));
  let actual_fee_taken := saturating_sub original_asset_reserve asset_reserve in
  ensure_or (actual_fee_taken <=? saturating_add u128 allowed_amount 10) OmniError.FeeOverdraft;;
  let protocol_fee_amount := saturating_sub amount total in
  mret (total, mkFee a protocol_fee_amount (Account (protocol_account T)) :: entries).

(** ** The checks around a trade *)

Definition hub_balance_excluding_swap_assets asset_in (asset_in_state : ReserveState.t)
    asset_out (asset_out_state : ReserveState.t) : OmniM Balance :=
  hub_supply ← gets (λ s, free_balance (HubAssetId T) (protocol_account T) (omni_ext s));
  sum ← some_or (checked_add u128 (ReserveState.hub_reserve asset_in_state)
    (ReserveState.hub_reserve asset_out_state)) OmniError.InvariantError;
  sum_asset_hub_reserves ←
    (if negb (HdxAssetId T =? asset_in) && negb (HdxAssetId T =? asset_out) then
       hdx_state ← load_asset_state (HdxAssetId T);
       some_or (checked_add u128 sum (ReserveState.hub_reserve hdx_state)) OmniError.InvariantError
     else mret sum);
  ensure_or (sum_asset_hub_reserves <=? hub_supply) OmniError.InvalidOmnipoolHubReserve;;
  mret (saturating_sub hub_supply sum_asset_hub_reserves).

Definition ensure_trade_invariant asset_in_id (old_in_state new_in_state : ReserveState.t)
    asset_out_id (hub_balance_excluding_swap_assets : Balance) : OmniM unit :=
  rq_before ← some_or (checked_mul u256 (ReserveState.reserve old_in_state)
    (ReserveState.hub_reserve old_in_state)) OmniError.InvariantError;
  rq_after ← some_or (checked_mul u256 (ReserveState.reserve new_in_state)
    (ReserveState.hub_reserve new_in_state)) OmniError.InvariantError;
  ensure_or (rq_before <=? rq_after) OmniError.InvariantError;;
  s ← get;
  in_store ← some_or (Assets s !! asset_in_id) OmniError.InvariantError;
  out_store ← some_or (Assets s !! asset_out_id) OmniError.InvariantError;
  expected ← some_or (checked_add u128 hub_balance_excluding_swap_assets (AssetState.hub_reserve in_store))
    OmniError.InvariantError;
  expected ← some_or (checked_add u128 expected (AssetState.hub_reserve out_store)) OmniError.InvariantError;
  expected_hub_supply ←
    (if negb (HdxAssetId T =? asset_in_id) && negb (HdxAssetId T =? asset_out_id) then
       hdx_store ← some_or (Assets s !! HdxAssetId T) OmniError.InvariantError;
       some_or (checked_add u128 expected (AssetState.hub_reserve hdx_store)) OmniError.InvariantError
     else mret expected);
  ensure_or (expected_hub_supply =? free_balance (HubAssetId T) (protocol_account T) (omni_ext s))
    OmniError.InvariantError.

Definition ensure_liquidity_invariant (old_state new_state : ReserveState.t) : OmniM unit :=
  let one := 1000000000000 in
  left ← some_or (checked_mul u256 (saturating_sub (ReserveState.hub_reserve new_state) one)
    (ReserveState.reserve old_state)) OmniError.InvariantError;
  middle ← some_or (checked_mul u256 (ReserveState.hub_reserve old_state)
    (ReserveState.reserve new_state)) OmniError.InvariantError;
  v ← some_or (checked_add u256 (ReserveState.hub_reserve new_state) one) OmniError.InvariantError;
  right ← some_or (checked_mul u256 v (ReserveState.reserve old_state)) OmniError.InvariantError;
  ensure_or (left <=? middle) OmniError.InvariantError;;
  ensure_or (middle <=? right) OmniError.InvariantError.

(** ** Trades *)

Definition push_context : OmniM unit := λ s,
  match add_to_context ExecOmnipool (omni_bcast s) with
  | (Ok _, b) => Ok (tt, set_omni_bcast b s)
  | (Err _, _) => Err (Foreign 1)
  end.
Definition pop_context : OmniM unit := λ s,
  match remove_from_context (omni_bcast s) with
  | Ok b => Ok (tt, set_omni_bcast b s)
  | Err _ => Err (Foreign 2)
  end.

(** What [sell] and [buy] do, word for word alike, once the state changes are
    computed and the limits checked, up to the final check.  [amount_in] is the
    amount they report; the result is the new state of the asset sold. *)
Definition execute_trade o who asset_in (asset_in_state : ReserveState.t) asset_out
    (asset_out_state : ReserveState.t) (state_changes : TradeStateChange) (operation : TradeOperation)
    (amount_in : Balance) : OmniM ReserveState.t :=
  taken ← process_trade_fee who asset_out (asset_fee (trade_fee state_changes));
  let '(taken_fee, trade_fees) := taken : Balance * list (Fee AccountId) in
  let state_changes := trade_account_for_fee_taken state_changes taken_fee in
  let ch_in := change_in state_changes in
  let ch_out := change_out state_changes in
  let fee := trade_fee state_changes in
  new_asset_in_state ← math_or (ReserveState.delta_update asset_in_state ch_in) ArithmeticError.Overflow;
  new_asset_out_state ← math_or (ReserveState.delta_update asset_out_state ch_out) ArithmeticError.Overflow;
  call (transfer asset_in who (protocol_account T) (BalanceUpdate.deref (delta_reserve ch_in)) AllowDeath);;
  call (transfer asset_out (protocol_account T) who (BalanceUpdate.deref (delta_reserve ch_out)) AllowDeath);;
  delta_hub_asset ← math_or
    (BalanceUpdate.merge (total_delta_hub_reserve ch_in) (total_delta_hub_reserve ch_out))
    ArithmeticError.Overflow;
  update_hub_asset_liquidity delta_hub_asset;;
  let info_in := mkAssetInfo asset_in asset_in_state new_asset_in_state ch_in false in
  let info_out := mkAssetInfo asset_out asset_out_state new_asset_out_state ch_out false in
  set_asset_state asset_in new_asset_in_state;;
  set_asset_state asset_out new_asset_out_state;;
  update_slip_fee_delta asset_in (BalanceUpdate.deref (delta_hub_reserve ch_in))
    asset_out (BalanceUpdate.deref (delta_hub_reserve ch_out));;
  call (on_trade T o info_in info_out);;
  protocol_fees ← process_protocol_fee o (protocol_fee fee) (burned_protocol_fee fee);
  deposit_event ((match operation with ExactIn => SellExecuted | _ => BuyExecuted end)
    who asset_in asset_out amount_in (BalanceUpdate.deref (delta_reserve ch_out))
    (BalanceUpdate.deref (total_delta_hub_reserve ch_in))
    (BalanceUpdate.deref (total_delta_hub_reserve ch_out)) (asset_fee fee) (protocol_fee fee));;
  push_context;;
  broadcast_event (deposit_trade_event who (protocol_account T) Omnipool operation
    [mkAsset asset_in amount_in]
    [mkAsset (HubAssetId T) (BalanceUpdate.deref (delta_hub_reserve ch_in))] protocol_fees);;
  broadcast_event (deposit_trade_event who (protocol_account T) Omnipool operation
    [mkAsset (HubAssetId T) (BalanceUpdate.deref (delta_hub_reserve ch_out))]
    [mkAsset asset_out (BalanceUpdate.deref (delta_reserve ch_out))] trade_fees);;
  pop_context;;
  mret new_asset_in_state.

Definition settle_trade o who asset_in (asset_in_state : ReserveState.t) asset_out
    (asset_out_state : ReserveState.t) (state_changes : TradeStateChange) (operation : TradeOperation)
    (amount_in : Balance) (hub_balance_excluding_swap_assets : Balance) : OmniM unit :=
  new_asset_in_state ← execute_trade o who asset_in asset_in_state asset_out asset_out_state
    state_changes operation amount_in;
  ensure_trade_invariant asset_in asset_in_state new_asset_in_state asset_out
    hub_balance_excluding_swap_assets.

(** What [sell_hub_asset] and [buy_asset_for_hub_asset] do, word for word alike,
    once the fee is taken: from the new state of the asset to the hook. *)
Definition settle_hub_trade o who asset_out (asset_state : ReserveState.t)
    (state_changes : HubTradeStateChange) (trade_fees : list (Fee AccountId))
    (operation : TradeOperation) : OmniM unit :=
  let ch := hub_change state_changes in
  let fee := hub_trade_fee state_changes in
  new_asset_out_state ← math_or (ReserveState.delta_update asset_state ch) ArithmeticError.Overflow;
  call (transfer (HubAssetId T) who (protocol_account T)
          (BalanceUpdate.deref (delta_hub_reserve ch)) AllowDeath);;
  call (transfer asset_out (protocol_account T) who (BalanceUpdate.deref (delta_reserve ch)) AllowDeath);;
  update_hub_asset_liquidity (extra_hub_reserve_amount ch);;
  let info := mkAssetInfo asset_out asset_state new_asset_out_state ch false in
  set_asset_state asset_out new_asset_out_state;;
  update_slip_fee_delta_hub_trade asset_out (BalanceUpdate.deref (delta_hub_reserve ch));;
  deposit_event ((match operation with ExactIn => SellExecuted | _ => BuyExecuted end)
    who (HubAssetId T) asset_out (BalanceUpdate.deref (delta_hub_reserve ch))
    (BalanceUpdate.deref (delta_reserve ch)) 0 0 (asset_fee fee) (protocol_fee fee));;
  broadcast_event (deposit_trade_event who (protocol_account T) Omnipool operation
    [mkAsset (HubAssetId T) (BalanceUpdate.deref (delta_hub_reserve ch))]
    [mkAsset asset_out (BalanceUpdate.deref (delta_reserve ch))] trade_fees);;
  call (on_hub_asset_trade T o info).

Definition is_increase (u : BalanceUpdate.t) : bool :=
  match u with Increase _ => true | Decrease _ => false end.

Definition sell_hub_asset o who asset_out (amount limit : Balance) : OmniM unit :=
  s ← get;
  ensure_or (Tradability.contains (HubAssetTradability s) Tradability.SELL) OmniError.NotAllowed;;
  asset_state ← load_asset_state asset_out;
  ensure_or (Tradability.contains (ReserveState.tradable asset_state) Tradability.BUY) OmniError.NotAllowed;;
  max_in ← math_or (checked_div (ReserveState.hub_reserve asset_state) (MaxInRatio T))
    ArithmeticError.DivisionByZero;
  ensure_or (amount <=? max_in) OmniError.MaxInRatioExceeded;;
  fees ← get_and_store_fee asset_out (ReserveState.reserve asset_state);
  let '(asset_fee_rate, _) := fees : Z * Z in
  slip ← load_hub_trade_slip_fees asset_out (ReserveState.hub_reserve asset_state);
  state_changes ← math_or (calculate_sell_hub_state_changes (ReserveState.to_math asset_state) amount
    asset_fee_rate slip) ArithmeticError.Overflow;
  let delta_out := BalanceUpdate.deref (delta_reserve (hub_change state_changes)) in
  ensure_or (limit <=? delta_out) OmniError.BuyLimitNotReached;;
  max_out ← math_or (checked_div (ReserveState.reserve asset_state) (MaxOutRatio T))
    ArithmeticError.DivisionByZero;
  ensure_or (delta_out <=? max_out) OmniError.MaxOutRatioExceeded;;
  taken ← process_trade_fee who asset_out (asset_fee (hub_trade_fee state_changes));
  let '(taken_fee, trade_fees) := taken : Balance * list (Fee AccountId) in
  let state_changes := hub_account_for_fee_taken state_changes taken_fee in
  ensure_or (is_increase (delta_hub_reserve (hub_change state_changes))) OmniError.HubAssetUpdateError;;
  settle_hub_trade o who asset_out asset_state state_changes trade_fees ExactIn.

Definition buy_asset_for_hub_asset o who asset_out (amount limit : Balance) : OmniM unit :=
  s ← get;
  ensure_or (Tradability.contains (HubAssetTradability s) Tradability.SELL) OmniError.NotAllowed;;
  asset_state ← load_asset_state asset_out;
  ensure_or (Tradability.contains (ReserveState.tradable asset_state) Tradability.BUY) OmniError.NotAllowed;;
  max_out ← math_or (checked_div (ReserveState.reserve asset_state) (MaxOutRatio T))
    ArithmeticError.DivisionByZero;
  ensure_or (amount <=? max_out) OmniError.MaxOutRatioExceeded;;
  fees ← get_and_store_fee asset_out (ReserveState.reserve asset_state);
  let '(asset_fee_rate, _) := fees : Z * Z in
  slip ← load_hub_trade_slip_fees asset_out (ReserveState.hub_reserve asset_state);
  state_changes ← math_or (calculate_buy_for_hub_asset_state_changes (ReserveState.to_math asset_state)
    amount asset_fee_rate slip) ArithmeticError.Overflow;
  let delta_in := BalanceUpdate.deref (delta_hub_reserve (hub_change state_changes)) in
  ensure_or (delta_in <=? limit) OmniError.SellLimitExceeded;;
  max_in ← math_or (checked_div (ReserveState.hub_reserve asset_state) (MaxInRatio T))
    ArithmeticError.DivisionByZero;
  ensure_or (delta_in <=? max_in) OmniError.MaxInRatioExceeded;;
  ensure_or (is_increase (delta_hub_reserve (hub_change state_changes))) OmniError.HubAssetUpdateError;;
  taken ← process_trade_fee who asset_out (asset_fee (hub_trade_fee state_changes));
  let '(taken_fee, trade_fees) := taken : Balance * list (Fee AccountId) in
  let state_changes := hub_account_for_fee_taken state_changes taken_fee in
  settle_hub_trade o who asset_out asset_state state_changes trade_fees ExactOut.

(** Buying the hub asset is refused whatever its tradable state. *)
Definition buy_hub_asset : OmniM unit :=
  s ← get;
  ensure_or (Tradability.contains (HubAssetTradability s) Tradability.BUY) OmniError.NotAllowed;;
  fail (ModuleError OmniError.NotAllowed).
Definition sell_asset_for_hub_asset : OmniM unit :=
  s ← get;
  ensure_or (Tradability.contains (HubAssetTradability s) Tradability.BUY) OmniError.NotAllowed;;
  fail (ModuleError OmniError.NotAllowed).

Definition sell o asset_in asset_out (amount min_buy_amount : Balance) : OmniM unit :=
  who ← lift (ensure_signed o);
  ensure_or (negb (asset_in =? asset_out)) OmniError.SameAssetTradeNotAllowed;;
  ensure_or (MinimumTradingLimit T <=? amount) OmniError.InsufficientTradingAmount;;
  s ← get;
  ensure_or (is_ok (ensure_can_withdraw asset_in who amount (omni_ext s))) OmniError.InsufficientBalance;;
  if asset_in =? HubAssetId T then sell_hub_asset o who asset_out amount min_buy_amount else
  if asset_out =? HubAssetId T then sell_asset_for_hub_asset else
  asset_in_state ← load_asset_state asset_in;
  asset_out_state ← load_asset_state asset_out;
  hub_balance_rest ←
    hub_balance_excluding_swap_assets asset_in asset_in_state asset_out asset_out_state;
  ensure_or (allow_assets asset_in_state asset_out_state) OmniError.NotAllowed;;
  max_in ← math_or (checked_div (ReserveState.reserve asset_in_state) (MaxInRatio T))
    ArithmeticError.DivisionByZero;
  ensure_or (amount <=? max_in) OmniError.MaxInRatioExceeded;;
  fees_out ← get_and_store_fee asset_out (ReserveState.reserve asset_out_state);
  fees_in ← get_and_store_fee asset_in (ReserveState.reserve asset_in_state);
  slip ← load_trade_slip_fees asset_in (ReserveState.hub_reserve asset_in_state)
    asset_out (ReserveState.hub_reserve asset_out_state);
  state_changes ← math_or (calculate_sell_state_changes (ReserveState.to_math asset_in_state)
    (ReserveState.to_math asset_out_state) amount fees_out.1 fees_in.2 (BurnProtocolFee T) slip)
    ArithmeticError.Overflow;
  let delta_out := BalanceUpdate.deref (delta_reserve (change_out state_changes)) in
  ensure_or (0 <? delta_out) OmniError.ZeroAmountOut;;
  ensure_or (min_buy_amount <=? delta_out) OmniError.BuyLimitNotReached;;
  max_out ← math_or (checked_div (ReserveState.reserve asset_out_state) (MaxOutRatio T))
    ArithmeticError.DivisionByZero;
  ensure_or (delta_out <=? max_out) OmniError.MaxOutRatioExceeded;;
  settle_trade o who asset_in asset_in_state asset_out asset_out_state state_changes ExactIn amount
    hub_balance_rest.

Definition buy o asset_out asset_in (amount max_sell_amount : Balance) : OmniM unit :=
  who ← lift (ensure_signed o);
  ensure_or (negb (asset_in =? asset_out)) OmniError.SameAssetTradeNotAllowed;;
  ensure_or (MinimumTradingLimit T <=? amount) OmniError.InsufficientTradingAmount;;
  if asset_out =? HubAssetId T then buy_hub_asset else
  if asset_in =? HubAssetId T then buy_asset_for_hub_asset o who asset_out amount max_sell_amount else
  asset_in_state ← load_asset_state asset_in;
  asset_out_state ← load_asset_state asset_out;
  hub_balance_rest ←
    hub_balance_excluding_swap_assets asset_in asset_in_state asset_out asset_out_state;
  ensure_or (allow_assets asset_in_state asset_out_state) OmniError.NotAllowed;;
  ensure_or (amount <=? ReserveState.reserve asset_out_state) OmniError.InsufficientLiquidity;;
  max_out ← math_or (checked_div (ReserveState.reserve asset_out_state) (MaxOutRatio T))
    ArithmeticError.DivisionByZero;
  ensure_or (amount <=? max_out) OmniError.MaxOutRatioExceeded;;
  fees_out ← get_and_store_fee asset_out (ReserveState.reserve asset_out_state);
  fees_in ← get_and_store_fee asset_in (ReserveState.reserve asset_in_state);
  slip ← load_trade_slip_fees asset_in (ReserveState.hub_reserve asset_in_state)
    asset_out (ReserveState.hub_reserve asset_out_state);
  state_changes ← math_or (calculate_buy_state_changes (ReserveState.to_math asset_in_state)
    (ReserveState.to_math asset_out_state) amount fees_out.1 fees_in.2 (BurnProtocolFee T) slip)
    ArithmeticError.Overflow;
  let delta_in := BalanceUpdate.deref (delta_reserve (change_in state_changes)) in
  s ← get;
  ensure_or (is_ok (ensure_can_withdraw asset_in who delta_in (omni_ext s))) OmniError.InsufficientBalance;;
  ensure_or (delta_in <=? max_sell_amount) OmniError.SellLimitExceeded;;
  max_in ← math_or (checked_div (ReserveState.reserve asset_in_state) (MaxInRatio T))
    ArithmeticError.DivisionByZero;
  ensure_or (delta_in <=? max_in) OmniError.MaxInRatioExceeded;;
  settle_trade o who asset_in asset_in_state asset_out asset_out_state state_changes ExactOut delta_in
    hub_balance_rest.

(** ** Liquidity *)

Definition create_and_mint_position_instance (owner : AccountId) : OmniM Z :=
  s ← get;
  let next_position_id := NextPositionId s in
  call (nft_mint_into T next_position_id owner);;
  next ← math_or (checked_add u128 next_position_id 1) ArithmeticError.Overflow;
  modify (set_NextPositionId next);;
  mret next_position_id.

Definition put_position (position_id : Z) (p : LpPosition.t) : OmniM unit :=
  modify (λ s, set_Positions (<[position_id := p]> (Positions s)) s).
Definition drop_position (position_id : Z) : OmniM unit :=
  modify (λ s, set_Positions (delete position_id (Positions s)) s).

(** If the transfer fails and the amount is below the existential deposit of the
    hub asset, the amount is burned instead. *)
Definition process_hub_amount (amount : Balance) (dest : AccountId) : OmniM unit :=
  if 0 <? amount then
    s ← get;
    match transfer (HubAssetId T) (protocol_account T) dest amount AllowDeath (omni_ext s) with
    | Ok x => modify (set_omni_ext x)
    | Err e =>
        if amount <? 400000000 then
          call (withdraw (HubAssetId T) (protocol_account T) amount AllowDeath)
        else fail (Foreign e)
    end
  else mret tt.

Definition do_add_liquidity o a (amount min_shares_limit : Balance) : OmniM Z :=
  who ← lift (ensure_signed o);
  ensure_or (MinimumPoolLiquidity T <=? amount) OmniError.InsufficientLiquidity;;
  s ← get;
  ensure_or (is_ok (ensure_can_withdraw a who amount (omni_ext s))) OmniError.InsufficientBalance;;
  asset_state ← load_asset_state a;
  ensure_q0_snapshot a (ReserveState.hub_reserve asset_state);;
  ensure_or (Tradability.contains (ReserveState.tradable asset_state) Tradability.ADD_LIQUIDITY)
    OmniError.NotAllowed;;
  s ← get;
  ensure_or (price_barrier T who (HubAssetId T) a
    (Ratio.new (ReserveState.hub_reserve asset_state) (ReserveState.reserve asset_state)) (omni_ext s))
    OmniError.PriceDifferenceTooHigh;;
  get_and_store_fee a (ReserveState.reserve asset_state);;
  state_changes ← math_or (calculate_add_liquidity_state_changes (ReserveState.to_math asset_state) amount)
    ArithmeticError.Overflow;
  let ch := liquidity_change state_changes in
  let delta_shares := BalanceUpdate.deref (delta_shares ch) in
  ensure_or (min_shares_limit <=? delta_shares) OmniError.SlippageLimit;;
  new_asset_state ← math_or (ReserveState.delta_update asset_state ch) ArithmeticError.Overflow;
  s ← get;
  total_hub ← math_or (checked_add u128
    (total_balance (HubAssetId T) (protocol_account T) (omni_ext s))
    (BalanceUpdate.deref (total_delta_hub_reserve ch))) ArithmeticError.Overflow;
  hub_reserve_ratio ← math_or
    (fixed_checked_from_rational (ReserveState.hub_reserve new_asset_state) total_hub)
    ArithmeticError.DivisionByZero;
  ensure_or (hub_reserve_ratio <=? ReserveState.weight_cap new_asset_state)
    OmniError.AssetWeightCapExceeded;;
  let lp_position := LpPosition.mk a amount delta_shares
    (ReserveState.hub_reserve new_asset_state, ReserveState.reserve new_asset_state) in
  instance_id ← create_and_mint_position_instance who;
  put_position instance_id lp_position;;
  position_price ← math_or (ReserveState.price new_asset_state) ArithmeticError.DivisionByZero;
  deposit_event (PositionCreated instance_id who a amount delta_shares position_price);;
  call (transfer a who (protocol_account T) (BalanceUpdate.deref (delta_reserve ch)) AllowDeath);;
  let info := mkAssetInfo a asset_state new_asset_state ch false in
  update_hub_asset_liquidity (total_delta_hub_reserve ch);;
  set_asset_state a new_asset_state;;
  deposit_event (LiquidityAdded who a amount instance_id);;
  call (on_liquidity_changed T o info);;
  ensure_liquidity_invariant asset_state new_asset_state;;
  mret instance_id.

(** The end of a position without shares, or its new state. *)
Definition store_position who (position_id : Z) asset_id (updated_position : LpPosition.t) : OmniM unit :=
  if LpPosition.shares updated_position =? 0 then
    drop_position position_id;;
    call (nft_burn T position_id (Some who));;
    deposit_event (PositionDestroyed position_id who)
  else
    position_price ← math_or (LpPosition.price_from_rational updated_position)
      ArithmeticError.DivisionByZero;
    deposit_event (PositionUpdated position_id who asset_id (LpPosition.amount updated_position)
      (LpPosition.shares updated_position) position_price);;
    put_position position_id updated_position.

Definition do_remove_liquidity o (position_id : Z) (amount min_limit : Balance) : OmniM Balance :=
  who ← lift (ensure_signed o);
  ensure_or (0 <? amount) OmniError.InvalidSharesAmount;;
  s ← get;
  ensure_or (bool_decide (nft_owner T position_id (omni_ext s) = Some who)) OmniError.Forbidden;;
  position ← some_or (Positions s !! position_id) OmniError.PositionNotFound;
  ensure_or (amount <=? LpPosition.shares position) OmniError.InsufficientShares;;
  let asset_id := LpPosition.asset_id position in
  asset_state ← load_asset_state asset_id;
  ensure_q0_snapshot asset_id (ReserveState.hub_reserve asset_state);;
  ensure_or (Tradability.contains (ReserveState.tradable asset_state) Tradability.REMOVE_LIQUIDITY)
    OmniError.NotAllowed;;
  get_and_store_fee asset_id (ReserveState.reserve asset_state);;
  let safe_withdrawal := Tradability.is_safe_withdrawal (ReserveState.tradable asset_state) in
  s ← get;
  ensure_or (safe_withdrawal || price_barrier T who (HubAssetId T) asset_id
    (Ratio.new (ReserveState.hub_reserve asset_state) (ReserveState.reserve asset_state)) (omni_ext s))
    OmniError.PriceDifferenceTooHigh;;
  ext_asset_price ← lift (map_err Foreign (external_price T (HubAssetId T) asset_id (omni_ext s)));
  ensure_or (negb (Ratio.is_zero ext_asset_price)) OmniError.InvalidOraclePrice;;
  asset_price ← math_or (ReserveState.price asset_state) ArithmeticError.DivisionByZero;
  oracle_price ← some_or (fixed_checked_from_rational (Ratio.n ext_asset_price) (Ratio.d ext_asset_price))
    OmniError.InvalidOraclePrice;
  withdrawal_fee ← or_panic (calculate_withdrawal_fee asset_price oracle_price (MinWithdrawalFee T));
  state_changes ← math_or (calculate_remove_liquidity_state_changes (ReserveState.to_math asset_state)
    amount (LpPosition.to_math position) withdrawal_fee) ArithmeticError.Overflow;
  let ch := liquidity_change state_changes in
  let lp_hub_amount := lp_hub_amount state_changes in
  ensure_or (min_limit <=? BalanceUpdate.deref (delta_reserve ch)) OmniError.SlippageLimit;;
  new_asset_state ← math_or (ReserveState.delta_update asset_state ch) ArithmeticError.Overflow;
  updated_position ← math_or (LpPosition.delta_update position (delta_position_reserve state_changes)
    (delta_position_shares state_changes)) ArithmeticError.Overflow;
  call (transfer asset_id (protocol_account T) who (BalanceUpdate.deref (delta_reserve ch)) AllowDeath);;
  burned ← math_or (BalanceUpdate.merge (total_delta_hub_reserve ch) (Increase lp_hub_amount))
    ArithmeticError.Overflow;
  update_hub_asset_liquidity burned;;
  process_hub_amount lp_hub_amount who;;
  store_position who position_id asset_id updated_position;;
  let info := mkAssetInfo asset_id asset_state new_asset_state ch safe_withdrawal in
  set_asset_state asset_id new_asset_state;;
  deposit_event (LiquidityRemoved who position_id asset_id amount withdrawal_fee);;
  call (on_liquidity_changed T o info);;
  ensure_liquidity_invariant asset_state new_asset_state;;
  mret (BalanceUpdate.deref (delta_reserve ch)).

Definition add_liquidity_with_limit o a (amount min_shares_limit : Balance) : OmniM unit :=
  do_add_liquidity o a amount min_shares_limit;; mret tt.
Definition add_liquidity o a (amount : Balance) : OmniM unit := add_liquidity_with_limit o a amount 0.
Definition add_all_liquidity o a (min_shares_limit : Balance) : OmniM unit :=
  who ← lift (ensure_signed o);
  s ← get;
  let amount := free_balance a who (omni_ext s) in
  ensure_or (0 <? amount) OmniError.InsufficientBalance;;
  do_add_liquidity o a amount min_shares_limit;;
  mret tt.

Definition remove_liquidity_with_limit o (position_id : Z) (amount min_limit : Balance) : OmniM unit :=
  do_remove_liquidity o position_id amount min_limit;; mret tt.
Definition remove_liquidity o (position_id : Z) (amount : Balance) : OmniM unit :=
  remove_liquidity_with_limit o position_id amount 0.
Definition remove_all_liquidity o (position_id : Z) (min_limit : Balance) : OmniM unit :=
  s ← get;
  position ← some_or (Positions s !! position_id) OmniError.PositionNotFound;
  remove_liquidity_with_limit o position_id (LpPosition.shares position) min_limit.

Definition sacrifice_position o (position_id : Z) : OmniM unit :=
  who ← lift (ensure_signed o);
  s ← get;
  position ← some_or (Positions s !! position_id) OmniError.PositionNotFound;
  ensure_or (bool_decide (nft_owner T position_id (omni_ext s) = Some who)) OmniError.Forbidden;;
  try_mutate_asset (LpPosition.asset_id position) (λ asset_state,
    protocol_shares ← math_or
      (checked_add u128 (AssetState.protocol_shares asset_state) (LpPosition.shares position))
      ArithmeticError.Overflow;
    mret (AssetState.mk (AssetState.hub_reserve asset_state) (AssetState.shares asset_state)
            protocol_shares (AssetState.cap asset_state) (AssetState.tradable asset_state)));;
  drop_position position_id;;
  call (nft_burn T position_id (Some who));;
  deposit_event (PositionDestroyed position_id who).

(** ** Governance *)

Definition add_token o a (initial_price weight_cap : Z) (position_owner : AccountId) : OmniM unit :=
  ensure_origin (AuthorityOrigin T) o;;
  s ← get;
  ensure_or (bool_decide (Assets s !! a = None)) OmniError.AssetAlreadyAdded;;
  ensure_or (registry_exists T a (omni_ext s)) OmniError.AssetNotRegistered;;
  ensure_or (0 <? initial_price) OmniError.InvalidInitialAssetPrice;;
  modify (λ s, set_omni_ext (nft_create_collection T (omni_ext s)) s);;
  s ← get;
  let amount := free_balance a (protocol_account T) (omni_ext s) in
  ed ← some_or (existential_deposit T a (omni_ext s)) OmniError.ExistentialDepositNotAvailable;
  let minimum_pool_liquidity := saturating_mul u128 ed 20 in
  ensure_or ((0 <? ed) && (minimum_pool_liquidity <=? amount)) OmniError.MissingBalance;;
  hub_reserve ← math_or (fixed_checked_mul_int initial_price amount) ArithmeticError.Overflow;
  let state := AssetState.mk hub_reserve amount 0 (fixed_from_permill weight_cap) Tradability.default in
  let lp_position := LpPosition.mk a amount amount (initial_price, DIV) in
  instance_id ← create_and_mint_position_instance position_owner;
  put_position instance_id lp_position;;
  deposit_event (PositionCreated instance_id position_owner a amount amount initial_price);;
  let delta_hub_reserve := Increase hub_reserve in
  update_hub_asset_liquidity delta_hub_reserve;;
  s ← get;
  let reserve := free_balance a (protocol_account T) (omni_ext s) in
  let reserve_state := ReserveState.of_asset_state state reserve in
  let changes := mkChange (Increase reserve) delta_hub_reserve (Increase amount) (Increase 0)
    BalanceUpdate.default in
  call (on_liquidity_changed T o (mkAssetInfo a ReserveState.default reserve_state changes false));;
  get_and_store_fee a reserve;;
  modify (λ s, set_Assets (<[a := state]> (Assets s)) s);;
  deposit_event (TokenAdded a amount initial_price).

Definition set_asset_tradable_state o a (state : Z) : OmniM unit :=
  ensure_origin (UpdateTradabilityOrigin T) o;;
  if a =? HubAssetId T then
    ensure_or (negb (Tradability.contains state Tradability.ADD_LIQUIDITY)
               && negb (Tradability.contains state Tradability.REMOVE_LIQUIDITY))
      OmniError.InvalidHubAssetTradableState;;
    modify (set_HubAssetTradability state);;
    deposit_event (TradableStateUpdated a state)
  else
    try_mutate_asset a (λ asset_state,
      deposit_event (TradableStateUpdated a state);;
      mret (AssetState.mk (AssetState.hub_reserve asset_state) (AssetState.shares asset_state)
              (AssetState.protocol_shares asset_state) (AssetState.cap asset_state) state)).

Definition refund_refused_asset o a (amount : Balance) (recipient : AccountId) : OmniM unit :=
  ensure_origin (AuthorityOrigin T) o;;
  ensure_or (negb (a =? HubAssetId T)) OmniError.AssetRefundNotAllowed;;
  s ← get;
  ensure_or (bool_decide (Assets s !! a = None)) OmniError.AssetAlreadyAdded;;
  ensure_or (is_ok (ensure_can_withdraw a (protocol_account T) amount (omni_ext s)))
    OmniError.InsufficientBalance;;
  call (transfer a (protocol_account T) recipient amount AllowDeath);;
  deposit_event (AssetRefunded a amount recipient).

Definition set_asset_weight_cap o a (cap : Z) : OmniM unit :=
  ensure_origin (AuthorityOrigin T) o;;
  try_mutate_asset a (λ asset_state,
    deposit_event (AssetWeightCapUpdated a cap);;
    mret (AssetState.mk (AssetState.hub_reserve asset_state) (AssetState.shares asset_state)
            (AssetState.protocol_shares asset_state) (fixed_from_permill cap)
            (AssetState.tradable asset_state))).

Definition withdraw_protocol_liquidity o a (amount : Balance) (price : Balance * Balance)
    (dest : AccountId) : OmniM unit :=
  ensure_origin (AuthorityOrigin T) o;;
  asset_state ← load_asset_state a;
  ensure_or (amount <=? ReserveState.protocol_shares asset_state) OmniError.InsufficientShares;;
  let position := mkPosition 0 amount price in
  state_changes ← math_or (calculate_remove_liquidity_state_changes (ReserveState.to_math asset_state)
    amount position 0) ArithmeticError.Overflow;
  let ch := liquidity_change state_changes in
  new_asset_state ← math_or (ReserveState.delta_update asset_state ch) ArithmeticError.Overflow;
  let new_asset_state := ReserveState.mk (ReserveState.reserve new_asset_state)
    (ReserveState.hub_reserve new_asset_state) (ReserveState.shares new_asset_state)
    (saturating_sub (ReserveState.protocol_shares new_asset_state) amount)
    (ReserveState.cap new_asset_state) (ReserveState.tradable new_asset_state) in
  call (transfer a (protocol_account T) dest (BalanceUpdate.deref (delta_reserve ch)) AllowDeath);;
  burned ← math_or (BalanceUpdate.merge (total_delta_hub_reserve ch)
    (Increase (lp_hub_amount state_changes))) ArithmeticError.Overflow;
  update_hub_asset_liquidity burned;;
  process_hub_amount (lp_hub_amount state_changes) dest;;
  let info := mkAssetInfo a asset_state new_asset_state ch true in
  set_asset_state a new_asset_state;;
  deposit_event (ProtocolLiquidityRemoved dest a (BalanceUpdate.deref (delta_reserve ch))
    (lp_hub_amount state_changes) amount);;
  call (on_liquidity_changed T o info).

Definition remove_token o a (beneficiary : AccountId) : OmniM unit :=
  ensure_origin (AuthorityOrigin T) o;;
  asset_state ← load_asset_state a;
  ensure_or (ReserveState.tradable asset_state =? Tradability.FROZEN) OmniError.AssetNotFrozen;;
  ensure_or (ReserveState.shares asset_state =? ReserveState.protocol_shares asset_state)
    OmniError.SharesRemaining;;
  call (withdraw (HubAssetId T) (protocol_account T) (ReserveState.hub_reserve asset_state) AllowDeath);;
  call (transfer a (protocol_account T) beneficiary (ReserveState.reserve asset_state) AllowDeath);;
  modify (λ s, set_Assets (delete a (Assets s)) s);;
  deposit_event (TokenRemoved a (ReserveState.reserve asset_state) (ReserveState.hub_reserve asset_state)).

(** [Permill::from_percent(90)]. *)
Definition max_allowed_slip_fee : Z := 900000.

Definition set_slip_fee o (slip_fee : option SlipFeeConfig) : OmniM unit :=
  ensure_origin (UpdateTradabilityOrigin T) o;;
  match slip_fee with
  | Some config =>
      ensure_or (config_max_slip_fee config <=? max_allowed_slip_fee) OmniError.MaxSlipFeeTooHigh
  | None => mret tt
  end;;
  modify (set_SlipFee slip_fee);;
  deposit_event (SlipFeeSet slip_fee).

(** ** Hooks *)

Definition on_finalize s : omni := set_SlipFeeDelta ∅ (set_SlipFeeHubReserveAtBlockStart ∅ s).

Definition integrity_test : bool :=
  negb (MinimumPoolLiquidity T =? 0) && negb (MinimumTradingLimit T =? 0)
  && negb (MaxInRatio T =? 0) && negb (MaxOutRatio T =? 0).

(** The shares in positions, by asset. *)
Definition position_totals (ps : gmap Z LpPosition.t) : gmap Z Balance :=
  map_fold (λ _ p (shares : gmap Z Balance),
    match shares !! LpPosition.asset_id p with
    | Some current => <[LpPosition.asset_id p := LpPosition.shares p + current]> shares
    | None => <[LpPosition.asset_id p := LpPosition.shares p]> shares
    end) ∅ ps.

(** The consistency check; [false] is a failed assertion.  The sums are those of
    the integers. *)
Definition try_state s : bool :=
  (free_balance (HubAssetId T) (protocol_account T) (omni_ext s)
   =? sum_map AssetState.hub_reserve (Assets s))
  && forallb (λ at' : Z * Balance,
       match Assets s !! at'.1 with
       | Some state => AssetState.shares state - AssetState.protocol_shares state =? at'.2
       | None => false
       end) (map_to_list (position_totals (Positions s))).

(** ** Entry points of other pallets *)

Definition remove_asset a : OmniM unit := modify (λ s, set_Assets (delete a (Assets s)) s).
Definition set_position (position_id : Z) (position : LpPosition.t) : OmniM unit :=
  put_position position_id position.
Definition add_asset a (state : AssetState.t) : OmniM unit :=
  s ← get;
  ensure_or (bool_decide (Assets s !! a = None)) OmniError.AssetAlreadyAdded;;
  ensure_or (registry_exists T a (omni_ext s)) OmniError.AssetNotRegistered;;
  modify (λ s, set_Assets (<[a := state]> (Assets s)) s).
Definition update_asset_state a (delta : AssetStateChange) : OmniM unit :=
  state ← load_asset_state a;
  updated_state ← math_or (ReserveState.delta_update state delta) ArithmeticError.Overflow;
  set_asset_state a updated_state.
Definition load_position (position_id : Z) (owner : AccountId) : OmniM LpPosition.t :=
  s ← get;
  ensure_or (bool_decide (nft_owner T position_id (omni_ext s) = Some owner)) OmniError.Forbidden;;
  some_or (Positions s !! position_id) OmniError.PositionNotFound.
Definition is_hub_asset_allowed (operation : Z) s : bool :=
  Tradability.contains (HubAssetTradability s) operation.
Definition exists_asset a s : bool := bool_decide (is_Some (Assets s !! a)).

(** ** The executor of the router ([router_execution.rs]) *)

Notation ExecM := (M omni (ExecutorError.t (DispatchError OmniError.t))).
Implicit Types (pool_type : PoolType.t).

Definition for_omnipool {A} pool_type (m : OmniM A) : ExecM A :=
  if decide (pool_type = PoolType.Omnipool) then executor m else fail ExecutorError.NotSupported.

Definition calculate_out_given_in pool_type asset_in asset_out (amount_in : Balance) : ExecM Balance :=
  for_omnipool pool_type (
    if asset_out =? HubAssetId T then fail (ModuleError OmniError.NotAllowed) else
    asset_out_state ← load_asset_state asset_out;
    s ← get;
    if asset_in =? HubAssetId T then
      let asset_fee := (fee_get T asset_out (ReserveState.reserve asset_out_state) (omni_ext s)).1 in
      let slip := peek_hub_trade_slip_fees asset_out (ReserveState.hub_reserve asset_out_state) s in
      state_changes ← math_or (calculate_sell_hub_state_changes (ReserveState.to_math asset_out_state)
        amount_in asset_fee slip) ArithmeticError.Overflow;
      mret (BalanceUpdate.deref (delta_reserve (hub_change state_changes)))
    else
      asset_in_state ← load_asset_state asset_in;
      let asset_fee := (fee_get T asset_out (ReserveState.reserve asset_out_state) (omni_ext s)).1 in
      let protocol_fee := (fee_get T asset_in (ReserveState.reserve asset_in_state) (omni_ext s)).2 in
      let slip := peek_trade_slip_fees asset_in (ReserveState.hub_reserve asset_in_state)
        asset_out (ReserveState.hub_reserve asset_out_state) s in
      state_changes ← math_or (calculate_sell_state_changes (ReserveState.to_math asset_in_state)
        (ReserveState.to_math asset_out_state) amount_in asset_fee protocol_fee (BurnProtocolFee T) slip)
        ArithmeticError.Overflow;
      mret (BalanceUpdate.deref (delta_reserve (change_out state_changes)))).

Definition calculate_in_given_out pool_type asset_in asset_out (amount_out : Balance) : ExecM Balance :=
  for_omnipool pool_type (
    if asset_out =? HubAssetId T then fail (ModuleError OmniError.NotAllowed) else
    asset_out_state ← load_asset_state asset_out;
    s ← get;
    if asset_in =? HubAssetId T then
      let asset_fee := (fee_get T asset_out (ReserveState.reserve asset_out_state) (omni_ext s)).1 in
      let slip := peek_hub_trade_slip_fees asset_out (ReserveState.hub_reserve asset_out_state) s in
      state_changes ← math_or (calculate_buy_for_hub_asset_state_changes
        (ReserveState.to_math asset_out_state) amount_out asset_fee slip) ArithmeticError.Overflow;
      mret (BalanceUpdate.deref (delta_hub_reserve (hub_change state_changes)))
    else
      asset_in_state ← load_asset_state asset_in;
      let asset_fee := (fee_get T asset_out (ReserveState.reserve asset_out_state) (omni_ext s)).1 in
      let protocol_fee := (fee_get T asset_in (ReserveState.reserve asset_in_state) (omni_ext s)).2 in
      let slip := peek_trade_slip_fees asset_in (ReserveState.hub_reserve asset_in_state)
        asset_out (ReserveState.hub_reserve asset_out_state) s in
      state_changes ← math_or (calculate_buy_state_changes (ReserveState.to_math asset_in_state)
        (ReserveState.to_math asset_out_state) amount_out asset_fee protocol_fee (BurnProtocolFee T) slip)
        ArithmeticError.Overflow;
      mret (BalanceUpdate.deref (delta_reserve (change_in state_changes)))).

Definition execute_sell o pool_type asset_in asset_out (amount_in min_limit : Balance) : ExecM unit :=
  for_omnipool pool_type (sell o asset_in asset_out amount_in min_limit).
Definition execute_buy o pool_type asset_in asset_out (amount_out max_limit : Balance) : ExecM unit :=
  for_omnipool pool_type (buy o asset_out asset_in amount_out max_limit).
Definition get_liquidity_depth pool_type asset_a : ExecM Balance :=
  for_omnipool pool_type (asset_state ← load_asset_state asset_a; mret (ReserveState.reserve asset_state)).

(** [FixedU128::reciprocal] is [checked_div] of one. *)
Definition reciprocal (p : Z) : option Z := fixed_checked_div DIV p.

Definition calculate_spot_price_with_fee pool_type asset_a asset_b : ExecM Z :=
  for_omnipool pool_type (
    if asset_b =? HubAssetId T then fail (ModuleError OmniError.NotAllowed) else
    s ← get;
    if asset_a =? HubAssetId T then
      asset_b_state ← load_asset_state asset_b;
      let asset_fee := (fee_get T asset_b (ReserveState.reserve asset_b_state) (omni_ext s)).1 in
      lift (ok_or (calculate_lrna_spot_price (ReserveState.to_math asset_b_state) (Some asset_fee)
                   ≫= reciprocal) Corruption)
    else
      asset_a_state ← load_asset_state asset_a;
      asset_b_state ← load_asset_state asset_b;
      let protocol_fee := (fee_get T asset_a (ReserveState.reserve asset_a_state) (omni_ext s)).2 in
      let asset_fee := (fee_get T asset_b (ReserveState.reserve asset_b_state) (omni_ext s)).1 in
      lift (ok_or (calculate_spot_price (ReserveState.to_math asset_a_state)
                     (ReserveState.to_math asset_b_state) (Some (protocol_fee, asset_fee))
                   ≫= reciprocal) Corruption)).

(** ** Spot prices ([provider.rs]) *)

Definition pair_exists asset_a asset_b s : bool := exists_asset asset_a s && exists_asset asset_b s.

Definition peek_state a s : option ReserveState.t := ok (fst <$> load_asset_state a s).

Definition spot_price asset_a asset_b s : option Z :=
  if asset_a =? asset_b then Some DIV else
  if asset_a =? HubAssetId T then
    b ← peek_state asset_b s;
    fixed_checked_from_rational (ReserveState.hub_reserve b) (ReserveState.reserve b)
  else if asset_b =? HubAssetId T then
    a ← peek_state asset_a s;
    fixed_checked_from_rational (ReserveState.reserve a) (ReserveState.hub_reserve a)
  else
    a ← peek_state asset_a s;
    b ← peek_state asset_b s;
    price_a ← fixed_checked_from_rational (ReserveState.reserve a) (ReserveState.hub_reserve a);
    price_b ← fixed_checked_from_rational (ReserveState.hub_reserve b) (ReserveState.reserve b);
    fixed_checked_mul price_a price_b.
End omnipool_pallet.

(** ** The price barrier ([traits.rs]) *)

Section price_barrier.
Context {X AccountId : Type} `{SpArithmetic}.

(** [EnsurePriceWithin]: the current price may differ from the oracle's by at
    most the allowed part of their mean. *)
Definition ensure_price_within (get_price : AssetId → AssetId → X → result Z Ratio)
    (MaxAllowed : Z) (whitelisted : AccountId → bool)
    (who : AccountId) (asset_a asset_b : AssetId) (current_price : Ratio) (x : X) : bool :=
  if whitelisted who then true else
  let max_allowed := fixed_from_permill MaxAllowed in
  default false (
    oracle_price ← ok (get_price asset_a asset_b x);
    external_price ← fixed_checked_from_rational (Ratio.n oracle_price) (Ratio.d oracle_price);
    current_spot_price ← fixed_checked_from_rational (Ratio.n current_price) (Ratio.d current_price);
    sum ← checked_add u128 current_spot_price external_price;
    max_allowed_difference ← fixed_checked_mul max_allowed sum;
    let diff := if external_price <=? current_spot_price
                then saturating_sub current_spot_price external_price
                else saturating_sub external_price current_spot_price in
    twice ← fixed_checked_mul diff (2 * DIV);
    Some (twice <=? max_allowed_difference)).

(** The barrier of a tuple of barriers: all of them, in order. *)
Definition ensure_price_all (barriers : list (AccountId → AssetId → AssetId → Ratio → X → bool))
    (who : AccountId) (asset_a asset_b : AssetId) (current_price : Ratio) (x : X) : bool :=
  forallb (λ barrier, barrier who asset_a asset_b current_price x) barriers.
End price_barrier.
