(* ===== verification/OmnipoolInvariant.v ===== *)
(** * The accounts of the Omnipool balance

    Theorems on [OmnipoolPallet].  A run of the pallet keeps the two equations
    its [try_state] asserts: the protocol account holds exactly the hub asset the
    assets' states record, and the shares of an asset that are not the protocol's
    are exactly the shares in positions.  Hence the defensive checks at the end
    of a trade never fire. *)

From S2P Require Import Prelude Arithmetic Currency Ratio Broadcast Traits OmnipoolTypes OmnipoolMath OmnipoolPallet.

(** What the pallet relies on from the components it calls: fees are [Permill]s,
    the NFT handler, the fee storage and the activity hooks leave the ledger
    alone, and the trade-fee hook moves nothing but the asset of the fee. *)
Class OmniConfigLaws {X AccountId} `{MultiCurrency X AccountId} (T : OmniConfig X AccountId) : Prop := {
  fee_storage_frames a r x : same_ledger (AccountId := AccountId) x (fee_get_and_store T a r x).2;
  fees_permill a r x :
    is_permill (fee_get_and_store T a r x).1.1 ∧ is_permill (fee_get_and_store T a r x).1.2;
  collection_frames x : same_ledger (AccountId := AccountId) x (nft_create_collection T x);
  mint_frames id who : frames_ledger (AccountId := AccountId) (nft_mint_into T id who);
  burn_frames id who : frames_ledger (AccountId := AccountId) (nft_burn T id who);
  liquidity_hook_frames o info : frames_ledger (AccountId := AccountId) (on_liquidity_changed T o info);
  trade_hook_frames o i i' : frames_ledger (AccountId := AccountId) (on_trade T o i i');
  hub_trade_hook_frames o info : frames_ledger (AccountId := AccountId) (on_hub_asset_trade T o info);
  fee_hook_moves account trader a amount x taken x' :
    on_trade_fee T account trader a amount x = Ok (taken, x') →
    (∀ c who, c ≠ a → free_balance c who x' = free_balance c who x) ∧
    Forall (λ o, ∀ b r, o = Some (b, r) → fits u128 b) taken;
  oracle_price_fits a b x r : external_price T a b x = Ok r → fits u128 (Ratio.n r) ∧ fits u128 (Ratio.d r);
  burn_permill : is_permill (BurnProtocolFee T);
  min_fee_permill : is_permill (MinWithdrawalFee T);
  max_ratios_unsigned : 0 <= MaxInRatio T ∧ 0 <= MaxOutRatio T;
  limits_unsigned : 0 <= MinimumTradingLimit T ∧ 0 <= MinimumPoolLiquidity T;
  hdx_not_hub : HdxAssetId T ≠ HubAssetId T;
}.

Create HintDb omni_frames.

#[local] Arguments update_hub_asset_liquidity : simpl never.
#[local] Arguments total_delta_hub_reserve : simpl never.
#[local] Arguments ReserveState.delta_update : simpl never.
#[local] Arguments LpPosition.delta_update : simpl never.
#[local] Arguments BalanceUpdate.merge : simpl never.

Section accounts.
Context {X AccountId : Type} `{!EqDecision AccountId} `{!MultiCurrency X AccountId}
  `{!MultiCurrencyLaws X AccountId} `{SpArithmeticLaws}.
Context (T : OmniConfig X AccountId) `{!OmniConfigLaws T}.

Notation omni := (omni X AccountId).
Implicit Types (s : omni) (who : AccountId) (o : RawOrigin AccountId) (a : AssetId) (u : BalanceUpdate.t)
  (m : gmap Z AssetState.t) (ps : gmap Z LpPosition.t).

Definition hub_balance s : Balance := free_balance (HubAssetId T) (protocol_account T) (omni_ext s).

(** ** Widths of the stored values *)

Definition state_typed (st : AssetState.t) : Prop :=
  fits u128 (AssetState.hub_reserve st) ∧ fits u128 (AssetState.shares st) ∧
  fits u128 (AssetState.protocol_shares st).

Definition position_typed (p : LpPosition.t) : Prop :=
  fits u128 (LpPosition.amount p) ∧ fits u128 (LpPosition.shares p) ∧
  fits u128 (LpPosition.price p).1 ∧ fits u128 (LpPosition.price p).2.

Record slip_typed s : Prop := {
  slip_config_typed c : SlipFee s = Some c → 0 <= config_max_slip_fee c <= max_allowed_slip_fee;
  slip_snapshot_typed a q : SlipFeeHubReserveAtBlockStart s !! a = Some q → fits u128 q;
  slip_delta_typed a d : SlipFeeDelta s !! a = Some d → SignedBalance.valid d;
}.

(** ** Steps that leave assets and positions alone

    [moves d s s']: the run from [s] to [s'] changes the protocol's hub asset by
    [d] and no asset state or position. *)
Record moves (d : Z) s s' : Prop := {
  moves_assets : Assets s' = Assets s;
  moves_positions : Positions s' = Positions s;
  moves_next : NextPositionId s' = NextPositionId s;
  moves_hub : hub_balance s' = hub_balance s + d;
  moves_slip : slip_typed s → slip_typed s';
}.

Lemma moves_refl s : moves 0 s s.
Proof. constructor; auto; lia. Qed.
Lemma moves_trans d d' s s' s'' : moves d s s' → moves d' s' s'' → moves (d + d') s s''.
Proof. intros [] []. constructor; [congruence..|lia|auto]. Qed.
Lemma moves_trans_0 d s s' s'' : moves d s s' → moves 0 s' s'' → moves d s s''.
Proof. intros H1 H2. replace d with (d + 0) by lia. by eapply moves_trans. Qed.

Lemma moves_ext d x s :
  free_balance (HubAssetId T) (protocol_account T) x = hub_balance s + d → moves d s (set_omni_ext x s).
Proof. intros E. constructor; [done..| |by intros []]. done. Qed.

Lemma moves_ledger x s : same_ledger (AccountId := AccountId) (omni_ext s) x → moves 0 s (set_omni_ext x s).
Proof. intros [E _]. apply moves_ext. rewrite E. unfold hub_balance. lia. Qed.

Lemma call_frames f s v s' :
  frames_ledger (AccountId := AccountId) f → call f s = Ok (v, s') → moves 0 s s'.
Proof. intros Hf Hr. unfold call in Hr. inv_ext. eapply moves_ledger, Hf. done. Qed.

Lemma transfer_moves_hub c f t amount er s v s' :
  0 <= amount → call (transfer c f t amount er) s = Ok (v, s') →
  moves (moved c f t amount (HubAssetId T) (protocol_account T)) s s'.
Proof.
  intros Ha Hr. unfold call in Hr. inv_ext.
  match goal with Ht : transfer _ _ _ _ _ _ = Ok _ |- _ => apply transfer_moves in Ht as (_ & E & _); [|done] end.
  apply moves_ext. by rewrite E.
Qed.

Lemma transfer_other c f t amount er s v s' :
  c ≠ HubAssetId T → 0 <= amount → call (transfer c f t amount er) s = Ok (v, s') → moves 0 s s'.
Proof. intros Hc Ha Hr. apply transfer_moves_hub in Hr; [|done]. by rewrite moved_other_asset in Hr by done. Qed.

Lemma update_hub_moves u s v s' :
  0 <= BalanceUpdate.deref u → update_hub_asset_liquidity T u s = Ok (v, s') →
  moves (BalanceUpdate.value u) s s'.
Proof.
  unfold update_hub_asset_liquidity. intros Hu Hr.
  destruct u as [b|b]; simpl in *; unfold call in Hr; inv_ext; apply moves_ext; unfold hub_balance.
  - match goal with Hd : deposit _ _ _ _ = Ok _ |- _ => apply deposit_adds in Hd as (E & _); [|done] end.
    by rewrite E, when_true.
  - match goal with Hd : withdraw _ _ _ _ _ = Ok _ |- _ => apply withdraw_subtracts in Hd as (_ & E & _); [|done] end.
    rewrite E, when_true by done. lia.
Qed.

#[local] Hint Resolve mint_frames burn_frames liquidity_hook_frames trade_hook_frames
  hub_trade_hook_frames : omni_frames.

Lemma fee_store_moves a r s fees s' :
  get_and_store_fee T a r s = Ok (fees, s') → moves 0 s s' ∧ is_permill fees.1 ∧ is_permill fees.2.
Proof.
  unfold get_and_store_fee. pose proof (fee_storage_frames a r (omni_ext s)) as Hf.
  pose proof (fees_permill a r (omni_ext s)) as Hp.
  destruct (fee_get_and_store T a r (omni_ext s)) as [fs x]. simpl in *. intros. inv_run.
  split; [by apply moves_ledger|done].
Qed.

Lemma event_moves e s v s' : deposit_event e s = Ok (v, s') → moves 0 s s'.
Proof.
  unfold deposit_event. intros. inv_run. constructor; auto; [unfold hub_balance; simpl; lia|by intros []].
Qed.
Lemma broadcast_moves f s v s' : broadcast_event f s = Ok (v, s') → moves 0 s s'.
Proof.
  unfold broadcast_event. intros. inv_run. constructor; auto; [unfold hub_balance; simpl; lia|by intros []].
Qed.
Lemma bcast_moves b s : moves 0 s (set_omni_bcast b s).
Proof. constructor; auto; [unfold hub_balance; simpl; lia|by intros []]. Qed.
Lemma push_moves s v s' : push_context s = Ok (v, s') → moves 0 s s'.
Proof. unfold push_context. intros. repeat case_match; inv_run. apply bcast_moves. Qed.
Lemma pop_moves s v s' : pop_context s = Ok (v, s') → moves 0 s s'.
Proof. unfold pop_context. intros. repeat case_match; inv_run. apply bcast_moves. Qed.

(** ** The slip-fee bookkeeping *)

Lemma snapshot_moves a q s r s' :
  fits u128 q → snapshot_q0 a q s = Ok (r, s') →
  moves 0 s s' ∧ (slip_typed s → fits u128 r) ∧ SlipFee s' = SlipFee s ∧ SlipFeeDelta s' = SlipFeeDelta s ∧
  r = default q (SlipFeeHubReserveAtBlockStart s !! a).
Proof.
  unfold snapshot_q0. intros Hq Hr. inv_cases; simpl.
  - split_and!; [apply moves_refl|intros []; eauto|done..].
  - split_and!; [|done..]. constructor; auto; [unfold hub_balance; simpl; lia|].
    intros []. constructor; simpl; [done| |done].
    intros b r. rewrite lookup_insert_Some. naive_solver.
Qed.

Lemma slip_fee_delta_valid a s : slip_typed s → SignedBalance.valid (slip_fee_delta a s).
Proof.
  intros [_ _ Hd]. unfold slip_fee_delta. destruct (SlipFeeDelta s !! a) eqn:E; simpl; [eauto|done].
Qed.

Lemma q0_snapshot_moves a q s v s' : fits u128 q → ensure_q0_snapshot a q s = Ok (v, s') → moves 0 s s'.
Proof.
  unfold ensure_q0_snapshot. intros Hq Hr. inv_cases; [|apply moves_refl].
  by eapply snapshot_moves.
Qed.

Lemma slip_config_permill c s : slip_typed s → SlipFee s = Some c → is_permill (config_max_slip_fee c).
Proof. intros [Hc _ _] E. apply Hc in E. unfold is_permill, PERMILL, max_allowed_slip_fee in *. lia. Qed.

Lemma load_slip_moves i qi out qo s slip s' :
  fits u128 qi → fits u128 qo → load_trade_slip_fees i qi out qo s = Ok (slip, s') →
  moves 0 s s' ∧ (slip_typed s → valid_slip slip).
Proof.
  unfold load_trade_slip_fees. intros Hi Ho Hr. inv_cases; [|split; [apply moves_refl|done]].
  repeat match goal with Hs : snapshot_q0 _ _ _ = Ok _ |- _ =>
    apply snapshot_moves in Hs as (? & ? & ? & ? & _); [|done] end.
  split; [eapply moves_trans_0; eassumption|]. intros Ht. simpl.
  match goal with H1 : moves 0 s ?t, H2 : moves 0 ?t _ |- _ =>
    pose proof (moves_slip _ _ _ H1 Ht) as Ht1; pose proof (moves_slip _ _ _ H2 Ht1) as Ht2 end.
  split_and!; [eauto|by apply slip_fee_delta_valid|eauto|by apply slip_fee_delta_valid|].
  by apply (slip_config_permill _ s).
Qed.

Lemma load_hub_slip_moves out qo s slip s' :
  fits u128 qo → load_hub_trade_slip_fees out qo s = Ok (slip, s') →
  moves 0 s s' ∧ (slip_typed s → valid_hub_slip slip).
Proof.
  unfold load_hub_trade_slip_fees. intros Ho Hr. inv_cases; [|split; [apply moves_refl|done]].
  match goal with Hs : snapshot_q0 _ _ _ = Ok _ |- _ =>
    apply snapshot_moves in Hs as (Hm & ? & ? & ? & _); [|done] end.
  split; [done|]. intros Ht. simpl. pose proof (moves_slip _ _ _ Hm Ht) as Ht1.
  split_and!; [eauto|by apply slip_fee_delta_valid|by apply (slip_config_permill _ s)].
Qed.

Lemma add_delta_moves a d s v s' :
  SignedBalance.valid d → add_slip_fee_delta a d s = Ok (v, s') → moves 0 s s'.
Proof.
  unfold add_slip_fee_delta, math_or. intros Hd Hr. inv_run.
  constructor; auto; [unfold hub_balance; simpl; lia|]. intros Ht. pose proof (slip_fee_delta_valid a s Ht) as Hv.
  destruct (signed_checked_add_cases _ _ Hv Hd) as [(w & E & Hw & _)|[E _]]; [|congruence].
  destruct Ht as [? ? Hds]. constructor; simpl; [done..|]. intros b d'. rewrite lookup_insert_Some. naive_solver.
Qed.

Lemma update_delta_moves i qi out qo s v s' :
  fits u128 qi → fits u128 qo → update_slip_fee_delta i qi out qo s = Ok (v, s') → moves 0 s s'.
Proof.
  unfold update_slip_fee_delta. intros Hi Ho Hr. inv_cases; [|apply moves_refl].
  eapply moves_trans_0; eapply add_delta_moves; [|eassumption| |eassumption]; done.
Qed.

Lemma update_hub_delta_moves out qo s v s' :
  fits u128 qo → update_slip_fee_delta_hub_trade out qo s = Ok (v, s') → moves 0 s s'.
Proof.
  unfold update_slip_fee_delta_hub_trade. intros Ho Hr. inv_cases; [|apply moves_refl].
  eapply add_delta_moves; [|eassumption]; done.
Qed.

(** ** Fees *)

Lemma taken_fee_total_fits es total :
  Forall (λ fee : Fee AccountId, 0 < fee_amount fee) es → taken_fee_total es = Some total → fits u128 total.
Proof.
  unfold taken_fee_total. intros Hes. assert (fits u128 0) as Hz by done. revert Hz. generalize 0 as acc.
  induction Hes as [|e es He Hes IH]; intros acc Hacc; simpl; [congruence|].
  destruct (checked_add u128 acc (fee_amount e)) as [acc'|] eqn:E.
  - apply IH. inv_run. unfold fits in *. lia.
  - clear. by induction es.
Qed.

Lemma trade_fee_moves trader a amount s total fees s' :
  a ≠ HubAssetId T → process_trade_fee T trader a amount s = Ok ((total, fees), s') →
  moves 0 s s' ∧ fits u128 total.
Proof.
  unfold process_trade_fee, ensure_or, math_or. intros Ha Hr. inv_ext.
  match goal with Hh : on_trade_fee _ _ _ _ _ _ = Ok _ |- _ => apply fee_hook_moves in Hh as [E _] end.
  split; [apply moves_ext; unfold hub_balance; rewrite E by congruence; lia|].
  eapply taken_fee_total_fits; [|eassumption]. unfold taken_fee_entries. apply Forall_forall.
  intros f Hf. by apply list_elem_of_filter in Hf as [? _].
Qed.

Lemma hub_amount_moves amount dest s v s' :
  0 <= amount → dest ≠ protocol_account T → process_hub_amount T amount dest s = Ok (v, s') →
  moves (- amount) s s'.
Proof.
  unfold process_hub_amount. intros Ha Hd Hr. destruct (Z.ltb_spec 0 amount).
  - inv_cases.
    + match goal with Ht : transfer _ _ _ _ _ _ = Ok _ |- _ => apply transfer_moves in Ht as (_ & E & _); [|done] end.
      apply moves_ext. rewrite E, moved_sender by congruence. unfold hub_balance. lia.
    + unfold call in *. inv_ext.
      match goal with Ht : withdraw _ _ _ _ _ = Ok _ |- _ => apply withdraw_subtracts in Ht as (_ & E & _); [|done] end.
      apply moves_ext. rewrite E, when_true by done. unfold hub_balance. lia.
  - inv_run. replace (- amount) with 0 by lia. apply moves_refl.
Qed.

(** ** Asset states *)

Definition state_sound (st : ReserveState.t) : Prop := valid_state (ReserveState.to_math st).

Lemma load_asset_state_Ok a s st s' :
  load_asset_state T a s = Ok (st, s') →
  s' = s ∧ ∃ ast, Assets s !! a = Some ast ∧
    st = ReserveState.of_asset_state ast (free_balance a (protocol_account T) (omni_ext s)).
Proof. unfold load_asset_state, some_or. intros Hr. inv_run. eauto. Qed.

Lemma loaded_sound ast a x :
  state_typed ast → state_sound (ReserveState.of_asset_state ast (free_balance a (protocol_account T) x)).
Proof. intros (? & ? & ?). pose proof (free_balance_fits a (protocol_account T) x). done. Qed.

Record change_unsigned (ch : AssetStateChange) : Prop := {
  unsigned_reserve : 0 <= BalanceUpdate.deref (delta_reserve ch);
  unsigned_hub : 0 <= BalanceUpdate.deref (delta_hub_reserve ch);
  unsigned_shares : 0 <= BalanceUpdate.deref (delta_shares ch);
  unsigned_protocol : 0 <= BalanceUpdate.deref (delta_protocol_shares ch);
  unsigned_extra : 0 <= BalanceUpdate.deref (extra_hub_reserve_amount ch);
}.

Lemma unsigned_total ch : change_unsigned ch → 0 <= BalanceUpdate.deref (total_delta_hub_reserve ch).
Proof. intros []. by apply update_saturating_merge_unsigned. Qed.

Lemma delta_update_Some st ch st' :
  change_unsigned ch → state_sound st → ReserveState.delta_update st ch = Some st' →
  state_sound st' ∧
  ReserveState.reserve st' = ReserveState.reserve st + BalanceUpdate.value (delta_reserve ch) ∧
  ReserveState.hub_reserve st' = ReserveState.hub_reserve st + BalanceUpdate.value (total_delta_hub_reserve ch) ∧
  ReserveState.shares st' = ReserveState.shares st + BalanceUpdate.value (delta_shares ch) ∧
  ReserveState.protocol_shares st' =
    ReserveState.protocol_shares st + BalanceUpdate.value (delta_protocol_shares ch).
Proof.
  intros Hch (H1 & H2 & H3 & H4) Hr. pose proof (unsigned_total ch Hch). destruct Hch.
  unfold ReserveState.delta_update in Hr. inv_run.
  repeat match goal with Ha : BalanceUpdate.add _ _ = Some _ |- _ =>
    apply update_add_unsigned in Ha as [? ?]; [|done..] end. done.
Qed.

(** Shares of an asset held by liquidity providers, and those in positions. *)
Definition lp_shares a m : Z :=
  match m !! a with
  | Some st => AssetState.shares st - AssetState.protocol_shares st
  | None => 0
  end.
Definition shares_of a (p : LpPosition.t) : Z := if LpPosition.asset_id p =? a then LpPosition.shares p else 0.
Definition position_shares a ps : Z := sum_map (shares_of a) ps.
Notation hub_total := (sum_map AssetState.hub_reserve).

Definition assets_typed m : Prop := ∀ a st, m !! a = Some st → state_typed st.

Lemma lp_shares_insert a b st m :
  lp_shares b (<[a := st]> m) =
    if decide (b = a) then AssetState.shares st - AssetState.protocol_shares st else lp_shares b m.
Proof. unfold lp_shares. rewrite lookup_insert. repeat case_decide; congruence. Qed.

Lemma assets_typed_insert a st m : state_typed st → assets_typed m → assets_typed (<[a := st]> m).
Proof. intros Hs Hm b st'. rewrite lookup_insert_Some. naive_solver. Qed.

Lemma position_shares_insert a id p ps :
  ps !! id = None → position_shares a (<[id := p]> ps) = shares_of a p + position_shares a ps.
Proof. apply sum_map_insert. Qed.
Lemma position_shares_update a id p p' ps :
  ps !! id = Some p → position_shares a (<[id := p']> ps) = position_shares a ps - shares_of a p + shares_of a p'.
Proof. apply sum_map_update. Qed.
Lemma position_shares_delete a id p ps :
  ps !! id = Some p → position_shares a (delete id ps) = position_shares a ps - shares_of a p.
Proof. intros E. unfold position_shares. rewrite (sum_map_delete _ ps id p E). lia. Qed.

(** ** The protocol fee goes to the HDX pool *)

Definition bump (e : Z) (st : AssetState.t) : AssetState.t :=
  AssetState.mk (AssetState.hub_reserve st + e) (AssetState.shares st) (AssetState.protocol_shares st)
    (AssetState.cap st) (AssetState.tradable st).

(** [m'] is [m] with [e] more hub asset in the HDX pool. *)
Inductive raised (e : Z) m : gmap Z AssetState.t → Prop :=
| raised_nothing : e = 0 → raised e m m
| raised_hdx st :
    0 < e → m !! HdxAssetId T = Some st → AssetState.hub_reserve st + e <= max_value u128 →
    raised e m (<[HdxAssetId T := bump e st]> m).

Record same_positions s s' : Prop := {
  same_pos : Positions s' = Positions s;
  same_next : NextPositionId s' = NextPositionId s;
  same_slip : slip_typed s → slip_typed s';
}.

Lemma set_assets_slip m s : slip_typed s → slip_typed (set_Assets m s).
Proof. by intros []. Qed.
Lemma set_positions_slip ps s : slip_typed s → slip_typed (set_Positions ps s).
Proof. by intros []. Qed.
Lemma set_next_slip n s : slip_typed s → slip_typed (set_NextPositionId n s).
Proof. by intros []. Qed.
#[local] Hint Resolve set_assets_slip set_positions_slip set_next_slip : core.

(** Open the steps of a run and express its last state by the first one. *)
Ltac open_moves :=
  repeat match goal with
  | Hm : moves _ _ _ |- _ => destruct Hm as [?EA ?EP ?EN ?EH ?ES]
  | Hm : same_positions _ _ |- _ => destruct Hm as [?EP ?EN ?ES]
  end; unfold hub_balance in *; simpl in *; fold hub_balance in *.
Ltac rewrite_moves :=
  repeat match goal with
  | E : Assets ?x = _ |- context [Assets ?x] => rewrite E
  | E : Positions ?x = _ |- context [Positions ?x] => rewrite E
  | E : NextPositionId ?x = _ |- context [NextPositionId ?x] => rewrite E
  | E : Assets ?x = _, Hx : Assets ?x !! _ = _ |- _ => rewrite E in Hx
  | E : Positions ?x = _, Hx : Positions ?x !! _ = _ |- _ => rewrite E in Hx
  end.

Lemma protocol_fee_run o fee burned s fees s' :
  0 <= burned <= fee → process_protocol_fee T o fee burned s = Ok (fees, s') →
  ∃ e, 0 <= e <= fee ∧ raised e (Assets s) (Assets s') ∧ hub_balance s' = hub_balance s + e ∧
    same_positions s s'.
Proof.
  unfold process_protocol_fee, increase_hdx_subpool_hub_reserve, try_mutate_asset, some_or, math_or, saturating_sub.
  intros Hb Hr. destruct (Z.eqb_spec fee 0); [inv_run; exists 0; split_and!; [lia..|by constructor|lia|done]|].
  destruct (Z.eqb_spec (Z.max 0 (fee - burned)) 0); [inv_run; exists 0; split_and!; [lia..|by constructor|lia|done]|].
  inv_run. apply update_hub_moves in H1; [|simpl; lia]. simpl in *. inv_run.
  repeat match goal with
  | Hl : load_asset_state _ _ _ = Ok _ |- _ => apply load_asset_state_Ok in Hl as (-> & ? & ? & ->)
  | Hl : get_and_store_fee _ _ _ _ = Ok _ |- _ => apply fee_store_moves in Hl as [? _]
  | Hl : call _ _ = Ok _ |- _ => apply call_frames in Hl; [|apply hub_trade_hook_frames]
  end.
  exists (fee - burned). rewrite Z.max_r in * by lia. open_moves. split_and!; [lia..| |lia|].
  - rewrite_moves. apply raised_hdx; [lia|congruence|done].
  - constructor; [congruence..|]. auto.
Qed.

(** Read every call of a run as a step. *)
Ltac to_moves :=
  repeat match goal with
  | Hl : load_asset_state _ _ _ = Ok _ |- _ => apply load_asset_state_Ok in Hl as (-> & ? & ? & ->)
  | Hl : get_and_store_fee _ _ _ _ = Ok _ |- _ => apply fee_store_moves in Hl as (? & ? & ?)
  | Hl : call (transfer _ _ _ _ _) _ = Ok _ |- _ => apply transfer_other in Hl; [|done..]
  | Hl : call _ _ = Ok _ |- _ => apply call_frames in Hl; [|solve [auto with omni_frames]]
  | Hl : update_hub_asset_liquidity _ _ _ = Ok _ |- _ => apply update_hub_moves in Hl; [|done]
  | Hl : update_slip_fee_delta _ _ _ _ _ = Ok _ |- _ => apply update_delta_moves in Hl; [|done..]
  | Hl : update_slip_fee_delta_hub_trade _ _ _ = Ok _ |- _ => apply update_hub_delta_moves in Hl; [|done]
  | Hl : ensure_q0_snapshot _ _ _ = Ok _ |- _ => apply q0_snapshot_moves in Hl; [|done]
  | Hl : deposit_event _ _ = Ok _ |- _ => apply event_moves in Hl
  | Hl : broadcast_event _ _ = Ok _ |- _ => apply broadcast_moves in Hl
  | Hl : push_context _ = Ok _ |- _ => apply push_moves in Hl
  | Hl : pop_context _ = Ok _ |- _ => apply pop_moves in Hl
  end.

(** ** Trades between two assets *)

(** The shape of the changes both trades compute. *)
Definition trade_shape (a_in : AssetReserveState) (ch : TradeStateChange) : Prop :=
  ∃ x q y d minted fee_a fee_p burned,
    ch = mkTradeChange
      (mkChange (Increase x) (Decrease q) BalanceUpdate.default BalanceUpdate.default BalanceUpdate.default)
      (mkChange (Decrease y) (Increase d) BalanceUpdate.default BalanceUpdate.default (Increase minted))
      (mkTradeFee fee_a fee_p burned) ∧
    q = d + fee_p ∧ 0 <= x ∧ 0 <= d ∧ 0 <= y ∧ fits u128 minted ∧ fits u128 fee_a ∧ 0 <= burned <= fee_p ∧
    keeps_product a_in (change_in ch).

Lemma sell_shape a_in a_out amount fa fp bf slip ch :
  valid_state a_in → valid_state a_out → fits u128 amount →
  is_permill fa → is_permill fp → is_permill bf → valid_slip slip →
  calculate_sell_state_changes a_in a_out amount fa fp bf slip = Some ch → trade_shape a_in ch.
Proof.
  intros Hin Hout Ha Hfa Hfp Hm Hslip Hrun.
  destruct (sell_changes_Some _ _ _ _ _ _ _ _ Hin Hout Ha Hfa Hfp Hm Hslip Hrun)
    as (dq & d & out & mn & fa' & fp' & b & -> & Hdq & Hd & Hb & Ho & Hfee & Hmn & _ & Hk1 & Hk2).
  pose proof (fits_nonneg _ _ Ha). pose proof (fits_nonneg _ _ Hmn).
  do 8 eexists. split; [reflexivity|]. split_and!; done || lia.
Qed.

Lemma buy_shape a_in a_out amount fa fp bf slip ch :
  valid_state a_in → valid_state a_out → fits u128 amount →
  is_permill fa → is_permill fp → is_permill bf → valid_slip slip →
  calculate_buy_state_changes a_in a_out amount fa fp bf slip = Some ch → trade_shape a_in ch.
Proof.
  intros Hin Hout Ha Hfa Hfp Hm Hslip Hrun.
  destruct (buy_changes_Some _ _ _ _ _ _ _ _ Hin Hout Ha Hfa Hfp Hm Hslip Hrun)
    as (dr & dq & d & mn & fa' & fp' & b & -> & Hdq & Hd & Hb & Hdr & Hfee & Hmn & Hk & _).
  pose proof (fits_nonneg _ _ Ha). pose proof (fits_nonneg _ _ Hmn).
  do 8 eexists. split; [reflexivity|]. split_and!; done || lia.
Qed.

Lemma burn_amount_nonneg taken total extra :
  0 <= taken → 0 <= total → 0 <= extra → 0 <= calculate_burn_amount_based_on_fee_taken taken total extra.
Proof.
  intros. unfold calculate_burn_amount_based_on_fee_taken, saturated_into.
  pose proof (max_value_nonneg u128 ltac:(done)). destruct (Z.eqb_spec total 0); [lia|].
  apply Z.min_glb; [|lia]. auto with nonneg.
Qed.

(** Accounting for the fee taken keeps the magnitudes unsigned. *)
Lemma account_unsigned ch burned :
  change_unsigned ch → 0 <= burned → change_unsigned (asset_account_for_fee_taken ch burned).
Proof. intros [] Hb. constructor; [done..|]. by apply update_saturating_merge_unsigned. Qed.

Lemma fee_taken_shape a_in ch taken :
  trade_shape a_in ch → 0 <= taken →
  change_unsigned (change_in (trade_account_for_fee_taken ch taken)) ∧
  change_unsigned (change_out (trade_account_for_fee_taken ch taken)).
Proof.
  intros (x & q & y & d & mn & fa & fp & b & -> & -> & ? & ? & ? & Hmn & Hfa & ? & _) Ht.
  apply fits_nonneg in Hmn, Hfa. split; [|apply account_unsigned; [|apply burn_amount_nonneg; simpl; lia]]; constructor; simpl; lia.
Qed.

Lemma fee_taken_fits st ch taken :
  state_sound st → trade_shape (ReserveState.to_math st) ch →
  fits u128 (BalanceUpdate.deref (delta_hub_reserve (change_in (trade_account_for_fee_taken ch taken)))) ∧
  fits u128 (BalanceUpdate.deref (delta_hub_reserve (change_out (trade_account_for_fee_taken ch taken)))) ∧
  0 <= burned_protocol_fee (trade_fee (trade_account_for_fee_taken ch taken))
    <= protocol_fee (trade_fee (trade_account_for_fee_taken ch taken)).
Proof.
  intros (_ & Hh & _) (x & q & y & d & mn & fa & fp & b & -> & -> & ? & ? & ? & ? & ? & ? & Hk).
  destruct Hk as (_ & Hk & _). unfold hub_after in Hk. simpl in *. unfold fits in *. lia.
Qed.

Lemma execute_trade_run o who i ist out ost ch op amt s new_in s' :
  i ≠ HubAssetId T → out ≠ HubAssetId T → state_sound ist → state_sound ost →
  trade_shape (ReserveState.to_math ist) ch →
  execute_trade T o who i ist out ost ch op amt s = Ok (new_in, s') →
  ∃ taken fees s1 new_out e,
    let ch' := trade_account_for_fee_taken ch taken in
    process_trade_fee T who out (asset_fee (trade_fee ch)) s = Ok ((taken, fees), s1) ∧
    ReserveState.delta_update ist (change_in ch') = Some new_in ∧
    ReserveState.delta_update ost (change_out ch') = Some new_out ∧
    fits u128 taken ∧ 0 <= e <= protocol_fee (trade_fee ch) ∧
    raised e (<[out := ReserveState.to_asset_state new_out]>
               (<[i := ReserveState.to_asset_state new_in]> (Assets s))) (Assets s') ∧
    hub_balance s' = hub_balance s + BalanceUpdate.value (total_delta_hub_reserve (change_in ch'))
      + BalanceUpdate.value (total_delta_hub_reserve (change_out ch')) + e ∧
    same_positions s s'.
Proof.
  intros Hi Hout Hist Host Hsh Hr. unfold execute_trade, math_or, set_asset_state in Hr. inv_run.
  destruct x as [taken fees]. inv_run.
  match goal with Hf : process_trade_fee _ _ _ _ _ = Ok _ |- _ =>
    pose proof Hf as Hfee; apply trade_fee_moves in Hf as [Hm1 Htk]; [|done] end.
  pose proof (fits_nonneg _ _ Htk).
  destruct (fee_taken_shape _ _ taken Hsh ltac:(lia)) as [Hui Huo].
  destruct (fee_taken_fits _ _ taken Hist Hsh) as (Hfi & Hfo & Hb).
  pose proof (unsigned_total _ Hui). pose proof (unsigned_total _ Huo).
  pose proof Hui as [Hx _ _ _ _]. pose proof Huo as [Hy _ _ _ _].
  match goal with Hg : BalanceUpdate.merge _ _ = Some _ |- _ => apply update_merge_Some in Hg as [? ?]; [|done..] end.
  to_moves.
  match goal with Hg : process_protocol_fee _ _ _ _ _ = Ok _ |- _ =>
    apply protocol_fee_run in Hg as (e & He & Hra & ? & ?); [|done] end.
  exists taken, fees. do 3 eexists. simpl in He. split_and!; [exact Hfee|done..|exact (proj1 He)|lia| | |]; open_moves.
  - revert Hra. by rewrite_moves.
  - lia.
  - constructor; [congruence..|]. auto 20.
Qed.

(** ** The invariant *)

Record omni_inv s : Prop := {
  inv_hub : hub_balance s = hub_total (Assets s);
  inv_shares a : position_shares a (Positions s) = lp_shares a (Assets s);
  inv_assets : assets_typed (Assets s);
  inv_positions id p : Positions s !! id = Some p → id < NextPositionId s ∧ position_typed p;
  inv_next : 0 <= NextPositionId s <= max_value u128;
  inv_slip : slip_typed s;
  inv_no_hub : Assets s !! HubAssetId T = None;
}.

(** Steps that move no hub asset keep it. *)
Lemma moves_inv s s' : moves 0 s s' → omni_inv s → omni_inv s'.
Proof. intros [EA EP EN EH ES] []. constructor; rewrite ?EA, ?EP, ?EN; [lia|done..|auto|done]. Qed.

Lemma raised_total e m m' : raised e m m' → hub_total m' = hub_total m + e.
Proof.
  intros [->|st He Hst _]; [lia|]. rewrite (sum_map_update _ _ _ st) by done. simpl. lia.
Qed.
Lemma raised_lp e m m' a : raised e m m' → lp_shares a m' = lp_shares a m.
Proof.
  intros [->|st He Hst _]; [done|]. rewrite lp_shares_insert. case_decide; [|done].
  subst. unfold lp_shares. by rewrite Hst.
Qed.
Lemma raised_typed e m m' : raised e m m' → assets_typed m → assets_typed m'.
Proof.
  intros [->|st He Hst Hb] Hm; [done|]. apply assets_typed_insert; [|done].
  destruct (Hm _ _ Hst) as (? & ? & ?). split_and!; [|done..]. unfold fits in *. simpl. lia.
Qed.
Lemma raised_other e m m' a : raised e m m' → a ≠ HdxAssetId T → m' !! a = m !! a.
Proof. intros [->|st He Hst Hb] Ha; [done|]. by rewrite lookup_insert_ne. Qed.

Lemma to_asset_state_typed st : state_sound st → state_typed (ReserveState.to_asset_state st).
Proof. by intros (? & ? & ? & ?). Qed.

(** Writing a new state over an asset, the hub asset moved by as much. *)
Lemma write_asset_inv s s' a ast st :
  omni_inv s → Assets s !! a = Some ast → state_typed st →
  Assets s' = <[a := st]> (Assets s) →
  hub_balance s' = hub_balance s + (AssetState.hub_reserve st - AssetState.hub_reserve ast) →
  (∀ b, position_shares b (Positions s') = position_shares b (Positions s)
     + if decide (b = a) then (AssetState.shares st - AssetState.protocol_shares st)
         - (AssetState.shares ast - AssetState.protocol_shares ast) else 0) →
  (∀ id p, Positions s' !! id = Some p → id < NextPositionId s' ∧ position_typed p) →
  0 <= NextPositionId s' <= max_value u128 → slip_typed s' → omni_inv s'.
Proof.
  intros [] Ha Hst EA EH EP Hp Hn Hs. constructor; try done; rewrite ?EA.
  - rewrite (sum_map_update _ _ _ ast) by done. lia.
  - intros b. rewrite EP, lp_shares_insert, inv_shares0. case_decide; [|lia]. subst.
    unfold lp_shares. rewrite Ha. lia.
  - by apply assets_typed_insert.
  - rewrite lookup_insert_ne; congruence.
Qed.

(** A loaded asset: its stored state with a balance as reserve. *)
Definition loaded s a (st : ReserveState.t) : Prop :=
  ∃ ast r, Assets s !! a = Some ast ∧ st = ReserveState.of_asset_state ast r ∧ fits u128 r.

Lemma loaded_state_sound s a st : omni_inv s → loaded s a st → state_sound st.
Proof. intros Hi (ast & r & E & -> & Hr). by destruct (inv_assets _ Hi _ _ E) as (? & ? & ?). Qed.
Lemma loaded_not_hub s a st : omni_inv s → loaded s a st → a ≠ HubAssetId T.
Proof. intros [] (ast & r & E & _) ->. congruence. Qed.

Lemma load_loaded a s st s' : load_asset_state T a s = Ok (st, s') → s' = s ∧ loaded s a st.
Proof.
  intros Hl. apply load_asset_state_Ok in Hl as (-> & ast & E & ->). split; [done|].
  do 2 eexists. split_and!; [done..|]. apply free_balance_fits.
Qed.
Lemma moves_loaded d s s' a st : moves d s s' → loaded s a st → loaded s' a st.
Proof. intros [EA _ _ _ _] (ast & r & E & -> & Hr). exists ast, r. by rewrite EA. Qed.

(** A trade moves no shares. *)
Lemma trade_states st ch st' :
  change_unsigned ch → delta_shares ch = BalanceUpdate.default →
  delta_protocol_shares ch = BalanceUpdate.default → state_sound st →
  ReserveState.delta_update st ch = Some st' →
  state_sound st' ∧ ReserveState.shares st' = ReserveState.shares st ∧
  ReserveState.protocol_shares st' = ReserveState.protocol_shares st ∧
  ReserveState.hub_reserve st' = ReserveState.hub_reserve st + BalanceUpdate.value (total_delta_hub_reserve ch).
Proof.
  intros Hch E1 E2 Hst Hu. apply delta_update_Some in Hu as (? & _ & ? & ? & ?); [|done..].
  rewrite E1, E2 in *. simpl in *. split_and!; [done|lia..].
Qed.

Lemma trade_shape_shares a_in ch taken :
  trade_shape a_in ch →
  let ch' := trade_account_for_fee_taken ch taken in
  delta_shares (change_in ch') = BalanceUpdate.default ∧
  delta_protocol_shares (change_in ch') = BalanceUpdate.default ∧
  delta_shares (change_out ch') = BalanceUpdate.default ∧
  delta_protocol_shares (change_out ch') = BalanceUpdate.default.
Proof. by intros (x & q & y & d & mn & fa & fp & b & -> & _). Qed.

(** The pool that is sold into keeps its product. *)
Lemma trade_in_product st ch taken st' :
  state_sound st → trade_shape (ReserveState.to_math st) ch → 0 <= taken →
  ReserveState.delta_update st (change_in (trade_account_for_fee_taken ch taken)) = Some st' →
  ReserveState.reserve st * ReserveState.hub_reserve st <= ReserveState.reserve st' * ReserveState.hub_reserve st'.
Proof.
  intros Hst Hsh Ht Hu. pose proof (fee_taken_shape _ _ _ Hsh Ht) as [Hch _].
  apply delta_update_Some in Hu as (_ & -> & -> & _); [|done..].
  destruct Hsh as (x & q & y & d & mn & fa & fp & b & -> & -> & ? & ? & ? & ? & ? & ? & (_ & _ & Hk)).
  unfold trade_account_for_fee_taken, total_delta_hub_reserve, reserve_after, hub_after in *. simpl in *.
  case_match; propify; simpl; unfold saturating_sub; [rewrite Z.max_r by lia|lia].
  by rewrite Z.sub_0_r.
Qed.

(** What a trade does to the storage: two states rewritten, the protocol fee
    added to the HDX pool, the hub asset moved by as much. *)
Lemma execute_trade_effect o who i ist out ost ch op amt s new_in s' :
  omni_inv s → loaded s i ist → loaded s out ost → i ≠ out →
  trade_shape (ReserveState.to_math ist) ch →
  execute_trade T o who i ist out ost ch op amt s = Ok (new_in, s') →
  omni_inv s' ∧ ∃ new_out e,
    state_sound new_in ∧
    ReserveState.reserve ist * ReserveState.hub_reserve ist
      <= ReserveState.reserve new_in * ReserveState.hub_reserve new_in ∧
    raised e (<[out := ReserveState.to_asset_state new_out]>
               (<[i := ReserveState.to_asset_state new_in]> (Assets s))) (Assets s').
Proof.
  intros Hinv Hli Hlo Hne Hsh Hr.
  pose proof (loaded_state_sound _ _ _ Hinv Hli) as Hsi. pose proof (loaded_state_sound _ _ _ Hinv Hlo) as Hso.
  pose proof (loaded_not_hub _ _ _ Hinv Hli) as Hhi. pose proof (loaded_not_hub _ _ _ Hinv Hlo) as Hho.
  eapply execute_trade_run in Hr as (tk & _ & _ & new_out & e & _ & Hui & Huo & Htk & He & Hra & Hhub & Hpos); [|done..].
  destruct (fee_taken_shape _ _ tk Hsh ltac:(unfold fits in *; lia)) as [Hchi Hcho].
  destruct (trade_shape_shares _ _ tk Hsh) as (Z1 & Z2 & Z3 & Z4).
  pose proof (trade_in_product _ _ _ _ Hsi Hsh (fits_nonneg _ _ Htk) Hui) as Hprod.
  apply trade_states in Hui as (Hni & Si & Pi & Qi); [|done..].
  apply trade_states in Huo as (Hno & So & Po & Qo); [|done..].
  split; [|eauto 10]. destruct Hli as (ai & ri & Ei & -> & _), Hlo as (ao & ro & Eo & -> & _). simpl in *.
  pose proof (raised_total _ _ _ Hra) as Ht.
  rewrite (sum_map_update _ _ _ ao), (sum_map_update _ _ _ ai) in Ht
    by (done || by rewrite lookup_insert_ne). simpl in Ht.
  destruct Hinv, Hpos as [EP EN ES]. constructor; rewrite ?EP, ?EN; try done; [lia|..|auto|].
  - intros a. rewrite (raised_lp _ _ _ a Hra), !lp_shares_insert, inv_shares0. unfold lp_shares.
    repeat case_decide; subst; rewrite ?Ei, ?Eo; simpl; lia.
  - eapply raised_typed; [done|]. repeat apply assets_typed_insert; auto using to_asset_state_typed.
  - pose proof hdx_not_hub. rewrite (raised_other _ _ _ _ Hra), !lookup_insert_ne by congruence. done.
Qed.

(** ** Trades with the hub asset *)

Definition hub_shape (ch : HubTradeStateChange) : Prop :=
  ∃ y d minted fee_a fee_s,
    ch = mkHubTradeChange
      (mkChange (Decrease y) (Increase d) BalanceUpdate.default BalanceUpdate.default (Increase minted))
      (mkTradeFee fee_a fee_s 0) ∧
    0 <= y ∧ fits u128 d ∧ fits u128 minted ∧ fits u128 fee_a.

Lemma sell_hub_shape a_out amount fa slip ch :
  valid_state a_out → fits u128 amount → is_permill fa → valid_hub_slip slip →
  calculate_sell_hub_state_changes a_out amount fa slip = Some ch → hub_shape ch.
Proof.
  intros Hout Ha Hfa Hslip Hrun.
  destruct (sell_hub_changes_Some _ _ _ _ _ Hout Ha Hfa Hslip Hrun)
    as (o & mn & f1 & f2 & -> & ? & ? & ? & ? & _ & _).
  do 5 eexists. split; [reflexivity|done].
Qed.
Lemma buy_hub_shape a_out amount fa slip ch :
  valid_state a_out → fits u128 amount → is_permill fa →
  calculate_buy_for_hub_asset_state_changes a_out amount fa slip = Some ch → hub_shape ch.
Proof.
  intros Hout Ha Hfa Hrun.
  destruct (buy_hub_changes_Some _ _ _ _ _ Hout Ha Hfa Hrun) as (d & mn & f1 & f2 & -> & ? & ? & ? & ? & _).
  pose proof (fits_nonneg _ _ Ha). do 5 eexists. split; [reflexivity|done].
Qed.

Lemma hub_taken_unsigned ch taken :
  hub_shape ch → 0 <= taken → change_unsigned (hub_change (hub_account_for_fee_taken ch taken)).
Proof.
  intros (y & d & mn & fa & fs & -> & ? & Hd & Hmn & Hfa) Ht. apply fits_nonneg in Hd, Hmn, Hfa.
  apply account_unsigned; [constructor; simpl; lia|]. by apply burn_amount_nonneg.
Qed.

(** A hub trade whose new state is in range did not saturate. *)
Lemma hub_total_exact ch taken st st' :
  hub_shape ch → 0 <= taken → state_sound st →
  BalanceUpdate.deref (delta_hub_reserve (hub_change ch)) <= ReserveState.hub_reserve st →
  let ch' := hub_change (hub_account_for_fee_taken ch taken) in
  ReserveState.delta_update st ch' = Some st' →
  state_sound st' ∧ ReserveState.shares st' = ReserveState.shares st ∧
  ReserveState.protocol_shares st' = ReserveState.protocol_shares st ∧
  ReserveState.hub_reserve st' = ReserveState.hub_reserve st
    + BalanceUpdate.deref (delta_hub_reserve (hub_change ch))
    + BalanceUpdate.value (extra_hub_reserve_amount ch').
Proof.
  intros Hsh Ht Hst Hle ch' Hu. pose proof (hub_taken_unsigned _ _ Hsh Ht) as Hch. fold ch' in Hch.
  assert (delta_shares ch' = BalanceUpdate.default ∧ delta_protocol_shares ch' = BalanceUpdate.default ∧
    ∃ d e, delta_hub_reserve ch' = Increase d ∧ d = BalanceUpdate.deref (delta_hub_reserve (hub_change ch)) ∧
      extra_hub_reserve_amount ch' = e ∧ fits u128 d ∧ - max_value u128 <= BalanceUpdate.value e <= max_value u128)
    as (E1 & E2 & d & e & E3 & Ed & E4 & Hd & He).
  { destruct Hsh as (y & d & mn & fa & fs & -> & ? & Hd & Hmn & ?). do 2 (split; [done|]).
    do 2 eexists. do 3 (split; [done|]). split; [done|]. subst ch'. simpl.
    pose proof (burn_amount_nonneg taken fa mn Ht ltac:(unfold fits in *; lia) ltac:(unfold fits in *; lia)).
    assert (calculate_burn_amount_based_on_fee_taken taken fa mn <= max_value u128).
    { unfold calculate_burn_amount_based_on_fee_taken, saturated_into. case_match; [done|lia]. }
    unfold fits in *. case_match; simpl; unfold saturating_sub; lia. }
  destruct (trade_states _ _ _ Hch E1 E2 Hst Hu) as (Hs' & ? & ? & Hq). split_and!; try done.
  rewrite Hq, E4. unfold total_delta_hub_reserve in *. rewrite E3, E4 in *. rewrite <- Ed in *.
  destruct Hs' as (_ & Hb & _). destruct Hst as (_ & Hb0 & _). destruct Hch. rewrite E4 in *. simpl in *.
  unfold fits in *. destruct e as [e|e]; simpl in *; repeat case_match; propify; simpl in *;
    unfold saturating_add, saturating_sub in *; lia.
Qed.

Lemma settle_hub_trade_inv o who out st ch taken fees op s v s' :
  omni_inv s → loaded s out st → who ≠ protocol_account T → hub_shape ch → 0 <= taken →
  BalanceUpdate.deref (delta_hub_reserve (hub_change ch)) <= ReserveState.hub_reserve st →
  settle_hub_trade T o who out st (hub_account_for_fee_taken ch taken) fees op s = Ok (v, s') →
  omni_inv s'.
Proof.
  intros Hinv Hlo Hwho Hsh Ht Hle Hr. unfold settle_hub_trade, math_or, set_asset_state in Hr. inv_run.
  pose proof (loaded_state_sound _ _ _ Hinv Hlo) as Hso. pose proof (loaded_not_hub _ _ _ Hinv Hlo) as Hho.
  pose proof (hub_taken_unsigned _ _ Hsh Ht) as Hch.
  match goal with Hu : ReserveState.delta_update _ _ = Some _ |- _ =>
    apply hub_total_exact in Hu as (Hns & ES' & EP' & EQ); [|done..] end.
  assert (fits u128 (BalanceUpdate.deref (delta_hub_reserve (hub_change (hub_account_for_fee_taken ch taken)))) ∧
    delta_hub_reserve (hub_change (hub_account_for_fee_taken ch taken)) = delta_hub_reserve (hub_change ch))
    as [Hfd Ed] by (destruct Hsh as (? & ? & ? & ? & ? & -> & ? & ? & ? & ?); done).
  pose proof (fits_nonneg _ _ Hfd). pose proof Hch as [? _ _ _ ?].
  match goal with Hl : call (transfer (HubAssetId T) _ _ _ _) _ = Ok _ |- _ =>
    apply transfer_moves_hub in Hl; [|done]; rewrite moved_receiver, Ed in Hl by congruence end.
  to_moves. destruct Hlo as (ast & r & E & -> & Hfr). simpl in *.
  eapply (write_asset_inv s _ out ast); [done|done|exact (to_asset_state_typed _ Hns)|..]; open_moves.
  - by rewrite_moves.
  - lia.
  - intros b. rewrite_moves. case_decide; lia.
  - rewrite_moves. apply Hinv.
  - rewrite_moves. apply Hinv.
  - destruct Hinv. auto 20.
Qed.

Lemma div_ratio_le x r : 0 <= r → r ≠ 0 → 0 <= x → x / r <= x.
Proof. intros. apply Z.div_le_upper_bound; nia. Qed.

(** What follows the computation of a hub trade. *)
Lemma hub_trade_tail o who out st s s1 s2 ch amount taken fees op v s' :
  omni_inv s → loaded s out st → who ≠ protocol_account T → moves 0 s s1 → hub_shape ch →
  BalanceUpdate.deref (delta_hub_reserve (hub_change ch)) <= ReserveState.hub_reserve st / MaxInRatio T →
  MaxInRatio T ≠ 0 →
  process_trade_fee T who out amount s1 = Ok ((taken, fees), s2) →
  settle_hub_trade T o who out st (hub_account_for_fee_taken ch taken) fees op s2 = Ok (v, s') →
  omni_inv s'.
Proof.
  intros Hinv Hlo Hwho Hm Hsh Hle Hmax Hf Hs.
  pose proof (loaded_state_sound _ _ _ Hinv Hlo) as (_ & Hq & _). simpl in Hq. apply fits_nonneg in Hq.
  apply trade_fee_moves in Hf as [Hm2 Htk]; [|by eapply loaded_not_hub]. apply fits_nonneg in Htk.
  pose proof (moves_trans _ _ _ _ _ Hm Hm2) as Hm3. simpl in Hm3.
  destruct max_ratios_unsigned as [Hr _]. pose proof (div_ratio_le _ _ Hr Hmax Hq).
  eapply settle_hub_trade_inv; [exact (moves_inv _ _ Hm3 Hinv)|exact (moves_loaded _ _ _ _ _ Hm3 Hlo)|..|exact Hs];
    done || lia.
Qed.

Lemma sell_hub_asset_inv o who out amount limit s v s' :
  omni_inv s → who ≠ protocol_account T → fits u128 amount →
  sell_hub_asset T o who out amount limit s = Ok (v, s') → omni_inv s'.
Proof.
  intros Hinv Hwho Ha Hr. unfold sell_hub_asset in Hr. inv_pallet.
  match goal with Hl : load_asset_state _ _ _ = Ok _ |- _ => apply load_loaded in Hl as [-> Hl0] end.
  pose proof (loaded_state_sound _ _ _ Hinv Hl0) as Hso. pose proof Hso as (_ & Hq & _). simpl in Hq.
  match goal with Hl : get_and_store_fee _ _ _ _ = Ok _ |- _ => apply fee_store_moves in Hl as (Hm1 & Hf1 & _) end.
  match goal with Hl : load_hub_trade_slip_fees _ _ _ = Ok _ |- _ =>
    apply load_hub_slip_moves in Hl as [Hm2 Hsl]; [|done] end.
  pose proof (moves_inv _ _ Hm1 Hinv) as [].
  match goal with Hl : calculate_sell_hub_state_changes _ _ _ _ = Some ?c |- _ =>
    pose proof (sell_hub_changes_Some _ _ _ _ _ Hso Ha Hf1 ltac:(auto) Hl) as (? & ? & ? & ? & E & _);
    apply sell_hub_shape in Hl; [|auto..] end.
  eapply hub_trade_tail; [done|done|done|by eapply moves_trans_0|done| |done..]. by rewrite E.
Qed.

Lemma buy_for_hub_asset_inv o who out amount limit s v s' :
  omni_inv s → who ≠ protocol_account T → fits u128 amount →
  buy_asset_for_hub_asset T o who out amount limit s = Ok (v, s') → omni_inv s'.
Proof.
  intros Hinv Hwho Ha Hr. unfold buy_asset_for_hub_asset in Hr. inv_pallet.
  match goal with Hl : load_asset_state _ _ _ = Ok _ |- _ => apply load_loaded in Hl as [-> Hl0] end.
  pose proof (loaded_state_sound _ _ _ Hinv Hl0) as Hso. pose proof Hso as (_ & Hq & _). simpl in Hq.
  match goal with Hl : get_and_store_fee _ _ _ _ = Ok _ |- _ => apply fee_store_moves in Hl as (Hm1 & Hf1 & _) end.
  match goal with Hl : load_hub_trade_slip_fees _ _ _ = Ok _ |- _ =>
    apply load_hub_slip_moves in Hl as [Hm2 Hsl]; [|done] end.
  match goal with Hl : calculate_buy_for_hub_asset_state_changes _ _ _ _ = Some ?c |- _ =>
    apply buy_hub_shape in Hl; [|auto..] end.
  eapply hub_trade_tail; [done|done|done|by eapply moves_trans_0|done..].
Qed.

(** ** The calls *)

Lemma hub_rest_state i ist out ost s r s' :
  hub_balance_excluding_swap_assets T i ist out ost s = Ok (r, s') → s' = s.
Proof.
  unfold hub_balance_excluding_swap_assets, load_asset_state. intros Hr. inv_pallet.
  case_match; inv_pallet; done.
Qed.
Lemma trade_check_state i ist new_in out r s v s' :
  ensure_trade_invariant T i ist new_in out r s = Ok (v, s') → s' = s.
Proof. unfold ensure_trade_invariant. intros Hr. inv_pallet. case_match; inv_pallet; done. Qed.
Lemma liquidity_check_state st st' s v s' : ensure_liquidity_invariant st st' s = Ok (v, s') → s' = s.
Proof. unfold ensure_liquidity_invariant. intros Hr. by inv_pallet. Qed.

(** The quote of a trade: fees and slip fees in force, loaded one by one. *)
Lemma quote_moves i out s fo s1 fi s2 slip s3 qi qo ri ro :
  fits u128 qi → fits u128 qo → omni_inv s →
  get_and_store_fee T out ro s = Ok (fo, s1) → get_and_store_fee T i ri s1 = Ok (fi, s2) →
  load_trade_slip_fees i qi out qo s2 = Ok (slip, s3) →
  moves 0 s s3 ∧ is_permill fo.1 ∧ is_permill fi.2 ∧ valid_slip slip.
Proof.
  intros Hqi Hqo Hinv Ho Hi Hs. apply fee_store_moves in Ho as (Hm1 & ? & _), Hi as (Hm2 & _ & ?).
  apply load_slip_moves in Hs as [Hm3 Hsl]; [|done..].
  pose proof (moves_inv _ _ Hm2 (moves_inv _ _ Hm1 Hinv)) as [].
  split_and!; [|done..|auto]. eauto using moves_trans_0.
Qed.

Lemma trade_hub_fits st : state_sound st → fits u128 (ReserveState.hub_reserve st).
Proof. by intros (_ & ? & _). Qed.

(** Read a trade between two assets up to the computation of its changes, and
    conclude from the shape of the changes. *)
Ltac open_trade :=
  repeat match goal with
  | Hl : load_asset_state _ _ _ = Ok _ |- _ => apply load_loaded in Hl as [-> ?]
  | Hl : hub_balance_excluding_swap_assets _ _ _ _ _ _ = Ok _ |- _ => apply hub_rest_state in Hl as ->
  | Hl : ensure_trade_invariant _ _ _ _ _ _ _ = Ok _ |- _ => apply trade_check_state in Hl as ->
  end;
  match goal with Hv : omni_inv ?s, Hi : loaded ?s _ ?si, Ho : loaded ?s _ ?so |- _ =>
    pose proof (loaded_state_sound _ _ _ Hv Hi); pose proof (loaded_state_sound _ _ _ Hv Ho) end;
  match goal with Hl : load_trade_slip_fees _ _ _ _ _ = Ok _ |- _ =>
    eapply quote_moves in Hl as (? & ? & ? & ?); [|done || by apply trade_hub_fits..] end.
Ltac close_trade :=
  match goal with Hx : execute_trade _ _ _ _ _ _ _ _ _ _ _ = Ok _, Hm : moves _ ?s _, Hv : omni_inv ?s |- _ =>
    eapply execute_trade_effect in Hx as [? _];
      [done|exact (moves_inv _ _ Hm Hv)|by eapply moves_loaded|by eapply moves_loaded|congruence|done] end.

Lemma sell_inv o i out amount limit s v s' :
  omni_inv s → o ≠ Signed (protocol_account T) → fits u128 amount →
  sell T o i out amount limit s = Ok (v, s') → omni_inv s'.
Proof.
  intros Hinv Hwho Ha Hr. unfold sell in Hr. inv_pallet.
  case_match; [eapply sell_hub_asset_inv in Hr; [done..|congruence|done]|].
  case_match; [unfold sell_asset_for_hub_asset in *; inv_pallet|].
  unfold settle_trade in *. inv_pallet. open_trade.
  match goal with Hc : calculate_sell_state_changes _ _ _ _ _ _ _ = Some _ |- _ =>
    apply sell_shape in Hc; [|done || apply burn_permill..] end.
  close_trade.
Qed.

Lemma buy_inv o out i amount limit s v s' :
  omni_inv s → o ≠ Signed (protocol_account T) → fits u128 amount →
  buy T o out i amount limit s = Ok (v, s') → omni_inv s'.
Proof.
  intros Hinv Hwho Ha Hr. unfold buy in Hr. inv_pallet.
  case_match; [unfold buy_hub_asset in *; inv_pallet|].
  case_match; [eapply buy_for_hub_asset_inv in Hr; [done..|congruence|done]|].
  unfold settle_trade in *. inv_pallet. open_trade.
  match goal with Hc : calculate_buy_state_changes _ _ _ _ _ _ _ = Some _ |- _ =>
    apply buy_shape in Hc; [|done || apply burn_permill..] end.
  close_trade.
Qed.

(** ** Liquidity *)

Lemma mint_position_run owner s id s' :
  create_and_mint_position_instance T owner s = Ok (id, s') →
  id = NextPositionId s ∧ id + 1 <= max_value u128 ∧
  ∃ s1, moves 0 s s1 ∧ s' = set_NextPositionId (id + 1) s1.
Proof.
  unfold create_and_mint_position_instance. intros Hr. inv_pallet. to_moves. eauto.
Qed.

Lemma fresh_position_shares a s id p :
  omni_inv s → id = NextPositionId s →
  position_shares a (<[id := p]> (Positions s)) = position_shares a (Positions s) + shares_of a p.
Proof.
  intros [] ->. rewrite position_shares_insert; [lia|]. destruct (Positions s !! NextPositionId s) eqn:E; [|done].
  apply inv_positions0 in E as [? _]. lia.
Qed.

Lemma insert_position_typed s id p id' :
  omni_inv s → position_typed p → id < id' → NextPositionId s <= id' →
  ∀ k q, <[id := p]> (Positions s) !! k = Some q → k < id' ∧ position_typed q.
Proof.
  intros [] Hp Hid Hn k q [[-> ->]|[_ E]]%lookup_insert_Some; [done|].
  apply inv_positions0 in E as [? ?]. split; [lia|done].
Qed.

Lemma add_liquidity_inv o a amount limit s v s' :
  omni_inv s → fits u128 amount → do_add_liquidity T o a amount limit s = Ok (v, s') → omni_inv s'.
Proof.
  intros Hinv Ha Hr. unfold do_add_liquidity, put_position, set_asset_state in Hr. inv_pallet.
  match goal with Hl : load_asset_state _ _ _ = Ok _ |- _ => apply load_loaded in Hl as [-> Hl0] end.
  pose proof (loaded_state_sound _ _ _ Hinv Hl0) as Hso. pose proof (loaded_not_hub _ _ _ Hinv Hl0) as Hho.
  pose proof (trade_hub_fits _ Hso).
  match goal with Hc : calculate_add_liquidity_state_changes _ _ = Some _ |- _ =>
    apply add_changes_Some in Hc as (dh & ds & -> & Hdh & Hds); [|done..] end.
  match goal with Hl : create_and_mint_position_instance _ _ _ = Ok _ |- _ =>
    apply mint_position_run in Hl as (-> & Hnx & s1 & Hm1 & ->) end.
  match goal with Hl : ensure_liquidity_invariant _ _ _ = Ok _ |- _ =>
    apply liquidity_check_state in Hl as -> end.
  simpl in *. pose proof (fits_nonneg _ _ Hdh). pose proof (fits_nonneg _ _ Hds). pose proof (fits_nonneg _ _ Ha).
  match goal with Hu : ReserveState.delta_update _ ?ch = Some _ |- _ =>
    assert (change_unsigned ch) as Hch by (constructor; simpl; lia); pose proof (unsigned_total _ Hch);
    apply delta_update_Some in Hu as (Hns & Er & Eq & Es & Ep); [|done..] end.
  to_moves. pose proof Hns as (Hn1 & Hn2 & _). destruct Hl0 as (ast & r & E & -> & Hfr). simpl in *.
  eapply (write_asset_inv s _ a ast); [done|done|exact (to_asset_state_typed _ Hns)|..]; open_moves.
  - by rewrite_moves.
  - lia.
  - intros b. rewrite_moves. erewrite fresh_position_shares by (done || congruence).
    unfold shares_of. simpl. case_decide; case_match; propify; lia.
  - rewrite_moves. eapply insert_position_typed; [done|split_and!; done|lia..].
  - rewrite_moves. pose proof (inv_next _ Hinv). lia.
  - destruct Hinv. auto 20.
Qed.

(** The withdrawal fee is a fraction. *)
Lemma withdrawal_fee_fits spot oracle fee :
  calculate_withdrawal_fee spot oracle (MinWithdrawalFee T) = Some fee → fits u128 fee.
Proof.
  unfold calculate_withdrawal_fee. pose proof min_fee_permill as Hm. rewrite fixed_from_permill_spec by done.
  unfold is_permill in Hm. change (DIV / PERMILL) with 1000000000000. unfold PERMILL in *.
  intros Hr. unfold fits, max_value, u128. destruct (oracle =? 0); inv_run; unfold DIV; lia.
Qed.

(** The hub asset of a removal: what is burned and what the provider gets. *)
Lemma remove_hub_moves ch hub u dest s1 v1 s2 v2 s3 :
  change_unsigned ch → 0 <= hub → dest ≠ protocol_account T →
  BalanceUpdate.merge (total_delta_hub_reserve ch) (Increase hub) = Some u →
  update_hub_asset_liquidity T u s1 = Ok (v1, s2) → process_hub_amount T hub dest s2 = Ok (v2, s3) →
  moves (BalanceUpdate.value (total_delta_hub_reserve ch)) s1 s3.
Proof.
  intros Hch Hh Hd Hm Hu Hp. pose proof (unsigned_total _ Hch).
  apply update_merge_Some in Hm as [? Ev]; [|done..]. apply update_hub_moves in Hu; [|done].
  apply hub_amount_moves in Hp; [|done..]. pose proof (moves_trans _ _ _ _ _ Hu Hp) as Hmv.
  rewrite Ev in Hmv. simpl in Hmv. by replace (BalanceUpdate.value (total_delta_hub_reserve ch))
    with (BalanceUpdate.value (total_delta_hub_reserve ch) + hub + - hub) by lia.
Qed.

Lemma drop_position_typed s id n :
  omni_inv s → NextPositionId s <= n →
  ∀ k q, delete id (Positions s) !! k = Some q → k < n ∧ position_typed q.
Proof. intros [] Hn k q [_ E]%lookup_delete_Some. apply inv_positions0 in E as [? ?]. split; [lia|done]. Qed.

Lemma store_position_run who id a p s s0 v s' q :
  omni_inv s0 → Positions s = Positions s0 → NextPositionId s = NextPositionId s0 →
  Positions s !! id = Some q → LpPosition.asset_id p = LpPosition.asset_id q → position_typed p →
  store_position T who id a p s = Ok (v, s') →
  Assets s' = Assets s ∧ NextPositionId s' = NextPositionId s ∧ hub_balance s' = hub_balance s ∧
  (slip_typed s → slip_typed s') ∧
  (∀ b, position_shares b (Positions s') = position_shares b (Positions s) - shares_of b q + shares_of b p) ∧
  (∀ k q, Positions s' !! k = Some q → k < NextPositionId s' ∧ position_typed q).
Proof.
  intros Hinv EP EN Hq Ea Hp Hr. rewrite EP in Hq.
  pose proof (inv_positions _ Hinv _ _ Hq) as [Hid _].
  unfold store_position, drop_position, put_position in Hr. destruct (Z.eqb_spec (LpPosition.shares p) 0) as [E0|].
  - inv_pallet. to_moves. open_moves. rewrite_moves. split_and!; [done|lia| |auto|..].
    + unfold hub_balance in *. lia.
    + intros b. rewrite ?EP, (position_shares_delete _ _ q) by done. unfold shares_of.
      rewrite E0. repeat case_match; lia.
    + rewrite ?EP, ?EN. by apply drop_position_typed.
  - inv_pallet. to_moves. open_moves. split_and!; [congruence|lia| |auto|..].
    + unfold hub_balance in *. simpl. lia.
    + intros b. rewrite_moves. by rewrite (position_shares_update _ _ q).
    + rewrite_moves. by apply insert_position_typed.
Qed.

Lemma remove_liquidity_inv o id amount limit s v s' :
  omni_inv s → o ≠ Signed (protocol_account T) → fits u128 amount →
  do_remove_liquidity T o id amount limit s = Ok (v, s') → omni_inv s'.
Proof.
  intros Hinv Hwho Ha Hr. unfold do_remove_liquidity, set_asset_state in Hr. inv_pallet.
  match goal with Hl : load_asset_state _ _ _ = Ok _ |- _ => apply load_loaded in Hl as [-> Hl0] end.
  pose proof (loaded_state_sound _ _ _ Hinv Hl0) as Hso. pose proof (loaded_not_hub _ _ _ Hinv Hl0) as Hho.
  pose proof (trade_hub_fits _ Hso).
  match goal with Hp : Positions s !! _ = Some _ |- _ =>
    pose proof (inv_positions _ Hinv _ _ Hp) as [Hid (Hp1 & Hp2 & Hp3 & Hp4)] end.
  match goal with Hl : calculate_withdrawal_fee _ _ _ = Some _ |- _ => apply withdrawal_fee_fits in Hl as Hfee end.
  match goal with Hc : calculate_remove_liquidity_state_changes _ _ _ _ = Some _ |- _ =>
    apply remove_changes_Some in Hc as (r & h & b & db & pa & hub & -> & Eb & ? & ? & ? & ? & ? & ?); [|done..] end.
  match goal with Hl : ensure_liquidity_invariant _ _ _ = Ok _ |- _ =>
    apply liquidity_check_state in Hl as -> end.
  simpl in *.
  match goal with Hu : ReserveState.delta_update _ ?ch = Some _ |- _ =>
    assert (change_unsigned ch) as Hch by (constructor; simpl; lia);
    apply delta_update_Some in Hu as (Hns & Er & Eq & Es & Ep); [|done..] end.
  match goal with Hm : BalanceUpdate.merge _ _ = Some _, Hu : update_hub_asset_liquidity _ _ _ = Ok _,
    Hp : process_hub_amount _ _ ?d _ = Ok _ |- _ =>
    pose proof (remove_hub_moves _ _ _ d _ _ _ _ _ Hch ltac:(done) ltac:(congruence) Hm Hu Hp); clear Hm Hu Hp end.
  match goal with Hl : LpPosition.delta_update _ _ _ = Some _ |- _ =>
    unfold LpPosition.delta_update in Hl; simpl in Hl; inv_run end.
  to_moves. destruct Hl0 as (ast & rr & E & -> & Hfr). simpl in *.
  match goal with Hl : store_position _ _ _ _ _ _ = Ok _ |- _ => rename Hl into Hstore end. open_moves.
  eapply (store_position_run _ _ _ _ _ s) in Hstore as (EA' & EN' & EH' & ES' & EP' & HP');
    [|done|congruence|congruence|by rewrite_moves|done|split_and!; [unfold fits in *; simpl; lia..|done|done]].
  unfold hub_balance in EH'.
  eapply (write_asset_inv s _ (LpPosition.asset_id x7) ast); [done|done|exact (to_asset_state_typed _ Hns)|..]; unfold hub_balance; simpl.
  - by rewrite_moves.
  - lia.
  - intros c. rewrite_moves. rewrite EP'. rewrite_moves. unfold shares_of. simpl.
    case_decide; repeat case_match; propify; subst; try lia; congruence.
  - revert HP'. by rewrite_moves.
  - rewrite_moves. apply Hinv.
  - destruct Hinv. auto 20.
Qed.

(** ** Governance *)

Lemma sacrifice_position_inv o id s v s' :
  omni_inv s → sacrifice_position T o id s = Ok (v, s') → omni_inv s'.
Proof.
  intros Hinv Hr. unfold sacrifice_position, try_mutate_asset, drop_position in Hr. inv_pallet.
  match goal with Hp : Positions s !! _ = Some _ |- _ =>
    pose proof (inv_positions _ Hinv _ _ Hp) as [Hid (_ & Hp2 & _)] end.
  match goal with Ha : Assets s !! _ = Some ?st |- _ => pose proof (inv_assets _ Hinv _ _ Ha) as (Q & S & P);
    rename st into ast end.
  to_moves. eapply (write_asset_inv s _ _ ast); [done|done| |open_moves; by rewrite_moves|..]; open_moves.
  - split_and!; [done..|]. unfold fits in *. simpl. lia.
  - lia.
  - intros b. rewrite_moves. erewrite position_shares_delete by done. unfold shares_of. simpl.
    case_decide; case_match; propify; subst; try lia; congruence.
  - rewrite_moves. by apply drop_position_typed.
  - rewrite_moves. apply Hinv.
  - destruct Hinv. auto 20.
Qed.

Lemma new_asset_inv s s' a st :
  omni_inv s → Assets s !! a = None → a ≠ HubAssetId T → state_typed st →
  Assets s' = <[a := st]> (Assets s) →
  hub_balance s' = hub_balance s + AssetState.hub_reserve st →
  (∀ b, position_shares b (Positions s') = position_shares b (Positions s)
     + if decide (b = a) then AssetState.shares st - AssetState.protocol_shares st else 0) →
  (∀ id p, Positions s' !! id = Some p → id < NextPositionId s' ∧ position_typed p) →
  0 <= NextPositionId s' <= max_value u128 → slip_typed s' → omni_inv s'.
Proof.
  intros [] Ha Hne Hst EA EH EP Hp Hn Hs. constructor; try done; rewrite ?EA.
  - rewrite sum_map_insert by done. lia.
  - intros b. rewrite EP, lp_shares_insert, inv_shares0. case_decide; [|lia]. subst.
    unfold lp_shares. rewrite Ha. lia.
  - by apply assets_typed_insert.
  - rewrite lookup_insert_ne; congruence.
Qed.

Lemma add_token_inv o a price cap owner s v s' :
  omni_inv s → a ≠ HubAssetId T → fits u128 price →
  add_token T o a price cap owner s = Ok (v, s') → omni_inv s'.
Proof.
  intros Hinv Hne Hp Hr. unfold add_token, put_position in Hr. inv_pallet.
  pose proof (moves_ledger _ _ (collection_frames (omni_ext s))) as Hcol.
  pose proof (free_balance_fits a (protocol_account T) (nft_create_collection T (omni_ext s))) as Hfb.
  simpl in *. set (amount := free_balance a _ _) in *.
  match goal with Hm : fixed_checked_mul_int _ _ = Some ?h |- _ =>
    assert (fits u128 h) as Hh; [rewrite fixed_checked_mul_int_spec in Hm by done; inv_run|] end.
  { split; [apply div_nonneg; unfold fits, DIV in *; nia|done]. }
  pose proof (fits_nonneg _ _ Hh).
  match goal with Hl : create_and_mint_position_instance _ _ _ = Ok _ |- _ =>
    apply mint_position_run in Hl as (-> & Hnx & s1 & Hm1 & ->) end. simpl in *.
  to_moves. eapply (new_asset_inv s); [done|done|done| |open_moves; by rewrite_moves|..]; open_moves.
  - done.
  - lia.
  - intros b. rewrite_moves. erewrite fresh_position_shares by (done || congruence).
    unfold shares_of. simpl. case_decide; case_match; propify; lia.
  - rewrite_moves. eapply insert_position_typed; [done|split_and!; done|lia..].
  - rewrite_moves. pose proof (inv_next _ Hinv). lia.
  - destruct Hinv. auto 20.
Qed.

Lemma set_tradable_inv o a t s v s' :
  omni_inv s → set_asset_tradable_state T o a t s = Ok (v, s') → omni_inv s'.
Proof.
  intros Hinv Hr. unfold set_asset_tradable_state, try_mutate_asset in Hr. inv_pallet. case_match; inv_pallet.
  - to_moves. match goal with Hm : moves 0 ?t _ |- _ => eapply (moves_inv t); [exact Hm|] end.
    by destruct Hinv as [? ? ? ? ? [? ? ?] ?].
  - match goal with Ha : Assets s !! _ = Some ?st |- _ => pose proof (inv_assets _ Hinv _ _ Ha) as (Q & S & P);
      rename st into ast end.
    to_moves. eapply (write_asset_inv s _ _ ast); [done|done| |open_moves; by rewrite_moves|..]; open_moves;
      [done|lia|intros b; rewrite_moves; case_decide; lia|rewrite_moves; apply Hinv..|destruct Hinv; auto 20].
Qed.

Lemma set_weight_cap_inv o a c s v s' :
  omni_inv s → set_asset_weight_cap T o a c s = Ok (v, s') → omni_inv s'.
Proof.
  intros Hinv Hr. unfold set_asset_weight_cap, try_mutate_asset in Hr. inv_pallet.
  match goal with Ha : Assets s !! _ = Some ?st |- _ => pose proof (inv_assets _ Hinv _ _ Ha) as (Q & S & P);
    rename st into ast end.
  to_moves. eapply (write_asset_inv s _ _ ast); [done|done| |open_moves; by rewrite_moves|..]; open_moves;
    [done|lia|intros b; rewrite_moves; case_decide; lia|rewrite_moves; apply Hinv..|destruct Hinv; auto 20].
Qed.

Lemma refund_inv o a amount to s v s' :
  omni_inv s → 0 <= amount → refund_refused_asset T o a amount to s = Ok (v, s') → omni_inv s'.
Proof.
  intros Hinv Ha Hr. unfold refund_refused_asset in Hr. inv_pallet. to_moves. eauto using moves_inv.
Qed.

Lemma withdraw_protocol_inv o a amount price dest s v s' :
  omni_inv s → dest ≠ protocol_account T → fits u128 amount → fits u128 price.1 → fits u128 price.2 →
  withdraw_protocol_liquidity T o a amount price dest s = Ok (v, s') → omni_inv s'.
Proof.
  intros Hinv Hdest Ha Hp1 Hp2 Hr. unfold withdraw_protocol_liquidity, set_asset_state in Hr. inv_pallet.
  match goal with Hl : load_asset_state _ _ _ = Ok _ |- _ => apply load_loaded in Hl as [-> Hl0] end.
  pose proof (loaded_state_sound _ _ _ Hinv Hl0) as Hso. pose proof (loaded_not_hub _ _ _ Hinv Hl0) as Hho.
  match goal with Hc : calculate_remove_liquidity_state_changes _ _ _ _ = Some _ |- _ =>
    apply remove_changes_Some in Hc as (r & h & b & db & pa & hub & -> & Eb & ? & ? & ? & ? & ? & ?); [|done..] end.
  simpl in *.
  match goal with Hu : ReserveState.delta_update _ ?ch = Some _ |- _ =>
    assert (change_unsigned ch) as Hch by (constructor; simpl; lia);
    apply delta_update_Some in Hu as (Hns & Er & Eq & Es & Ep); [|done..] end.
  match goal with Hm : BalanceUpdate.merge _ _ = Some _, Hu : update_hub_asset_liquidity _ _ _ = Ok _,
    Hp : process_hub_amount _ _ ?d _ = Ok _ |- _ =>
    pose proof (remove_hub_moves _ _ _ d _ _ _ _ _ Hch ltac:(done) ltac:(congruence) Hm Hu Hp); clear Hm Hu Hp end.
  to_moves. destruct Hl0 as (ast & rr & E & -> & Hfr). destruct Hns as (N1 & N2 & N3 & N4). simpl in *.
  eapply (write_asset_inv s _ a ast); [done|done| |open_moves; by rewrite_moves|..]; open_moves;
    unfold saturating_sub in *; simpl in *.
  - split_and!; [done..|]. unfold fits in *. simpl. lia.
  - lia.
  - intros c. rewrite_moves. case_decide; lia.
  - rewrite_moves. apply Hinv.
  - rewrite_moves. apply Hinv.
  - destruct Hinv. auto 20.
Qed.

Lemma remove_token_inv o a to s v s' :
  omni_inv s → remove_token T o a to s = Ok (v, s') → omni_inv s'.
Proof.
  intros Hinv Hr. unfold remove_token in Hr. inv_pallet.
  match goal with Hl : load_asset_state _ _ _ = Ok _ |- _ => apply load_loaded in Hl as [-> Hl0] end.
  pose proof (loaded_state_sound _ _ _ Hinv Hl0) as (Hs1 & Hs2 & _).
  pose proof (loaded_not_hub _ _ _ Hinv Hl0) as Hho. simpl in *.
  pose proof (fits_nonneg _ _ Hs1). pose proof (fits_nonneg _ _ Hs2).
  match goal with Hw : call (withdraw _ _ ?b _) ?s0 = Ok (?u, ?s1) |- _ =>
    assert (moves (- b) s0 s1) by (by apply (update_hub_moves (Decrease b) s0 u s1)); clear Hw end.
  to_moves. destruct Hl0 as (ast & rr & E & -> & Hfr). simpl in *. open_moves.
  pose proof (sum_map_delete AssetState.hub_reserve _ _ _ E). destruct Hinv.
  constructor; rewrite_moves; [unfold hub_balance in *; lia|..|done|done|auto 20|].
  - intros b. rewrite inv_shares0. unfold lp_shares. rewrite lookup_delete. case_decide; [subst; rewrite E; lia|done].
  - intros b st [_ Hb]%lookup_delete_Some. eauto.
  - rewrite lookup_delete_ne by congruence. done.
Qed.

Lemma set_slip_fee_inv o c s v s' :
  omni_inv s → (∀ cf, c = Some cf → 0 <= config_max_slip_fee cf) →
  set_slip_fee T o c s = Ok (v, s') → omni_inv s'.
Proof.
  intros Hinv Hc Hr. unfold set_slip_fee in Hr. inv_pallet. destruct c as [cf|]; inv_pallet;
    to_moves; (match goal with Hm : moves 0 ?t _ |- _ => eapply (moves_inv t); [exact Hm|] end);
    destruct Hinv as [? ? ? ? ? [? ? ?] ?]; constructor; try done; constructor; simpl; try done.
  intros ? [= <-]. split; [by apply Hc|done].
Qed.

Lemma finalize_inv s : omni_inv s → omni_inv (on_finalize s).
Proof. by intros [? ? ? ? ? [? ? ?] ?]. Qed.

(** ** Reachable states *)

(** A step of the chain: a call of the pallet that succeeds, the end of a block,
    or anything else that leaves the protocol account's hub asset alone.  The
    protocol account signs nothing, and the runtime's call filter keeps others
    from sending it the hub asset. *)
Inductive omni_step s : omni → Prop :=
| step_sell o i out amount limit v s' :
    o ≠ Signed (protocol_account T) → fits u128 amount →
    sell T o i out amount limit s = Ok (v, s') → omni_step s s'
| step_buy o out i amount limit v s' :
    o ≠ Signed (protocol_account T) → fits u128 amount →
    buy T o out i amount limit s = Ok (v, s') → omni_step s s'
| step_add_liquidity o a amount limit v s' :
    fits u128 amount → add_liquidity_with_limit T o a amount limit s = Ok (v, s') → omni_step s s'
| step_add_all_liquidity o a limit v s' :
    add_all_liquidity T o a limit s = Ok (v, s') → omni_step s s'
| step_remove_liquidity o id amount limit v s' :
    o ≠ Signed (protocol_account T) → fits u128 amount →
    remove_liquidity_with_limit T o id amount limit s = Ok (v, s') → omni_step s s'
| step_remove_all_liquidity o id limit v s' :
    o ≠ Signed (protocol_account T) →
    remove_all_liquidity T o id limit s = Ok (v, s') → omni_step s s'
| step_sacrifice o id v s' : sacrifice_position T o id s = Ok (v, s') → omni_step s s'
| step_add_token o a price cap owner v s' :
    a ≠ HubAssetId T → fits u128 price → add_token T o a price cap owner s = Ok (v, s') → omni_step s s'
| step_set_tradable o a t v s' : set_asset_tradable_state T o a t s = Ok (v, s') → omni_step s s'
| step_refund o a amount to v s' :
    0 <= amount → refund_refused_asset T o a amount to s = Ok (v, s') → omni_step s s'
| step_weight_cap o a c v s' : set_asset_weight_cap T o a c s = Ok (v, s') → omni_step s s'
| step_withdraw_protocol o a amount price dest v s' :
    dest ≠ protocol_account T → fits u128 amount → fits u128 price.1 → fits u128 price.2 →
    withdraw_protocol_liquidity T o a amount price dest s = Ok (v, s') → omni_step s s'
| step_remove_token o a to v s' : remove_token T o a to s = Ok (v, s') → omni_step s s'
| step_slip_fee o c v s' :
    (∀ cf, c = Some cf → 0 <= config_max_slip_fee cf) →
    set_slip_fee T o c s = Ok (v, s') → omni_step s s'
| step_finalize : omni_step s (on_finalize s)
| step_elsewhere x :
    free_balance (HubAssetId T) (protocol_account T) x = hub_balance s → omni_step s (set_omni_ext x s).

Lemma step_inv s s' : omni_inv s → omni_step s s' → omni_inv s'.
Proof.
  intros Hinv [].
  - by eapply sell_inv.
  - by eapply buy_inv.
  - unfold add_liquidity_with_limit in *. inv_pallet. by eapply add_liquidity_inv.
  - unfold add_all_liquidity in *. inv_pallet. eapply add_liquidity_inv; [done| |done]. apply free_balance_fits.
  - unfold remove_liquidity_with_limit in *. inv_pallet. by eapply remove_liquidity_inv.
  - unfold remove_all_liquidity, remove_liquidity_with_limit in *. inv_pallet.
    match goal with Hp : Positions s !! _ = Some ?p, Hr : do_remove_liquidity _ _ _ _ _ _ = Ok _ |- _ =>
      apply remove_liquidity_inv in Hr; [done|done|done|apply (inv_positions _ Hinv _ _ Hp)] end.
  - by eapply sacrifice_position_inv.
  - by eapply add_token_inv.
  - by eapply set_tradable_inv.
  - by eapply refund_inv.
  - by eapply set_weight_cap_inv.
  - match goal with Hr : withdraw_protocol_liquidity _ _ _ _ _ _ _ = Ok _ |- _ =>
      by apply withdraw_protocol_inv in Hr end.
  - by eapply remove_token_inv.
  - by eapply set_slip_fee_inv.
  - by apply finalize_inv.
  - eapply moves_inv; [|done]. apply moves_ext. lia.
Qed.

(** The empty pool. *)
Record omni_genesis s : Prop := {
  genesis_assets : Assets s = ∅;
  genesis_positions : Positions s = ∅;
  genesis_next : NextPositionId s = 0;
  genesis_slip_fee : SlipFee s = None;
  genesis_snapshots : SlipFeeHubReserveAtBlockStart s = ∅;
  genesis_deltas : SlipFeeDelta s = ∅;
  genesis_hub : hub_balance s = 0;
}.

Definition omni_reachable s : Prop := ∃ s0, omni_genesis s0 ∧ rtc omni_step s0 s.

Lemma genesis_inv s : omni_genesis s → omni_inv s.
Proof.
  intros [EA EP EN ES E1 E2 EH]. constructor; rewrite ?EA, ?EP, ?EN; try done.
  constructor; rewrite ?ES, ?E1, ?E2; done.
Qed.

Lemma reachable_inv s : omni_reachable s → omni_inv s.
Proof.
  intros (s0 & Hg & Hr). apply genesis_inv in Hg. induction Hr as [|s0 s1 s2 Hst _ IH]; [done|].
  eauto using step_inv.
Qed.

(** ** The consistency check of the pallet *)

Lemma position_totals_spec ps a :
  default 0 (position_totals ps !! a) = position_shares a ps ∧
  (is_Some (position_totals ps !! a) ↔ ∃ id p, ps !! id = Some p ∧ LpPosition.asset_id p = a).
Proof.
  revert a. unfold position_totals.
  apply (map_fold_weak_ind (λ r ps, ∀ a, default 0 (r !! a) = position_shares a ps ∧
    (is_Some (r !! a) ↔ ∃ id p, ps !! id = Some p ∧ LpPosition.asset_id p = a))).
  - intros a. rewrite lookup_empty. split; [done|]. split; [by intros []|]. intros (id & p & E & _).
    by rewrite lookup_empty in E.
  - intros id p ps' r Hid IH a. rewrite position_shares_insert by done. destruct (IH a) as [<- Hi].
    assert ((∃ id' q, <[id := p]> ps' !! id' = Some q ∧ LpPosition.asset_id q = a) ↔
      LpPosition.asset_id p = a ∨ is_Some (r !! a)) as ->.
    { rewrite Hi. split.
      - intros (id' & q & [[-> ->]|[? ?]]%lookup_insert_Some & Ea); eauto.
      - intros [Ea|(id' & q & E & Ea)]; [exists id, p; by rewrite lookup_insert_eq|].
        exists id', q. split; [|done]. rewrite lookup_insert_ne; [done|]. intros ->. congruence. }
    unfold shares_of. destruct (Z.eqb_spec (LpPosition.asset_id p) a) as [<-|Hne].
    + destruct (r !! LpPosition.asset_id p); rewrite lookup_insert_eq; simpl; (split; [lia|naive_solver]).
    + assert (∀ v, <[LpPosition.asset_id p := v]> r !! a = r !! a) as Hl by (intros; by apply lookup_insert_ne).
      destruct (r !! LpPosition.asset_id p); rewrite Hl; (split; [lia|naive_solver]).
Qed.

(** The check passes exactly when the two accounts balance: the hub asset, and
    the shares of every asset that has a position. *)
Lemma try_state_iff s :
  try_state T s = true ↔
  hub_balance s = hub_total (Assets s) ∧
  ∀ id p, Positions s !! id = Some p → ∃ st, Assets s !! LpPosition.asset_id p = Some st ∧
    AssetState.shares st - AssetState.protocol_shares st
      = position_shares (LpPosition.asset_id p) (Positions s).
Proof.
  unfold try_state. rewrite andb_true_iff, Z.eqb_eq, forallb_forall. apply and_iff_compat_l. split.
  - intros Hf id p E. destruct (position_totals_spec (Positions s) (LpPosition.asset_id p)) as [Et Hs].
    destruct (proj2 Hs) as [t Ht]; [eauto|]. rewrite Ht in Et. simpl in Et. subst.
    specialize (Hf (LpPosition.asset_id p, position_shares (LpPosition.asset_id p) (Positions s))). simpl in Hf.
    destruct (Assets s !! LpPosition.asset_id p) as [st|]; [exists st; split; [done|]|].
    + apply Z.eqb_eq, Hf, list_elem_of_In. by apply elem_of_map_to_list.
    + exfalso. assert (false = true); [|done]. apply Hf, list_elem_of_In. by apply elem_of_map_to_list.
  - intros Hp [a t] Ht%list_elem_of_In%elem_of_map_to_list. simpl.
    destruct (position_totals_spec (Positions s) a) as [Et Hs]. rewrite Ht in Et. simpl in Et. subst.
    destruct (proj1 Hs) as (id & p & E & <-); [eauto|]. destruct (Hp _ _ E) as (st & -> & ->). by apply Z.eqb_eq.
Qed.

(** ** The theorems *)

(** Shares are unsigned: an asset whose positions total nothing has only empty
    positions. *)
Lemma position_shares_ge s id p :
  omni_inv s → Positions s !! id = Some p →
  LpPosition.shares p <= position_shares (LpPosition.asset_id p) (Positions s).
Proof.
  intros Hinv E. unfold position_shares. rewrite (sum_map_delete _ _ _ _ E). unfold shares_of at 1.
  rewrite Z.eqb_refl. enough (0 <= sum_map (shares_of (LpPosition.asset_id p)) (delete id (Positions s))) by lia.
  apply sum_map_nonneg. intros k q [_ Hq]%lookup_delete_Some. unfold shares_of.
  apply (inv_positions _ Hinv) in Hq as [_ (_ & Hs & _)]. apply fits_nonneg in Hs. case_match; lia.
Qed.




(** ** The defensive checks of a trade *)

(** The errors of the checks. *)
Definition is_check_error (e : DispatchError OmniError.t) : bool :=
  match e with
  | ModuleError OmniError.InvariantError | ModuleError OmniError.InvalidOmnipoolHubReserve => true
  | _ => false
  end.

(** [quiet m]: [m] never fails with such an error. *)
Definition quiet {A} (m : M omni (DispatchError OmniError.t) A) : Prop :=
  ∀ s e, m s = Err e → is_check_error e = false.

Lemma quiet_bind {A B} (m : M omni (DispatchError OmniError.t) A) (f : A → M omni _ B) :
  quiet m → (∀ r : A, quiet (f r)) → quiet (m ≫= f).
Proof. intros Hm Hf s e [?|(a & s' & _ & ?)]%M_bind_Err; [by eapply Hm|by eapply Hf]. Qed.
Lemma quiet_ret {A} (r : A) : quiet (mret r).
Proof. done. Qed.
Lemma quiet_get : quiet get.
Proof. done. Qed.
Lemma quiet_gets {A} (f : omni → A) : quiet (gets f).
Proof. done. Qed.
Lemma quiet_modify f : quiet (modify f).
Proof. done. Qed.
Lemma quiet_ensure b e : is_check_error (ModuleError e) = false → quiet (ensure_or b e).
Proof. intros He s e'. unfold ensure_or, ensureM, lift. destruct b; simpl; congruence. Qed.
Lemma quiet_some {A} (r : option A) e : is_check_error (ModuleError e) = false → quiet (some_or r e).
Proof. intros He s e'. unfold some_or, lift. destruct r; simpl; congruence. Qed.
Lemma quiet_math {A} (r : option A) e : quiet (math_or r e).
Proof. intros s e'. unfold math_or, lift. destruct r; simpl; naive_solver. Qed.
Lemma quiet_ext {A} f : quiet (on_ext (A := A) omni_ext set_omni_ext f).
Proof. intros s e'. unfold on_ext. repeat case_match; naive_solver. Qed.
Lemma quiet_call f : quiet (call f).
Proof. apply quiet_ext. Qed.
Lemma quiet_signed o : quiet (lift (ensure_signed o)).
Proof. intros s e'. unfold lift. destruct o; naive_solver. Qed.
Lemma quiet_fee a r : quiet (get_and_store_fee T a r).
Proof. intros s e'. unfold get_and_store_fee. by case_match. Qed.
Lemma quiet_push : quiet push_context.
Proof. intros s e'. unfold push_context. repeat case_match; naive_solver. Qed.
Lemma quiet_pop : quiet pop_context.
Proof. intros s e'. unfold pop_context. repeat case_match; naive_solver. Qed.
#[local] Hint Resolve quiet_ret quiet_get quiet_gets quiet_modify quiet_ensure quiet_some quiet_math quiet_ext
  quiet_call quiet_signed quiet_fee quiet_push quiet_pop : quiet.

Ltac solve_quiet :=
  repeat first
    [ solve [auto with quiet]
    | apply quiet_bind; [|intros ?]
    | case_match ].

Lemma quiet_load a : quiet (load_asset_state T a).
Proof. unfold load_asset_state. solve_quiet. Qed.
Lemma quiet_hub u : quiet (update_hub_asset_liquidity T u).
Proof. unfold update_hub_asset_liquidity. solve_quiet. Qed.
#[local] Hint Resolve quiet_load quiet_hub : quiet.
Lemma quiet_snapshot a q : quiet (snapshot_q0 a q).
Proof. unfold snapshot_q0. solve_quiet. Qed.
#[local] Hint Resolve quiet_snapshot : quiet.
Lemma quiet_slip i qi out qo : quiet (load_trade_slip_fees i qi out qo).
Proof. unfold load_trade_slip_fees. solve_quiet. Qed.
Lemma quiet_hub_slip out qo : quiet (load_hub_trade_slip_fees out qo).
Proof. unfold load_hub_trade_slip_fees. solve_quiet. Qed.
Lemma quiet_delta i qi out qo : quiet (update_slip_fee_delta i qi out qo).
Proof. unfold update_slip_fee_delta, add_slip_fee_delta. solve_quiet. Qed.
Lemma quiet_hub_delta out qo : quiet (update_slip_fee_delta_hub_trade out qo).
Proof. unfold update_slip_fee_delta_hub_trade, add_slip_fee_delta. solve_quiet. Qed.
Lemma quiet_trade_fee who a amount : quiet (process_trade_fee T who a amount).
Proof. unfold process_trade_fee. solve_quiet. Qed.
Lemma quiet_protocol_fee o f b : quiet (process_protocol_fee T o f b).
Proof. unfold process_protocol_fee, increase_hdx_subpool_hub_reserve, try_mutate_asset. solve_quiet. Qed.
#[local] Hint Resolve quiet_slip quiet_hub_slip quiet_delta quiet_hub_delta quiet_trade_fee quiet_protocol_fee : quiet.

Lemma quiet_execute o who i ist out ost ch op amt : quiet (execute_trade T o who i ist out ost ch op amt).
Proof. unfold execute_trade, deposit_event, broadcast_event, set_asset_state. solve_quiet. Qed.
Lemma quiet_sell_hub o who out amount limit : quiet (sell_hub_asset T o who out amount limit).
Proof.
  unfold sell_hub_asset, settle_hub_trade, deposit_event, broadcast_event, set_asset_state. solve_quiet.
Qed.
Lemma quiet_buy_for_hub o who out amount limit : quiet (buy_asset_for_hub_asset T o who out amount limit).
Proof.
  unfold buy_asset_for_hub_asset, settle_hub_trade, deposit_event, broadcast_event, set_asset_state. solve_quiet.
Qed.

(** The hub asset of the HDX pool, when it is not one of the two traded. *)
Definition hdx_part (i out : AssetId) m : Z :=
  if bool_decide (HdxAssetId T = i) || bool_decide (HdxAssetId T = out) then 0
  else AssetState.hub_reserve (default (AssetState.mk 0 0 0 0 0) (m !! HdxAssetId T)).
Definition rest (i out : AssetId) m : gmap Z AssetState.t := delete (HdxAssetId T) (delete out (delete i m)).

Lemma delete_total (m : gmap Z AssetState.t) k :
  hub_total m = AssetState.hub_reserve (default (AssetState.mk 0 0 0 0 0) (m !! k)) + hub_total (delete k m).
Proof.
  destruct (m !! k) eqn:E; [by apply sum_map_delete|]. rewrite delete_id by done. done.
Qed.

Lemma total_split i out m ai ao :
  i ≠ out → m !! i = Some ai → m !! out = Some ao →
  hub_total m = AssetState.hub_reserve ai + AssetState.hub_reserve ao + hdx_part i out m + hub_total (rest i out m).
Proof.
  intros Hne Hi Ho. rewrite (delete_total m i), Hi, (delete_total (delete i m) out).
  rewrite lookup_delete_ne, Ho by done. unfold rest. rewrite (delete_total (delete out (delete i m)) (HdxAssetId T)).
  unfold hdx_part. simpl. destruct (decide (HdxAssetId T = out)) as [->|].
  - rewrite lookup_delete_eq, (bool_decide_true (out = out)), orb_true_r by done. simpl. lia.
  - rewrite lookup_delete_ne by done. destruct (decide (HdxAssetId T = i)) as [->|].
    + rewrite lookup_delete_eq, (bool_decide_true (i = i)) by done. simpl. lia.
    + rewrite lookup_delete_ne, !bool_decide_false by done. simpl. lia.
Qed.

Lemma rest_nonneg i out m : assets_typed m → 0 <= hub_total (rest i out m) ∧ 0 <= hdx_part i out m.
Proof.
  intros Hm. split.
  - apply sum_map_nonneg. intros k st Hk. unfold rest in Hk. rewrite !lookup_delete_Some in Hk.
    destruct Hk as (_ & _ & _ & Hk). apply Hm in Hk as [Hk _]. by apply fits_nonneg in Hk.
  - unfold hdx_part. case_match; [done|]. destruct (m !! HdxAssetId T) eqn:E; [|done].
    apply Hm in E as [E _]. by apply fits_nonneg in E.
Qed.

(** A trade leaves the other pools alone. *)
Lemma raised_rest e i out m m' sti sto :
  raised e (<[out := sto]> (<[i := sti]> m)) m' → rest i out m' = rest i out m.
Proof.
  intros Hr. apply map_eq. intros k. unfold rest. rewrite !lookup_delete. repeat case_decide; try done.
  rewrite (raised_other _ _ _ _ Hr) by congruence. by rewrite !lookup_insert_ne by congruence.
Qed.

Lemma hdx_test i out :
  negb (HdxAssetId T =? i) && negb (HdxAssetId T =? out)
    = negb (bool_decide (HdxAssetId T = i) || bool_decide (HdxAssetId T = out)).
Proof. rewrite negb_orb. repeat case_bool_decide; destruct (Z.eqb_spec (HdxAssetId T) i),
  (Z.eqb_spec (HdxAssetId T) out); done || congruence. Qed.

Lemma hub_rest_value i ist out ost s r s' :
  omni_inv s → i ≠ out → loaded s i ist → loaded s out ost →
  hub_balance_excluding_swap_assets T i ist out ost s = Ok (r, s') →
  r = hub_total (rest i out (Assets s)) ∧
  (HdxAssetId T ≠ i → HdxAssetId T ≠ out → is_Some (Assets s !! HdxAssetId T)).
Proof.
  intros Hinv Hne (ai & ri & Ei & -> & _) (ao & ro & Eo & -> & _) Hr.
  pose proof (total_split _ _ _ _ _ Hne Ei Eo) as Ht. rewrite <- (inv_hub _ Hinv) in Ht. unfold hub_balance in Ht.
  unfold hub_balance_excluding_swap_assets in Hr. inv_pallet. rewrite hdx_test in *.
  pose proof (rest_nonneg i out _ (inv_assets _ Hinv)) as [? ?]. unfold saturating_sub, hdx_part in *.
  destruct (bool_decide (HdxAssetId T = i) || bool_decide (HdxAssetId T = out)) eqn:Eb; simpl in *; inv_pallet.
  - split; [lia|]. intros. destruct Eb as [Eb|Eb]; apply bool_decide_eq_true in Eb; done.
  - match goal with Hl : load_asset_state _ _ _ = Ok _ |- _ => apply load_asset_state_Ok in Hl as (-> & st & Est & ->) end.
    rewrite Est in *. simpl in *. split; [lia|eauto].
Qed.

Lemma hub_rest_quiet i ist out ost s e :
  omni_inv s → i ≠ out → loaded s i ist → loaded s out ost →
  hub_balance_excluding_swap_assets T i ist out ost s = Err e → is_check_error e = false.
Proof.
  intros Hinv Hne (ai & ri & Ei & -> & _) (ao & ro & Eo & -> & _) Hr.
  pose proof (total_split _ _ _ _ _ Hne Ei Eo) as Ht. rewrite <- (inv_hub _ Hinv) in Ht. unfold hub_balance in Ht.
  pose proof (free_balance_fits (HubAssetId T) (protocol_account T) (omni_ext s)) as Hf. unfold fits in Hf.
  pose proof (rest_nonneg i out _ (inv_assets _ Hinv)) as [? ?].
  unfold hub_balance_excluding_swap_assets in Hr. rewrite hdx_test in Hr. simpl in Hr.
  unfold mbind, M_bind, gets, some_or, ok_or, lift in Hr. simpl in Hr.
  rewrite checked_add_ok in Hr by lia. unfold hdx_part in *.
  destruct (bool_decide (HdxAssetId T = i) || bool_decide (HdxAssetId T = out)); simpl in *.
  - unfold ensure_or, ensureM, lift in Hr. rewrite (proj2 (Z.leb_le _ _)) in Hr by lia. done.
  - destruct (load_asset_state T (HdxAssetId T) s) as [[st s1]|e'] eqn:El.
    + apply load_asset_state_Ok in El as (-> & st' & Est & ->). rewrite Est in *. simpl in *.
      rewrite checked_add_ok in Hr by lia. unfold ensure_or, ensureM, lift in Hr.
      rewrite (proj2 (Z.leb_le _ _)) in Hr by lia. done.
    + injection Hr as <-. by eapply quiet_load.
Qed.

Lemma raised_lookup e i out m m' sti sto :
  i ≠ out → raised e (<[out := sto]> (<[i := sti]> m)) m' →
  is_Some (m' !! i) ∧ is_Some (m' !! out) ∧ (is_Some (m !! HdxAssetId T) → is_Some (m' !! HdxAssetId T)).
Proof.
  intros Hne [->|st He Hst _]; rewrite !lookup_insert; repeat case_decide; subst; try done; eauto.
Qed.

Lemma trade_check_passes i ist new_in out r s :
  omni_inv s → i ≠ out → state_sound ist → state_sound new_in →
  ReserveState.reserve ist * ReserveState.hub_reserve ist
    <= ReserveState.reserve new_in * ReserveState.hub_reserve new_in →
  r = hub_total (rest i out (Assets s)) → is_Some (Assets s !! i) → is_Some (Assets s !! out) →
  (HdxAssetId T ≠ i → HdxAssetId T ≠ out → is_Some (Assets s !! HdxAssetId T)) →
  ensure_trade_invariant T i ist new_in out r s = Ok (tt, s).
Proof.
  intros Hinv Hne (H1 & H2 & _) (H3 & H4 & _) Hk -> [ai Ei] [ao Eo] Hhdx. simpl in *.
  pose proof (total_split _ _ _ _ _ Hne Ei Eo) as Ht. rewrite <- (inv_hub _ Hinv) in Ht. unfold hub_balance in Ht.
  pose proof (free_balance_fits (HubAssetId T) (protocol_account T) (omni_ext s)) as Hf. unfold fits in Hf.
  pose proof (rest_nonneg i out _ (inv_assets _ Hinv)) as [? ?].
  destruct (inv_assets _ Hinv _ _ Ei) as [Hqi _], (inv_assets _ Hinv _ _ Eo) as [Hqo _].
  apply fits_nonneg in Hqi, Hqo.
  unfold ensure_trade_invariant, some_or, ensure_or, ensureM, lift, ok_or, mbind, M_bind, get. simpl.
  rewrite !checked_mul_ok by (by apply u256_mul_bound). rewrite (proj2 (Z.leb_le _ _)) by done. simpl.
  rewrite Ei, Eo, hdx_test. rewrite !checked_add_ok by lia. unfold hdx_part in *.
  destruct (bool_decide (HdxAssetId T = i) || bool_decide (HdxAssetId T = out)) eqn:Eb; simpl in *.
  - rewrite (proj2 (Z.eqb_eq _ _)) by lia. done.
  - apply orb_false_iff in Eb as [Eb1%bool_decide_eq_false Eb2%bool_decide_eq_false].
    destruct Hhdx as [st Est]; [done..|]. rewrite Est in *. simpl in *.
    rewrite checked_add_ok by lia. rewrite (proj2 (Z.eqb_eq _ _)) by lia. done.
Qed.

(** A settled trade never trips the final check. *)
Lemma settle_trade_quiet o who i ist out ost ch op amt r s e :
  omni_inv s → loaded s i ist → loaded s out ost → i ≠ out → trade_shape (ReserveState.to_math ist) ch →
  r = hub_total (rest i out (Assets s)) →
  (HdxAssetId T ≠ i → HdxAssetId T ≠ out → is_Some (Assets s !! HdxAssetId T)) →
  settle_trade T o who i ist out ost ch op amt r s = Err e → is_check_error e = false.
Proof.
  intros Hinv Hli Hlo Hne Hsh Hrest Hhdx [Hx|(new_in & s' & Hx & Hc)]%M_bind_Err; [by eapply quiet_execute|].
  pose proof (loaded_state_sound _ _ _ Hinv Hli) as Hsi.
  apply execute_trade_effect in Hx as (Hinv' & new_out & e' & Hn & Hk & Hra); [|done..].
  destruct (raised_lookup _ _ _ _ _ _ _ Hne Hra) as (? & ? & ?).
  rewrite trade_check_passes in Hc; try done; [|auto]. by rewrite (raised_rest _ _ _ _ _ _ _ Hra).
Qed.

(** Step over the calls that cannot raise a check error. *)
Ltac quiet_steps H :=
  repeat (apply M_bind_Err in H as [H|(? & ? & ? & H)];
    [solve [match type of H with ?m _ = Err _ =>
              let Hq := fresh in assert (quiet m) as Hq by auto with quiet; exact (Hq _ _ H) end]
    |cbv beta in H]).

(** Step over the first check, and over the final one of a trade of known shape. *)
Ltac check_step H :=
  revert H; inv_pallet; intros H;
  repeat match goal with Hl : load_asset_state _ _ _ = Ok _ |- _ => apply load_loaded in Hl as [-> ?] end;
  apply M_bind_Err in H as [H|(? & ? & ? & H)]; [by apply hub_rest_quiet in H|cbv beta in H];
  match goal with Hl : hub_balance_excluding_swap_assets _ _ _ _ _ _ = Ok _ |- _ =>
    pose proof (hub_rest_state _ _ _ _ _ _ _ Hl) as ->; apply hub_rest_value in Hl as [? ?]; [|done..] end;
  quiet_steps H; inv_pallet; open_trade.
Ltac settle_step H :=
  match goal with Hm : moves 0 ?s ?s1, Hi : omni_inv ?s |- _ =>
    pose proof (moves_assets _ _ _ Hm) as EA;
    eapply settle_trade_quiet in H;
      [done|exact (moves_inv _ _ Hm Hi)|by eapply moves_loaded|by eapply moves_loaded|done|done|
       by rewrite EA|by rewrite EA] end.

End accounts.

(** ** A concrete run *)

Module OmniDemo.
#[local] Existing Instance reference_arithmetic.
#[local] Existing Instance reference_arithmetic_laws.

Notation alice := 1 (only parsing).
Notation pot := 100 (only parsing).
Notation HDX := 0 (only parsing).
Notation LRNA := 1 (only parsing).
Notation DOT := 5 (only parsing).

(** Fees of 0.25% and 0.05%, half the protocol fee burned; position NFTs belong
    to one account; the other components do nothing. *)
Definition config : OmniConfig ledger Z := mkOmniConfig _ _
  (λ o, match o with Root => true | _ => false end) (λ o, match o with Root => true | _ => false end)
  HDX LRNA pot 100 1000 1000 3 3 500000
  (λ _ _, true) (λ _ _, Some 1)
  (λ _ _ _, (2500, 500)) (λ _ _ x, ((2500, 500), x))
  (λ x, x) (λ _ _, Some alice) (λ _ _ x, Ok x) (λ _ _ x, Ok x)
  (λ _ _ _ _ _, true) (λ _ _ _, Ok (mkRatio 3 5000))
  (λ _ _ x, Ok x) (λ _ _ _ x, Ok x) (λ _ _ x, Ok x)
  (λ _ _ _ _ x, Ok ([], x)).

#[local] Instance config_laws : OmniConfigLaws config.
Proof.
  constructor; unfold frames_ledger; simpl; intros; inv_run; done.
Qed.

Definition balances0 : ledger :=
  Build_ledger {[ (HDX, pot) := 9000000000000; (DOT, pot) := 5000000000000;
                  (DOT, alice) := 100000000000; (LRNA, alice) := 1000000000 ]}
    {[ HDX := 9000000000000; DOT := 5100000000000; LRNA := 1000000000 ]}.
Definition s0 : omni ledger Z :=
  mkOmni ∅ Tradability.SELL ∅ 0 None ∅ ∅ [] (mkBroadcast 0 [] None []) balances0.

(** HDX at 0.0002 and DOT at 0.0006 hub asset each. *)
Definition with_hdx := run (add_token config Root HDX 200000000000000 1000000 alice) s0.
Definition with_dot := run (add_token config Root DOT 600000000000000 1000000 alice) with_hdx.
Definition with_slip := run (set_slip_fee config Root (Some (mkSlipFeeConfig 50000))) with_dot.
Definition provided := run (add_liquidity_with_limit config (Signed alice) DOT 20000000000 0) with_slip.
Definition sold := run (sell config (Signed alice) DOT HDX 10000000000 1) provided.
Definition bought := run (buy config (Signed alice) HDX LRNA 1000000000 1000000000) sold.
Definition removed := run (remove_liquidity_with_limit config (Signed alice) 2 5000000000 0) bought.

Lemma s0_genesis : omni_genesis config s0.
Proof. by constructor. Qed.

Lemma provided_reachable : omni_reachable config provided.
Proof.
  exists s0. split; [apply s0_genesis|].
  eapply rtc_l; [eapply step_add_token; [..|
    apply (run_Ok (add_token config Root HDX 200000000000000 1000000 alice) s0)]; compute_done|].
  eapply rtc_l; [eapply step_add_token; [..|
    apply (run_Ok (add_token config Root DOT 600000000000000 1000000 alice) with_hdx)]; compute_done|].
  eapply rtc_l; [eapply (step_slip_fee config with_dot Root (Some (mkSlipFeeConfig 50000))); [intros ? [= <-]; done|
    apply (run_Ok (set_slip_fee config Root (Some (mkSlipFeeConfig 50000))) with_dot); compute_done]|].
  eapply rtc_l; [|apply rtc_refl].
  eapply step_add_liquidity; [|
    apply (run_Ok (add_liquidity_with_limit config (Signed alice) DOT 20000000000 0) with_slip)]; compute_done.
Qed.

Lemma sold_reachable : omni_reachable config sold.
Proof.
  destruct provided_reachable as (g & Hg & Hr). exists g. split; [done|]. etransitivity; [exact Hr|].
  eapply rtc_l; [|apply rtc_refl]. eapply step_sell; [..|
    apply (run_Ok (sell config (Signed alice) DOT HDX 10000000000 1) provided)]; (intros [=]) || compute_done.
Qed.

Lemma removed_reachable : omni_reachable config removed.
Proof.
  destruct sold_reachable as (g & Hg & Hr). exists g. split; [done|]. etransitivity; [exact Hr|].
  eapply rtc_l; [eapply step_buy; [..|
    apply (run_Ok (buy config (Signed alice) HDX LRNA 1000000000 1000000000) sold)]; (intros [=]) || compute_done|].
  eapply rtc_l; [|apply rtc_refl].
  eapply step_remove_liquidity; [..|
    apply (run_Ok (remove_liquidity_with_limit config (Signed alice) 2 5000000000 0) bought)];
    (intros [=]) || compute_done.
Qed.




(** ** An empty position

    Adding liquidity worth less than a share creates a position without shares.
    Nothing can be removed from it, and it does not count as shares remaining
    when the asset is removed; then the consistency check finds a position of an
    asset that is not there. *)
Definition small : omni ledger Z := set_omni_ext
  (Build_ledger {[ (DOT, pot) := 5000; (DOT, alice) := 100000000000 ]} {[ DOT := 100000005000 ]}) s0.
Definition listed := run (add_token config Root DOT 1000000000000000000 1000000 alice) small.
Definition donated : omni ledger Z := set_omni_ext
  (default (omni_ext listed) (ok (transfer DOT alice pot 10000000 AllowDeath (omni_ext listed)))) listed.
Definition unshared := run (add_liquidity_with_limit config (Signed alice) DOT 1000 0) donated.
Definition given_up := run (sacrifice_position config (Signed alice) 0) unshared.
Definition frozen := run (set_asset_tradable_state config Root DOT Tradability.FROZEN) given_up.
Definition delisted := run (remove_token config Root DOT alice) frozen.

Lemma empty_position_survives :
  omni_reachable config delisted ∧ try_state config delisted = false ∧
  (LpPosition.shares <$> Positions delisted !! 1) = Some 0.
Proof.
  split; [|compute_done]. exists small. split; [by constructor|].
  eapply rtc_l; [eapply step_add_token; [..|
    apply (run_Ok (add_token config Root DOT 1000000000000000000 1000000 alice) small)]; compute_done|].
  eapply rtc_l; [apply (step_elsewhere config listed (omni_ext donated)); compute_done|].
  eapply rtc_l; [eapply step_add_liquidity; [|
    apply (run_Ok (add_liquidity_with_limit config (Signed alice) DOT 1000 0) donated)]; compute_done|].
  eapply rtc_l; [eapply step_sacrifice,
    (run_Ok (sacrifice_position config (Signed alice) 0) unshared); compute_done|].
  eapply rtc_l; [eapply step_set_tradable,
    (run_Ok (set_asset_tradable_state config Root DOT Tradability.FROZEN) given_up); compute_done|].
  eapply rtc_l; [|apply rtc_refl].
  eapply step_remove_token, (run_Ok (remove_token config Root DOT alice) frozen); compute_done.
Qed.
End OmniDemo.
