(* ===== verification/OmnipoolTrade.v ===== *)
(** * Trades of the Omnipool against an abstract market

    A hub-and-spoke market is a map of pools, each a reserve of an asset against
    a reserve of the hub asset, and the supply of the hub asset.  The theorems
    show that a trade of [OmnipoolPallet], with all its transfers, fees, hooks
    and stored states, is one swap of that market, and that it settles at the
    amount the executor quotes. *)

From S2P Require Import Prelude Arithmetic Product Currency Ratio Broadcast Traits OmnipoolTypes OmnipoolMath OmnipoolPallet OmnipoolInvariant.

(** ** The abstract market *)

Module HubMarket.
Record pool := mkPool { asset_reserve : Z; hub_side : Z }.
Record market := mkMarket { pools : gmap Z pool; supply : Z }.

Definition credit (e : Z) (p : pool) : pool := mkPool (asset_reserve p) (hub_side p + e).

(** [x] of [i] comes in and [y] of [out] leaves.  The hub asset [q] leaves the
    first pool, [d] enters the second and [e], part of [q], enters the pool [h];
    neither product falls. *)
Inductive swap (h i out : AssetId) (x y : Z) : market → market → Prop :=
| swap_intro ps l pi po q d e :
    i ≠ out → ps !! i = Some pi → ps !! out = Some po →
    0 <= x → 0 <= y → 0 <= d → 0 <= e <= q →
    asset_reserve pi * hub_side pi <= (asset_reserve pi + x) * (hub_side pi - q) →
    asset_reserve po * hub_side po <= (asset_reserve po - y) * (hub_side po + d) →
    swap h i out x y (mkMarket ps l)
      (mkMarket (alter (credit e) h
         (<[out := mkPool (asset_reserve po - y) (hub_side po + d)]>
            (<[i := mkPool (asset_reserve pi + x) (hub_side pi - q)]> ps)))
         (l - q + d + e)).

(** A swap given by the pools it leaves. *)
Lemma swap_by h i out x y m pi po q d e pi' po' l' :
  i ≠ out → pools m !! i = Some pi → pools m !! out = Some po →
  0 <= x → 0 <= y → 0 <= d → 0 <= e <= q →
  pi' = mkPool (asset_reserve pi + x) (hub_side pi - q) →
  po' = mkPool (asset_reserve po - y) (hub_side po + d) →
  l' = supply m - q + d + e →
  asset_reserve pi * hub_side pi <= asset_reserve pi' * hub_side pi' →
  asset_reserve po * hub_side po <= asset_reserve po' * hub_side po' →
  swap h i out x y m (mkMarket (alter (credit e) h (<[out := po']> (<[i := pi']> (pools m)))) l').
Proof. destruct m as [ps l]. intros. subst. by apply swap_intro. Qed.
End HubMarket.

(** The fee hook, as its caller asserts and its trait documents: it reports what
    it takes, takes no more than it may, and pays it to the accounts [pot]. *)
Class FeeHookLaws {X AccountId} `{MultiCurrency X AccountId} (T : OmniConfig X AccountId)
    (pot : AccountId → Prop) : Prop := {
  fee_hook_honest account trader a amount x taken x' :
    0 <= amount → on_trade_fee T account trader a amount x = Ok (taken, x') →
    let spent := free_balance a account x - free_balance a account x' in
    taken_fee_total (taken_fee_entries a taken) = Some spent ∧ 0 <= spent <= amount;
  fee_hook_pays_pots account trader a amount x taken x' c b :
    on_trade_fee T account trader a amount x = Ok (taken, x') → b ≠ account → ¬ pot b →
    free_balance c b x' = free_balance c b x;
}.

(** Storing a fee returns the fee one can ask for, and leaves other assets' fees. *)
Class DynamicFeeLaws {X AccountId} (T : OmniConfig X AccountId) : Prop := {
  fee_stored_is_fee a r x : (fee_get_and_store T a r x).1 = fee_get T a r x;
  fee_stored_frame a r b r' x : b ≠ a → fee_get T b r' (fee_get_and_store T a r x).2 = fee_get T b r' x;
}.

Section trade.
Context {X AccountId : Type} `{!EqDecision AccountId} `{!MultiCurrency X AccountId}
  `{!MultiCurrencyLaws X AccountId} `{SpArithmeticLaws}.
Context (T : OmniConfig X AccountId) `{!OmniConfigLaws T}.

Notation omni := (omni X AccountId).
Implicit Types (s : omni) (who : AccountId) (o : RawOrigin AccountId) (a : AssetId).

Ltac solve_ne := first [congruence | left; congruence | right; congruence].

(** ** The ledger outside the hub asset of the protocol account *)

Definition others_same s s' : Prop :=
  ∀ c who, c ≠ HubAssetId T ∨ who ≠ protocol_account T → free_balance c who (omni_ext s') = free_balance c who (omni_ext s).

Lemma others_refl s : others_same s s.
Proof. done. Qed.
Lemma others_trans s s' s'' : others_same s s' → others_same s' s'' → others_same s s''.
Proof. intros H1 H2 c who Hc. by rewrite H2, H1. Qed.
Lemma others_ext s s' : omni_ext s' = omni_ext s → others_same s s'.
Proof. intros E c who _. by rewrite E. Qed.

Lemma call_others f s v s' :
  frames_ledger (AccountId := AccountId) f → call f s = Ok (v, s') → others_same s s'.
Proof. intros Hf Hr. unfold call in Hr. inv_ext. intros c who _. simpl. by eapply Hf. Qed.

Lemma hub_others u s v s' :
  0 <= BalanceUpdate.deref u → update_hub_asset_liquidity T u s = Ok (v, s') → others_same s s'.
Proof.
  unfold update_hub_asset_liquidity. intros Hu Hr c who Hc. destruct u; simpl in *; unfold call in Hr; inv_ext; simpl.
  - match goal with Hd : deposit _ _ _ _ = Ok _ |- _ => apply deposit_adds in Hd as (E & _); [|done] end.
    rewrite E. unfold when. case_decide; [naive_solver|lia].
  - match goal with Hd : withdraw _ _ _ _ _ = Ok _ |- _ => apply withdraw_subtracts in Hd as (_ & E & _); [|done] end.
    rewrite E. unfold when. case_decide; [naive_solver|lia].
Qed.

Lemma fee_store_others a r s fees s' : get_and_store_fee T a r s = Ok (fees, s') → others_same s s'.
Proof.
  unfold get_and_store_fee. pose proof (fee_storage_frames a r (omni_ext s)) as [Hf _].
  destruct (fee_get_and_store T a r (omni_ext s)). intros. inv_run. intros c who _. apply Hf.
Qed.

Lemma push_others s v s' : push_context s = Ok (v, s') → others_same s s'.
Proof. unfold push_context. intros. repeat case_match; inv_run. by apply others_ext. Qed.
Lemma pop_others s v s' : pop_context s = Ok (v, s') → others_same s s'.
Proof. unfold pop_context. intros. repeat case_match; inv_run. by apply others_ext. Qed.
Lemma snapshot_others a q s r s' : snapshot_q0 a q s = Ok (r, s') → others_same s s'.
Proof. unfold snapshot_q0. intros. inv_cases; by apply others_ext. Qed.
Lemma load_slip_others i qi out qo s slip s' :
  load_trade_slip_fees i qi out qo s = Ok (slip, s') → others_same s s'.
Proof.
  unfold load_trade_slip_fees. intros. inv_cases; [|done].
  eapply others_trans; eapply snapshot_others; done.
Qed.
Lemma update_delta_others i qi out qo s v s' :
  update_slip_fee_delta i qi out qo s = Ok (v, s') → others_same s s'.
Proof.
  unfold update_slip_fee_delta, add_slip_fee_delta, math_or. intros. inv_cases; by apply others_ext.
Qed.

Lemma protocol_fee_others o fee burned s fees s' :
  0 <= burned <= fee → process_protocol_fee T o fee burned s = Ok (fees, s') → others_same s s'.
Proof.
  unfold process_protocol_fee, increase_hdx_subpool_hub_reserve, try_mutate_asset, some_or, math_or.
  intros Hb Hr. repeat (case_match; [inv_run; done|]). inv_run.
  repeat match goal with
  | Hl : load_asset_state _ _ _ = Ok _ |- _ => apply load_asset_state_Ok in Hl as (-> & ? & ? & ->)
  | Hl : get_and_store_fee _ _ _ _ = Ok _ |- _ => apply fee_store_others in Hl
  | Hl : call _ _ = Ok _ |- _ => apply call_others in Hl; [|apply hub_trade_hook_frames]
  | Hl : update_hub_asset_liquidity _ _ _ = Ok _ |- _ => apply hub_others in Hl; [|apply saturating_sub_nonneg]
  end.
  eapply others_trans; [done|]. eapply others_trans; [by apply others_ext|]. eapply others_trans; [|done]. done.
Qed.

(** ** The ledger of a trade *)

Lemma transfer_ledger c (f t : AccountId) amount er s v s' :
  0 <= amount → call (transfer c f t amount er) s = Ok (v, s') →
  ∀ c' b, free_balance c' b (omni_ext s') = free_balance c' b (omni_ext s) + moved c f t amount c' b.
Proof.
  intros Ha Hr. unfold call in Hr. inv_ext. simpl.
  match goal with Ht : transfer _ _ _ _ _ _ = Ok _ |- _ => by apply transfer_moves in Ht as (_ & E & _) end.
Qed.

Lemma execute_trade_ledger o who i ist out ost ch op amt s new_in s' :
  state_sound ist → trade_shape (ReserveState.to_math ist) ch → out ≠ HubAssetId T →
  execute_trade T o who i ist out ost ch op amt s = Ok (new_in, s') →
  ∃ taken fees s1,
    process_trade_fee T who out (asset_fee (trade_fee ch)) s = Ok ((taken, fees), s1) ∧
    ∀ c b, c ≠ HubAssetId T ∨ b ≠ protocol_account T →
      free_balance c b (omni_ext s') = free_balance c b (omni_ext s1)
        + moved i who (protocol_account T) (BalanceUpdate.deref (delta_reserve (change_in ch))) c b
        + moved out (protocol_account T) who (BalanceUpdate.deref (delta_reserve (change_out ch))) c b.
Proof.
  intros Hist Hsh Hho Hr. unfold execute_trade, math_or, set_asset_state, deposit_event, broadcast_event in Hr. inv_run.
  destruct x as [taken fees]. inv_run. exists taken, fees, x0. split; [done|].
  match goal with Hf : process_trade_fee _ _ _ _ _ = Ok _ |- _ =>
    apply trade_fee_moves in Hf as [_ Htk]; [|done..] end. apply fits_nonneg in Htk.
  destruct (fee_taken_shape _ _ taken Hsh Htk) as [Hui Huo].
  destruct (fee_taken_fits _ _ taken Hist Hsh) as (_ & _ & Hb).
  pose proof (unsigned_total _ Hui). pose proof (unsigned_total _ Huo).
  pose proof Hui as [Hx _ _ _ _]. pose proof Huo as [Hy _ _ _ _].
  match goal with Hg : BalanceUpdate.merge _ _ = Some _ |- _ => apply update_merge_Some in Hg as [? _]; [|done..] end.
  repeat match goal with
  | Hx : 0 <= ?x, Hl : call (transfer _ _ _ ?x _) _ = Ok _ |- _ =>
      pose proof (transfer_ledger _ _ _ _ _ _ _ _ Hx Hl); clear Hl
  | Hl : call (on_trade _ _ _ _) _ = Ok _ |- _ => apply call_others in Hl; [|apply trade_hook_frames]
  | Hl : update_hub_asset_liquidity _ _ _ = Ok _ |- _ => apply hub_others in Hl; [|done]
  | Hl : process_protocol_fee _ _ _ _ _ = Ok _ |- _ => apply protocol_fee_others in Hl; [|done]
  | Hl : update_slip_fee_delta _ _ _ _ _ = Ok _ |- _ => apply update_delta_others in Hl
  | Hl : push_context _ = Ok _ |- _ => apply push_others in Hl
  | Hl : pop_context _ = Ok _ |- _ => apply pop_others in Hl
  end.
  intros c b Hc. unfold others_same in *. simpl in *.
  repeat match goal with Hl : ∀ _ _, _ ≠ HubAssetId T ∨ _ → _ |- _ => specialize (Hl c b Hc) end.
  destruct Hsh as (? & ? & ? & ? & ? & ? & ? & ? & -> & _). simpl in *.
  repeat match goal with Hl : ∀ _ _, free_balance _ _ _ = _ + _ |- _ => specialize (Hl c b) end. lia.
Qed.

(** ** A trade is a swap *)

Import HubMarket.

Definition market_of s : market :=
  mkMarket (map_imap (λ a st, Some (mkPool (free_balance a (protocol_account T) (omni_ext s))
                                      (AssetState.hub_reserve st))) (Assets s))
    (hub_balance T s).

Lemma market_lookup s a :
  pools (market_of s) !! a =
    (λ st, mkPool (free_balance a (protocol_account T) (omni_ext s)) (AssetState.hub_reserve st)) <$> Assets s !! a.
Proof. simpl. rewrite map_lookup_imap. by destruct (Assets s !! a). Qed.

Context (pot : AccountId → Prop) `{!FeeHookLaws T pot}.

(** Accounts that are neither the protocol's nor a fee receiver's. *)
Definition outside who : Prop := who ≠ protocol_account T ∧ ¬ pot who.

(** [who] paid [x] of [i] and received [y] of [out]; nothing else changed outside. *)
Definition settled who i (x : Z) out (y : Z) s s' : Prop :=
  ∀ c b, outside b → free_balance c b (omni_ext s') =
    free_balance c b (omni_ext s) + when (c = out ∧ b = who) y - when (c = i ∧ b = who) x.

Lemma settled_trader who i x out y s s' :
  outside who → i ≠ out → settled who i x out y s s' →
  free_balance i who (omni_ext s') = free_balance i who (omni_ext s) - x ∧
  free_balance out who (omni_ext s') = free_balance out who (omni_ext s) + y.
Proof. intros Hw Hne Hs. split; rewrite Hs by done; by_moves. Qed.

(** What the fee hook takes. *)
Lemma trade_fee_spent trader a amount s taken fees s1 :
  0 <= amount →
  process_trade_fee T trader a amount s = Ok ((taken, fees), s1) →
  0 <= taken <= saturating_sub amount 1 ∧
  free_balance a (protocol_account T) (omni_ext s1) = free_balance a (protocol_account T) (omni_ext s) - taken ∧
  (∀ c who, c ≠ a → free_balance c who (omni_ext s1) = free_balance c who (omni_ext s)) ∧
  (∀ c b, outside b → free_balance c b (omni_ext s1) = free_balance c b (omni_ext s)).
Proof.
  intros Ha Hr. unfold process_trade_fee, math_or, ensure_or in Hr. inv_ext. simpl in *.
  match goal with Hh : on_trade_fee _ _ _ _ _ _ = Ok _ |- _ =>
    pose proof (fee_hook_honest _ _ _ _ _ _ _ (saturating_sub_nonneg _ _) Hh) as [E Hs];
    pose proof (fee_hook_moves _ _ _ _ _ _ _ Hh) as [Hm _];
    pose proof (λ c b, fee_hook_pays_pots _ _ _ _ _ _ _ c b Hh) as Ht end.
  split_and!; try done; [simplify_eq; lia..|]. intros c b [? ?]. auto.
Qed.

(** The hub asset that reaches the pool bought from: no less than the trade's. *)
Lemma taken_total a_in ch taken :
  trade_shape a_in ch → fits u128 (BalanceUpdate.deref (delta_hub_reserve (change_out ch))) →
  0 <= taken <= saturating_sub (asset_fee (trade_fee ch)) 1 →
  BalanceUpdate.deref (delta_hub_reserve (change_out ch)) <=
  BalanceUpdate.value (total_delta_hub_reserve (change_out (trade_account_for_fee_taken ch taken))).
Proof.
  intros (x & q & y & d & mn & fa & fp & b & -> & -> & ? & ? & ? & Hmn & Hfa & ? & _) Hd Ht. simpl in *.
  assert (0 <= taken <= fa) by (unfold saturating_sub, fits in *; lia).
  destruct (burn_amount_value taken fa mn) as [E Hb]; [done..|].
  unfold total_delta_hub_reserve, trade_account_for_fee_taken. simpl. rewrite E.
  rewrite (proj2 (Z.leb_le _ _)) by lia. simpl. unfold saturating_add, saturating_sub, fits in *. lia.
Qed.

(** The market after two states are rewritten and the HDX pool is credited. *)
Lemma market_after s s' i out ni no e bi bo :
  i ≠ out → raised T e (<[out := no]> (<[i := ni]> (Assets s))) (Assets s') →
  (∀ k, is_Some (Assets s' !! k) → free_balance k (protocol_account T) (omni_ext s') =
     if decide (k = out) then bo else if decide (k = i) then bi
     else free_balance k (protocol_account T) (omni_ext s)) →
  market_of s' = mkMarket (alter (credit e) (HdxAssetId T)
    (<[out := mkPool bo (AssetState.hub_reserve no)]>
       (<[i := mkPool bi (AssetState.hub_reserve ni)]> (pools (market_of s))))) (hub_balance T s').
Proof.
  intros Hne Hra Hb. assert (∀ k, pools (market_of s') !! k =
    (λ st, mkPool (if decide (k = out) then bo else if decide (k = i) then bi
       else free_balance k (protocol_account T) (omni_ext s)) (AssetState.hub_reserve st)) <$> Assets s' !! k) as Hl.
  { intros k. rewrite market_lookup. destruct (Assets s' !! k) eqn:E; [|done]. simpl. by rewrite Hb by eauto. }
  unfold market_of at 1. f_equal. apply map_eq. intros k. transitivity (pools (market_of s') !! k); [done|].
  rewrite Hl. clear Hb Hl. revert Hra. generalize (Assets s') as m'. intros m' Hra. set (m := <[out := mkPool _ _]> _).
  set (pool_of := λ st, mkPool (if decide (k = out) then bo else if decide (k = i) then bi
    else free_balance k (protocol_account T) (omni_ext s)) (AssetState.hub_reserve st)).
  assert (m !! k = pool_of <$> <[out := no]> (<[i := ni]> (Assets s)) !! k) as Hm.
  { subst m pool_of. rewrite !lookup_insert, market_lookup.
    repeat (case_decide; simplify_eq/=; try done). }
  destruct (decide (HdxAssetId T = k)) as [<-|Hk].
  - rewrite lookup_alter_eq, Hm. destruct Hra as [->|st He Hst _].
    + clear Hm. destruct (<[out := no]> (<[i := ni]> (Assets s)) !! HdxAssetId T); [|done].
      simpl. unfold credit. simpl. by rewrite Z.add_0_r.
    + rewrite lookup_insert_eq, Hst. done.
  - rewrite lookup_alter_ne, Hm by done. by rewrite (raised_other T _ _ _ _ Hra).
Qed.

(** The balances after a trade: of the trader, and of the protocol account. *)
Lemma execute_trade_balances o who i ist out ost ch op amt s new_in s' :
  outside who → i ≠ out → state_sound ist → trade_shape (ReserveState.to_math ist) ch →
  i ≠ HubAssetId T → out ≠ HubAssetId T →
  execute_trade T o who i ist out ost ch op amt s = Ok (new_in, s') →
  let x := BalanceUpdate.deref (delta_reserve (change_in ch)) in
  let y := BalanceUpdate.deref (delta_reserve (change_out ch)) in
  ∃ taken fees s1,
    process_trade_fee T who out (asset_fee (trade_fee ch)) s = Ok ((taken, fees), s1) ∧
    0 <= taken <= saturating_sub (asset_fee (trade_fee ch)) 1 ∧
    settled who i x out y s s' ∧
    ∀ k, k ≠ HubAssetId T → free_balance k (protocol_account T) (omni_ext s') =
      if decide (k = out) then free_balance out (protocol_account T) (omni_ext s) - (y + taken)
      else if decide (k = i) then free_balance i (protocol_account T) (omni_ext s) + x
      else free_balance k (protocol_account T) (omni_ext s).
Proof.
  intros [Hwho Hpot] Hne Hsi Hsh Hhi Hho Hr x y.
  apply execute_trade_ledger in Hr as (tk & fs & s1 & Hf & Hled); [|done..].
  assert (0 <= asset_fee (trade_fee ch)) as Hfa.
  { destruct Hsh as (? & ? & ? & ? & ? & ? & ? & ? & -> & _ & _ & _ & _ & _ & Hfa & _). by apply fits_nonneg in Hfa. }
  destruct (trade_fee_spent _ _ _ _ _ _ _ Hfa Hf) as (Hsp & Hprot & Hoth & Htr).
  exists tk, fs, s1. split; [done|]. split; [done|]. fold x y in Hled. split_and!.
  - intros c b Hb. rewrite Hled, Htr by (done || right; apply Hb). destruct Hb. by_moves.
  - intros k Hk. rewrite Hled by solve_ne. repeat case_decide; subst.
    + rewrite Hprot, (moved_other_asset i), moved_sender by solve_ne. lia.
    + rewrite Hoth, moved_receiver, moved_other_asset by solve_ne. lia.
    + rewrite Hoth, !moved_other_asset by solve_ne. lia.
Qed.

Lemma taken_in_total a_in ch taken :
  trade_shape a_in ch →
  BalanceUpdate.value (total_delta_hub_reserve (change_in (trade_account_for_fee_taken ch taken)))
    = - BalanceUpdate.deref (delta_hub_reserve (change_in ch)) ∧
  protocol_fee (trade_fee ch) <= BalanceUpdate.deref (delta_hub_reserve (change_in ch)) ∧
  0 <= BalanceUpdate.deref (delta_reserve (change_in ch)) ∧
  0 <= BalanceUpdate.deref (delta_reserve (change_out ch)) ∧
  0 <= BalanceUpdate.deref (delta_hub_reserve (change_out ch)) ∧
  keeps_product a_in (mkChange (Increase (BalanceUpdate.deref (delta_reserve (change_in ch))))
    (Decrease (BalanceUpdate.deref (delta_hub_reserve (change_in ch)))) BalanceUpdate.default
    BalanceUpdate.default BalanceUpdate.default).
Proof.
  intros (x & q & y & d & mn & fa & fp & b & -> & -> & ? & ? & ? & Hmn & Hfa & ? & Hk).
  split_and!; simpl; try lia; [|done]. unfold total_delta_hub_reserve. simpl.
  rewrite (proj2 (Z.leb_le _ _)) by lia. simpl. unfold saturating_sub. lia.
Qed.

Lemma execute_trade_swaps o who i ist out ost ch op amt s new_in s' ai ao :
  omni_inv T s → outside who → i ≠ out →
  Assets s !! i = Some ai → Assets s !! out = Some ao →
  ist = ReserveState.of_asset_state ai (free_balance i (protocol_account T) (omni_ext s)) →
  ost = ReserveState.of_asset_state ao (free_balance out (protocol_account T) (omni_ext s)) →
  trade_shape (ReserveState.to_math ist) ch →
  (∀ spent, 0 <= spent <= saturating_sub (asset_fee (trade_fee ch)) 1 →
     let left := ReserveState.reserve ost - BalanceUpdate.deref (delta_reserve (change_out ch)) - spent in
     0 <= left ∧ ReserveState.reserve ost * ReserveState.hub_reserve ost <=
       left * (ReserveState.hub_reserve ost + BalanceUpdate.deref (delta_hub_reserve (change_out ch)))) →
  execute_trade T o who i ist out ost ch op amt s = Ok (new_in, s') →
  ∃ spent, 0 <= spent ∧
    swap (HdxAssetId T) i out (BalanceUpdate.deref (delta_reserve (change_in ch)))
      (BalanceUpdate.deref (delta_reserve (change_out ch)) + spent) (market_of s) (market_of s').
Proof.
  intros Hinv Hwho Hne Ei Eo Hist Host Hsh Hout Hr.
  assert (loaded s i ist) as Hli by (do 2 eexists; split_and!; [done..|apply free_balance_fits]).
  assert (loaded s out ost) as Hlo by (do 2 eexists; split_and!; [done..|apply free_balance_fits]).
  pose proof (loaded_state_sound T _ _ _ Hinv Hli) as Hsi. pose proof (loaded_state_sound T _ _ _ Hinv Hlo) as Hso.
  pose proof (loaded_not_hub T _ _ _ Hinv Hli) as Hhi. pose proof (loaded_not_hub T _ _ _ Hinv Hlo) as Hho.
  pose proof (execute_trade_balances _ _ _ _ _ _ _ _ _ _ _ _ Hwho Hne Hsi Hsh Hhi Hho Hr)
    as (tk' & fs' & s1' & Hf' & Hsp & _ & Hbal).
  pose proof (execute_trade_effect T _ _ _ _ _ _ _ _ _ _ _ _ Hinv Hli Hlo Hne Hsh Hr) as [Hinv' _].
  eapply execute_trade_run in Hr as (tk & fs & s1 & no & e & Hf & Hui & Huo & Htk & He & Hra & Hhub & _); [|done..].
  rewrite Hf in Hf'. injection Hf' as <- <- <-. exists tk. split; [lia|].
  destruct (fee_taken_fits _ _ tk Hsi Hsh) as (_ & Hfd & _). destruct (Hout tk Hsp) as [Hleft Hprod].
  destruct (fee_taken_shape _ _ tk Hsh ltac:(lia)) as [Hci Hco].
  destruct (taken_in_total _ _ tk Hsh) as (Eq & Hfq & Hx & Hy & Hd & Hk).
  pose proof (taken_total _ _ tk Hsh Hfd Hsp) as Hge.
  apply delta_update_Some in Hui as (_ & _ & Eqi & _); [|done..].
  apply delta_update_Some in Huo as (_ & _ & Eqo & _); [|done..].
  erewrite (market_after s s' i out); [|done|exact Hra|].
  2: { intros k [st Hst]. apply Hbal. intros ->. destruct Hinv'. congruence. }
  set (D := BalanceUpdate.value (total_delta_hub_reserve (change_out _))) in *.
  eapply swap_by with (q := BalanceUpdate.deref (delta_hub_reserve (change_in ch))) (d := D) (e := e);
    [done|by rewrite market_lookup, Ei|by rewrite market_lookup, Eo|done|lia|lia|lia|..]; subst ist ost; simpl in *.
  - f_equal. lia.
  - f_equal. lia.
  - lia.
  - destruct Hk as (_ & _ & Hk). unfold reserve_after, hub_after in Hk. simpl in Hk. by rewrite Eqi, Eq.
  - rewrite Eqo. etransitivity; [exact Hprod|]. rewrite Z.sub_add_distr. apply Z.mul_le_mono_nonneg_l; lia.
Qed.

(** ** From the call to the trade *)

(** [st] is the state of [a], with the balance it is loaded with. *)
Definition loaded_at s a (st : ReserveState.t) : Prop :=
  ∃ ast, Assets s !! a = Some ast ∧
    st = ReserveState.of_asset_state ast (free_balance a (protocol_account T) (omni_ext s)).

(** The fees and slip fees of a trade of [i] for [out], loaded from [s] to [s3]. *)
Definition quoted i (ist : ReserveState.t) out (ost : ReserveState.t) s (fa fp : Z)
    (slip : option TradeSlipFees) s3 : Prop :=
  ∃ fo s1 fi s2, fa = fo.1 ∧ fp = fi.2 ∧
    get_and_store_fee T out (ReserveState.reserve ost) s = Ok (fo, s1) ∧
    get_and_store_fee T i (ReserveState.reserve ist) s1 = Ok (fi, s2) ∧
    load_trade_slip_fees i (ReserveState.hub_reserve ist) out (ReserveState.hub_reserve ost) s2 = Ok (slip, s3).

Lemma loaded_at_loaded s a st : loaded_at s a st → loaded s a st.
Proof. intros (ast & E & ->). do 2 eexists. split_and!; [done..|]. apply free_balance_fits. Qed.

Lemma quoted_same i ist out ost s fa fp slip s3 :
  omni_inv T s → loaded_at s i ist → loaded_at s out ost → quoted i ist out ost s fa fp slip s3 →
  moves T 0 s s3 ∧ is_permill fa ∧ is_permill fp ∧ valid_slip slip ∧
  market_of s3 = market_of s ∧ loaded_at s3 i ist ∧ loaded_at s3 out ost ∧
  (∀ c who, c ≠ HubAssetId T ∨ who ≠ protocol_account T → free_balance c who (omni_ext s3) = free_balance c who (omni_ext s)).
Proof.
  intros Hinv Hi Ho (fo & s1 & fi & s2 & -> & -> & H1 & H2 & H3).
  pose proof (loaded_not_hub T _ _ _ Hinv (loaded_at_loaded _ _ _ Hi)).
  pose proof (loaded_not_hub T _ _ _ Hinv (loaded_at_loaded _ _ _ Ho)).
  pose proof (trade_hub_fits _ (loaded_state_sound T _ _ _ Hinv (loaded_at_loaded _ _ _ Hi))) as Hqi.
  pose proof (trade_hub_fits _ (loaded_state_sound T _ _ _ Hinv (loaded_at_loaded _ _ _ Ho))) as Hqo.
  pose proof (quote_moves T _ _ _ _ _ _ _ _ _ _ _ _ _ Hqi Hqo Hinv H1 H2 H3) as (Hm & ? & ? & ?).
  apply fee_store_others in H1, H2. apply load_slip_others in H3.
  assert (others_same s s3) as Hs by eauto using others_trans.
  split_and!; try done.
  - unfold market_of. rewrite (moves_assets _ _ _ _ Hm), (moves_hub _ _ _ _ Hm), Z.add_0_r. f_equal.
    apply map_eq. intros k. rewrite !map_lookup_imap. destruct (Assets s !! k) eqn:E; [|done]. simpl.
    rewrite Hs; [done|]. left. intros ->. destruct Hinv. congruence.
  - destruct Hi as (ast & E & ->). exists ast. rewrite (moves_assets _ _ _ _ Hm), Hs by solve_ne. done.
  - destruct Ho as (ast & E & ->). exists ast. rewrite (moves_assets _ _ _ _ Hm), Hs by solve_ne. done.
Qed.

Lemma load_at a s st s' : load_asset_state T a s = Ok (st, s') → s' = s ∧ loaded_at s a st.
Proof. apply load_asset_state_Ok. Qed.

Ltac open_call :=
  unfold settle_trade, ensure_or, math_or in * |-;
  repeat (inv_run; try match goal with Hr : ensure_signed _ = Ok _ |- _ => inversion Hr; clear Hr; subst end); propify;
  repeat match goal with
  | Hl : load_asset_state _ _ _ = Ok _ |- _ => apply load_at in Hl as [-> ?]
  | Hl : hub_balance_excluding_swap_assets _ _ _ _ _ _ = Ok _ |- _ => apply hub_rest_state in Hl as ->
  | Hl : ensure_trade_invariant _ _ _ _ _ _ _ = Ok _ |- _ => apply trade_check_state in Hl as ->
  end.

Lemma sell_run who i out amount limit s v s' :
  i ≠ HubAssetId T → sell T (Signed who) i out amount limit s = Ok (v, s') →
  ∃ ist ost fa fp slip s3 ch new_in,
    i ≠ out ∧ loaded_at s i ist ∧ loaded_at s out ost ∧ quoted i ist out ost s fa fp slip s3 ∧
    calculate_sell_state_changes (ReserveState.to_math ist) (ReserveState.to_math ost) amount fa fp
      (BurnProtocolFee T) slip = Some ch ∧
    limit <= BalanceUpdate.deref (delta_reserve (change_out ch)) ∧
    execute_trade T (Signed who) who i ist out ost ch ExactIn amount s3 = Ok (new_in, s').
Proof.
  intros Hi Hr. unfold sell in Hr. open_call.
  rewrite (proj2 (Z.eqb_neq _ _)) in Hr by done.
  case_match; [unfold sell_asset_for_hub_asset, ensure_or in Hr; inv_run|]. open_call.
  do 8 eexists. split; [done|]. do 2 (split; [done|]). split; [|done]. do 4 eexists. done.
Qed.

Lemma buy_run who out i amount limit s v s' :
  i ≠ HubAssetId T → buy T (Signed who) out i amount limit s = Ok (v, s') →
  ∃ ist ost fa fp slip s3 ch new_in,
    i ≠ out ∧ loaded_at s i ist ∧ loaded_at s out ost ∧ quoted i ist out ost s fa fp slip s3 ∧
    calculate_buy_state_changes (ReserveState.to_math ist) (ReserveState.to_math ost) amount fa fp
      (BurnProtocolFee T) slip = Some ch ∧
    BalanceUpdate.deref (delta_reserve (change_in ch)) <= limit ∧
    execute_trade T (Signed who) who i ist out ost ch ExactOut
      (BalanceUpdate.deref (delta_reserve (change_in ch))) s3 = Ok (new_in, s').
Proof.
  intros Hi Hr. unfold buy in Hr. open_call.
  case_match; [unfold buy_hub_asset, ensure_or in Hr; inv_run|].
  rewrite (proj2 (Z.eqb_neq _ _)) in Hr by done. open_call.
  do 8 eexists. split; [done|]. do 2 (split; [done|]). split; [|done]. do 4 eexists. done.
Qed.

(** A trade that pays for what leaves the pool bought from, fee included, is a
    swap, and settles with the trader. *)
Lemma quoted_trade_swaps o who i ist out ost s fa fp slip s3 ch op amt new_in s' :
  omni_inv T s → outside who → i ≠ out → loaded_at s i ist → loaded_at s out ost →
  quoted i ist out ost s fa fp slip s3 → trade_shape (ReserveState.to_math ist) ch →
  execute_trade T o who i ist out ost ch op amt s3 = Ok (new_in, s') →
  let x := BalanceUpdate.deref (delta_reserve (change_in ch)) in
  let y := BalanceUpdate.deref (delta_reserve (change_out ch)) in
  settled who i x out y s s' ∧
  ((∀ spent, 0 <= spent <= saturating_sub (asset_fee (trade_fee ch)) 1 →
     let left := ReserveState.reserve ost - y - spent in
     0 <= left ∧ ReserveState.reserve ost * ReserveState.hub_reserve ost <=
       left * (ReserveState.hub_reserve ost + BalanceUpdate.deref (delta_hub_reserve (change_out ch)))) →
   ∃ spent, 0 <= spent ∧ swap (HdxAssetId T) i out x (y + spent) (market_of s) (market_of s')).
Proof.
  intros Hinv Hwho Hne Hi Ho Hq Hsh Hr x y.
  pose proof (loaded_not_hub T _ _ _ Hinv (loaded_at_loaded _ _ _ Hi)) as Hhi.
  pose proof (loaded_not_hub T _ _ _ Hinv (loaded_at_loaded _ _ _ Ho)) as Hho.
  pose proof (loaded_state_sound T _ _ _ Hinv (loaded_at_loaded _ _ _ Hi)) as Hsi.
  destruct (quoted_same _ _ _ _ _ _ _ _ _ Hinv Hi Ho Hq) as (Hm & _ & _ & _ & <- & Hi3 & Ho3 & Hs).
  pose proof (execute_trade_balances _ _ _ _ _ _ _ _ _ _ _ _ Hwho Hne Hsi Hsh Hhi Hho Hr)
    as (_ & _ & _ & _ & _ & Hx & _).
  split; [intros c b Hb; rewrite Hx, Hs by (done || right; apply Hb); done|]. intros Hout.
  destruct Hi3 as (ai & Ei & Ei'), Ho3 as (ao & Eo & Eo').
  eapply execute_trade_swaps; [by eapply moves_inv|done|done|exact Ei|exact Eo|exact Ei'|exact Eo'|done|done|done].
Qed.

(** C2: a sale of an asset refines one swap of the market: the amount sold
    enters the pool of the asset sold, what the trader receives and what the fee
    hook takes leave the pool bought from, the hub asset moves between the two
    pools and the HDX pool and the rest is burned, every other pool is as it was,
    and neither product falls.  The trader pays the amount and receives at least
    the limit. *)
Theorem sell_refines_swap who i out amount limit s v s' :
  omni_reachable T s → outside who → i ≠ HubAssetId T → fits u128 amount →
  sell T (Signed who) i out amount limit s = Ok (v, s') →
  ∃ y spent, limit <= y ∧ 0 <= spent ∧
    settled who i amount out y s s' ∧
    swap (HdxAssetId T) i out amount (y + spent) (market_of s) (market_of s').
Proof.
  intros Hinv%reachable_inv Hwho Hhi Ha Hr; [|done..].
  apply sell_run in Hr as (ist & ost & fa & fp & slip & s3 & ch & n & Hne & Hi & Ho & Hq & Hc & Hl & Hx); [|done].
  pose proof (loaded_state_sound T _ _ _ Hinv (loaded_at_loaded _ _ _ Hi)) as Hsi.
  pose proof (loaded_state_sound T _ _ _ Hinv (loaded_at_loaded _ _ _ Ho)) as Hso.
  destruct (quoted_same _ _ _ _ _ _ _ _ _ Hinv Hi Ho Hq) as (_ & Hfa & Hfp & Hsl & _).
  pose proof (sell_shape _ _ _ _ _ _ _ _ Hsi Hso Ha Hfa Hfp burn_permill Hsl Hc) as Hsh.
  destruct (quoted_trade_swaps _ _ _ _ _ _ _ _ _ _ _ _ _ _ _ _ Hinv Hwho Hne Hi Ho Hq Hsh Hx) as (Hx' & Hsw).
  destruct (sell_changes_Some _ _ _ _ _ _ _ _ Hsi Hso Ha Hfa Hfp burn_permill Hsl Hc)
    as (dq & d & y & mn & fe & fp' & b & -> & _ & Hd & _ & Hy & Hfe & _ & Eg & _). simpl in *.
  exists y. destruct Hsw as (spent & Hsp & Hsw); [|by exists spent].
  intros spent Hsp. rewrite <- Z.sub_add_distr. apply (buy_side_keeps (ReserveState.to_math ost) d _ _ Hso Hd eq_refl).
  unfold saturating_sub in Hsp. apply fits_nonneg in Hfe. simpl. lia.
Qed.

Lemma quoted_no_slip i ist out ost s fa fp slip s3 :
  SlipFee s = None → quoted i ist out ost s fa fp slip s3 → slip = None.
Proof.
  intros Hs (fo & s1 & fi & s2 & _ & _ & H1 & H2 & H3).
  unfold get_and_store_fee, load_trade_slip_fees in *. repeat case_match; inv_run; simpl in *; inv_cases; congruence.
Qed.

(** C20: without slip fees, a purchase of an asset refines one swap of the
    market; the trader receives exactly the amount and pays at most the limit. *)
Theorem buy_refines_swap who out i amount limit s v s' :
  omni_reachable T s → SlipFee s = None → outside who → i ≠ HubAssetId T → fits u128 amount →
  buy T (Signed who) out i amount limit s = Ok (v, s') →
  ∃ x spent, x <= limit ∧ 0 <= spent ∧
    settled who i x out amount s s' ∧
    swap (HdxAssetId T) i out x (amount + spent) (market_of s) (market_of s').
Proof.
  intros Hinv%reachable_inv Hns Hwho Hhi Ha Hr; [|done..].
  apply buy_run in Hr as (ist & ost & fa & fp & slip & s3 & ch & n & Hne & Hi & Ho & Hq & Hc & Hl & Hx); [|done].
  pose proof (loaded_state_sound T _ _ _ Hinv (loaded_at_loaded _ _ _ Hi)) as Hsi.
  pose proof (loaded_state_sound T _ _ _ Hinv (loaded_at_loaded _ _ _ Ho)) as Hso.
  destruct (quoted_same _ _ _ _ _ _ _ _ _ Hinv Hi Ho Hq) as (_ & Hfa & Hfp & Hsl & _).
  pose proof (buy_shape _ _ _ _ _ _ _ _ Hsi Hso Ha Hfa Hfp burn_permill Hsl Hc) as Hsh.
  destruct (quoted_trade_swaps _ _ _ _ _ _ _ _ _ _ _ _ _ _ _ _ Hinv Hwho Hne Hi Ho Hq Hsh Hx) as (Hx' & Hsw).
  destruct (buy_changes_Some _ _ _ _ _ _ _ _ Hsi Hso Ha Hfa Hfp burn_permill Hsl Hc)
    as (x & dq & d & mn & fe & fp' & b & -> & _ & Hd & _ & Hy & Hfe & _ & _ & _ & Hk). simpl in *.
  exists x. destruct Hsw as (spent & Hsp & Hsw); [|by exists spent].
  intros spent Hsp. apply Hk; [by eapply quoted_no_slip|done].
Qed.

(** ** Trades settle at the quoted amount *)

Context `{!DynamicFeeLaws T}.

Lemma snapshot_run a q s r s' :
  snapshot_q0 a q s = Ok (r, s') →
  r = default q (SlipFeeHubReserveAtBlockStart s !! a) ∧ SlipFeeDelta s' = SlipFeeDelta s ∧
  ∀ b, b ≠ a → SlipFeeHubReserveAtBlockStart s' !! b = SlipFeeHubReserveAtBlockStart s !! b.
Proof.
  unfold snapshot_q0. intros Hr. inv_cases; split_and!; try done; try (by match goal with E : _ !! a = _ |- _ => rewrite E end).
  intros b Hb. simpl. by rewrite lookup_insert_ne by done.
Qed.

Lemma quoted_peek i ist out ost s fa fp slip s3 :
  i ≠ out → quoted i ist out ost s fa fp slip s3 →
  fa = (fee_get T out (ReserveState.reserve ost) (omni_ext s)).1 ∧
  fp = (fee_get T i (ReserveState.reserve ist) (omni_ext s)).2 ∧
  slip = peek_trade_slip_fees i (ReserveState.hub_reserve ist) out (ReserveState.hub_reserve ost) s.
Proof.
  intros Hne (fo & s1 & fi & s2 & -> & -> & H1 & H2 & H3).
  unfold get_and_store_fee in *.
  pose proof (fee_stored_is_fee out (ReserveState.reserve ost) (omni_ext s)) as E1.
  pose proof (fee_stored_frame out (ReserveState.reserve ost) i (ReserveState.reserve ist) (omni_ext s) Hne) as E2.
  destruct (fee_get_and_store T out _ _) as [f1 x1]. inv_run. simpl in *.
  pose proof (fee_stored_is_fee i (ReserveState.reserve ist) x1) as E3.
  destruct (fee_get_and_store T i _ _) as [f2 x2]. inv_run. simpl in *.
  split; [congruence|]. split; [congruence|].
  unfold load_trade_slip_fees in H3. unfold peek_trade_slip_fees. inv_cases; (match goal with E : SlipFee _ = _ |- _ => simpl in E; rewrite E end); [|done].
  repeat match goal with Hs : snapshot_q0 _ _ _ = Ok _ |- _ => apply snapshot_run in Hs as (-> & ? & ?) end.
  simpl in *. unfold slip_fee_delta. repeat match goal with E : _ = _ |- _ => progress rewrite E by done end.
  match goal with Hs : ∀ b, b ≠ i → _ |- _ => by rewrite Hs by done end.
Qed.

Lemma load_at_same a s st st' : loaded_at s a st → loaded_at s a st' → st = st'.
Proof. intros (x & E & ->) (y & E' & ->). congruence. Qed.

(** *** Between two assets *)

Lemma sell_quote i out amount q s s' :
  i ≠ HubAssetId T → calculate_out_given_in T PoolType.Omnipool i out amount s = Ok (q, s') →
  ∃ ist ost ch, loaded_at s i ist ∧ loaded_at s out ost ∧
    calculate_sell_state_changes (ReserveState.to_math ist) (ReserveState.to_math ost) amount
      (fee_get T out (ReserveState.reserve ost) (omni_ext s)).1
      (fee_get T i (ReserveState.reserve ist) (omni_ext s)).2 (BurnProtocolFee T)
      (peek_trade_slip_fees i (ReserveState.hub_reserve ist) out (ReserveState.hub_reserve ost) s) = Some ch ∧
    q = BalanceUpdate.deref (delta_reserve (change_out ch)).
Proof.
  intros Hi Hr. unfold calculate_out_given_in, for_omnipool in Hr. simpl in Hr. apply (proj1 (executor_Ok _ _ _ _)) in Hr.
  rewrite (proj2 (Z.eqb_neq i _)) in Hr by done. case_match; [done|]. open_call. do 3 eexists. done.
Qed.

Lemma buy_quote i out amount q s s' :
  i ≠ HubAssetId T → calculate_in_given_out T PoolType.Omnipool i out amount s = Ok (q, s') →
  ∃ ist ost ch, loaded_at s i ist ∧ loaded_at s out ost ∧
    calculate_buy_state_changes (ReserveState.to_math ist) (ReserveState.to_math ost) amount
      (fee_get T out (ReserveState.reserve ost) (omni_ext s)).1
      (fee_get T i (ReserveState.reserve ist) (omni_ext s)).2 (BurnProtocolFee T)
      (peek_trade_slip_fees i (ReserveState.hub_reserve ist) out (ReserveState.hub_reserve ost) s) = Some ch ∧
    q = BalanceUpdate.deref (delta_reserve (change_in ch)).
Proof.
  intros Hi Hr. unfold calculate_in_given_out, for_omnipool in Hr. simpl in Hr. apply (proj1 (executor_Ok _ _ _ _)) in Hr.
  rewrite (proj2 (Z.eqb_neq i _)) in Hr by done. case_match; [done|]. open_call. do 3 eexists. done.
Qed.

(** A trade that takes [x] and gives [y]. *)
Definition trade_settles who i (x : Z) out (y : Z) s s' : Prop :=
  i ≠ out ∧ fits u128 x ∧ fits u128 y ∧ settled who i x out y s s'.

Lemma sell_settles_assets who i out amount limit s v s' :
  omni_inv T s → outside who → i ≠ HubAssetId T → fits u128 amount →
  sell T (Signed who) i out amount limit s = Ok (v, s') →
  ∃ y, limit <= y ∧ trade_settles who i amount out y s s' ∧
    ∀ q sq, calculate_out_given_in T PoolType.Omnipool i out amount s = Ok (q, sq) → q = y.
Proof.
  intros Hinv Hwho Hhi Ha Hr.
  apply sell_run in Hr as (ist & ost & fa & fp & slip & s3 & ch & n & Hne & Hi & Ho & Hq & Hc & Hl & Hx); [|done].
  pose proof (loaded_state_sound T _ _ _ Hinv (loaded_at_loaded _ _ _ Hi)) as Hsi.
  pose proof (loaded_state_sound T _ _ _ Hinv (loaded_at_loaded _ _ _ Ho)) as Hso.
  destruct (quoted_same _ _ _ _ _ _ _ _ _ Hinv Hi Ho Hq) as (_ & Hfa & Hfp & Hsl & _).
  pose proof (sell_shape _ _ _ _ _ _ _ _ Hsi Hso Ha Hfa Hfp burn_permill Hsl Hc) as Hsh.
  destruct (quoted_trade_swaps _ _ _ _ _ _ _ _ _ _ _ _ _ _ _ _ Hinv Hwho Hne Hi Ho Hq Hsh Hx) as (Hx' & _).
  pose proof (sell_out_fits _ _ _ _ _ _ _ _ Hsi Hso Ha Hfa Hfp burn_permill Hsl Hc) as Hy.
  destruct (sell_changes_Some _ _ _ _ _ _ _ _ Hsi Hso Ha Hfa Hfp burn_permill Hsl Hc)
    as (? & ? & ? & ? & ? & ? & ? & Ec & _).
  exists (BalanceUpdate.deref (delta_reserve (change_out ch))). split; [done|]. split; [by rewrite Ec in *|].
  intros q sq (ist' & ost' & ch' & Hi' & Ho' & Hc' & ->)%sell_quote; [|done].
  pose proof (load_at_same _ _ _ _ Hi Hi') as <-. pose proof (load_at_same _ _ _ _ Ho Ho') as <-.
  apply quoted_peek in Hq as (-> & -> & ->); [|done]. rewrite Hc in Hc'. by injection Hc' as <-.
Qed.

Lemma buy_settles_assets who out i amount limit s v s' :
  omni_inv T s → outside who → i ≠ HubAssetId T → fits u128 amount →
  buy T (Signed who) out i amount limit s = Ok (v, s') →
  ∃ x, x <= limit ∧ trade_settles who i x out amount s s' ∧
    ∀ q sq, calculate_in_given_out T PoolType.Omnipool i out amount s = Ok (q, sq) → q = x.
Proof.
  intros Hinv Hwho Hhi Ha Hr.
  apply buy_run in Hr as (ist & ost & fa & fp & slip & s3 & ch & n & Hne & Hi & Ho & Hq & Hc & Hl & Hx); [|done].
  pose proof (loaded_state_sound T _ _ _ Hinv (loaded_at_loaded _ _ _ Hi)) as Hsi.
  pose proof (loaded_state_sound T _ _ _ Hinv (loaded_at_loaded _ _ _ Ho)) as Hso.
  destruct (quoted_same _ _ _ _ _ _ _ _ _ Hinv Hi Ho Hq) as (_ & Hfa & Hfp & Hsl & _).
  pose proof (buy_shape _ _ _ _ _ _ _ _ Hsi Hso Ha Hfa Hfp burn_permill Hsl Hc) as Hsh.
  destruct (quoted_trade_swaps _ _ _ _ _ _ _ _ _ _ _ _ _ _ _ _ Hinv Hwho Hne Hi Ho Hq Hsh Hx) as (Hx' & _).
  pose proof (buy_in_fits _ _ _ _ _ _ _ _ Hsi Hso Ha Hfa Hfp burn_permill Hsl Hc) as Hy.
  destruct (buy_changes_Some _ _ _ _ _ _ _ _ Hsi Hso Ha Hfa Hfp burn_permill Hsl Hc)
    as (? & ? & ? & ? & ? & ? & ? & Ec & _).
  exists (BalanceUpdate.deref (delta_reserve (change_in ch))). split; [done|]. split; [by rewrite Ec in *|].
  intros q sq (ist' & ost' & ch' & Hi' & Ho' & Hc' & ->)%buy_quote; [|done].
  pose proof (load_at_same _ _ _ _ Hi Hi') as <-. pose proof (load_at_same _ _ _ _ Ho Ho') as <-.
  apply quoted_peek in Hq as (-> & -> & ->); [|done]. rewrite Hc in Hc'. by injection Hc' as <-.
Qed.

(** *** With the hub asset *)

Lemma load_hub_slip_others out qo s slip s' :
  load_hub_trade_slip_fees out qo s = Ok (slip, s') → others_same s s'.
Proof. unfold load_hub_trade_slip_fees. intros. inv_cases; [|done]. by eapply snapshot_others. Qed.

Lemma update_hub_delta_others out qo s v s' :
  update_slip_fee_delta_hub_trade out qo s = Ok (v, s') → others_same s s'.
Proof.
  unfold update_slip_fee_delta_hub_trade, add_slip_fee_delta, math_or. intros. inv_cases; by apply others_ext.
Qed.

(** What a hub trade does outside, from the state the fee is loaded in. *)
Lemma hub_trade_settles o who out ost ch tk fees op s s1 s2 v s' :
  outside who → out ≠ HubAssetId T → others_same s s1 → hub_shape ch →
  process_trade_fee T who out (asset_fee (hub_trade_fee ch)) s1 = Ok ((tk, fees), s2) →
  settle_hub_trade T o who out ost (hub_account_for_fee_taken ch tk) fees op s2 = Ok (v, s') →
  settled who (HubAssetId T) (BalanceUpdate.deref (delta_hub_reserve (hub_change ch)))
    out (BalanceUpdate.deref (delta_reserve (hub_change ch))) s s'.
Proof.
  intros Hwho Hho Hs Hsh Hf Hr.
  assert (0 <= asset_fee (hub_trade_fee ch)) as Hfa.
  { destruct Hsh as (? & ? & ? & ? & ? & -> & _ & _ & _ & Hfa). by apply fits_nonneg in Hfa. }
  destruct (trade_fee_spent _ _ _ _ _ _ _ Hfa Hf) as ([Htk _] & _ & _ & Htr).
  pose proof (hub_taken_unsigned _ _ Hsh Htk) as [Hy Hq _ _ He].
  assert (delta_hub_reserve (hub_change (hub_account_for_fee_taken ch tk)) = delta_hub_reserve (hub_change ch) ∧
    delta_reserve (hub_change (hub_account_for_fee_taken ch tk)) = delta_reserve (hub_change ch)) as [E1 E2] by done.
  unfold settle_hub_trade, math_or, set_asset_state, deposit_event, broadcast_event in Hr. inv_run.
  repeat match goal with
  | Hx : 0 <= ?x, Hl : call (transfer _ _ _ ?x _) _ = Ok _ |- _ =>
      pose proof (transfer_ledger _ _ _ _ _ _ _ _ Hx Hl); clear Hl
  | Hl : call (on_hub_asset_trade _ _ _) _ = Ok _ |- _ => apply call_others in Hl; [|apply hub_trade_hook_frames]
  | Hl : update_hub_asset_liquidity _ _ _ = Ok _ |- _ => apply hub_others in Hl; [|done]
  | Hl : update_slip_fee_delta_hub_trade _ _ _ = Ok _ |- _ => apply update_hub_delta_others in Hl
  end.
  unfold others_same in *. rewrite E1, E2 in *. simpl in *. intros c b [Hb Hpb]. destruct Hwho as [Hwho Hpot].
  repeat match goal with Hl : ∀ _ _, _ ≠ HubAssetId T ∨ _ → _ |- _ =>
      rewrite Hl by (by right); clear Hl
    | Hl : ∀ _ _, free_balance _ _ (omni_ext ?z) = _ + _ |- context [omni_ext ?z] => rewrite Hl; clear Hl end.
  rewrite Htr, Hs by (done || by right). by_moves.
Qed.

(** The fee and slip fee of a hub trade, loaded from [s] to [s2]. *)
Definition hub_quoted out (ost : ReserveState.t) s (fa : Z) (slip : option HubTradeSlipFees) s2 : Prop :=
  ∃ fo s1, fa = fo.1 ∧ get_and_store_fee T out (ReserveState.reserve ost) s = Ok (fo, s1) ∧
    load_hub_trade_slip_fees out (ReserveState.hub_reserve ost) s1 = Ok (slip, s2).

Lemma hub_quoted_same out ost s fa slip s2 :
  omni_inv T s → loaded_at s out ost → hub_quoted out ost s fa slip s2 →
  others_same s s2 ∧ is_permill fa ∧ valid_hub_slip slip.
Proof.
  intros Hinv Ho (fo & s1 & -> & H1 & H2).
  pose proof (trade_hub_fits _ (loaded_state_sound T _ _ _ Hinv (loaded_at_loaded _ _ _ Ho))) as Hq.
  pose proof (fee_store_moves T _ _ _ _ _ H1) as (Hm & Hf & _). pose proof (moves_inv T _ _ Hm Hinv) as [].
  pose proof (load_hub_slip_moves T _ _ _ _ _ Hq H2) as [_ Hsl].
  apply fee_store_others in H1. apply load_hub_slip_others in H2. split_and!; eauto using others_trans.
Qed.

Lemma hub_quoted_peek out ost s fa slip s2 :
  hub_quoted out ost s fa slip s2 →
  fa = (fee_get T out (ReserveState.reserve ost) (omni_ext s)).1 ∧
  slip = peek_hub_trade_slip_fees out (ReserveState.hub_reserve ost) s.
Proof.
  intros (fo & s1 & -> & H1 & H2). unfold get_and_store_fee in *.
  pose proof (fee_stored_is_fee out (ReserveState.reserve ost) (omni_ext s)) as E1.
  destruct (fee_get_and_store T out _ _) as [f1 x1]. inv_run. simpl in *. split; [congruence|].
  unfold load_hub_trade_slip_fees in H2. unfold peek_hub_trade_slip_fees.
  inv_cases; (match goal with E : SlipFee _ = _ |- _ => simpl in E; rewrite E end); [|done].
  match goal with Hs : snapshot_q0 _ _ _ = Ok _ |- _ => apply snapshot_run in Hs as (-> & E & _) end.
  unfold slip_fee_delta. simpl in *. by rewrite E.
Qed.

Ltac open_hub_call :=
  unfold ensure_or, math_or in * |-;
  repeat (inv_run; try match goal with
  | Hr : ensure_signed _ = Ok _ |- _ => inversion Hr; clear Hr; subst
  | Hr : (let '(_, _) := ?x in _) _ = Ok _ |- _ => destruct x eqn:?; cbv beta iota in Hr end); propify;
  repeat match goal with Hl : load_asset_state _ _ _ = Ok _ |- _ => apply load_at in Hl as [-> ?] end.

(** Name the loaded state and quote of a hub trade, with what they satisfy. *)
Ltac open_hub_quote :=
  match goal with
  | Hv : omni_inv T ?s, Ho : loaded_at ?s ?out ?x, H1 : get_and_store_fee _ _ _ _ = Ok (?f, ?f', _),
    H2 : load_hub_trade_slip_fees _ _ _ = Ok (?slip, ?s2) |- _ =>
      assert (hub_quoted out x s f slip s2) as Hq' by (exists (f, f'); eexists; done);
      pose proof (loaded_state_sound T _ _ _ Hv (loaded_at_loaded _ _ _ Ho)) as Hso;
      destruct (hub_quoted_same _ _ _ _ _ _ Hv Ho Hq') as (Hs & Hfa & Hsl)
  end.

Lemma sell_hub_quote out amount q s s' :
  calculate_out_given_in T PoolType.Omnipool (HubAssetId T) out amount s = Ok (q, s') →
  ∃ st ch, loaded_at s out st ∧ calculate_sell_hub_state_changes (ReserveState.to_math st) amount
      (fee_get T out (ReserveState.reserve st) (omni_ext s)).1
      (peek_hub_trade_slip_fees out (ReserveState.hub_reserve st) s) = Some ch ∧
    q = BalanceUpdate.deref (delta_reserve (hub_change ch)).
Proof.
  intros Hr. unfold calculate_out_given_in, for_omnipool in Hr. simpl in Hr.
  apply (proj1 (executor_Ok _ _ _ _)) in Hr. rewrite Z.eqb_refl in Hr. case_match; [done|]. open_call. by do 2 eexists.
Qed.

Lemma buy_hub_quote out amount q s s' :
  calculate_in_given_out T PoolType.Omnipool (HubAssetId T) out amount s = Ok (q, s') →
  ∃ st ch, loaded_at s out st ∧ calculate_buy_for_hub_asset_state_changes (ReserveState.to_math st) amount
      (fee_get T out (ReserveState.reserve st) (omni_ext s)).1
      (peek_hub_trade_slip_fees out (ReserveState.hub_reserve st) s) = Some ch ∧
    q = BalanceUpdate.deref (delta_hub_reserve (hub_change ch)).
Proof.
  intros Hr. unfold calculate_in_given_out, for_omnipool in Hr. simpl in Hr.
  apply (proj1 (executor_Ok _ _ _ _)) in Hr. rewrite Z.eqb_refl in Hr. case_match; [done|]. open_call. by do 2 eexists.
Qed.

Lemma sell_hub_settles who out amount limit s v s' :
  omni_inv T s → outside who → fits u128 amount →
  sell T (Signed who) (HubAssetId T) out amount limit s = Ok (v, s') →
  ∃ y, limit <= y ∧ trade_settles who (HubAssetId T) amount out y s s' ∧
    ∀ q sq, calculate_out_given_in T PoolType.Omnipool (HubAssetId T) out amount s = Ok (q, sq) → q = y.
Proof.
  intros Hinv Hwho Ha Hr. unfold sell in Hr. open_call. rewrite Z.eqb_refl in Hr.
  unfold sell_hub_asset in Hr. open_hub_call. open_hub_quote.
  match goal with Hc : calculate_sell_hub_state_changes _ _ _ _ = Some ?ch |- _ =>
    destruct (sell_hub_changes_Some _ _ _ _ _ Hso Ha Hfa Hsl Hc) as (? & ? & ? & ? & Ec & _);
    pose proof (sell_hub_shape _ _ _ _ _ Hso Ha Hfa Hsl Hc) as Hsh;
    pose proof (sell_hub_out_fits _ _ _ _ _ Hso Ha Hfa Hsl Hc) as Hy;
    exists (BalanceUpdate.deref (delta_reserve (hub_change ch))); rename Hc into Hch end.
  split; [done|]. split.
  - eapply hub_trade_settles in Hr; [|done || congruence..]. rewrite Ec in *. split_and!; done || congruence.
  - intros q sq Hq. apply sell_hub_quote in Hq as (st' & ch' & Ho' & Hc' & ->).
    match goal with Ho : loaded_at s out ?x |- _ => pose proof (load_at_same _ _ _ _ Ho Ho') as <- end.
    apply hub_quoted_peek in Hq' as [-> ->]. rewrite Hch in Hc'. by injection Hc' as <-.
Qed.

Lemma buy_hub_settles who out amount limit s v s' :
  omni_inv T s → outside who → fits u128 amount →
  buy T (Signed who) out (HubAssetId T) amount limit s = Ok (v, s') →
  ∃ x, x <= limit ∧ trade_settles who (HubAssetId T) x out amount s s' ∧
    ∀ q sq, calculate_in_given_out T PoolType.Omnipool (HubAssetId T) out amount s = Ok (q, sq) → q = x.
Proof.
  intros Hinv Hwho Ha Hr. unfold buy in Hr. open_call.
  case_match; [propify; congruence|]. rewrite Z.eqb_refl in Hr.
  unfold buy_asset_for_hub_asset in Hr. open_hub_call. open_hub_quote.
  match goal with Hc : calculate_buy_for_hub_asset_state_changes _ _ _ _ = Some ?ch |- _ =>
    destruct (buy_hub_changes_Some _ _ _ _ _ Hso Ha Hfa Hc) as (? & ? & ? & ? & Ec & _ & _ & Hx & _);
    pose proof (buy_hub_shape _ _ _ _ _ Hso Ha Hfa Hc) as Hsh;
    exists (BalanceUpdate.deref (delta_hub_reserve (hub_change ch))); rename Hc into Hch end.
  split; [done|]. split.
  - eapply hub_trade_settles in Hr; [|done || congruence..]. rewrite Ec in *. split_and!; done || congruence.
  - intros q sq Hq. apply buy_hub_quote in Hq as (st' & ch' & Ho' & Hc' & ->).
    match goal with Ho : loaded_at s out ?x |- _ => pose proof (load_at_same _ _ _ _ Ho Ho') as <- end.
    apply hub_quoted_peek in Hq' as [-> ->]. rewrite Hch in Hc'. by injection Hc' as <-.
Qed.

Lemma sell_settles who i out amount limit s v s' :
  omni_inv T s → outside who → fits u128 amount →
  sell T (Signed who) i out amount limit s = Ok (v, s') →
  ∃ y, limit <= y ∧ trade_settles who i amount out y s s' ∧
    ∀ q sq, calculate_out_given_in T PoolType.Omnipool i out amount s = Ok (q, sq) → q = y.
Proof.
  intros. destruct (decide (i = HubAssetId T)) as [->|]; [by eapply sell_hub_settles|by eapply sell_settles_assets].
Qed.

Lemma buy_settles who out i amount limit s v s' :
  omni_inv T s → outside who → fits u128 amount →
  buy T (Signed who) out i amount limit s = Ok (v, s') →
  ∃ x, x <= limit ∧ trade_settles who i x out amount s s' ∧
    ∀ q sq, calculate_in_given_out T PoolType.Omnipool i out amount s = Ok (q, sq) → q = x.
Proof.
  intros. destruct (decide (i = HubAssetId T)) as [->|]; [by eapply buy_hub_settles|by eapply buy_settles_assets].
Qed.

(** C21: a sale that succeeds gives the trader exactly the amount the executor
    quotes in the same state and takes exactly the amount sold, whether an asset
    or the hub asset is sold; the quote reaches the limit. *)
Theorem omnipool_sell_settles_at_quote who i out amount limit q s sq v s' :
  omni_reachable T s → outside who → fits u128 amount →
  calculate_out_given_in T PoolType.Omnipool i out amount s = Ok (q, sq) →
  sell T (Signed who) i out amount limit s = Ok (v, s') →
  limit <= q ∧ settled who i amount out q s s'.
Proof.
  intros Hinv%reachable_inv Hwho Ha Hq Hr; [|done..].
  apply sell_settles in Hr as (y & Hl & (_ & _ & _ & Hs) & Hy); [|done..]. by rewrite (Hy _ _ Hq).
Qed.

(** A purchase that succeeds takes from the trader exactly the amount the
    executor quotes in the same state and gives exactly the amount bought; the
    quote is within the limit. *)
Theorem omnipool_buy_settles_at_quote who out i amount limit q s sq v s' :
  omni_reachable T s → outside who → fits u128 amount →
  calculate_in_given_out T PoolType.Omnipool i out amount s = Ok (q, sq) →
  buy T (Signed who) out i amount limit s = Ok (v, s') →
  q <= limit ∧ settled who i q out amount s s'.
Proof.
  intros Hinv%reachable_inv Hwho Ha Hq Hr; [|done..].
  apply buy_settles in Hr as (x & Hl & (_ & _ & _ & Hs) & Hx); [|done..]. by rewrite (Hx _ _ Hq).
Qed.
End trade.

(** ** Concrete trades *)

Module TradeDemo.
Import OmniDemo.
#[local] Existing Instance reference_arithmetic.
#[local] Existing Instance reference_arithmetic_laws.
#[local] Existing Instance config_laws.

(** A hook that reports and takes nothing, and constant fees. *)
Definition no_pots : Z → Prop := λ _, False.
#[local] Instance config_hook_laws : FeeHookLaws config no_pots.
Proof.
  constructor; simpl; intros; inv_run; simpl; [|done].
  rewrite Z.sub_diag. by split.
Qed.
#[local] Instance config_fee_laws : DynamicFeeLaws config.
Proof. by constructor. Qed.

Lemma alice_outside : outside config no_pots alice.
Proof. split; [intros [=]|intros []]. Qed.

Lemma with_dot_reachable : omni_reachable config with_dot.
Proof.
  exists s0. split; [apply s0_genesis|].
  eapply rtc_l; [eapply step_add_token; [..|
    apply (run_Ok (add_token config Root HDX 200000000000000 1000000 alice) s0)]; compute_done|].
  eapply rtc_l; [|apply rtc_refl]. eapply step_add_token; [..|
    apply (run_Ok (add_token config Root DOT 600000000000000 1000000 alice) with_hdx)]; compute_done.
Qed.

Lemma sell_refines_swap_witness : ∃ y spent,
  1 <= y ∧ 0 <= spent ∧
  HubMarket.swap HDX DOT HDX 10000000000 (y + spent) (market_of config provided) (market_of config sold).
Proof.
  destruct (sell_refines_swap config no_pots alice DOT HDX 10000000000 1 provided tt sold provided_reachable)
    as (y & spent & H1 & H2 & _ & H3); [apply alice_outside|intros [=]|compute_done| |exists y, spent; auto].
  apply (run_Ok (sell config (Signed alice) DOT HDX 10000000000 1) provided). compute_done.
Defined.

Definition purchased := run (buy config (Signed alice) HDX DOT 1000000000 100000000000) with_dot.

Lemma buy_refines_swap_witness : ∃ x spent,
  x <= 100000000000 ∧ 0 <= spent ∧
  HubMarket.swap HDX DOT HDX x (1000000000 + spent) (market_of config with_dot) (market_of config purchased).
Proof.
  destruct (buy_refines_swap config no_pots alice HDX DOT 1000000000 100000000000 with_dot tt purchased with_dot_reachable)
    as (x & spent & H1 & H2 & _ & H3); [compute_done|apply alice_outside|intros [=]|compute_done| |exists x, spent; auto].
  refine (run_Ok (buy config (Signed alice) HDX DOT 1000000000 100000000000) with_dot _). vm_compute. reflexivity.
Defined.

Lemma omnipool_sell_settles_at_quote_witness :
  ∃ q, fst <$> calculate_out_given_in config PoolType.Omnipool DOT HDX 10000000000 provided = Ok q ∧
    free_balance HDX alice (omni_ext sold) = free_balance HDX alice (omni_ext provided) + q.
Proof.
  destruct (calculate_out_given_in config PoolType.Omnipool DOT HDX 10000000000 provided) as [[q sq]|] eqn:E;
    [|vm_compute in E; discriminate].
  exists q. split; [reflexivity|].
  destruct (omnipool_sell_settles_at_quote config no_pots alice DOT HDX 10000000000 1 q provided sq tt sold provided_reachable)
    as [_ H]; [apply alice_outside|compute_done|exact E| |].
  2: { apply settled_trader in H as [_ H]; [exact H|apply alice_outside|intros [=]]. }
  apply (run_Ok (sell config (Signed alice) DOT HDX 10000000000 1) provided). compute_done.
Defined.

Lemma omnipool_buy_settles_at_quote_witness :
  ∃ q, fst <$> calculate_in_given_out config PoolType.Omnipool LRNA HDX 1000000000 sold = Ok q ∧
    free_balance LRNA alice (omni_ext bought) = free_balance LRNA alice (omni_ext sold) - q.
Proof.
  destruct (calculate_in_given_out config PoolType.Omnipool LRNA HDX 1000000000 sold) as [[q sq]|] eqn:E;
    [|vm_compute in E; discriminate].
  exists q. split; [reflexivity|].
  destruct (omnipool_buy_settles_at_quote config no_pots alice HDX LRNA 1000000000 1000000000 q sold sq tt bought sold_reachable)
    as [_ H]; [apply alice_outside|compute_done|exact E| |].
  2: { apply settled_trader in H as [H _]; [exact H|apply alice_outside|intros [=]]. }
  refine (run_Ok (buy config (Signed alice) HDX LRNA 1000000000 1000000000) sold _). vm_compute. reflexivity.
Defined.
End TradeDemo.
