(* ===== verification/RouteExecutor.v ===== *)
(** * The router

    Models [pallets/route-executor]: trades along a route of pools, executed from
    the router's own account, and the routes kept on chain.  The pools are any
    [TradeExecution]; the ledger and the broadcast pallet live in the storage the
    pools work on. *)

From S2P Require Import Prelude Arithmetic Currency Ratio Broadcast Traits.

Module RouterError.
Inductive t :=
| TradingLimitReached
| MaxTradesExceeded
| PoolNotSupported
| InsufficientBalance
| RouteCalculationFailed
| InvalidRoute
| RouteUpdateIsNotSuccessful
| RouteHasNoOracle
| InvalidRouteExecution
| NotAllowed.
End RouterError.

Inductive RouterEvent :=
| Executed (asset_in asset_out : AssetId) (amount_in amount_out : Balance) (event_id : Z)
| RouteUpdated (asset_ids : list AssetId).

(** A failure of the router itself, or an error of a pool handed on. *)
Inductive failure (Er : Type) :=
| Own (e : DispatchError RouterError.t)
| Pool (e : Er).
#[global] Arguments Own {Er} e.
#[global] Arguments Pool {Er} e.

(** What the router uses of the chain besides the ledger: the balance an account
    can spend ([reducible_balance], expendable and polite) and the storage of the
    broadcast pallet. *)
Class RouterWorld (W AccountId : Type) := {
  reducible_balance : AssetId → AccountId → W → Balance;
  bcast_of : W → broadcast AccountId;
  set_bcast : broadcast AccountId → W → W;
}.

Record RouterConfig (W AccountId Er : Type) := mkRouterConfig {
  NativeAssetId : AssetId;
  AMM : TradeExecution.t W AccountId Er;
  oracle_price : Route → W → option Ratio;
  DefaultRoutePoolType : PoolType.t;
  force_insert_origin : RawOrigin AccountId → bool;
  router_account : AccountId;
}.
#[global] Arguments mkRouterConfig {W AccountId Er} _ _ _ _ _ _.
#[global] Arguments NativeAssetId {W AccountId Er} _.
#[global] Arguments AMM {W AccountId Er} _.
#[global] Arguments oracle_price {W AccountId Er} _ _ _.
#[global] Arguments DefaultRoutePoolType {W AccountId Er} _.
#[global] Arguments force_insert_origin {W AccountId Er} _ _.
#[global] Arguments router_account {W AccountId Er} _.

(** The storage of the router, its events and the rest of the chain. *)
Record router (W : Type) := mkRouter {
  Routes : gmap RouterPair.t Route;
  router_events : list RouterEvent;
  world : W;
}.
#[global] Arguments mkRouter {W} _ _ _.
#[global] Arguments Routes {W} _.
#[global] Arguments router_events {W} _.
#[global] Arguments world {W} _.

(** [slice::chunks(4)]. *)
Fixpoint chunks4 {A} (l : list A) : list (list A) :=
  match l with
  | a :: b :: c :: d :: rest => [a; b; c; d] :: chunks4 rest
  | [] => []
  | rest => [rest]
  end.

Section route_executor.
Context {W AccountId Er : Type} `{!EqDecision AccountId} `{!MultiCurrency W AccountId}
  `{!RouterWorld W AccountId} `{SpArithmetic}.
Context (T : RouterConfig W AccountId Er).

Notation RouterM := (M (router W) (failure Er)).
Implicit Types (s : router W) (who : AccountId) (o : RawOrigin AccountId) (route : Route).

Definition set_Routes (v : gmap RouterPair.t Route) s : router W :=
  mkRouter v (router_events s) (world s).
Definition set_router_events (v : list RouterEvent) s : router W := mkRouter (Routes s) v (world s).
Definition set_world (v : W) s : router W := mkRouter (Routes s) (router_events s) v.

Definition own {A} (e : RouterError.t) : result (failure Er) A := Err (Own (ModuleError e)).
Definition ensure_or (b : bool) (e : RouterError.t) : RouterM unit := ensureM b (Own (ModuleError e)).
Definition some_or {A} (r : option A) (e : RouterError.t) : result (failure Er) A :=
  ok_or r (Own (ModuleError e)).
Definition deposit_event (e : RouterEvent) : RouterM unit :=
  modify (λ s, set_router_events (router_events s ++ [e]) s).
Definition call (f : W → result Z W) : RouterM unit := λ s,
  match f (world s) with Ok w => Ok (tt, set_world w s) | Err c => Err (Own (Foreign c)) end.

(** [handle_execution_error!]. *)
Definition handle_error {A} (r : result (ExecutorError.t Er) A) : result (failure Er) A :=
  map_err (λ e, match e with
    | ExecutorError.NotSupported => Own (ModuleError RouterError.PoolNotSupported)
    | ExecutorError.Error e => Pool e
    end) r.
Definition execute (m : M W (ExecutorError.t Er) unit) : RouterM unit := λ s,
  '(u, w) ← handle_error (m (world s)); Ok (u, set_world w s).

Definition push_context : RouterM Z := λ s,
  match add_to_context ExecRouter (bcast_of (world s)) with
  | (Ok id, b) => Ok (id, set_world (set_bcast b (world s)) s)
  | (Err _, _) => Err (Own (Foreign 1))
  end.
Definition pop_context : RouterM unit := λ s,
  match remove_from_context (bcast_of (world s)) with
  | Ok b => Ok (tt, set_world (set_bcast b (world s)) s)
  | Err _ => Err (Own (Foreign 2))
  end.
Definition on_broadcast (f : broadcast AccountId → broadcast AccountId) : RouterM unit :=
  modify (λ s, set_world (set_bcast (f (bcast_of (world s))) (world s)) s).

(** ** Routes *)

Definition ensure_route_size (route_length : nat) : result (failure Er) unit :=
  ensure (route_length <=? MAX_NUMBER_OF_TRADES)%nat (Own (ModuleError RouterError.MaxTradesExceeded)).

(** The loop over consecutive trades. *)
Fixpoint ensure_connected route : result (failure Er) unit :=
  match route with
  | t :: (t' :: _) as rest =>
      ensure (Trade.asset_out t =? Trade.asset_in t') (Own (ModuleError RouterError.InvalidRoute));;
      ensure_connected rest
  | _ => Ok tt
  end.

Definition ensure_route_arguments (asset_pair : RouterPair.t) route : result (failure Er) unit :=
  first ← some_or (head route) RouterError.InvalidRoute;
  ensure (RouterPair.asset_in asset_pair =? Trade.asset_in first) (Own (ModuleError RouterError.InvalidRoute));;
  final ← some_or (last route) RouterError.InvalidRoute;
  ensure (RouterPair.asset_out asset_pair =? Trade.asset_out final) (Own (ModuleError RouterError.InvalidRoute));;
  ensure_connected route.

Definition get_route (asset_pair : RouterPair.t) s : Route :=
  let onchain_route := Routes s !! RouterPair.ordered_pair asset_pair in
  let default_route := [Trade.mk (DefaultRoutePoolType T) (RouterPair.asset_in asset_pair)
    (RouterPair.asset_out asset_pair)] in
  match onchain_route with
  | Some route => if RouterPair.is_ordered asset_pair then route else inverse_route route
  | None => default_route
  end.

Definition get_route_or_default asset_in asset_out route s : Route :=
  match route with [] => get_route (RouterPair.new asset_in asset_out) s | _ => route end.

(** ** Amounts of a route *)

Fixpoint calculate_sell_trade_amounts route (amount_in : Balance) (w : W) :
    result (failure Er) (list AmountInAndOut) :=
  match route with
  | [] => Ok []
  | trade :: rest =>
      amount_out ← handle_error (TradeExecution.calculate_out_given_in (AMM T) (Trade.pool trade)
        (Trade.asset_in trade) (Trade.asset_out trade) amount_in w);
      amounts ← calculate_sell_trade_amounts rest amount_out w;
      Ok (mkAmounts amount_in amount_out :: amounts)
  end.

(** The loop of [calculate_buy_trade_amounts], over the reversed route. *)
Fixpoint buy_trade_amounts route (amount_out : Balance) (w : W) : result (failure Er) (list AmountInAndOut) :=
  match route with
  | [] => Ok []
  | trade :: rest =>
      amount_in ← handle_error (TradeExecution.calculate_in_given_out (AMM T) (Trade.pool trade)
        (Trade.asset_in trade) (Trade.asset_out trade) amount_out w);
      amounts ← buy_trade_amounts rest amount_in w;
      Ok (mkAmounts amount_in amount_out :: amounts)
  end.
Definition calculate_buy_trade_amounts route (amount_out : Balance) (w : W) :
    result (failure Er) (list AmountInAndOut) :=
  buy_trade_amounts (reverse route) amount_out w.

Definition calculate_expected_amount_out route (amount_in : Balance) (w : W) : result (failure Er) Balance :=
  amounts ← calculate_sell_trade_amounts route amount_in w;
  final ← some_or (last amounts) RouterError.RouteCalculationFailed;
  Ok (amount_out final).
Definition calculate_expected_amount_in route (amount_out : Balance) (w : W) : result (failure Er) Balance :=
  amounts ← calculate_buy_trade_amounts route amount_out w;
  final ← some_or (last amounts) RouterError.RouteCalculationFailed;
  Ok (amount_in final).

Definition validate_sell route (amount_in : Balance) (w : W) : result (failure Er) Balance :=
  calculate_expected_amount_out route amount_in w.

Definition calculate_reference_amount_in route (w : W) : result (failure Er) Balance :=
  first_route ← some_or (head route) RouterError.RouteCalculationFailed;
  let asset_b := match Trade.pool first_route with
    | PoolType.Omnipool => NativeAssetId T
    | PoolType.Stableswap pool_id => pool_id
    | _ => Trade.asset_out first_route
    end in
  liquidity ← handle_error (TradeExecution.get_liquidity_depth (AMM T) (Trade.pool first_route)
    (Trade.asset_in first_route) asset_b w);
  ok_or (checked_div liquidity 100) (Own (Arithmetic ArithmeticError.Overflow)).

Definition validate_route route (w : W) : result (failure Er) (Balance * Balance) :=
  reference_amount_in ← calculate_reference_amount_in route w;
  let route_validation := validate_sell route reference_amount_in w in
  let inverse := inverse_route route in
  reference_amount_in_for_inverse ← calculate_reference_amount_in inverse w;
  let inverse_validation := validate_sell inverse reference_amount_in_for_inverse w in
  match route_validation, inverse_validation with
  | Ok _, Ok _ => Ok (reference_amount_in, reference_amount_in_for_inverse)
  | Err _, Ok amount_out =>
      validate_sell route amount_out w;; Ok (amount_out, reference_amount_in_for_inverse)
  | Ok amount_out, Err _ =>
      validate_sell inverse amount_out w;; Ok (reference_amount_in, amount_out)
  | Err err, Err _ => Err err
  end.

(** ** Calls *)

Definition insert_route (asset_pair : RouterPair.t) route : RouterM unit :=
  modify (λ s, set_Routes (<[asset_pair := route]> (Routes s)) s);;
  deposit_event (RouteUpdated (RouterPair.to_ordered_vec asset_pair)).

(** The pair in the order of its ids, with the route along it. *)
Definition order_route (asset_pair : RouterPair.t) route : RouterPair.t * Route :=
  if negb (RouterPair.is_ordered asset_pair) then (RouterPair.ordered_pair asset_pair, inverse_route route)
  else (asset_pair, route).

Definition signed o : RouterM AccountId := lift (map_err Own (ensure_signed o)).

Definition set_route o (asset_pair : RouterPair.t) (new_route : Route) : RouterM unit :=
  signed o;;
  lift (ensure_route_size (length new_route));;
  lift (ensure_route_arguments asset_pair new_route);;
  w ← gets world;
  lift (some_or (oracle_price T new_route w) RouterError.RouteHasNoOracle);;
  let '(asset_pair, new_route) := order_route asset_pair new_route in
  existing_route ← gets (get_route asset_pair);
  match validate_route existing_route w with
  | Ok (reference_amount_in, reference_amount_in_for_inverse) =>
      let inverse_new_route := inverse_route new_route in
      lift (match validate_sell new_route reference_amount_in w,
                  validate_sell inverse_new_route reference_amount_in_for_inverse w with
            | Ok _, Ok _ => Ok tt
            | Err _, Ok amount_out => validate_sell new_route amount_out w;; Ok tt
            | Ok amount_out, Err _ => validate_sell inverse_new_route amount_out w;; Ok tt
            | Err err, Err _ => Err err
            end);;
      amount_out_for_existing_route ← lift (calculate_expected_amount_out existing_route reference_amount_in w);
      amount_out_for_new_route ← lift (calculate_expected_amount_out new_route reference_amount_in w);
      let inverse_existing_route := inverse_route existing_route in
      amount_out_for_existing_inversed_route ← lift
        (calculate_expected_amount_out inverse_existing_route reference_amount_in_for_inverse w);
      amount_out_for_new_inversed_route ← lift
        (calculate_expected_amount_out inverse_new_route reference_amount_in_for_inverse w);
      if (amount_out_for_existing_route <? amount_out_for_new_route)
         && (amount_out_for_existing_inversed_route <? amount_out_for_new_inversed_route)
      then insert_route asset_pair new_route
      else lift (own RouterError.RouteUpdateIsNotSuccessful)
  | Err _ =>
      lift (validate_route new_route w);;
      insert_route asset_pair new_route
  end.

Definition force_insert_route o (asset_pair : RouterPair.t) (new_route : Route) : RouterM unit :=
  ensureM (force_insert_origin T o) (Own BadOrigin);;
  let '(asset_pair, new_route) := order_route asset_pair new_route in
  insert_route asset_pair new_route.

(** The loop over the trades of a sale: each sells all the router holds. *)
Fixpoint execute_sells route : RouterM unit :=
  match route with
  | [] => mret tt
  | trade :: rest =>
      amount_in_to_sell ← gets (λ s, reducible_balance (Trade.asset_in trade) (router_account T) (world s));
      execute (TradeExecution.execute_sell (AMM T) (Signed (router_account T)) (Trade.pool trade)
        (Trade.asset_in trade) (Trade.asset_out trade) amount_in_to_sell 0);;
      execute_sells rest
  end.

(** The loop over the trades of a purchase, zipped with their amounts. *)
Fixpoint execute_buys (trades : list (AmountInAndOut * Trade.t)) : RouterM unit :=
  match trades with
  | [] => mret tt
  | (trade_amount, trade) :: rest =>
      execute (TradeExecution.execute_buy (AMM T) (Signed (router_account T)) (Trade.pool trade)
        (Trade.asset_in trade) (Trade.asset_out trade) (amount_out trade_amount) (amount_in trade_amount));;
      execute_buys rest
  end.

Definition do_sell o asset_in asset_out (amount_in min_amount_out : Balance) route : RouterM unit :=
  who ← signed o;
  ensure_or (negb (asset_in =? asset_out)) RouterError.NotAllowed;;
  lift (ensure_route_size (length route));;
  route ← gets (get_route_or_default asset_in asset_out route);
  lift (ensure_route_arguments (RouterPair.new asset_in asset_out) route);;
  user_amount_in_balance ← gets (λ s, reducible_balance asset_in who (world s));
  ensureM (amount_in <=? user_amount_in_balance) (Own (Token TokenError.FundsUnavailable));;
  call (transfer asset_in who (router_account T) amount_in AllowDeath);;
  next_event_id ← push_context;
  on_broadcast (set_swapper who);;
  execute_sells route;;
  amount_out ← gets (λ s, reducible_balance asset_out (router_account T) (world s));
  ensure_or (min_amount_out <=? amount_out) RouterError.TradingLimitReached;;
  call (transfer asset_out (router_account T) who amount_out AllowDeath);;
  deposit_event (Executed asset_in asset_out amount_in amount_out next_event_id);;
  pop_context;;
  on_broadcast remove_swapper.

Definition sell o asset_in asset_out (amount_in min_amount_out : Balance) route : RouterM unit :=
  do_sell o asset_in asset_out amount_in min_amount_out route.

Definition sell_all o asset_in asset_out (min_amount_out : Balance) route : RouterM unit :=
  who ← signed o;
  amount_in ← gets (λ s, reducible_balance asset_in who (world s));
  do_sell o asset_in asset_out amount_in min_amount_out route.

Definition buy o asset_in asset_out (amount_out max_amount_in : Balance) route : RouterM unit :=
  who ← signed o;
  ensure_or (negb (asset_in =? asset_out)) RouterError.NotAllowed;;
  lift (ensure_route_size (length route));;
  route ← gets (get_route_or_default asset_in asset_out route);
  lift (ensure_route_arguments (RouterPair.new asset_in asset_out) route);;
  w ← gets world;
  trade_amounts ← lift (calculate_buy_trade_amounts route amount_out w);
  first_trade ← lift (some_or (last trade_amounts) RouterError.RouteCalculationFailed);
  ensure_or (Traits.amount_in first_trade <=? max_amount_in) RouterError.TradingLimitReached;;
  on_broadcast (set_swapper who);;
  call (transfer asset_in who (router_account T) (Traits.amount_in first_trade) AllowDeath);;
  next_event_id ← push_context;
  execute_buys (zip (reverse trade_amounts) route);;
  amount_out ← gets (λ s, reducible_balance asset_out (router_account T) (world s));
  call (transfer asset_out (router_account T) who amount_out AllowDeath);;
  deposit_event (Executed asset_in asset_out (Traits.amount_in first_trade) amount_out next_event_id);;
  pop_context;;
  on_broadcast remove_swapper.

(** ** Spot price of a route *)

Fixpoint spot_prices (trades : list Trade.t) (w : W) : option (list Z) :=
  match trades with
  | [] => Some []
  | trade :: rest =>
      spot_price ← ok (TradeExecution.calculate_spot_price_with_fee (AMM T) (Trade.pool trade)
        (Trade.asset_in trade) (Trade.asset_out trade) w);
      prices ← spot_prices rest w;
      Some (spot_price :: prices)
  end.

(** [try_fold] of [checked_mul] over [U512]. *)
Fixpoint product512 (acc : Z) (l : list Z) : option Z :=
  match l with [] => Some acc | x :: l => acc ← checked_mul u512 acc x; product512 acc l end.

(** The loop over the chunks. *)
Fixpoint aggregate_chunks (chunks : list (list Trade.t)) (nominator denominator : Z) (w : W) : option (Z * Z) :=
  match chunks with
  | [] => Some (nominator, denominator)
  | chunk :: rest =>
      prices ← spot_prices chunk w;
      chunk_nominator ← product512 1 prices;
      chunk_denominator ← product512 1 ((λ _, DIV) <$> prices);
      nominator ← checked_mul u512 nominator chunk_nominator;
      denominator ← checked_mul u512 denominator chunk_denominator;
      aggregate_chunks rest nominator denominator w
  end.

Definition spot_price_with_fee route (w : W) : option Z :=
  match route with
  | [] => None
  | _ =>
      nd ← aggregate_chunks (chunks4 route) 1 1 w;
      let rat := round_u512_to_rational nd Nearest in
      fixed_checked_from_rational rat.1 rat.2
  end.
End route_executor.
