(* ===== verification/RouterTrades.v ===== *)
(** * Trades along a route

    What the router promises to a trader, proved against an interface of the
    pools: a sale takes exactly the amount and pays out everything the last pool
    paid, a purchase takes exactly the quoted amount and pays out at least the
    amount bought, and nothing of the route stays in the router's account after
    a sale. *)

From S2P Require Import Prelude Arithmetic Currency Ratio Broadcast Traits RouteExecutor.

(** The laws of the chain the router uses. *)
Class RouterWorldLaws (W AccountId : Type) `{MultiCurrency W AccountId, RouterWorld W AccountId} : Prop := {
  reducible_le c a w : 0 <= reducible_balance c a w <= free_balance c a w;
  set_bcast_ledger b c a w : free_balance c a (set_bcast b w) = free_balance c a w;
}.

(** A trade of [who]: pays [x] of [i], receives [y] of [o]; the other accounts
    outside the pools are as they were. *)
Definition traded {W AccountId} `{EqDecision AccountId, MultiCurrency W AccountId} (touched : AccountId → Prop)
    (who : AccountId) (i : AssetId) (x : Balance) (o : AssetId) (y : Balance) (w w' : W) : Prop :=
  ∀ c b, ¬ touched b →
    free_balance c b w' = free_balance c b w + when (c = o ∧ b = who) y - when (c = i ∧ b = who) x.

(** What the router relies on of its pools.  [inv] is the invariant of the pools
    and [touched] the accounts they and their fee receivers hold. *)
Class PoolLaws {W AccountId Er} `{EqDecision AccountId, MultiCurrency W AccountId, RouterWorld W AccountId}
    (A : TradeExecution.t W AccountId Er) (inv : W → Prop) (touched : AccountId → Prop) : Prop := {
  pool_sell who p i o x lim w v w' :
    inv w → ¬ touched who → fits u128 x →
    TradeExecution.execute_sell A (Signed who) p i o x lim w = Ok (v, w') →
    inv w' ∧ i ≠ o ∧ ∃ y, lim <= y ∧ 0 <= y ∧ traded touched who i x o y w w';
  pool_buy who p i o y lim w v w' :
    inv w → ¬ touched who → fits u128 y →
    TradeExecution.execute_buy A (Signed who) p i o y lim w = Ok (v, w') →
    inv w' ∧ i ≠ o ∧ ∃ x, 0 <= x <= lim ∧ traded touched who i x o y w w';
  pool_in_fits p i o y w x :
    inv w → fits u128 y → TradeExecution.calculate_in_given_out A p i o y w = Ok x → fits u128 x;
  pool_transfer c f t x er w w' :
    inv w → ¬ touched f → ¬ touched t → 0 <= x → transfer c f t x er w = Ok w' → inv w';
  pool_bcast b w : inv w → inv (set_bcast b w);
}.

(** The pools settle at their quotes, and what happens outside the pools does not
    change the quotes. *)
Class PoolQuotes {W AccountId Er} `{EqDecision AccountId, MultiCurrency W AccountId, RouterWorld W AccountId}
    (A : TradeExecution.t W AccountId Er) (inv : W → Prop) (touched : AccountId → Prop) : Prop := {
  quote_sell who p i o x lim q w v w' :
    inv w → ¬ touched who → fits u128 x →
    TradeExecution.calculate_out_given_in A p i o x w = Ok q →
    TradeExecution.execute_sell A (Signed who) p i o x lim w = Ok (v, w') →
    fits u128 q ∧ traded touched who i x o q w w';
  quote_transfer c f t z er p i o x w w' :
    inv w → ¬ touched f → ¬ touched t → 0 <= z → transfer c f t z er w = Ok w' →
    TradeExecution.calculate_out_given_in A p i o x w' = TradeExecution.calculate_out_given_in A p i o x w;
  quote_bcast b p i o x w :
    TradeExecution.calculate_out_given_in A p i o x (set_bcast b w)
      = TradeExecution.calculate_out_given_in A p i o x w;
}.

Section router_trades.
Context {W AccountId Er : Type} `{!EqDecision AccountId} `{!MultiCurrency W AccountId}
  `{!MultiCurrencyLaws W AccountId} `{!RouterWorld W AccountId} `{!RouterWorldLaws W AccountId}.
Context (T : RouterConfig W AccountId Er) (inv : W → Prop) (touched : AccountId → Prop).
Context `{!PoolLaws (AMM T) inv touched}.

Notation holds c w := (free_balance c (router_account T) w).

Implicit Types (s : router W) (w : W) (who : AccountId) (route : Route) (t : Trade.t).

(** The router's account belongs to no pool and has no locks. *)
Hypothesis router_outside : ¬ touched (router_account T).
Hypothesis router_unlocked : ∀ c w, reducible_balance c (router_account T) w = holds c w.

(** ** Routes as paths *)

(** [path a r b]: the trades of [r] lead from [a] to [b]. *)
Inductive path : AssetId → Route → AssetId → Prop :=
| path_one t : path (Trade.asset_in t) [t] (Trade.asset_out t)
| path_more t r b : path (Trade.asset_out t) r b → path (Trade.asset_in t) (t :: r) b.

Definition on_route c route : Prop := Exists (λ t, c = Trade.asset_in t ∨ c = Trade.asset_out t) route.
#[local] Instance on_route_dec c route : Decision (on_route c route).
Proof. unfold on_route. apply _. Defined.

Lemma path_head a r b : path a r b → ∃ t r', r = t :: r' ∧ a = Trade.asset_in t.
Proof. destruct 1; eauto. Qed.

Lemma connected_path t r l :
  last (t :: r) = Some l →
  ensure_connected (Er := Er) (t :: r) = Ok tt ↔ path (Trade.asset_in t) (t :: r) (Trade.asset_out l).
Proof.
  revert t. induction r as [|t' r IH]; intros t Hl.
  - injection Hl as ->. split; [constructor|done].
  - rewrite last_cons_cons in Hl. specialize (IH t' Hl). simpl. split.
    + intros Hc. inv_run. propify. constructor. apply IH in Hc. congruence.
    + intros Hp. inversion Hp as [|? ? ? Hp']; subst. pose proof (path_head _ _ _ Hp') as (? & ? & [= <- <-] & E).
      rewrite E in *. rewrite Z.eqb_refl. simpl. by apply IH.
Qed.

Lemma path_last a r b : path a r b → ∃ l, last r = Some l ∧ b = Trade.asset_out l.
Proof.
  induction 1 as [t|t r b Hp (l & Hl & ->)]; [by eexists|]. exists l.
  destruct r; [by inversion Hp|]. by rewrite last_cons_cons.
Qed.

(** The check of the arguments of a call. *)
Lemma arguments_path p r :
  ensure_route_arguments (Er := Er) p r = Ok tt ↔ path (RouterPair.asset_in p) r (RouterPair.asset_out p).
Proof.
  destruct p as [a b]. unfold ensure_route_arguments, some_or. simpl. split.
  - intros Hr. inv_run. propify. destruct r as [|t r]; [done|]. simplify_eq/=. by apply connected_path.
  - intros Hp. pose proof (path_head _ _ _ Hp) as (t & r' & -> & ->). pose proof (path_last _ _ _ Hp) as (l & Hl & ->).
    rewrite Hl. simpl. rewrite !Z.eqb_refl. exact (proj2 (connected_path _ _ _ Hl) Hp).
Qed.

(** ** Steps of a call *)

Lemma execute_Ok (m : M W (ExecutorError.t Er) unit) s v s' :
  execute m s = Ok (v, s') → ∃ w', m (world s) = Ok (v, w') ∧ s' = set_world w' s.
Proof.
  unfold execute, handle_error. destruct (m (world s)) as [[u w]|[]]; intros; simpl in *; inv_run; eauto.
Qed.
Lemma call_Ok f s v s' : call (Er := Er) f s = Ok (v, s') → ∃ w', f (world s) = Ok w' ∧ s' = set_world w' s.
Proof. unfold call. case_match; intros; inv_run; eauto. Qed.
Lemma push_Ok s id s' : push_context (Er := Er) s = Ok (id, s') → ∃ b, s' = set_world (set_bcast b (world s)) s.
Proof. unfold push_context. repeat case_match; intros; inv_run; eauto. Qed.
Lemma pop_Ok s v s' : pop_context (Er := Er) s = Ok (v, s') → ∃ b, s' = set_world (set_bcast b (world s)) s.
Proof. unfold pop_context. repeat case_match; intros; inv_run; eauto. Qed.

(** ** The trades of a sale *)

(** Accounts outside the pools and the router keep their balances. *)
Definition bystanders w w' : Prop :=
  ∀ c b, ¬ touched b → b ≠ router_account T → free_balance c b w' = free_balance c b w.

(** One trade of a sale: all the router holds of the asset is sold. *)
Lemma sell_step t s v s' :
  inv (world s) →
  execute (TradeExecution.execute_sell (AMM T) (Signed (router_account T)) (Trade.pool t) (Trade.asset_in t)
    (Trade.asset_out t) (reducible_balance (Trade.asset_in t) (router_account T) (world s)) 0) s = Ok (v, s') →
  inv (world s') ∧ bystanders (world s) (world s') ∧ Trade.asset_in t ≠ Trade.asset_out t ∧
  holds (Trade.asset_in t) (world s') = 0 ∧
  (∀ c, c ≠ Trade.asset_in t → c ≠ Trade.asset_out t → holds c (world s') = holds c (world s)).
Proof.
  intros Hinv Hx. apply execute_Ok in Hx as (w' & Hx & ->). rewrite router_unlocked in Hx. simpl.
  apply pool_sell in Hx as (Hi & Hne & y & _ & Hy & Ht); [|done|done|apply free_balance_fits].
  split_and!; [done| |done|..].
  - intros c b Hb Hbr. rewrite Ht by done. rewrite !when_other by done. lia.
  - rewrite Ht by done. by_moves.
  - intros c H1 H2. rewrite Ht by done. by_moves.
Qed.

Lemma on_route_cons c t r :
  on_route c (t :: r) ↔ c = Trade.asset_in t ∨ c = Trade.asset_out t ∨ on_route c r.
Proof. unfold on_route. rewrite Exists_cons. naive_solver. Qed.
Lemma path_start a r b : path a r b → on_route a r.
Proof. destruct 1; rewrite on_route_cons; auto. Qed.
Lemma path_end a r b : path a r b → on_route b r.
Proof. induction 1; rewrite on_route_cons; auto. Qed.

Lemma sells_effect a r b s v s' :
  path a r b → inv (world s) → execute_sells T r s = Ok (v, s') →
  inv (world s') ∧ bystanders (world s) (world s') ∧
  (∀ c, on_route c r → c ≠ b → holds c (world s') = 0) ∧
  (∀ c, ¬ on_route c r → holds c (world s') = holds c (world s)).
Proof.
  intros Hp. revert s. induction Hp as [t|t r b Hp IH]; intros s Hinv Hr; simpl in Hr; inv_run;
    match goal with Hx : execute _ _ = Ok _ |- _ => apply sell_step in Hx as (Hi & Hby & Hne & Hz & Ho); [|done] end.
  - split_and!; [done..| |]; intros c; rewrite on_route_cons; unfold on_route; rewrite Exists_nil; naive_solver.
  - apply IH in Hr as (Hi' & Hby' & Hz' & Ho'); [|done]. apply path_start in Hp as Hs.
    split_and!; [done|intros c d ? ?; by rewrite Hby', Hby| |]; intros c; rewrite on_route_cons.
    + intros Hc Hcb. destruct (decide (c = Trade.asset_in t)) as [->|]; [|naive_solver].
      destruct (decide (on_route (Trade.asset_in t) r)); [auto|]. by rewrite Ho'.
    + intros Hc. rewrite Ho', Ho by naive_solver. done.
Qed.

(** ** A sale *)

Lemma router_sell_run who i o x min route s v s' :
  do_sell T (Signed who) i o x min route s = Ok (v, s') →
  ∃ w1 b b' y s2 w3 b'',
    let r := get_route_or_default T i o route s in
    i ≠ o ∧ path i r o ∧
    transfer i who (router_account T) x AllowDeath (world s) = Ok w1 ∧
    execute_sells T r (set_world (set_bcast b' (set_bcast b w1)) s) = Ok (tt, s2) ∧
    y = reducible_balance o (router_account T) (world s2) ∧ min <= y ∧
    transfer o (router_account T) who y AllowDeath (world s2) = Ok w3 ∧
    ∃ b''', world s' = set_bcast b''' (set_bcast b'' w3).
Proof.
  intros Hr. unfold do_sell, signed, ensure_or, on_broadcast, deposit_event in Hr. inv_run. propify.
  repeat match goal with
  | Hx : ensure_signed _ = Ok _ |- _ => injection Hx as <-
  | Hx : call _ _ = Ok _ |- _ => apply call_Ok in Hx as (? & ? & ->)
  | Hx : push_context _ = Ok _ |- _ => apply push_Ok in Hx as (? & ->)
  | Hx : pop_context _ = Ok _ |- _ => apply pop_Ok in Hx as (? & ->)
  | Hx : ensure_route_arguments _ _ = Ok _ |- _ => apply arguments_path in Hx
  end. simpl in *.
  do 7 eexists. do 3 (split; [done|]). split; [eassumption|]. split; [done|]. split; [done|].
  split; [eassumption|]. by eexists.
Qed.


(** ** The trades of a purchase *)

(** [ladder x l y]: the amounts of the trades lead from [x] to [y], each trade
    paying for the next. *)
Inductive ladder : Balance → list (AmountInAndOut * Trade.t) → Balance → Prop :=
| ladder_nil y : ladder y [] y
| ladder_cons a t l y :
    fits u128 (amount_in a) → fits u128 (amount_out a) → ladder (amount_out a) l y →
    ladder (amount_in a) ((a, t) :: l) y.

Lemma ladder_snoc x l a t :
  ladder x l (amount_in a) → fits u128 (amount_in a) → fits u128 (amount_out a) →
  ladder x (l ++ [(a, t)]) (amount_out a).
Proof.
  intros Hl Hi Ho. remember (amount_in a) as z eqn:Ez.
  induction Hl as [y|a' t' l y H1 H2 Hl IH]; simpl; subst.
  - constructor; [done..|constructor].
  - constructor; auto.
Qed.

Lemma buy_amounts_ladder r y w ams :
  inv w → fits u128 y → calculate_buy_trade_amounts T r y w = Ok ams →
  length ams = length r ∧
  ladder (default y (amount_in <$> last ams)) (zip (reverse ams) r) y.
Proof.
  intros Hinv. revert y ams. unfold calculate_buy_trade_amounts.
  induction r as [|t r IH] using rev_ind; intros y ams Hy Hr.
  - simpl in Hr. inv_run. split; [done|]. constructor.
  - rewrite reverse_snoc in Hr. simpl in Hr. inv_run.
    match goal with Hq : handle_error _ = Ok ?z |- _ =>
      unfold handle_error in Hq; apply map_err_Ok in Hq; apply pool_in_fits in Hq as Hz; [|done..]; rename z into x' end.
    apply IH in H0 as [Hlen Hl]; [|done].
    rewrite length_app, reverse_cons. simpl. split; [lia|].
    rewrite zip_with_app by (rewrite length_reverse; lia). simpl.
    rewrite last_cons. replace (default y _) with (default x' (amount_in <$> last x0)) by by destruct (last x0).
    apply (ladder_snoc _ _ (mkAmounts x' y)); done.
Qed.

Lemma buys_effect a b x y l s v s' :
  path a (l.*2) b → ladder x l y → inv (world s) → execute_buys T l s = Ok (v, s') →
  inv (world s') ∧ bystanders (world s) (world s') ∧
  (∀ c, holds c (world s) - when (c = a) x + when (c = b) y <= holds c (world s')) ∧
  (∀ c, ¬ on_route c (l.*2) → holds c (world s') = holds c (world s)).
Proof.
  intros Hp Hl. revert a s Hp. induction Hl as [y|am t l y Hai Hao Hl IH]; intros a s Hp Hinv Hr; [by inversion Hp|].
  simpl in Hr. inv_run. match goal with Hx : execute _ _ = Ok _ |- _ => apply execute_Ok in Hx as (w' & Hx & ->) end.
  match goal with Hx : TradeExecution.execute_buy _ _ _ _ _ _ _ _ = Ok _ |- _ =>
    apply pool_buy in Hx as (Hi & Hne & z & Hz & Ht); [|done..] end.
  assert (bystanders (world s) w') as Hby.
  { intros c b' Hb Hbr. rewrite Ht by done. rewrite !when_other by done. lia. }
  assert (∀ c, holds c w' = holds c (world s) + when (c = Trade.asset_out t) (amount_out am)
    - when (c = Trade.asset_in t) z) as Hh.
  { intros c. rewrite Ht by done. by_moves. }
  assert (∀ c, holds c (world s) - when (c = Trade.asset_in t) (amount_in am)
    + when (c = Trade.asset_out t) (amount_out am) <= holds c w') as Hge.
  { intros c. rewrite Hh. by_moves. }
  simpl in Hp. inversion Hp as [t'|? ? ? Hp']; subst.
  - inversion Hl; [|by destruct l]. subst. simpl in Hr. inv_run. split_and!; [done..|].
    intros c. simpl. rewrite on_route_cons, Hh. intros Hc. by_moves.
  - apply (IH (Trade.asset_out t)) in Hr as (Hi' & Hby' & Hge' & Ho'); [|done..]. simpl in *.
    split_and!; [done|intros c ? ? ?; by rewrite Hby', Hby|..]; intros c.
    + specialize (Hge c). specialize (Hge' c). lia.
    + rewrite on_route_cons. intros Hc. rewrite Ho', Hh by naive_solver.
      by_moves.
Qed.

(** ** A purchase *)

Lemma router_buy_run who i o y max route s v s' :
  buy T (Signed who) i o y max route s = Ok (v, s') →
  ∃ ams first b0 w1 b1 s2 w3 b3,
    let r := get_route_or_default T i o route s in
    i ≠ o ∧ path i r o ∧ calculate_buy_trade_amounts T r y (world s) = Ok ams ∧ last ams = Some first ∧
    amount_in first <= max ∧
    transfer i who (router_account T) (amount_in first) AllowDeath (set_bcast b0 (world s)) = Ok w1 ∧
    execute_buys T (zip (reverse ams) r) (set_world (set_bcast b1 w1) s) = Ok (tt, s2) ∧
    transfer o (router_account T) who (reducible_balance o (router_account T) (world s2)) AllowDeath (world s2)
      = Ok w3 ∧
    ∃ b4, world s' = set_bcast b4 (set_bcast b3 w3).
Proof.
  intros Hr. unfold buy, signed, ensure_or, on_broadcast, deposit_event, some_or in Hr. inv_run. propify.
  repeat match goal with
  | Hx : ensure_signed _ = Ok _ |- _ => injection Hx as <-
  | Hx : call _ _ = Ok _ |- _ => apply call_Ok in Hx as (? & ? & ->)
  | Hx : push_context _ = Ok _ |- _ => apply push_Ok in Hx as (? & ->)
  | Hx : pop_context _ = Ok _ |- _ => apply pop_Ok in Hx as (? & ->)
  | Hx : ensure_route_arguments _ _ = Ok _ |- _ => apply arguments_path in Hx
  end. simpl in *.
  do 8 eexists. do 3 (split; [done|]). split; [eassumption|]. split; [done|]. split; [eassumption|].
  split; [eassumption|]. split; [eassumption|]. by eexists.
Qed.

(** C23: a purchase along a route takes from the trader exactly the amount the
    router quotes in the same state, at most the maximum, and pays out at least
    the amount bought; the trader's other balances and every account outside the
    pools are as before. *)
Theorem router_buy_settles who i o y max route s v s' :
  inv (world s) → ¬ touched who → who ≠ router_account T → fits u128 y →
  buy T (Signed who) i o y max route s = Ok (v, s') →
  let r := get_route_or_default T i o route s in
  inv (world s') ∧
  (∃ x z, calculate_expected_amount_in T r y (world s) = Ok x ∧ x <= max ∧ y <= z ∧
     ∀ c, free_balance c who (world s') = free_balance c who (world s) - when (c = i) x + when (c = o) z) ∧
  (∀ c b, ¬ touched b → b ≠ who → b ≠ router_account T →
     free_balance c b (world s') = free_balance c b (world s)) ∧
  holds o (world s') = 0 ∧
  (∀ c, ¬ on_route c r → holds c (world s') = holds c (world s)).
Proof.
  intros Hinv Hwho Hne Hy Hr r.
  apply router_buy_run in Hr as (ams & first & b0 & w1 & b1 & s2 & w3 & b3 & Hio & Hp & Ha & Hl & Hmax & H1 & Hx & H3 & b4 & Es).
  fold r in Hp, Ha, Hx. destruct (buy_amounts_ladder _ _ _ _ Hinv Hy Ha) as [Hlen Hlad]. rewrite Hl in Hlad. simpl in Hlad.
  assert ((zip (reverse ams) r).*2 = r) as Ez by (rewrite snd_zip; [done|rewrite length_reverse; lia]).
  assert (0 <= amount_in first) as Hf by (inversion Hlad; eapply fits_nonneg; by subst).
  rewrite <- Ez in Hp. eapply buys_effect in Hx as (Hi & Hby & Hge & Ho); [|done|done|].
  2: { simpl. apply pool_bcast. eapply (pool_transfer i who (router_account T)); [by apply pool_bcast|..|done]; done. }
  rewrite Ez in *. simpl in *. rewrite router_unlocked in H3.
  pose proof (free_balance_fits o (router_account T) (world s2)) as Hz. apply fits_nonneg in Hz.
  set (z := holds o (world s2)) in *. rewrite Es.
  pose proof (pool_transfer _ _ _ _ _ _ _ Hi router_outside Hwho Hz H3) as Hi3.
  apply transfer_moves in H1 as (_ & H1 & _), H3 as (_ & H3 & _); [|done..].
  pose proof (free_balance_fits o (router_account T) (world s)) as Hr0. apply fits_nonneg in Hr0, Hy.
  split; [by do 2 apply pool_bcast|]. split_and!.
  - exists (amount_in first), z. unfold calculate_expected_amount_in, some_or. rewrite Ha. simpl. rewrite Hl.
    split_and!; [done..| |].
    + specialize (Hge o). fold z in Hge. rewrite !set_bcast_ledger, H1, set_bcast_ledger in Hge.
      rewrite moved_other_asset in Hge by done. by_moves.
    + intros c. rewrite !set_bcast_ledger, H3, Hby, set_bcast_ledger, H1, set_bcast_ledger by done.
      by_moves.
  - intros c b Hb Hbw Hbr.
    rewrite !set_bcast_ledger, H3, Hby, set_bcast_ledger, H1, set_bcast_ledger, !moved_bystander by done. lia.
  - rewrite !set_bcast_ledger, H3, moved_sender by done. unfold z. lia.
  - intros c Hc. rewrite !set_bcast_ledger, H3, Ho, set_bcast_ledger, H1, set_bcast_ledger by done.
    pose proof (path_start _ _ _ Hp). pose proof (path_end _ _ _ Hp).
    rewrite !moved_other_asset by (intros ->; done). lia.
Qed.

(** ** A sale settles at the quote *)

Context `{!PoolQuotes (AMM T) inv touched}.

Definition quote t (x : Balance) w : result (ExecutorError.t Er) Balance :=
  TradeExecution.calculate_out_given_in (AMM T) (Trade.pool t) (Trade.asset_in t) (Trade.asset_out t) x w.

(** No trade of the route changes the quotes of the trades after it, as when each
    goes through a pool of its own. *)
Fixpoint independent route : Prop :=
  match route with
  | [] => True
  | t :: rest =>
      (∀ t' x lim w v w', t' ∈ rest → inv w →
         TradeExecution.execute_sell (AMM T) (Signed (router_account T)) (Trade.pool t) (Trade.asset_in t)
           (Trade.asset_out t) x lim w = Ok (v, w') → ∀ z, quote t' z w' = quote t' z w) ∧
      independent rest
  end.

Lemma sell_amounts_ext r x w w' :
  (∀ t z, t ∈ r → quote t z w' = quote t z w) →
  calculate_sell_trade_amounts T r x w' = calculate_sell_trade_amounts T r x w.
Proof.
  revert x. induction r as [|t r IH]; intros x Hq; [done|]. simpl.
  unfold quote in *. rewrite (Hq t) by set_solver. destruct (handle_error _); simpl; [|done].
  rewrite IH; [done|]. intros. apply Hq. set_solver.
Qed.

Lemma quote_step t q s v s' :
  inv (world s) → handle_error (quote t (holds (Trade.asset_in t) (world s)) (world s)) = Ok q →
  execute (TradeExecution.execute_sell (AMM T) (Signed (router_account T)) (Trade.pool t) (Trade.asset_in t)
    (Trade.asset_out t) (reducible_balance (Trade.asset_in t) (router_account T) (world s)) 0) s = Ok (v, s') →
  fits u128 q ∧ holds (Trade.asset_out t) (world s') = holds (Trade.asset_out t) (world s) + q.
Proof.
  intros Hinv Hq Hx. apply sell_step in Hx as Hst; [|done]. destruct Hst as (_ & _ & Hne & _).
  unfold handle_error, quote in Hq. apply map_err_Ok in Hq. apply execute_Ok in Hx as (w' & Hx & ->).
  rewrite router_unlocked in Hx. eapply quote_sell in Hx as [Hf Ht]; [|done|done|apply free_balance_fits|done].
  split; [done|]. simpl. rewrite Ht by done. by_moves.
Qed.

(** Each trade sells what the trade before it paid. *)
Lemma sells_at_quote a r b s v s' ams :
  path a r b → independent r → inv (world s) → (∀ c, on_route c r → c ≠ a → holds c (world s) = 0) →
  calculate_sell_trade_amounts T r (holds a (world s)) (world s) = Ok ams →
  execute_sells T r s = Ok (v, s') →
  ∃ final, last ams = Some final ∧ holds b (world s') = amount_out final.
Proof.
  intros Hp. revert s ams. induction Hp as [t|t r b Hp IH]; intros s ams [Hdis Hind] Hinv H0 Hq Hr;
    simpl in Hq, Hr; inv_run;
    match goal with Hx : execute _ s = Ok (_, ?s1), Hq : handle_error _ = Ok ?q |- _ =>
      destruct (sell_step t s tt s1 Hinv Hx) as (Hi & _ & Hne & Hz & Ho);
      destruct (quote_step t q s tt s1 Hinv Hq Hx) as [Hf Hout];
      apply execute_Ok in Hx as (w1 & Hx & ->); rename q into q1 end;
    rewrite (H0 (Trade.asset_out t)), Z.add_0_l in Hout by (rewrite ?on_route_cons; auto).
  - by eexists.
  - simpl in *. rewrite last_cons.
    match goal with Hc : calculate_sell_trade_amounts _ _ _ _ = Ok ?l |- _ =>
      rewrite <- Hout, <- (sell_amounts_ext r _ _ w1) in Hc by (intros; by eapply Hdis);
      eapply (IH (set_world w1 s)) in Hc as (final & -> & Hfin); [by exists final|done|done| |done] end.
    intros c Hc Hcout. simpl. destruct (decide (c = Trade.asset_in t)) as [->|]; [done|].
    rewrite Ho by done. apply H0; [|done]. rewrite on_route_cons. auto.
Qed.

End router_trades.
