(* ===== verification/RouterRoutes.v ===== *)
(** * Routes kept on chain and their prices

    A route that [set_route] stores is a path between the two assets and pays
    strictly more than the one it replaces, in both directions; stored routes are
    read back as paths in either direction; the spot price of a route, aggregated
    in chunks, is the product of the prices of its trades. *)

From S2P Require Import Prelude Arithmetic Currency Ratio Broadcast Traits RouteExecutor RouterTrades.

Section routes.
Context {W AccountId Er : Type} `{!EqDecision AccountId} `{!MultiCurrency W AccountId}
  `{!RouterWorld W AccountId} `{SpArithmetic}.
Context (T : RouterConfig W AccountId Er).
Implicit Types (s : router W) (w : W) (route r : Route) (t : Trade.t) (p : RouterPair.t).

(** ** Inverse routes *)

Definition flip t : Trade.t := Trade.mk (Trade.pool t) (Trade.asset_out t) (Trade.asset_in t).

Lemma path_snoc a r b t : path a r b → Trade.asset_in t = b → path a (r ++ [t]) (Trade.asset_out t).
Proof.
  induction 1 as [t'|t' r b Hp IH]; intros Ht; simpl; constructor; [|auto]. rewrite <- Ht. constructor.
Qed.

Lemma inverse_route_bounded r :
  (length r ≤ MAX_NUMBER_OF_TRADES)%nat → inverse_route r = reverse (flip <$> r).
Proof. intros. unfold inverse_route. rewrite take_ge; [done|]. rewrite length_reverse, length_fmap. lia. Qed.

Lemma flip_path a r b : path a r b → path b (reverse (flip <$> r)) a.
Proof.
  induction 1 as [t|t r b Hp IH]; [apply (path_one (flip t))|].
  rewrite fmap_cons, reverse_cons. exact (path_snoc _ _ _ (flip t) IH eq_refl).
Qed.

Lemma inverse_path a r b :
  (length r ≤ MAX_NUMBER_OF_TRADES)%nat → path a r b → path b (inverse_route r) a.
Proof. intros. rewrite inverse_route_bounded by done. by apply flip_path. Qed.

(** ** Stored routes *)

(** Every stored route is a path of at most nine trades along its ordered pair. *)
Definition routes_valid s : Prop :=
  ∀ p r, Routes s !! p = Some r →
    RouterPair.is_ordered p = true ∧ (length r ≤ MAX_NUMBER_OF_TRADES)%nat ∧
    path (RouterPair.asset_in p) r (RouterPair.asset_out p).

Lemma ordered_pair_ordered p : RouterPair.is_ordered (RouterPair.ordered_pair p) = true.
Proof.
  unfold RouterPair.ordered_pair. destruct (RouterPair.is_ordered p) eqn:E; [done|].
  unfold RouterPair.is_ordered in *. simpl. propify. apply Z.leb_le. lia.
Qed.

(** Reading a route gives a path from the first asset to the second. *)
Lemma get_route_path p s :
  routes_valid s → path (RouterPair.asset_in p) (get_route T p s) (RouterPair.asset_out p).
Proof.
  intros Hv. unfold get_route. destruct (Routes s !! RouterPair.ordered_pair p) as [r|] eqn:E.
  - apply Hv in E as (_ & Hlen & Hp). unfold RouterPair.ordered_pair in Hp.
    destruct (RouterPair.is_ordered p); [done|]. by apply inverse_path.
  - apply (path_one (Trade.mk _ _ _)).
Qed.

Lemma order_route_path p r :
  (length r ≤ MAX_NUMBER_OF_TRADES)%nat → path (RouterPair.asset_in p) r (RouterPair.asset_out p) →
  let '(p', r') := order_route p r in
  p' = RouterPair.ordered_pair p ∧ (length r' ≤ MAX_NUMBER_OF_TRADES)%nat ∧
  path (RouterPair.asset_in p') r' (RouterPair.asset_out p').
Proof.
  intros Hlen Hp. unfold order_route, RouterPair.ordered_pair. destruct (RouterPair.is_ordered p); simpl.
  - by destruct p.
  - split_and!; [done|by rewrite inverse_route_length|by apply inverse_path].
Qed.

(** The route pays strictly more than the stored one for [x], if both are valid. *)
Definition pays_more r r' (x : Balance) w : Prop :=
  ∃ y y', calculate_expected_amount_out T r x w = Ok y ∧ calculate_expected_amount_out T r' x w = Ok y' ∧ y < y'.

(** C26: a route that [set_route] stores leads from the first asset of the
    ordered pair to the second in at most nine trades.  If the route in force
    was valid, the new one pays strictly more for the reference amounts of the
    old one, in both directions; otherwise it was validated itself.  No other
    pair's route changes, and stored routes stay valid. *)
Theorem set_route_improves o p new s v s' :
  set_route T o p new s = Ok (v, s') → 
  let '(p', r) := order_route p new in
  path (RouterPair.asset_in p') r (RouterPair.asset_out p') ∧ (length r ≤ MAX_NUMBER_OF_TRADES)%nat ∧
  Routes s' = <[p' := r]> (Routes s) ∧ world s' = world s ∧
  (routes_valid s → routes_valid s') ∧
  match validate_route T (get_route T p' s) (world s) with
  | Ok (x, x') =>
      pays_more (get_route T p' s) r x (world s) ∧
      pays_more (inverse_route (get_route T p' s)) (inverse_route r) x' (world s)
  | Err _ => ∃ refs, validate_route T r (world s) = Ok refs
  end.
Proof.
  intros Hr. unfold set_route, signed, some_or, ensure_route_size, own in Hr. inv_run.
  match goal with Hx : (_ <=? _)%nat = true |- _ => apply Nat.leb_le in Hx as Hlen end.
  match goal with Hx : ensure_route_arguments _ _ = Ok _ |- _ => apply arguments_path in Hx as Hp end.
  pose proof (order_route_path _ _ Hlen Hp) as Ho. destruct (order_route p new) as [p' r]. simpl in *.
  destruct Ho as (-> & Hlen' & Hp').
  assert (∀ v s', insert_route (Er := Er) (RouterPair.ordered_pair p) r s = Ok (v, s') →
    Routes s' = <[RouterPair.ordered_pair p := r]> (Routes s) ∧ world s' = world s ∧
    (routes_valid s → routes_valid s')) as Hins.
  { unfold insert_route, deposit_event. intros ? ? Hi. inv_run. simpl. split_and!; [done..|].
    intros Hv p' r'. simpl. rewrite lookup_insert_Some. intros [[<- <-]|[_ E]]; [|by apply Hv].
    split_and!; [apply ordered_pair_ordered|done..]. }
  inv_run. split; [done|]. split; [done|]. unfold pays_more. destruct (validate_route T (get_route T _ s) _) as [[x1 x2]|e].
  - inv_run. destruct (_ && _) eqn:?; [propify|inv_run]. apply Hins in Hr as (? & ? & ?). split_and!; try done; by do 2 eexists.
  - inv_run. apply Hins in Hr as (? & ? & ?). eauto 10.
Qed.

(** ** Spot price of a route *)

Definition product (l : list Z) : Z := foldr Z.mul 1 l.

(** The price of a route without chunks: the product of the prices of its trades
    over the product of their denominators, while both fit 512 bits. *)
Definition reference_spot_price route w : option Z :=
  prices ← spot_prices T route w;
  let n := product prices in
  let d := DIV ^ Z.of_nat (length prices) in
  if (n <=? max_value u512) && (d <=? max_value u512) then
    let rat := round_u512_to_rational (n, d) Nearest in
    fixed_checked_from_rational rat.1 rat.2
  else None.

Definition prices_positive route w : Prop :=
  ∀ prices, spot_prices T route w = Some prices → Forall (Z.lt 0) prices.

Lemma product_app l l' : product (l ++ l') = product l * product l'.
Proof. unfold product. induction l as [|x l IH]; simpl; [by destruct (foldr _ _ l')|rewrite IH; lia]. Qed.
Lemma product_pos l : Forall (Z.lt 0) l → 0 < product l.
Proof. unfold product. induction 1; simpl; lia. Qed.

Lemma product512_spec acc l :
  0 < acc <= max_value u512 → Forall (Z.lt 0) l → product512 acc l = checked_mul u512 acc (product l).
Proof.
  intros Ha Hl. revert acc Ha. induction Hl as [|x l Hx Hl IH]; intros acc Ha; simpl.
  - unfold product, checked_mul. simpl. rewrite Z.mul_1_r. by rewrite (proj2 (Z.leb_le _ _)) by lia.
  - pose proof (product_pos _ Hl) as Hp. fold (product l). unfold checked_mul at 1 2. rewrite Z.mul_assoc.
    destruct (Z.leb_spec (acc * x) (max_value u512)); simpl.
    + rewrite IH by nia. done.
    + rewrite (proj2 (Z.leb_gt _ _)) by nia. done.
Qed.

Lemma spot_prices_app l l' w :
  spot_prices T (l ++ l') w = ps ← spot_prices T l w; ps' ← spot_prices T l' w; Some (ps ++ ps').
Proof.
  induction l as [|t l IH]; simpl; [by destruct (spot_prices T l' w)|].
  destruct (ok _); simpl; [|done]. rewrite IH. destruct (spot_prices T l w); simpl; [|done].
  by destruct (spot_prices T l' w).
Qed.

Lemma spot_prices_length r w prices : spot_prices T r w = Some prices → length prices = length r.
Proof.
  revert prices. induction r as [|t r IH]; intros prices Hs; simpl in Hs; inv_run; [done|]. simpl. f_equal. auto.
Qed.

Lemma product_cons x l : product (x :: l) = x * product l.
Proof. done. Qed.

Lemma div_powers (prices : list Z) : product ((λ _, DIV) <$> prices) = DIV ^ Z.of_nat (length prices).
Proof.
  induction prices as [|p l IH]; [done|].
  by rewrite fmap_cons, product_cons, IH, length_cons, Nat2Z.inj_succ, Z.pow_succ_r by lia.
Qed.

Lemma aggregate_None chunks n d w :
  spot_prices T (concat chunks) w = None → aggregate_chunks T chunks n d w = None.
Proof.
  revert n d. induction chunks as [|c chunks IH]; intros n d Hn; [done|]. simpl in *.
  rewrite spot_prices_app in Hn. destruct (spot_prices T c w) as [ps|]; simpl in *; [|done].
  destruct (spot_prices T (concat chunks) w); [done|].
  repeat (match goal with |- (?o ≫= _) = None => destruct o; simpl; [|done] end). auto.
Qed.

(** Aggregating chunks is aggregating all trades at once. *)
Lemma aggregate_spec chunks n d w prices :
  0 < n <= max_value u512 → 0 < d <= max_value u512 →
  spot_prices T (concat chunks) w = Some prices → Forall (Z.lt 0) prices →
  aggregate_chunks T chunks n d w =
    n' ← checked_mul u512 n (product prices);
    d' ← checked_mul u512 d (DIV ^ Z.of_nat (length prices));
    Some (n', d').
Proof.
  revert n d prices. induction chunks as [|c chunks IH]; intros n d prices Hn Hd Hs Hpos; simpl in *.
  - injection Hs as <-. simpl. rewrite !checked_mul_ok by (unfold product; simpl; lia).
    unfold product. simpl. by rewrite !Z.mul_1_r.
  - rewrite spot_prices_app in Hs. destruct (spot_prices T c w) as [ps|]; simpl in *; [|done].
    destruct (spot_prices T (concat chunks) w) as [ps'|]; simpl in *; [|done]. injection Hs as <-.
    apply Forall_app in Hpos as [Hps Hps'].
    rewrite !product512_spec by (done || (apply Forall_fmap, Forall_true; by intros) || (by vm_compute)).
    rewrite div_powers, product_app, length_app, Nat2Z.inj_add, Z.pow_add_r by lia.
    set (D := DIV ^ Z.of_nat (length ps)). set (D' := DIV ^ Z.of_nat (length ps')).
    assert (0 < D) by (apply Z.pow_pos_nonneg; [done|lia]). assert (0 < D') by (apply Z.pow_pos_nonneg; [done|lia]).
    pose proof (product_pos _ Hps). pose proof (product_pos _ Hps').
    assert (∀ m x y, 0 < m → 0 < x → 0 < y → checked_mul u512 1 x ≫= checked_mul u512 m = None →
      checked_mul u512 m (x * y) = None) as Hnone.
    { intros m x y ? ? ? Hx. apply checked_mul_None.
      assert (x <= x * y) by nia. assert (x * y <= m * (x * y)) by nia. assert (m * x <= m * (x * y)) by nia. apply bind_None in Hx as [Hx|(z & Hx & Hz)].
      - apply checked_mul_None in Hx. lia.
      - apply checked_mul_Some in Hx as [-> _]. apply checked_mul_None in Hz. lia. }
    destruct (checked_mul u512 1 (product ps)) as [P|] eqn:E1; simpl;
      [|by rewrite (Hnone n (product ps) (product ps')); [|lia|lia|lia|rewrite E1]].
    destruct (checked_mul u512 1 D) as [E|] eqn:E2; simpl.
    2: { rewrite (Hnone d D D'); [|lia|lia|lia|by rewrite E2]. by destruct (checked_mul u512 n _). }
    destruct (checked_mul u512 n P) as [n'|] eqn:E3; simpl;
      [|by rewrite (Hnone n (product ps) (product ps')); [|lia|lia|lia|rewrite E1]].
    destruct (checked_mul u512 d E) as [d'|] eqn:E4; simpl.
    2: { rewrite (Hnone d D D'); [|lia|lia|lia|by rewrite E2]. by destruct (checked_mul u512 n (product ps * product ps')). }
    inv_run. rewrite (IH _ _ ps') by (done || nia). fold D'. rewrite !Z.mul_1_l.
    unfold checked_mul. by rewrite !Z.mul_assoc.
Qed.

Lemma concat_chunks4 {A} (l : list A) : concat (chunks4 l) = l.
Proof.
  enough (∀ k (l : list A), (length l ≤ k)%nat → concat (chunks4 l) = l) by eauto.
  intros k. induction k as [|k IH]; intros l' Hl; [destruct l'; [done|simpl in *; lia]|].
  destruct l' as [|a [|b [|c [|d l']]]]; try done. simpl in *. rewrite IH by lia. done.
Qed.

(** C27: the spot price of a route, aggregated in chunks of four trades, is the
    reference price of the whole route when every trade has a positive price: the
    chunks change neither the value nor when it overflows.  In particular a route
    of nine trades, the longest allowed, never has a price, because its
    denominator does not fit 512 bits. *)
Theorem spot_price_is_product route w :
  prices_positive route w →
  spot_price_with_fee T route w = (if decide (route = []) then None else reference_spot_price route w) ∧
  (length route = MAX_NUMBER_OF_TRADES → spot_price_with_fee T route w = None).
Proof.
  intros Hpos.
  assert (spot_price_with_fee T route w = (if decide (route = []) then None else reference_spot_price route w)) as E.
  { case_decide as Hr; [by subst|]. transitivity (nd ← aggregate_chunks T (chunks4 route) 1 1 w;
      let rat := round_u512_to_rational nd Nearest in fixed_checked_from_rational rat.1 rat.2).
    { by destruct route. }
    unfold reference_spot_price. destruct (spot_prices T route w) as [prices|] eqn:Hs.
    2: { by rewrite aggregate_None by by rewrite concat_chunks4. }
    rewrite (aggregate_spec _ _ _ _ prices); [|by vm_compute|by vm_compute|by rewrite concat_chunks4|by apply Hpos].
    unfold checked_mul. rewrite !Z.mul_1_l. simpl. 
    destruct (Z.leb_spec (product prices) (max_value u512)); simpl; [|done].
    by destruct (Z.leb_spec (DIV ^ Z.of_nat (length prices)) (max_value u512)). }
  split; [done|]. intros Hlen. rewrite E. case_decide; [done|]. unfold reference_spot_price.
  destruct (spot_prices T route w) as [prices|] eqn:Hs; [|done]. simpl.
  rewrite (spot_prices_length _ _ _ Hs), Hlen.
  replace (DIV ^ Z.of_nat MAX_NUMBER_OF_TRADES <=? max_value u512) with false by by vm_compute.
  by rewrite andb_false_r.
Qed.
End routes.

(** ** Concrete routes *)

Module RoutesDemo.
#[local] Existing Instance reference_arithmetic.
#[local] Existing Instance reference_arithmetic_laws.

(** Two markets that quote constant rates, one of them better. *)
Definition rate (p : PoolType.t) : Z := match p with PoolType.XYK => 11 | _ => 10 end.
Definition market : TradeExecution.t ledger Z unit := TradeExecution.mk
  (λ p _ _ x _, Ok (x * rate p / 12)) (λ p _ _ x _, Ok (x * 12 / rate p))
  (λ _ _ _ _ _ _, fail ExecutorError.NotSupported) (λ _ _ _ _ _ _, fail ExecutorError.NotSupported)
  (λ _ _ _ _, Ok 1000000) (λ p _ _ _, Ok (DIV * 12 / rate p)).
#[local] Instance market_world : RouterWorld ledger Z :=
  {| reducible_balance := free_balance; bcast_of _ := mkBroadcast 0 [] None []; set_bcast _ w := w |}.
Definition config : RouterConfig ledger Z unit :=
  mkRouterConfig 0 market (λ _ _, Some (mkRatio 1 1)) PoolType.Omnipool (λ _, false) 200.
Definition empty : router ledger := mkRouter ∅ [] (Build_ledger ∅ ∅).

(** The pair is given in reverse order: the stored route is the inverse. *)
Definition better : Route := [Trade.mk PoolType.XYK 5 0].
Definition improved := run (set_route config (Signed 1) (RouterPair.new 5 0) better) empty.

Lemma set_route_improves_witness :
  Routes improved = <[RouterPair.new 0 5 := [Trade.mk PoolType.XYK 0 5]]> ∅ ∧
  pays_more config [Trade.mk PoolType.Omnipool 0 5] [Trade.mk PoolType.XYK 0 5] 10000 (world empty).
Proof.
  destruct (set_route_improves config (Signed 1) (RouterPair.new 5 0) better empty tt improved)
    as (_ & _ & H1 & _ & _ & H2 & _); [|split; [exact H1|exact H2]].
  refine (run_Ok (set_route config (Signed 1) (RouterPair.new 5 0) better) empty _). vm_compute. reflexivity.
Defined.

(** Six trades: two chunks. *)
Definition six : Route :=
  Trade.mk PoolType.XYK 0 1 :: replicate 5 (Trade.mk PoolType.Omnipool 1 1).

Lemma six_positive : prices_positive config six (world empty).
Proof. intros prices E. vm_compute in E. injection E as <-. repeat constructor. Qed.

Lemma spot_price_is_product_witness :
  ∃ price, spot_price_with_fee config six (world empty) = Some price ∧
    reference_spot_price config six (world empty) = Some price.
Proof.
  destruct (spot_price_is_product config six (world empty)) as [E _]; [apply six_positive|].
  rewrite decide_False in E by discriminate. rewrite E.
  eexists. split; vm_compute; reflexivity.
Defined.
End RoutesDemo.
