(* ===== verification/RouterOmnipool.v ===== *)
(** * The Omnipool as a pool of the router

    The Omnipool's implementation of [TradeExecution] meets the interface the
    theorems on routes are proved against, and so does a tuple of pools that meet
    it; a route through the Omnipool is run on concrete data. *)

From S2P Require Import Prelude Arithmetic Currency Ratio Broadcast Traits OmnipoolTypes SlipFee OmnipoolMath OmnipoolPallet OmnipoolInvariant OmnipoolTrade RouteExecutor RouterTrades RouterRoutes.

(** ** Tuples of pools *)

Section tuple.
Context {W AccountId Er : Type} `{!EqDecision AccountId} `{!MultiCurrency W AccountId} `{!RouterWorld W AccountId}.
Context (inv : W → Prop) (touched : AccountId → Prop).
Implicit Types (A B : TradeExecution.t W AccountId Er).

Lemma or_else_Ok {C} (r next : result (ExecutorError.t Er) C) c :
  TradeExecution.or_else r next = Ok c → r = Ok c ∨ next = Ok c.
Proof. destruct r as [|[]]; auto. Qed.

#[export] Instance then_ask_laws A B :
  PoolLaws A inv touched → PoolLaws B inv touched → PoolLaws (TradeExecution.then_ask A B) inv touched.
Proof.
  intros HA HB. constructor; simpl; intros; try (match goal with
    Hr : TradeExecution.or_else _ _ = Ok _ |- _ => apply or_else_Ok in Hr as [?|?] end).
  - by eapply (pool_sell (A := A)).
  - by eapply (pool_sell (A := B)).
  - by eapply (pool_buy (A := A)).
  - by eapply (pool_buy (A := B)).
  - by eapply (pool_in_fits (A := A)).
  - by eapply (pool_in_fits (A := B)).
  - by eapply (pool_transfer (A := A) c f t).
  - by apply (pool_bcast (A := A)).
Qed.

Lemma tuple_laws A As :
  PoolLaws A inv touched → Forall (λ B, PoolLaws B inv touched) As →
  PoolLaws (TradeExecution.tuple A As) inv touched.
Proof.
  intros HA HAs. revert A HA. induction HAs as [|B As HB _ IH]; intros A HA; [done|].
  simpl. apply then_ask_laws; [done|by apply IH].
Qed.
End tuple.

(** ** The Omnipool *)

Section omnipool.
Context {X AccountId : Type} `{!EqDecision AccountId} `{!MultiCurrency X AccountId}
  `{!MultiCurrencyLaws X AccountId} `{SpArithmeticLaws}.
Context (T : OmniConfig X AccountId) `{!OmniConfigLaws T}.
Context (pot : AccountId → Prop) `{!FeeHookLaws T pot} `{!DynamicFeeLaws T}.

(** The balance an account can spend, and that the fees of an asset are not read
    from the ledger of other accounts. *)
Context (reducible : AssetId → AccountId → X → Balance).
Hypothesis reducible_free : ∀ c a x, 0 <= reducible c a x <= free_balance c a x.
Hypothesis fees_off_ledger : ∀ c f t z er x x' a r,
  f ≠ protocol_account T → t ≠ protocol_account T →
  transfer c f t z er x = Ok x' → fee_get T a r x' = fee_get T a r x.

Notation omni := (omni X AccountId).
Implicit Types (s : omni) (who : AccountId) (p : PoolType.t).

(** The chain the router works on is the Omnipool's storage. *)
#[local] Instance omni_currency : MultiCurrency omni AccountId := {|
  free_balance c a s := free_balance c a (omni_ext s);
  total_balance c a s := total_balance c a (omni_ext s);
  total_issuance c s := total_issuance c (omni_ext s);
  transfer c f t z er s := (λ x, set_omni_ext x s) <$> transfer c f t z er (omni_ext s);
  deposit c t z s := (λ x, set_omni_ext x s) <$> deposit c t z (omni_ext s);
  withdraw c f z er s := (λ x, set_omni_ext x s) <$> withdraw c f z er (omni_ext s);
  ensure_can_withdraw c a z s := ensure_can_withdraw c a z (omni_ext s);
|}.
#[local] Instance omni_world : RouterWorld omni AccountId := {|
  reducible_balance c a s := reducible c a (omni_ext s);
  bcast_of s := omni_bcast s;
  set_bcast := set_omni_bcast;
|}.

#[local] Instance omni_currency_laws : MultiCurrencyLaws omni AccountId.
Proof.
  constructor; simpl; intros; inv_run.
  - apply free_balance_fits.
  - apply total_issuance_fits.
  - by eapply (transfer_moves c f t).
  - by eapply (deposit_adds c t).
  - by eapply (withdraw_subtracts c f).
Qed.
#[local] Instance omni_world_laws : RouterWorldLaws omni AccountId.
Proof. constructor; simpl; intros; [apply reducible_free|done]. Qed.

(** The implementation of [TradeExecution] for the pallet. *)
Definition omnipool_executor : TradeExecution.t omni AccountId (DispatchError OmniError.t) :=
  TradeExecution.mk
    (λ p i o x s, fst <$> OmnipoolPallet.calculate_out_given_in T p i o x s)
    (λ p i o x s, fst <$> OmnipoolPallet.calculate_in_given_out T p i o x s)
    (OmnipoolPallet.execute_sell T) (OmnipoolPallet.execute_buy T)
    (λ p a _ s, fst <$> OmnipoolPallet.get_liquidity_depth T p a s)
    (λ p a b s, fst <$> OmnipoolPallet.calculate_spot_price_with_fee T p a b s).

Definition omni_touched who : Prop := who = protocol_account T ∨ pot who.

Lemma untouched_outside who : ¬ omni_touched who ↔ outside T pot who.
Proof. unfold omni_touched, outside. tauto. Qed.

(** What a quote reads. *)
Record same_view s s' : Prop := {
  view_assets : Assets s' = Assets s;
  view_slip : SlipFee s' = SlipFee s;
  view_snapshot : SlipFeeHubReserveAtBlockStart s' = SlipFeeHubReserveAtBlockStart s;
  view_delta : SlipFeeDelta s' = SlipFeeDelta s;
  view_reserves c : free_balance c (protocol_account T) (omni_ext s') = free_balance c (protocol_account T) (omni_ext s);
  view_fees a r : fee_get T a r (omni_ext s') = fee_get T a r (omni_ext s);
}.

Lemma quote_same_view p i o x s s' :
  same_view s s' →
  TradeExecution.calculate_out_given_in omnipool_executor p i o x s' =
  TradeExecution.calculate_out_given_in omnipool_executor p i o x s.
Proof.
  intros [EA ES EQ ED EB EF]. simpl.
  unfold OmnipoolPallet.calculate_out_given_in, for_omnipool. case_decide; [|done].
  unfold executor, load_asset_state, some_or, peek_trade_slip_fees, peek_hub_trade_slip_fees, slip_fee_delta, math_or.
  unfold mbind, M_bind, OmnipoolPallet.call, lift, get, mret, M_ret.
  case_match; [done|]. rewrite EA. destruct (Assets s !! o); simpl; [|done].
  case_match; [rewrite EB, EF, ES, EQ, ED; by destruct (calculate_sell_hub_state_changes _ _ _ _)|].
  rewrite EA. destruct (Assets s !! i); simpl; [|done]. rewrite !EB, !EF, ES, EQ, ED.
  by destruct (calculate_sell_state_changes _ _ _ _ _ _ _).
Qed.

Lemma transfer_view c f t z er s s' :
  0 <= z → ¬ omni_touched f → ¬ omni_touched t → transfer c f t z er s = Ok s' → same_view s s'.
Proof.
  intros Hz [Hf _]%untouched_outside [Ht _]%untouched_outside Hr. simpl in Hr. inv_run.
  constructor; simpl; [done..| |].
  - match goal with Hx : transfer _ _ _ _ _ _ = Ok _ |- _ => apply transfer_moves in Hx as (_ & Hm & _); [|done] end.
    intros. rewrite Hm. by_moves.
  - intros. eapply (fees_off_ledger c f t); eassumption.
Qed.

Lemma view_inv s s' :
  same_view s s' → Positions s' = Positions s → NextPositionId s' = NextPositionId s → omni_inv T s → omni_inv T s'.
Proof.
  intros [EA ES EQ ED EB _] EP EN. apply moves_inv. constructor; [done..|unfold hub_balance; rewrite EB; lia|].
  intros []. constructor; rewrite ?ES, ?EQ, ?ED; done.
Qed.

Lemma peek_slip_valid i qi o qo s :
  slip_typed s → fits u128 qi → fits u128 qo → valid_slip (peek_trade_slip_fees i qi o qo s).
Proof.
  intros Ht Hi Ho. unfold peek_trade_slip_fees. destruct (SlipFee s) eqn:E; simpl; [|done].
  split_and!; [|by apply slip_fee_delta_valid| |by apply slip_fee_delta_valid|by eapply slip_config_permill].
  all: destruct Ht as [_ Hq _]; destruct (SlipFeeHubReserveAtBlockStart s !! _) eqn:Eq; [by eapply Hq|done].
Qed.

Lemma fee_get_permill a r x : is_permill (fee_get T a r x).1 ∧ is_permill (fee_get T a r x).2.
Proof. rewrite <- fee_stored_is_fee. apply fees_permill. Qed.

Lemma in_quote_fits p i o y s q :
  omni_inv T s → fits u128 y →
  TradeExecution.calculate_in_given_out omnipool_executor p i o y s = Ok q → fits u128 q.
Proof.
  intros Hinv Hy Hr. simpl in Hr.
  destruct (OmnipoolPallet.calculate_in_given_out T p i o y s) as [[q' sq]|] eqn:E; [|done]. simpl in Hr. simplify_eq.
  destruct (decide (p = PoolType.Omnipool)) as [->|Hp].
  2: { unfold OmnipoolPallet.calculate_in_given_out, for_omnipool in E. by rewrite decide_False in E by done. }
  destruct (decide (i = HubAssetId T)) as [->|Hi].
  - apply buy_hub_quote in E as (st & ch & Ho & Hc & ->).
    pose proof (loaded_state_sound T _ _ _ Hinv (loaded_at_loaded _ _ _ _ Ho)) as Hso.
    apply buy_hub_changes_Some in Hc as (? & ? & ? & ? & -> & _ & _ & Hq & _); [done|done|done|apply fee_get_permill].
  - apply buy_quote in E as (ist & ost & ch & Hi' & Ho & Hc & ->); [|done].
    pose proof (loaded_state_sound T _ _ _ Hinv (loaded_at_loaded _ _ _ _ Hi')) as Hsi.
    pose proof (loaded_state_sound T _ _ _ Hinv (loaded_at_loaded _ _ _ _ Ho)) as Hso.
    eapply buy_in_fits; [..|done]; try done; [apply fee_get_permill..|apply burn_permill|].
    apply peek_slip_valid; [apply Hinv|by apply trade_hub_fits..].
Qed.

Lemma for_omnipool_Ok {A} p (m : M omni (DispatchError OmniError.t) A) s a s' :
  for_omnipool p m s = Ok (a, s') → p = PoolType.Omnipool ∧ m s = Ok (a, s').
Proof. unfold for_omnipool. case_decide; [|done]. intros Hr. by apply (proj1 (executor_Ok _ _ _ _)) in Hr. Qed.

Lemma signed_not_protocol who : ¬ omni_touched who → Signed who ≠ Signed (protocol_account T).
Proof. intros Hw [= ->]. apply Hw. by left. Qed.

Lemma settled_traded who i x o y s s' :
  settled T pot who i x o y s s' → traded omni_touched who i x o y s s'.
Proof. intros Hs c b Hb%untouched_outside. by apply Hs. Qed.

#[export] Instance omnipool_pool_laws : PoolLaws omnipool_executor (omni_inv T) omni_touched.
Proof.
  constructor; simpl.
  - intros who p i o x lim s v s' Hinv Hw Hx [_ Hr]%for_omnipool_Ok.
    pose proof (sell_inv T _ _ _ _ _ _ _ _ Hinv (signed_not_protocol _ Hw) Hx Hr).
    apply (sell_settles T pot) in Hr as (y & ? & (? & _ & [? _] & ?%settled_traded) & _); [|done|by apply untouched_outside|done].
    split_and!; [done..|]. by exists y.
  - intros who p i o y lim s v s' Hinv Hw Hy [_ Hr]%for_omnipool_Ok.
    pose proof (buy_inv T _ _ _ _ _ _ _ _ Hinv (signed_not_protocol _ Hw) Hy Hr).
    apply (buy_settles T pot) in Hr as (x & ? & (? & [? _] & _ & ?%settled_traded) & _); [|done|by apply untouched_outside|done].
    split_and!; [done..|]. by exists x.
  - intros p i o y s x Hinv Hy Hr. by eapply (in_quote_fits p i o y s).
  - intros c f t z er s s' Hinv Hf Ht Hz Hr. pose proof (transfer_view c f t z er s s' Hz Hf Ht Hr) as Hv.
    inv_run. by eapply view_inv.
  - intros b s. by apply view_inv.
Qed.

#[export] Instance omnipool_pool_quotes : PoolQuotes omnipool_executor (omni_inv T) omni_touched.
Proof.
  constructor.
  - simpl. intros who p i o x lim q s v s' Hinv Hw Hx Hq [-> Hr]%for_omnipool_Ok.
    apply (sell_settles T pot) in Hr as (y & ? & (_ & _ & ? & Hs%settled_traded) & Hy); [|done|by apply untouched_outside|done].
    inv_run. destruct (OmnipoolPallet.calculate_out_given_in T PoolType.Omnipool i o x s) as [[q' sq]|]; simplify_eq/=.
    by rewrite (Hy _ _ eq_refl).
  - intros c f t z er p i o x s s' Hinv Hf Ht Hz Hr. by eapply quote_same_view, (transfer_view c f t).
  - intros. by apply quote_same_view.
Qed.
End omnipool.

(** ** A route on concrete data *)

Module RouterDemo.
Import OmniDemo TradeDemo.
#[local] Existing Instance reference_arithmetic.
#[local] Existing Instance reference_arithmetic_laws.
#[local] Existing Instance config_laws.
#[local] Existing Instance config_hook_laws.
#[local] Existing Instance config_fee_laws.
#[local] Existing Instance omni_currency.
#[local] Existing Instance omni_currency_laws.

Notation router_pot := 200 (only parsing).

Lemma free_within (c a : Z) (x : ledger) : 0 <= free_balance c a x <= free_balance c a x.
Proof. pose proof (free_balance_fits c a x) as [? _]. lia. Qed.

#[local] Instance demo_world : RouterWorld (omni ledger Z) Z := omni_world free_balance.
#[local] Instance demo_world_laws : RouterWorldLaws (omni ledger Z) Z := omni_world_laws free_balance free_within.

Definition router_config : RouterConfig (omni ledger Z) Z (DispatchError OmniError.t) :=
  mkRouterConfig HDX (omnipool_executor config) (λ _ _, Some (mkRatio 1 1)) PoolType.Omnipool
    (λ o, match o with Root => true | _ => false end) router_pot.

#[local] Instance demo_laws :
  PoolLaws (AMM router_config) (omni_inv config) (omni_touched config no_pots).
Proof. apply omnipool_pool_laws; [apply _..|]. by intros. Qed.
#[local] Instance demo_quotes :
  PoolQuotes (AMM router_config) (omni_inv config) (omni_touched config no_pots).
Proof. apply omnipool_pool_quotes; [apply _..|]. by intros. Qed.

(** Hub asset to DOT to HDX. *)
Definition two_hops : Route :=
  [Trade.mk PoolType.Omnipool LRNA DOT; Trade.mk PoolType.Omnipool DOT HDX].
Definition r0 : router (omni ledger Z) := mkRouter ∅ [] provided.
Definition routed := run (RouteExecutor.sell router_config (Signed alice) LRNA HDX 100000000 1 two_hops) r0.
Definition routed_buy :=
  run (RouteExecutor.buy router_config (Signed alice) LRNA HDX 1000000 100000000 two_hops) r0.

Notation touched := (omni_touched config no_pots).
Lemma untouched who : who ≠ 100 → ¬ touched who.
Proof. intros Hw. apply untouched_outside. split; [done|intros []]. Qed.
Lemma unlocked c w : reducible_balance c (router_account router_config) w = free_balance c (router_account router_config) w.
Proof. done. Qed.
Lemma provided_inv : omni_inv config provided.
Proof. apply reachable_inv; [apply _..|apply provided_reachable]. Qed.


Lemma router_buy_settles_witness :
  ∃ x z, x <= 100000000 ∧ 1000000 <= z ∧
    free_balance LRNA alice (world routed_buy) = free_balance LRNA alice (world r0) - x ∧
    free_balance HDX alice (world routed_buy) = free_balance HDX alice (world r0) + z.
Proof.
  destruct (router_buy_settles router_config (omni_inv config) touched (untouched 200 ltac:(done)) unlocked
    alice LRNA HDX 1000000 100000000 two_hops r0 tt routed_buy) as (_ & (x & z & _ & Hx & Hz & Hb) & _).
  - exact provided_inv.
  - apply untouched. done.
  - intros [=].
  - compute_done.
  - refine (run_Ok (RouteExecutor.buy router_config (Signed alice) LRNA HDX 1000000 100000000 two_hops) r0 _).
    vm_compute. reflexivity.
  - exists x, z. split; [exact Hx|]. split; [exact Hz|]. split.
    + specialize (Hb LRNA). replace (when (LRNA = LRNA) x) with x in Hb by reflexivity.
      replace (when (LRNA = HDX) z) with 0 in Hb by reflexivity. lia.
    + specialize (Hb HDX). replace (when (HDX = LRNA) x) with 0 in Hb by reflexivity.
      replace (when (HDX = HDX) z) with z in Hb by reflexivity. lia.
Defined.

(** Without a route the stored or default one is taken: DOT to HDX at once. *)
Definition routed_default := run (RouteExecutor.sell router_config (Signed alice) DOT HDX 10000000000 1 []) r0.

Lemma router_holds_nothing c : free_balance c (router_account router_config) (world r0) = 0.
Proof.
  assert (bool_decide (map_Forall (λ k _, k.2 ≠ 200) (balances (omni_ext provided))) = true) as E
    by (vm_compute; reflexivity).
  apply bool_decide_eq_true in E. cbn. unfold ledger_free.
  destruct (balances (omni_ext provided) !! (c, 200)) eqn:El; [by apply E in El|done].
Qed.

End RouterDemo.
