(* ===== verification/StableswapMath.v ===== *)
(** * Stableswap mathematics

    Models [math/src/stableswap]: the invariant D and the reserve Y of a stable
    pool by Newton's method on [U256], trades, shares, withdrawals of one asset,
    prices and the recalculation of pegs. *)

From stdpp Require Import sorting.
From S2P Require Import Prelude Arithmetic Ratio.

Record AssetReserve := mkReserve { amount : Z; decimals : Z }.

(** A peg [(n, d)]. *)
Notation Peg := (Z * Z)%type (only parsing).

Definition MAX_Y_ITERATIONS : nat := 128.
Definition MAX_D_ITERATIONS : nat := 64.
Definition TARGET_PRECISION : Z := 18.
Definition PRECISION : Z := 1.

(** The file has its own [Rounding]. *)
Module Round.
Inductive t := Down | Up.
End Round.

(** [10u128.saturating_pow(k)]. *)
Definition saturating_pow10 (k : Z) : Z := Z.min (10 ^ k) (max_value u128).

Definition normalize_value (amount decimals target_decimals : Z) (rounding : Round.t) : Z :=
  if target_decimals =? decimals then amount else
  let diff := Z.abs (target_decimals - decimals) in
  if decimals <? target_decimals then saturating_mul u128 amount (saturating_pow10 diff)
  else match rounding with
    | Round.Down => amount / saturating_pow10 diff
    | Round.Up => saturating_add u128 (amount / saturating_pow10 diff) 1
    end.

Definition normalize_reserves (reserves : list AssetReserve) : list Z :=
  (λ v, normalize_value (amount v) (decimals v) TARGET_PRECISION Round.Down) <$> reserves.

Definition calculate_ann (n : nat) (amplification : Z) : option Z :=
  checked_mul u128 amplification (Z.of_nat n).

Definition has_converged (v0 v1 precision : Z) : bool :=
  let diff := Z.abs (v1 - v0) in
  ((v1 <=? v0) && (diff <? precision)) || ((v0 <? v1) && (diff <=? precision)).

(** Sum with overflow checks, the loop over [s_hp]. *)
Definition checked_sum (xs : list Z) : option Z := foldl (λ s x, s ← s; checked_add u256 s x) (Some 0) xs.

(** [sort] of wide integers. *)
Definition sort (xs : list Z) : list Z := merge_sort Z.le xs.

Section math.
Context `{SpArithmetic}.

Definition calculate_fee_amount (amount fee : Z) (rounding : Round.t) : Z :=
  match rounding with Round.Down => permill_mul_floor fee amount | Round.Up => permill_mul_ceil fee amount end.

Fixpoint peg_reserves (reserves : list Z) (pegs : list Peg) : option (list Z) :=
  match reserves, pegs with
  | v :: reserves, peg :: pegs =>
      result ← multiply_by_rational_down v peg.1 peg.2;
      acc ← peg_reserves reserves pegs;
      Some (result :: acc)
  | _, _ => Some []
  end.

(** The reserves that are not zero; some but not all zero is an error. *)
Definition nonzero_reserves (xp : list Z) : option (list Z) :=
  let xp_hp := filter (λ v, v ≠ 0) xp in
  if negb (length xp_hp =? length xp)%nat && negb (length xp_hp =? 0)%nat then None else Some (sort xp_hp).

(** ** The invariant D *)

(** [try_fold] of [d_p]. *)
Fixpoint d_product (d n_coins acc : Z) (xp : list Z) : option Z :=
  match xp with
  | [] => Some acc
  | v :: xp =>
      num ← checked_mul u256 acc d;
      den ← checked_mul u256 v n_coins;
      acc ← checked_div num den;
      d_product d n_coins acc xp
  end.

(** One iteration of Newton's method for D. *)
Definition d_step (ann s n_coins : Z) (xp : list Z) (d : Z) : option Z :=
  d_p ← d_product d n_coins d xp;
  v1 ← checked_mul u256 ann s;
  v2 ← checked_mul u256 d_p n_coins;
  v3 ← checked_add u256 v1 v2;
  num ← checked_mul u256 v3 d;
  w1 ← checked_sub ann 1;
  w2 ← checked_mul u256 w1 d;
  w3 ← checked_add u256 n_coins 1;
  w4 ← checked_mul u256 w3 d_p;
  den ← checked_add u256 w2 w4;
  q ← checked_div num den;
  checked_add u256 q 2.

Fixpoint d_loop (D : nat) (ann s n_coins : Z) (xp : list Z) (d : Z) : option Z :=
  match D with
  | O => Some d
  | S D =>
      d' ← d_step ann s n_coins xp d;
      if has_converged d d' PRECISION then Some d' else d_loop D ann s n_coins xp d'
  end.

Definition calculate_d_internal (D : nat) (xp : list Z) (amplification : Z) (pegs : list Peg) : option Z :=
  xp ← peg_reserves xp pegs;
  xp_hp ← nonzero_reserves xp;
  ann ← calculate_ann (length xp_hp) amplification;
  s_hp ← checked_sum xp_hp;
  if s_hp =? 0 then Some 0 else
  d ← d_loop D ann s_hp (Z.of_nat (length xp_hp)) xp_hp s_hp;
  try_from u128 d.

Definition calculate_d (D : nat) (reserves : list AssetReserve) (amplification : Z) (pegs : list Peg) : option Z :=
  let assets_ct := length reserves in
  if (assets_ct <=? 1)%nat || negb (length pegs =? assets_ct)%nat then None else
  calculate_d_internal D (normalize_reserves reserves) amplification pegs.

(** ** The reserve Y *)

(** One iteration of Newton's method for Y. *)
Definition y_step (b c d y : Z) : option Z :=
  v1 ← checked_mul u256 y y;
  num ← checked_add u256 v1 c;
  w1 ← checked_mul u256 2 y;
  w2 ← checked_add u256 w1 b;
  den ← checked_sub w2 d;
  q ← checked_div num den;
  checked_add u256 q 2.

Fixpoint y_loop (Y : nat) (b c d y : Z) : option Z :=
  match Y with
  | O => Some y
  | S Y =>
      y' ← y_step b c d y;
      if has_converged y y' PRECISION then Some y' else y_loop Y b c d y'
  end.

(** The coefficients [b] and [c] of the equation for Y. *)
Definition y_coefficients (xp_hp : list Z) (d ann : Z) : option (Z * Z) :=
  let n_coins := Z.of_nat (S (length xp_hp)) in
  s_hp ← checked_sum xp_hp;
  c ← d_product d n_coins d xp_hp;
  v ← checked_mul u256 c d;
  w ← checked_mul u256 ann n_coins;
  c ← checked_div v w;
  q ← checked_div d ann;
  b ← checked_add u256 s_hp q;
  Some (b, c).

Definition calculate_y_internal (Y : nat) (xp : list Z) (d amplification : Z) (pegs : list Peg) (peg_omit : Peg) :
    option Z :=
  xp ← peg_reserves xp pegs;
  xp_hp ← nonzero_reserves xp;
  ann ← calculate_ann (S (length xp_hp)) amplification;
  bc ← y_coefficients xp_hp d ann;
  y ← y_loop Y bc.1 bc.2 d d;
  r ← try_from u128 y;
  multiply_by_rational_down r peg_omit.2 peg_omit.1.

(** [delete i l] leaves out the element [i]. *)
Definition calculate_y_given_in (D Y : nat) (amount : Z) (idx_in idx_out : nat) (reserves : list Z)
    (amplification : Z) (pegs : list Peg) : option Z :=
  if (length reserves <=? idx_in)%nat || (length reserves <=? idx_out)%nat then None else
  reserve_in ← reserves !! idx_in;
  new_reserve_in ← checked_add u128 reserve_in amount;
  d ← calculate_d_internal D reserves amplification pegs;
  let xp := delete idx_out (<[idx_in := new_reserve_in]> reserves) in
  peg_omit ← pegs !! idx_out;
  calculate_y_internal Y xp d amplification (delete idx_out pegs) peg_omit.

Definition calculate_y_given_out (D Y : nat) (amount : Z) (idx_in idx_out : nat) (reserves : list Z)
    (amplification : Z) (pegs : list Peg) : option Z :=
  reserve_out ← reserves !! idx_out;
  new_reserve_out ← checked_sub reserve_out amount;
  d ← calculate_d_internal D reserves amplification pegs;
  let xp := delete idx_in (<[idx_out := new_reserve_out]> reserves) in
  peg_omit ← pegs !! idx_in;
  calculate_y_internal Y xp d amplification (delete idx_in pegs) peg_omit.

(** ** Trades *)

(** The guards of a trade. *)
Definition trade_guard (assets_ct idx_in idx_out : nat) (pegs : list Peg) : bool :=
  (assets_ct <=? 1)%nat || (idx_in =? idx_out)%nat || (assets_ct <=? idx_in)%nat || (assets_ct <=? idx_out)%nat
  || negb (length pegs =? assets_ct)%nat.

Definition calculate_out_given_in (D Y : nat) (initial_reserves : list AssetReserve) (idx_in idx_out : nat)
    (amount_in amplification : Z) (pegs : list Peg) : option Z :=
  if trade_guard (length initial_reserves) idx_in idx_out pegs then None else
  let reserves := normalize_reserves initial_reserves in
  asset_in ← initial_reserves !! idx_in;
  asset_out ← initial_reserves !! idx_out;
  let amount_in := normalize_value amount_in (decimals asset_in) TARGET_PRECISION Round.Up in
  new_reserve_out ← calculate_y_given_in D Y amount_in idx_in idx_out reserves amplification pegs;
  reserve_out ← reserves !! idx_out;
  amount_out ← checked_sub reserve_out new_reserve_out;
  let amount_out := normalize_value amount_out TARGET_PRECISION (decimals asset_out) Round.Down in
  Some (saturating_sub amount_out 1).

Definition calculate_in_given_out (D Y : nat) (initial_reserves : list AssetReserve) (idx_in idx_out : nat)
    (amount_out amplification : Z) (pegs : list Peg) : option Z :=
  if trade_guard (length initial_reserves) idx_in idx_out pegs then None else
  let reserves := normalize_reserves initial_reserves in
  asset_in ← initial_reserves !! idx_in;
  asset_out ← initial_reserves !! idx_out;
  let amount_out := normalize_value amount_out (decimals asset_out) TARGET_PRECISION Round.Down in
  new_reserve_in ← calculate_y_given_out D Y amount_out idx_in idx_out reserves amplification pegs;
  reserve_in ← reserves !! idx_in;
  amount_in ← checked_sub new_reserve_in reserve_in;
  let amount_in := normalize_value amount_in TARGET_PRECISION (decimals asset_in) Round.Up in
  Some (saturating_add u128 amount_in 1).

Definition calculate_out_given_in_with_fee (D Y : nat) (initial_reserves : list AssetReserve)
    (idx_in idx_out : nat) (amount_in amplification fee : Z) (pegs : list Peg) : option (Z * Z) :=
  amount_out ← calculate_out_given_in D Y initial_reserves idx_in idx_out amount_in amplification pegs;
  let fee_amount := calculate_fee_amount amount_out fee Round.Down in
  amount_out ← checked_sub amount_out fee_amount;
  Some (amount_out, fee_amount).

Definition calculate_in_given_out_with_fee (D Y : nat) (initial_reserves : list AssetReserve)
    (idx_in idx_out : nat) (amount_out amplification fee : Z) (pegs : list Peg) : option (Z * Z) :=
  amount_in ← calculate_in_given_out D Y initial_reserves idx_in idx_out amount_out amplification pegs;
  let fee_amount := calculate_fee_amount amount_in fee Round.Up in
  amount_in ← checked_add u128 amount_in fee_amount;
  Some (amount_in, fee_amount).

(** ** Shares *)

(** The fee scaled to the number of assets. *)
Definition scaled_fee (fee : Z) (assets_ct : nat) : option Z :=
  v ← fixed_checked_mul (fixed_from_permill fee) (fixed_from_integer (Z.of_nat assets_ct));
  fixed_checked_div v (fixed_from_integer (4 * (Z.of_nat assets_ct - 1))).

(** The closure that charges the fee on the distance from the ideal balance. *)
Definition adjust_reserve (d0 d1 fee : Z) (initial updated : AssetReserve) : option (AssetReserve * Z) :=
  v ← checked_mul u256 d1 (amount initial);
  ideal_balance ← checked_div v d0;
  diff ← try_from u128 (Z.abs (amount updated - ideal_balance));
  fee_amount ← fixed_checked_mul_int fee diff;
  Some (mkReserve (saturating_sub (amount updated) fee_amount) (decimals updated), fee_amount).
Fixpoint adjust_reserves (d0 d1 fee : Z) (initial updated : list AssetReserve) : option (list AssetReserve * list Z) :=
  match initial, updated with
  | i :: initial, u :: updated =>
      rf ← adjust_reserve d0 d1 fee i u;
      rest ← adjust_reserves d0 d1 fee initial updated;
      Some (rf.1 :: rest.1, rf.2 :: rest.2)
  | _, _ => Some ([], [])
  end.

Definition calculate_shares (D : nat) (initial_reserves updated_reserves : list AssetReserve)
    (amplification share_issuance fee : Z) (pegs : list Peg) : option (Z * list Z) :=
  let assets_ct := length initial_reserves in
  if (assets_ct <=? 1)%nat || negb (length updated_reserves =? assets_ct)%nat || negb (length pegs =? assets_ct)%nat
  then None else
  initial_d ← calculate_d D initial_reserves amplification pegs;
  v ← calculate_d D updated_reserves amplification pegs;
  updated_d ← checked_sub v 2;
  if updated_d <? initial_d then None else
  fee ← scaled_fee fee assets_ct;
  '(adjusted_reserves, fees) ←
    (if 0 <? share_issuance then adjust_reserves initial_d updated_d fee initial_reserves updated_reserves
     else Some (updated_reserves, []));
  adjusted_d ← calculate_d D adjusted_reserves amplification pegs;
  if share_issuance =? 0 then Some (updated_d, fees) else
  d_diff ← checked_sub adjusted_d initial_d;
  v ← checked_mul u256 share_issuance d_diff;
  share_amount ← checked_div v initial_d;
  shares_amount ← try_from u128 share_amount;
  Some (shares_amount, fees).

Definition calculate_shares_for_amount (D : nat) (initial_reserves : list AssetReserve) (asset_idx : nat)
    (amount' amplification share_issuance fee : Z) (pegs : list Peg) : option (Z * list Z) :=
  let assets_ct := length initial_reserves in
  if (assets_ct <=? 1)%nat || (assets_ct <=? asset_idx)%nat || negb (length pegs =? assets_ct)%nat then None else
  fee ← scaled_fee fee assets_ct;
  v ← initial_reserves !! asset_idx;
  a ← checked_sub (amount v) amount';
  let updated_reserves := <[asset_idx := mkReserve a (decimals v)]> initial_reserves in
  initial_d ← calculate_d D initial_reserves amplification pegs;
  updated_d ← calculate_d D updated_reserves amplification pegs;
  '(adjusted_reserves, fees) ← adjust_reserves initial_d updated_d fee initial_reserves updated_reserves;
  adjusted_d ← calculate_d D adjusted_reserves amplification pegs;
  d_diff ← checked_sub initial_d adjusted_d;
  v ← checked_mul u256 share_issuance d_diff;
  v ← checked_div v initial_d;
  share_amount ← checked_add u256 v 1;
  shares ← try_from u128 share_amount;
  Some (shares, fees).

(** [as_u128] panics above [u128]. *)
Definition calculate_liquidity_out (reserve share_amount share_issuance : Z) : option Z :=
  v ← checked_mul u256 reserve share_amount;
  v ← checked_div v share_issuance;
  try_from u128 v.

(** ** One asset for shares *)

(** The guards of a withdrawal or deposit of one asset. *)
Definition one_asset_guard (assets_ct asset_idx : nat) (shares share_asset_issuance : Z) (pegs : list Peg) : bool :=
  (assets_ct <=? 1)%nat || (assets_ct <=? asset_idx)%nat || negb (length pegs =? assets_ct)%nat
  || (shares =? 0) || (share_asset_issuance <? shares).

(** The loop that charges the fee on every reserve, given how much each is
    expected to change. *)
Fixpoint reduce_reserves (fee : Z) (expected : nat → Z → option Z) (idx : nat) (reserves : list Z) : option (list Z) :=
  match reserves with
  | [] => Some []
  | reserve :: reserves =>
      dx_expected ← expected idx reserve;
      dx_expected ← try_from u128 dx_expected;
      f ← fixed_checked_mul_int fee dx_expected;
      reduced ← checked_sub reserve f;
      rest ← reduce_reserves fee expected (S idx) reserves;
      Some (reduced :: rest)
  end.

Definition calculate_withdraw_one_asset (D Y : nat) (reserves : list AssetReserve) (shares : Z) (asset_idx : nat)
    (share_asset_issuance amplification fee : Z) (pegs : list Peg) : option (Z * Z) :=
  let assets_ct := length reserves in
  if one_asset_guard assets_ct asset_idx shares share_asset_issuance pegs then None else
  asset ← reserves !! asset_idx;
  let reserves := normalize_reserves reserves in
  fee ← scaled_fee fee assets_ct;
  initial_d ← calculate_d_internal D reserves amplification pegs;
  v ← checked_mul u256 shares initial_d;
  v ← checked_div v share_asset_issuance;
  d1 ← checked_sub initial_d v;
  let xp := delete asset_idx reserves in
  peg_omit ← pegs !! asset_idx;
  let r_pegs := delete asset_idx pegs in
  d1_balance ← try_from u128 d1;
  y ← calculate_y_internal Y xp d1_balance amplification r_pegs peg_omit;
  reduced ← reduce_reserves fee (λ idx reserve,
    v ← checked_mul u256 reserve d1;
    v ← checked_div v initial_d;
    if (idx =? asset_idx)%nat then checked_sub v y else checked_sub reserve v) 0 reserves;
  asset_reserve ← reduced !! asset_idx;
  y1 ← calculate_y_internal Y (delete asset_idx reduced) d1_balance amplification r_pegs peg_omit;
  dy ← checked_sub asset_reserve y1;
  reserve ← reserves !! asset_idx;
  dy_0 ← checked_sub reserve y;
  fee ← checked_sub dy_0 dy;
  Some (normalize_value dy TARGET_PRECISION (decimals asset) Round.Down,
        normalize_value fee TARGET_PRECISION (decimals asset) Round.Down).

Definition calculate_add_one_asset (D Y : nat) (reserves : list AssetReserve) (shares : Z) (asset_idx : nat)
    (share_asset_issuance amplification fee : Z) (pegs : list Peg) : option (Z * Z) :=
  let assets_ct := length reserves in
  if one_asset_guard assets_ct asset_idx shares share_asset_issuance pegs then None else
  asset ← reserves !! asset_idx;
  let reserves := normalize_reserves reserves in
  initial_d ← calculate_d_internal D reserves amplification pegs;
  v ← checked_mul u256 shares initial_d;
  v ← checked_div v share_asset_issuance;
  d1 ← checked_add u256 initial_d v;
  let xp := delete asset_idx reserves in
  peg_omit ← pegs !! asset_idx;
  let r_pegs := delete asset_idx pegs in
  d1_balance ← try_from u128 d1;
  y ← calculate_y_internal Y xp d1_balance amplification r_pegs peg_omit;
  fee ← scaled_fee fee assets_ct;
  reduced ← reduce_reserves fee (λ idx reserve,
    v ← checked_mul u256 reserve d1;
    v ← checked_div v initial_d;
    if (idx =? asset_idx)%nat then checked_sub y v else checked_sub v reserve) 0 reserves;
  asset_reserve ← reduced !! asset_idx;
  y1 ← calculate_y_internal Y (delete asset_idx reduced) d1_balance amplification r_pegs peg_omit;
  dy ← checked_sub y1 asset_reserve;
  dy_0 ← checked_sub y asset_reserve;
  fee ← checked_sub dy dy_0;
  Some (normalize_value dy TARGET_PRECISION (decimals asset) Round.Up,
        normalize_value fee TARGET_PRECISION (decimals asset) Round.Down).

(** ** Prices *)

(** Reserves weighted by their pegs, before normalization. *)
Fixpoint peg_adjusted (reserves : list AssetReserve) (pegs : list Peg) : option (list AssetReserve) :=
  match reserves, pegs with
  | v :: reserves, mpl :: pegs =>
      r_new ← multiply_by_rational_down (amount v) mpl.1 mpl.2;
      rest ← peg_adjusted reserves pegs;
      Some (mkReserve r_new (decimals v) :: rest)
  | _, _ => Some []
  end.

(** [try_fold] of the quotients of [d]. *)
Fixpoint price_product (d : Z) (n_coins : nat) (acc : Z) (reserves : list Z) : option Z :=
  match reserves with
  | [] => Some acc
  | reserve :: reserves =>
      v ← checked_mul u128 (Z.of_nat n_coins) reserve;
      q ← fixed_checked_from_rational d v;
      acc ← fixed_checked_mul acc q;
      price_product d n_coins acc reserves
  end.

Definition calculate_share_price (D : nat) (reserves : list AssetReserve) (amplification issuance : Z)
    (asset_idx : nat) (provided_d : option Z) (pegs : list Peg) : option (Z * Z) :=
  let n_coins := length reserves in
  if (n_coins <=? 1)%nat || (n_coins <=? asset_idx)%nat || negb (length pegs =? n_coins)%nat then None else
  d ← match provided_d with Some v => Some v | None => calculate_d D reserves amplification pegs end;
  asset_peg ← pegs !! asset_idx;
  adjusted_reserves ← peg_adjusted reserves pegs;
  let n_reserves := normalize_reserves adjusted_reserves in
  v ← price_product d n_coins DIV n_reserves;
  c ← fixed_checked_mul_int v d;
  ann ← calculate_ann (length n_reserves) amplification;
  xi ← n_reserves !! asset_idx;
  xann ← checked_mul u256 xi ann;
  p1 ← checked_mul u256 d xann;
  v ← checked_mul u256 xi c;
  p2 ← checked_mul u256 v (saturating_add u256 (Z.of_nat n_coins) 1);
  p3 ← checked_mul u256 xi d;
  v ← checked_add u256 p1 p2;
  num ← checked_sub v p3;
  v ← checked_add u256 xann c;
  denom ← checked_mul u256 issuance v;
  asset ← reserves !! asset_idx;
  let p_diff := saturating_pow10 (saturating_sub 18 (decimals asset)) in
  nd ← match checked_mul u256 denom p_diff with
       | Some v => Some (num, v)
       | None => num ← checked_div num p_diff; Some (num, denom)
       end;
  let c := Ratio.from_pair (round_to_rational nd Down) in
  let result := Ratio.saturating_div c (Ratio.from_pair asset_peg) in
  Some (n result, Ratio.d result).

Fixpoint share_prices_from (D : nat) (reserves : list AssetReserve) (amplification issuance d : Z) (pegs : list Peg)
    (idxs : list nat) : option (list (Z * Z)) :=
  match idxs with
  | [] => Some []
  | idx :: idxs =>
      price ← calculate_share_price D reserves amplification issuance idx (Some d) pegs;
      rest ← share_prices_from D reserves amplification issuance d pegs idxs;
      Some (price :: rest)
  end.
Definition calculate_share_prices (D : nat) (reserves : list AssetReserve) (amplification issuance : Z)
    (pegs : list Peg) : option (list (Z * Z)) :=
  let n := length reserves in
  if (n <=? 1)%nat then None else
  if negb (length pegs =? n)%nat then None else
  d ← calculate_d D reserves amplification pegs;
  share_prices_from D reserves amplification issuance d pegs (seq 0 n).

Definition calculate_spot_price_between_two_stable_assets (reserves : list AssetReserve) (amplification d : Z)
    (asset_in_idx asset_out_idx : nat) (fee : option Z) (pegs : list Peg) : option Z :=
  let n_coins := length reserves in
  if (n_coins <=? 1)%nat || (n_coins <=? asset_in_idx)%nat || (n_coins <=? asset_out_idx)%nat
     || negb (length pegs =? n_coins)%nat then None else
  ann ← calculate_ann n_coins amplification;
  asset_peg_in ← pegs !! asset_in_idx;
  asset_peg_out ← pegs !! asset_out_idx;
  adjusted_reserves ← peg_adjusted reserves pegs;
  let n_reserves := normalize_reserves adjusted_reserves in
  x0 ← n_reserves !! asset_in_idx;
  xi ← n_reserves !! asset_out_idx;
  c ← d_product d (Z.of_nat n_coins) d (sort n_reserves);
  v ← checked_mul u256 ann xi;
  v ← checked_add u256 v c;
  num ← checked_mul u256 x0 v;
  v ← checked_mul u256 ann x0;
  v ← checked_add u256 v c;
  denom ← checked_mul u256 xi v;
  let price := Ratio.from_pair (round_to_rational (num, denom) Down) in
  let result := Ratio.saturating_div (Ratio.saturating_mul price (Ratio.from_pair asset_peg_out))
                  (Ratio.from_pair asset_peg_in) in
  match fee with
  | Some fee =>
      fee_multiplier ← checked_sub PERMILL fee;
      fixed_checked_from_rational (n result) (permill_mul_floor fee_multiplier (Ratio.d result))
  | None => fixed_checked_from_rational (n result) (Ratio.d result)
  end.

Definition position (asset : Z) (asset_reserves : list (Z * AssetReserve)) : option nat :=
  fst <$> list_find (λ r, r.1 = asset) asset_reserves.

(** The loop that adds the traded amount to its reserve. *)
Fixpoint add_to_reserve (asset added : Z) (reserves : list (Z * AssetReserve)) : option (list AssetReserve) :=
  match reserves with
  | [] => Some []
  | (a, r) :: reserves =>
      r ← (if a =? asset then v ← checked_add u128 (amount r) added; Some (mkReserve v (decimals r)) else Some r);
      rest ← add_to_reserve asset added reserves;
      Some (r :: rest)
  end.

Definition calculate_spot_price (pool_id : Z) (asset_reserves : list (Z * AssetReserve)) (amplification asset_in
    asset_out share_issuance min_trade_amount : Z) (fee : option Z) (pegs : list Peg) : option Z :=
  let n_coins := length asset_reserves in
  if (n_coins <=? 1)%nat || (asset_in =? asset_out) || negb (length pegs =? n_coins)%nat then None else
  let reserves := asset_reserves.*2 in
  d ← calculate_d MAX_D_ITERATIONS reserves amplification pegs;
  match asset_in =? pool_id, asset_out =? pool_id with
  | false, false =>
      asset_in_idx ← position asset_in asset_reserves;
      asset_out_idx ← position asset_out asset_reserves;
      calculate_spot_price_between_two_stable_assets reserves amplification d asset_in_idx asset_out_idx fee pegs
  | true, false =>
      asset_out_idx ← position asset_out asset_reserves;
      sf ← calculate_shares_for_amount MAX_D_ITERATIONS reserves asset_out_idx min_trade_amount amplification
        share_issuance (default 0 fee) pegs;
      fixed_checked_from_rational sf.1 min_trade_amount
  | false, true =>
      updated_reserves ← add_to_reserve asset_in min_trade_amount asset_reserves;
      sf ← calculate_shares MAX_D_ITERATIONS reserves updated_reserves amplification share_issuance
        (default 0 fee) pegs;
      fixed_checked_from_rational min_trade_amount sf.1
  | _, _ => None
  end.
End math.

(** ** Amplification *)

Definition calculate_amplification (initial_amplification final_amplification initial_block final_block
    current_block : Z) : Z :=
  if (current_block <? initial_block) || (final_block <=? initial_block) then initial_amplification else
  if final_block <=? current_block then final_amplification else
  let step := saturating_mul u128 (Z.abs (final_amplification - initial_amplification))
                (saturating_sub current_block initial_block)
              / saturating_sub final_block initial_block in
  if initial_amplification <? final_amplification then saturating_add u128 initial_amplification step
  else saturating_sub initial_amplification step.

(** ** Pegs *)

Record PegDelta := mkDelta { delta : Ratio; neg : bool; block_diff : Z }.

Definition ratio_lt (a b : Ratio) : bool := match Ratio.cmp a b with Lt => true | _ => false end.
Definition ratio_le (a b : Ratio) : bool := negb (ratio_lt b a).

Definition calculate_peg_delta (block_ct max_peg_update : Z) (current target : Peg) : PegDelta :=
  let c := Ratio.from_pair current in
  let t := Ratio.from_pair target in
  let '(delta, delta_neg) :=
    if ratio_lt c t then (Ratio.saturating_sub t c, false) else (Ratio.saturating_sub c t, true) in
  let b := Ratio.from_u128 block_ct in
  let max_move_ratio := Ratio.from_pair (max_peg_update, PERBILL) in
  let max_peg_move := Ratio.saturating_mul (Ratio.saturating_mul max_move_ratio c) b in
  if ratio_le delta max_peg_move then mkDelta delta delta_neg block_ct
  else if ratio_lt c t then mkDelta max_peg_move false block_ct
  else mkDelta max_peg_move true block_ct.

Definition calculate_peg_deltas (block_no : Z) (current : list Peg) (current_updated_at : Z)
    (target : list (Peg * Z)) (max_peg_update : Z) : list PegDelta :=
  let block_ct := Z.max (saturating_sub block_no current_updated_at) 1 in
  zip_with (λ c t, calculate_peg_delta block_ct max_peg_update c t.1) current target.

(** The two loops over the relative changes. *)
Definition max_change_step (max_change change : Ratio * bool) : Ratio * bool :=
  match change.2, max_change.2 with
  | true, true => if ratio_lt change.1 max_change.1 then (change.1, true) else max_change
  | true, false => max_change
  | false, true => (change.1, true)
  | false, false => if ratio_lt max_change.1 change.1 then (change.1, false) else max_change
  end.
Definition min_change_step (min_change change : Ratio * bool) : Ratio * bool :=
  match change.2, min_change.2 with
  | true, true => if ratio_lt min_change.1 change.1 then (change.1, true) else min_change
  | true, false => (change.1, true)
  | false, true => min_change
  | false, false => if ratio_lt change.1 min_change.1 then (change.1, false) else min_change
  end.
Definition one_plus (change : Ratio * bool) : Ratio * bool :=
  if change.2 then
    if ratio_lt Ratio.one change.1 then (Ratio.saturating_sub change.1 Ratio.one, true)
    else (Ratio.saturating_sub Ratio.one change.1, false)
  else (Ratio.saturating_add change.1 Ratio.one, false).

Definition calculate_target_fee `{SpArithmetic} (current : list Peg) (deltas : list PegDelta) (current_fee : Z) : Z :=
  let peg_relative_changes := zip_with (λ dl c,
      (Ratio.saturating_div (Ratio.saturating_div (delta dl) (Ratio.from_u128 (block_diff dl))) (Ratio.from_pair c),
       neg dl)) deltas current in
  let max_change := foldl max_change_step (Ratio.zero, false) peg_relative_changes in
  let min_change := foldl min_change_step (Ratio.zero, false) peg_relative_changes in
  let '(max_value, max_neg) := one_plus max_change in
  let '(min_value, min_neg) := one_plus min_change in
  let max_diff := Ratio.saturating_div max_value min_value in
  let max_diff_negative := max_neg || min_neg in
  if max_diff_negative || ratio_lt max_diff Ratio.one then current_fee else
  let max_diff := Ratio.saturating_sub max_diff Ratio.one in
  let p := Ratio.saturating_mul (Ratio.from_u128 2) max_diff in
  let new_fee := permill_from_rational (n p) (Ratio.d p) in
  Z.max new_fee current_fee.

Definition calculate_new_pegs (current : list Peg) (deltas : list PegDelta) : list Peg :=
  zip_with (λ c dl,
    let c := Ratio.from_pair c in
    let new_peg := if neg dl then Ratio.saturating_sub c (delta dl) else Ratio.saturating_add c (delta dl) in
    (n new_peg, Ratio.d new_peg)) current deltas.

Definition recalculate_pegs `{SpArithmetic} (current_pegs : list Peg) (current_pegs_updated_at : Z)
    (target_pegs : list (Peg * Z)) (block max_peg_update pool_fee : Z) : option (Z * list Peg) :=
  let deltas := calculate_peg_deltas block current_pegs current_pegs_updated_at target_pegs max_peg_update in
  let trade_fee := calculate_target_fee current_pegs deltas pool_fee in
  let new_pegs := calculate_new_pegs current_pegs deltas in
  Some (trade_fee, new_pegs).
