(* ===== verification/StableswapCurve.v ===== *)
(** * The stableswap curve

    Newton's method of [StableswapMath] against the curve it approximates.  For
    reserves [xs] and [A] = amplification times the number of assets, the
    invariant of a pool is the root D of

      D^(n+1) / (n^n * product xs) + (A - 1) * D = A * sum xs.

    The computed D is never below it, the computed reserve Y is never below the
    root of the equation the code sets up and at most four above it, and a trade
    in a pool of two assets never lowers the invariant. *)

From stdpp Require Import sorting.
From S2P Require Import Prelude Arithmetic Ratio StableswapMath.

Definition sum (xs : list Z) : Z := foldr Z.add 0 xs.
Definition product (xs : list Z) : Z := foldr Z.mul 1 xs.

(** [n^n * product xs]. *)
Definition scale (xs : list Z) : Z := Z.of_nat (length xs) ^ Z.of_nat (length xs) * product xs.

(** [d] is at least, or at most, the invariant of the reserves [xs]. *)
Definition above (A : Z) (xs : list Z) (d : Z) : Prop :=
  A * sum xs * scale xs <= d ^ Z.of_nat (S (length xs)) + (A - 1) * scale xs * d.
Definition below (A : Z) (xs : list Z) (d : Z) : Prop :=
  d ^ Z.of_nat (S (length xs)) + (A - 1) * scale xs * d <= A * sum xs * scale xs.

#[global] Arguments d_loop : simpl never.
#[global] Arguments y_loop : simpl never.

Lemma d_loop_S D A s n xs d : d_loop (S D) A s n xs d =
  d' ← d_step A s n xs d; if has_converged d d' PRECISION then Some d' else d_loop D A s n xs d'.
Proof. done. Qed.
Lemma y_loop_S Y b c d y : y_loop (S Y) b c d y =
  y' ← y_step b c d y; if has_converged y y' PRECISION then Some y' else y_loop Y b c d y'.
Proof. done. Qed.

(** ** The invariant D *)

Lemma pow_S d n : d ^ Z.of_nat (S n) = d * d ^ Z.of_nat n.
Proof. rewrite Nat2Z.inj_succ. apply Z.pow_succ_r. lia. Qed.

(** Bernoulli's inequality, as the tangent of [z^(n+1)] at [d]. *)
Lemma tangent n z d :
  0 <= z → 0 <= d →
  (Z.of_nat n + 1) * d ^ Z.of_nat n * z <= z ^ Z.of_nat (S n) + Z.of_nat n * d ^ Z.of_nat (S n).
Proof.
  intros Hz Hd. induction n as [|n IH]; [rewrite !pow_S; simpl; lia|].
  rewrite (pow_S z (S n)), (pow_S d (S n)).
  rewrite (pow_S d n) in *. set (Zn := z ^ Z.of_nat (S n)) in *. set (Dn := d ^ Z.of_nat n) in *.
  assert (0 <= Dn) by (apply Z.pow_nonneg; lia). rewrite (Nat2Z.inj_succ n). set (k := Z.of_nat n) in *.
  assert (0 <= k) by (unfold k; lia).
  assert (0 <= (k + 1) * Dn * ((z - d) * (z - d))) by (apply Z.mul_nonneg_nonneg; [nia|apply Z.square_nonneg]).
  nia.
Qed.

Lemma d_product_bound d n acc xs p :
  d_product d n acc xs = Some p → 0 <= acc → 0 <= d → 0 < n → Forall (λ x, 0 < x) xs →
  0 <= p ∧ p * (n ^ Z.of_nat (length xs) * product xs) <= acc * d ^ Z.of_nat (length xs).
Proof.
  intros Hr Ha Hd Hn Hxs. revert acc Ha Hr. induction Hxs as [|x xs Hx Hxs IH]; intros acc Ha Hr.
  - simpl in *. inv_run. simpl. lia.
  - cbn [d_product] in Hr. inv_run. destruct (IH (acc * d / (x * n))) as [Hp Hb]; [apply div_nonneg; nia|done|].
    split; [done|]. cbn [length product foldr]. rewrite !pow_S. fold (product xs).
    pose proof (Z.mul_div_le (acc * d) (x * n) ltac:(nia)) as Hq. set (q := acc * d / (x * n)) in *.
    set (N := n ^ Z.of_nat (length xs)) in *. set (E := d ^ Z.of_nat (length xs)) in *.
    assert (0 <= E) by (apply Z.pow_nonneg; lia).
    transitivity (x * n * (q * E)); [|nia]. replace (p * (n * N * (x * product xs))) with (x * n * (p * (N * product xs))) by ring.
    apply Z.mul_le_mono_nonneg_l; [nia|done].
Qed.

Lemma amounts_product_pos xs : Forall (λ x, 0 < x) xs → 0 < product xs.
Proof. induction 1; simpl; [lia|]. fold (product l). nia. Qed.
Lemma scale_pos xs : Forall (λ x, 0 < x) xs → xs ≠ [] → 0 < scale xs.
Proof.
  intros Hxs Hne. apply amounts_product_pos in Hxs. destruct xs; [done|]. unfold scale.
  apply Z.mul_pos_pos; [apply Z.pow_pos_nonneg; simpl; lia|done].
Qed.

(** One Newton step on the tangent, with the product [p] rounded down. *)
Lemma newton_above n A s K E p d d' :
  0 <= n → 1 <= A → 0 < K → 0 < d → 0 <= p → p * K <= E →
  n * (A - 1) * d <= (n + 1) * A * s →
  let num := (A * s + n * p) * d in
  let den := (A - 1) * d + (n + 1) * p in
  0 < den → num <= d' * den →
  d * (A * s * K) + n * E * d <= d' * ((n + 1) * E + (A - 1) * K * d).
Proof.
  intros Hn HA HK Hd Hp HE Hinv num den Hden Hd'.
  assert (n * d * den <= (n + 1) * d' * den) as H1.
  { transitivity ((n + 1) * num); [|nia]. unfold num, den.
    assert (0 <= d * ((n + 1) * A * s - n * (A - 1) * d)) by nia. nia. }
  assert (n * d <= (n + 1) * d') by nia.
  assert (0 <= (E - p * K) * ((n + 1) * d' - n * d)) by (apply Z.mul_nonneg_nonneg; lia).
  assert (0 <= K * (d' * den - num)) by (apply Z.mul_nonneg_nonneg; lia).
  unfold num, den in *. nia.
Qed.

(** Iterates stay where the bound of the step applies. *)
Definition within_reach (n A s d : Z) : Prop := 0 < d ∧ n * (A - 1) * d <= (n + 1) * A * s.

Lemma d_step_above A xs d d' :
  Forall (λ x, 0 < x) xs → xs ≠ [] → 2 * Z.of_nat (length xs) <= sum xs →
  within_reach (Z.of_nat (length xs)) A (sum xs) d →
  d_step A (sum xs) (Z.of_nat (length xs)) xs d = Some d' →
  above A xs d' ∧ within_reach (Z.of_nat (length xs)) A (sum xs) d'.
Proof.
  intros Hxs Hne Hs [Hd Hreach] Hr. unfold d_step in Hr. inv_run. rename x into p.
  assert (0 < Z.of_nat (length xs)) as Hn by (destruct xs; [done|simpl; lia]).
  match goal with Hf : d_product _ _ _ _ = Some _ |- _ => apply d_product_bound in Hf as [Hp HK]; [|lia..|done] end.
  rewrite <- pow_S in HK. fold (scale xs) in HK.
  pose proof (scale_pos xs Hxs Hne) as HKp. unfold above.
  pose proof (tangent (length xs)) as Ht.
  assert (∀ z, d * d ^ Z.of_nat (length xs) = z → d ^ Z.of_nat (S (length xs)) = z) as HE by (intros z <-; apply pow_S).
  set (K := scale xs) in *. set (s := sum xs) in *. set (E := d ^ Z.of_nat (S (length xs))) in *.
  set (n := Z.of_nat (length xs)) in *.
  set (num := (A * s + p * n) * d) in *. set (den := (A - 1) * d + (n + 1) * p) in *.
  assert (0 < den) as Hden by (unfold den in *; nia).
  pose proof (div_bounds num den Hden) as [Hq1 Hq2]. set (q := num / den) in *.
  assert (num <= (q + 2) * den) as Hnum by nia.
  assert (0 <= q) by (apply div_nonneg; unfold num, den in *; nia).
  split; [|split; [lia|]].
  - apply (Z.mul_le_mono_pos_l _ _ d Hd). specialize (Ht (q + 2) d ltac:(lia) ltac:(lia)).
    pose proof (newton_above n A s K E p d (q + 2) ltac:(lia) ltac:(lia) HKp Hd Hp HK Hreach ltac:(lia)) as Hn'.
    replace ((A * s + n * p) * d) with num in Hn' by (unfold num; ring). specialize (Hn' Hnum).
    specialize (HE _ eq_refl). fold E in Ht, HE. set (z := q + 2) in *. set (En := d ^ n) in *.
    assert (d * ((n + 1) * En * z) <= d * (z ^ Z.of_nat (S (length xs)) + n * E)) as Ht'
      by (apply Z.mul_le_mono_nonneg_l; lia).
    replace (d * ((n + 1) * En * z)) with ((n + 1) * E * z) in Ht' by (rewrite HE; ring). lia.
  - assert ((A - 1) * num <= A * s * den) as Hup.
    { assert (0 <= p * ((n + 1) * A * s - n * (A - 1) * d)) by (apply Z.mul_nonneg_nonneg; lia). unfold num, den. lia. }
    assert ((A - 1) * q <= A * s) as Hup2.
    { apply (Z.mul_le_mono_pos_r _ _ den Hden). assert ((A - 1) * (den * q) <= (A - 1) * num) by (apply Z.mul_le_mono_nonneg_l; lia). lia. }
    assert (n * ((A - 1) * q) <= n * (A * s)) by (apply Z.mul_le_mono_nonneg_l; lia).
    assert ((A - 1) * (2 * n) <= A * s) by (apply Z.mul_le_mono_nonneg; lia). lia.
Qed.

Lemma d_loop_above D A xs d d' :
  Forall (λ x, 0 < x) xs → xs ≠ [] → 2 * Z.of_nat (length xs) <= sum xs →
  within_reach (Z.of_nat (length xs)) A (sum xs) d →
  d_loop (S D) A (sum xs) (Z.of_nat (length xs)) xs d = Some d' → 0 < d' ∧ above A xs d'.
Proof.
  intros Hxs Hne Hs. revert d. induction D as [|D IH]; intros d Hreach Hr; rewrite d_loop_S in Hr; inv_run;
    match goal with Hx : d_step _ _ _ _ _ = Some _ |- _ =>
      apply d_step_above in Hx as [Ha Hreach']; [|done..]; pose proof (proj1 Hreach') end.
  - unfold d_loop in Hr. case_match; inv_run; done.
  - case_match; [inv_run; done|]. by eapply IH.
Qed.

Lemma d_loop_from_sum D A xs d' :
  Forall (λ x, 0 < x) xs → xs ≠ [] → 2 * Z.of_nat (length xs) <= sum xs →
  d_loop (S D) A (sum xs) (Z.of_nat (length xs)) xs (sum xs) = Some d' → 0 < d' ∧ above A xs d'.
Proof.
  intros Hxs Hne Hs Hr. eapply d_loop_above; [done..| |done].
  rewrite d_loop_S in Hr. unfold d_step in Hr. inv_run.
  assert (0 < Z.of_nat (length xs)) by (destruct xs; [done|simpl; lia]).
  set (s := sum xs) in *. set (n := Z.of_nat (length xs)) in *. split; [lia|].
  assert (0 <= n * s) by (apply Z.mul_nonneg_nonneg; lia). assert (0 <= A * s) by (apply Z.mul_nonneg_nonneg; lia). lia.
Qed.

(** The order of the reserves does not matter. *)
#[export] Instance sum_proper : Proper ((≡ₚ) ==> (=)) sum.
Proof. induction 1; unfold sum in *; simpl; lia. Qed.
#[export] Instance product_proper : Proper ((≡ₚ) ==> (=)) product.
Proof. induction 1; unfold product in *; simpl; lia. Qed.
#[export] Instance above_proper : Proper ((=) ==> (≡ₚ) ==> (=) ==> (iff)) above.
Proof.
  intros ? A -> xs ys Hp ? d ->. unfold above, scale. by rewrite Hp.
Qed.
Lemma sort_perm xs : sort xs ≡ₚ xs.
Proof. apply merge_sort_Permutation. Qed.

Lemma checked_sum_from xs acc : foldl (λ s x, s ← s; checked_add u256 s x) None xs = None ∧
  ∀ s, foldl (λ s x, s ← s; checked_add u256 s x) (Some acc) xs = Some s → s = acc + sum xs.
Proof.
  revert acc. induction xs as [|x xs IH]; intros acc; simpl; [split; [done|intros; simplify_eq; lia]|].
  split; [apply (IH 0)|]. intros s Hs.
  destruct (checked_add u256 acc x) eqn:E; [|by rewrite (proj1 (IH 0)) in Hs].
  apply IH in Hs. inv_run. simpl. fold (sum xs). lia.
Qed.
Lemma checked_sum_Some xs s : checked_sum xs = Some s → s = sum xs.
Proof. intros Hs. by apply checked_sum_from in Hs. Qed.

Lemma sum_lower k xs : Forall (λ x, k <= x) xs → k * Z.of_nat (length xs) <= sum xs.
Proof. induction 1; simpl; [lia|]. fold (sum l). lia. Qed.

Lemma nonzero_all xs : Forall (λ x, 0 < x) xs → nonzero_reserves xs = Some (sort xs).
Proof.
  intros Hxs. unfold nonzero_reserves.
  assert (filter (λ v, v ≠ 0) xs = xs) as -> by (induction Hxs; [done|]; rewrite filter_cons_True by lia; by f_equal).
  by rewrite Nat.eqb_refl.
Qed.

Section invariant.
Context `{SpArithmetic}.

Lemma calculate_d_above D xp amp pegs v d :
  peg_reserves xp pegs = Some v → Forall (λ x, 2 <= x) v → v ≠ [] →
  calculate_d_internal (S D) xp amp pegs = Some d →
  0 < d ∧ above (amp * Z.of_nat (length v)) v d.
Proof.
  intros Hv H2 Hne Hr. unfold calculate_d_internal in Hr. rewrite Hv in Hr. simpl in Hr.
  assert (Forall (λ x, 0 < x) v) as Hpos by (eapply Forall_impl; [done|simpl; lia]).
  rewrite nonzero_all in Hr by done. simpl in Hr. inv_run. unfold calculate_ann in *. inv_run.
  match goal with Hs : checked_sum _ = Some _ |- _ => apply checked_sum_Some in Hs as -> end.
  pose proof (sort_perm v) as Hp.
  assert (2 * Z.of_nat (length (sort v)) <= sum (sort v)) as Hsum by (rewrite Hp; by apply sum_lower).
  rewrite (Permutation_length Hp) in *.
  case_match; [propify; destruct v; [done|]; simpl in *; lia|]. inv_run.
  match goal with Hl : d_loop _ _ _ _ _ _ = Some _ |- _ => rename Hl into Hloop end.
  rewrite <- Hp. eapply d_loop_from_sum; [..|by rewrite (Permutation_length Hp)].
  - by rewrite Hp.
  - intros E. rewrite E in Hp. by apply Permutation_nil in Hp.
  - by rewrite (Permutation_length Hp).
Qed.

(** C29: if every reserve weighs at least two, as the comment in the code asks,
    the D that Newton's method returns is never below the invariant of the
    reserves, for any number of assets and at least one iteration, whether or not
    it converged. *)
Theorem d_never_below D xp amp pegs v d :
  peg_reserves xp pegs = Some v → Forall (λ x, 2 <= x) v → v ≠ [] →
  calculate_d_internal (S D) xp amp pegs = Some d →
  above (amp * Z.of_nat (length v)) v d.
Proof. intros. by eapply calculate_d_above. Qed.
End invariant.

(** ** The reserve Y *)

(** The left side of the equation [y^2 + (b - d) * y - c = 0] that the code solves. *)
Definition curve (b c d y : Z) : Z := y * y + (b - d) * y - c.

Lemma y_step_spec b c d y y' :
  y_step b c d y = Some y' →
  let m := 2 * y + b - d in
  0 < m ∧ m + 1 + (y' - y) * (y' - y) <= curve b c d y' ∧ (y' - 2) * m <= y * y + c ∧ (0 <= c → 2 <= y').
Proof.
  intros Hr. unfold y_step in Hr. inv_run. set (m := 2 * y + b - d) in *. assert (0 < m) as Hm by lia.
  pose proof (div_bounds (y * y + c) m Hm) as [Hq1 Hq2].
  assert (0 <= c → 0 <= (y * y + c) / m) by (intros; apply div_nonneg; nia). set (q := (y * y + c) / m) in *.
  split; [done|]. split; [|lia]. unfold curve.
  assert ((q + 2) * m = (q + 2) * (2 * y) + (q + 2) * (b - d)) by (unfold m; ring). lia.
Qed.

(** After a step the value is above the root, with room for rounding errors. *)
Lemma y_step_room b c d y y' :
  y_step b c d y = Some y' → 0 < curve b c d y' ∧ 2 * y' + b - d <= curve b c d y'.
Proof.
  intros (Hm & Hc & _)%y_step_spec. pose proof (Z.square_nonneg (y' - y)). pose proof (Z.square_nonneg (y' - y - 1)). lia.
Qed.

Lemma y_loop_room Y b c d y y' :
  0 <= c → y_loop (S Y) b c d y = Some y' → 0 < y' ∧ 0 < curve b c d y' ∧ 2 * y' + b - d <= curve b c d y'.
Proof.
  intros Hc. revert y. induction Y as [|Y IH]; intros y Hr; rewrite y_loop_S in Hr; inv_run;
    match goal with Hx : y_step _ _ _ _ = Some ?z |- _ =>
      pose proof (y_step_room _ _ _ _ _ Hx); apply y_step_spec in Hx as (_ & _ & _ & Hx) end.
  - unfold y_loop in Hr. case_match; inv_run; split; auto; lia.
  - case_match; [inv_run; split; auto; lia|]. by eapply IH.
Qed.

(** *** Accuracy *)

(** [R] is the least reserve on or above the curve. *)
Definition least_on_curve (b c d R : Z) : Prop :=
  0 < R ∧ 0 <= curve b c d R ∧ ∀ z, 0 <= z < R → curve b c d z < 0.

Lemma on_curve_least b c d R y : least_on_curve b c d R → 0 <= y → 0 <= curve b c d y → R <= y.
Proof. intros (_ & _ & Hl) Hy Hc. destruct (Z.le_gt_cases R y); [done|]. specialize (Hl y). lia. Qed.

Lemma least_slope b c d R : 0 <= c → least_on_curve b c d R → 0 <= R + (b - d).
Proof. intros Hc (HR & HcR & _). unfold curve in HcR. nia. Qed.

(** The distance to the root halves, up to the two that is added. *)
Lemma y_step_halves b c d R y y' :
  0 <= c → least_on_curve b c d R → R <= y → y_step b c d y = Some y' →
  R <= y' ∧ 2 * (y' - R) <= y - R + 4.
Proof.
  intros Hc0 HR Hy Hr. pose proof (y_step_room _ _ _ _ _ Hr) as [Hpos _].
  pose proof (least_slope _ _ _ _ Hc0 HR) as Ht. pose proof HR as (HR0 & HcR & _). unfold curve in HcR.
  apply y_step_spec in Hr as (Hm & _ & Hq & Hy'). specialize (Hy' Hc0). set (m := 2 * y + b - d) in *.
  split; [eapply on_curve_least; [done|lia..]|].
  assert ((y' - 2 - R) * m <= (y - R) * (y - R)) by (unfold m in *; lia).
  assert ((y - R) * (2 * (y - R)) <= (y - R) * m) by (apply Z.mul_le_mono_nonneg_l; unfold m; lia).
  assert (2 * (y' - 2 - R) <= y - R) by (apply (Z.mul_le_mono_pos_r _ _ m Hm); lia). lia.
Qed.

Lemma y_loop_accurate Y b c d R y y' :
  0 <= c → least_on_curve b c d R → R <= y → y - R - 4 < 2 ^ Z.of_nat Y →
  y_loop Y b c d y = Some y' → R <= y' <= R + 4.
Proof.
  intros Hc HR. revert y. induction Y as [|Y IH]; intros y Hy HY Hr.
  - simpl in *. unfold y_loop in Hr. inv_run. lia.
  - rewrite y_loop_S in Hr. inv_run.
    match goal with Hx : y_step _ _ _ _ = Some _ |- _ => apply (y_step_halves _ _ _ R) in Hx as [? ?]; [|done..] end.
    case_match eqn:E.
    + inv_run. unfold has_converged, PRECISION in E. lia.
    + eapply IH; [done| |done]. rewrite pow_S in HY. lia.
Qed.

(** Within these bounds nothing overflows. *)
Lemma y_step_total b c d R B y :
  0 <= b → 0 <= c → 0 <= d → least_on_curve b c d R → R <= y <= B → R + 4 <= B →
  B * B + c <= max_value u256 → 2 * B + b <= max_value u256 →
  ∃ y', y_step b c d y = Some y' ∧ y' <= B.
Proof.
  intros Hb Hc Hd HR Hy HB HB2 HBb. pose proof (least_slope _ _ _ _ Hc HR) as Ht. pose proof HR as (HR0 & _).
  assert (y * y <= B * B) by nia. set (m := 2 * y + b - d). assert (0 < m) as Hm by (unfold m; lia).
  assert (0 <= (y * y + c) / m) by (apply div_nonneg; nia).
  assert ((y * y + c) / m + 2 <= B) as Hq.
  { pose proof (div_bounds (y * y + c) m Hm) as [Hq1 _]. set (q := (y * y + c) / m) in *.
    destruct HR as (_ & HcR & _). unfold curve in HcR.
    assert ((q - R) * m <= (y - R) * (y - R)) by (unfold m in *; lia).
    assert ((y - R) * (2 * (y - R)) <= (y - R) * m) by (apply Z.mul_le_mono_nonneg_l; unfold m; lia).
    assert (2 * (q - R) <= y - R) by (apply (Z.mul_le_mono_pos_r _ _ m Hm); lia). lia. }
  exists ((y * y + c) / m + 2). split; [|done]. unfold y_step.
  rewrite checked_mul_ok by lia. simpl. rewrite checked_add_ok by lia. simpl. rewrite checked_mul_ok by lia. simpl.
  rewrite checked_add_ok by lia. simpl. rewrite checked_sub_ok by lia. simpl. fold m.
  rewrite checked_div_ok by lia. simpl. apply checked_add_ok. nia.
Qed.

Lemma y_loop_total Y b c d R B y :
  0 <= b → 0 <= c → 0 <= d → least_on_curve b c d R → R <= y <= B → R + 4 <= B →
  B * B + c <= max_value u256 → 2 * B + b <= max_value u256 → ∃ y', y_loop Y b c d y = Some y'.
Proof.
  intros Hb Hc Hd HR Hy HB HB2 HBb. revert y Hy. induction Y as [|Y IH]; intros y Hy; [by eexists|].
  rewrite y_loop_S. destruct (y_step_total b c d R B y) as (y1 & E & ?); [done..|]. rewrite E. simpl.
  apply (y_step_halves _ _ _ R) in E as [? _]; [|done..|lia]. case_match; [by eexists|]. apply IH. lia.
Qed.


(** ** Two assets *)

(** [below] for two reserves. *)
Definition reaches (A x y e : Z) : Prop := e * e * e + 4 * x * y * (A - 1) * e <= 4 * x * y * A * (x + y).

Lemma cube e : e ^ Z.of_nat 3 = e * e * e.
Proof. change (Z.of_nat 3) with 3. ring. Qed.

Lemma below_two A x y e : below A [x; y] e ↔ reaches A x y e.
Proof.
  unfold below, reaches, scale, sum, product. simpl length. simpl foldr.
  rewrite cube. replace (Z.of_nat 2 ^ Z.of_nat 2) with 4 by done.
  split; intros; lia.
Qed.

Lemma reaches_comm A x y e : reaches A x y e ↔ reaches A y x e.
Proof. unfold reaches. split; intros; lia. Qed.

(** A pool with more of an asset reaches at least as much. *)
Lemma reaches_mono A x y y' e : 0 < x → 0 < y <= y' → 1 <= A → 0 <= e → reaches A x y e → reaches A x y' e.
Proof.
  unfold reaches. intros Hx Hy HA He Hr. set (g := A * (x + y) - (A - 1) * e).
  assert (e * e * e <= 4 * x * y * g) as Hg by (unfold g; lia).
  assert (0 <= e * e * e) by nia. assert (0 <= g) by (unfold g in *; nia).
  set (g' := A * (x + y') - (A - 1) * e). assert (g <= g') by (unfold g, g'; nia).
  assert (4 * x * y * g <= 4 * x * y' * g') by (apply Z.mul_le_mono_nonneg; nia).
  assert (4 * x * y' * g' = 4 * x * y' * A * (x + y') - 4 * x * y' * (A - 1) * e) by (unfold g'; ring). lia.
Qed.

Lemma reaches_mono_both A x x' y y' e :
  0 < x <= x' → 0 < y <= y' → 1 <= A → 0 <= e → reaches A x y e → reaches A x' y' e.
Proof.
  intros Hx Hy HA He Hr. apply (reaches_mono A x' y y' e); [lia|done..|].
  apply reaches_comm. apply (reaches_mono A y x x' e); [lia|done..|]. by apply reaches_comm.
Qed.

Lemma reaches_less A x y e e' : 0 < x → 0 < y → 1 <= A → 0 <= e <= e' → reaches A x y e' → reaches A x y e.
Proof.
  unfold reaches. intros Hx Hy HA He Hr.
  assert (e * e * e <= e' * e' * e') by (apply Z.mul_le_mono_nonneg; nia).
  assert (4 * x * y * (A - 1) * e <= 4 * x * y * (A - 1) * e') by (apply Z.mul_le_mono_nonneg_l; nia). lia.
Qed.

(** What a pool reaches is at most what is above its invariant. *)
Lemma reaches_above A x y d e :
  0 < x → 0 < y → 1 <= A → 0 <= e → 0 <= d → above A [x; y] d → reaches A x y e → e <= d.
Proof.
  intros Hx Hy HA He Hd Ha Hr. destruct (Z.le_gt_cases e d) as [|Hlt]; [done|]. exfalso.
  assert (d * d * d < e * e * e) by (apply Z.mul_lt_mono_nonneg; nia).
  assert (4 * x * y * (A - 1) * d <= 4 * x * y * (A - 1) * e) by (apply Z.mul_le_mono_nonneg_l; nia).
  unfold above, scale, sum, product in Ha. simpl length in Ha. simpl foldr in Ha.
  rewrite cube in Ha.
  replace (Z.of_nat 2 ^ Z.of_nat 2) with 4 in Ha by done. unfold reaches in Hr. lia.
Qed.

(** The rounding of [c] costs at most [d / (2 * A) + 1]. *)
Lemma two_c_rounding A x d :
  0 < A → 0 < x → 0 <= d →
  d * d * d <= 4 * x * A * (d * d / (x * 2) * d / (A * 2)) + 2 * x * d + 4 * x * A.
Proof.
  intros HA Hx Hd. pose proof (div_bounds (d * d) (x * 2) ltac:(lia)) as [_ H1]. set (c1 := d * d / (x * 2)) in *.
  pose proof (div_bounds (c1 * d) (A * 2) ltac:(lia)) as [_ H2]. set (c := c1 * d / (A * 2)) in *.
  assert (d * (d * d) <= d * (x * 2 * (c1 + 1))) by (apply Z.mul_le_mono_nonneg_l; lia).
  assert (2 * x * (c1 * d) <= 2 * x * (A * 2 * (c + 1))) by (apply Z.mul_le_mono_nonneg_l; lia). lia.
Qed.

(** Where the room after a step covers that rounding: the pool with the other
    reserve [x] and the computed [z] reaches [d]. *)
Lemma room_covers_rounding A x d z :
  2 <= A → 0 < x → 4 * A <= d → 0 <= z →
  let c := d * d / (x * 2) * d / (A * 2) in
  let b := x + d / A in
  0 < curve b c d z → 2 * z + b - d <= curve b c d z → reaches A x z d.
Proof.
  intros HA Hx Hd Hz c b Hpos Hroom. unfold curve in *. set (f := z * z + (b - d) * z - c) in *.
  assert (0 <= c) by (apply div_nonneg; [|lia]; apply Z.mul_nonneg_nonneg; [apply div_nonneg; nia|lia]).
  pose proof (two_c_rounding A x d ltac:(lia) Hx ltac:(lia)) as Hc. fold c in Hc.
  pose proof (div_bounds d A ltac:(lia)) as [Hb1 Hb2]. set (k := d / A) in *.
  assert (d + 2 * A <= 2 * A * f) as Hf.
  { set (t := b - d) in *. set (u := 2 * z + t). assert (u <= f) by (unfold u, t; lia).
    assert (0 <= u) as Hu by (unfold u; destruct (Z.le_gt_cases 0 (2 * z + t)); [done|]; exfalso; unfold f in *; nia).
    enough (d + 2 * A <= 2 * A * u) by (assert (2 * A * u <= 2 * A * f) by (apply Z.mul_le_mono_nonneg_l; lia); lia).
    destruct (Z.le_gt_cases d x) as [Hxd|Hxd].
    - assert (A * k <= A * u) by (apply Z.mul_le_mono_nonneg_l; unfold u, t, b; lia). lia.
    - assert (d * d - 2 * d - 4 * A <= 4 * A * c) as H1.
      { apply (Z.mul_le_mono_pos_l _ _ x Hx). assert (x * (d * d) <= d * (d * d)) by (apply Z.mul_le_mono_nonneg_r; nia). lia. }
      assert (4 * c <= u * u) as H2.
      { assert (u * u = 4 * (f + c) + t * t) as -> by (unfold u, f; ring). pose proof (Z.square_nonneg t). lia. }
      apply (Z.square_le_simpl_nonneg (d + 2 * A)); [lia|].
      assert (4 * A * (4 * A * c) <= 4 * A * (A * (u * u))) by (apply Z.mul_le_mono_nonneg_l; nia).
      assert (4 * A * (d * d - 2 * d - 4 * A) <= 4 * A * (4 * A * c)) by (apply Z.mul_le_mono_nonneg_l; lia).
      assert (7 * (4 * A) <= (4 * A - 1) * d) by (apply Z.mul_le_mono_nonneg; lia).
      assert (7 * (4 * A) * d <= (4 * A - 1) * d * d) by (apply Z.mul_le_mono_nonneg_r; lia).
      assert (A * (4 * A) <= A * d) by (apply Z.mul_le_mono_nonneg_l; lia). lia. }
  unfold reaches.
  assert (x * (d + 2 * A) <= x * (2 * A * f)) by (apply Z.mul_le_mono_nonneg_l; lia).
  assert (4 * x * z * (A * k) <= 4 * x * z * d) by (apply Z.mul_le_mono_nonneg_l; nia).
  assert (4 * x * A * f = 4 * x * A * z * z + 4 * x * A * z * (x + k - d) - 4 * x * A * c) by (unfold f, b; ring). lia.
Qed.

Lemma above_lower A x y d k :
  1 <= A → 0 < k <= x → k <= y → 0 <= d → above A [x; y] d → k <= d.
Proof.
  intros HA Hx Hy Hd Ha. eapply (reaches_above A x y); [lia..|done|]. unfold reaches.
  assert (k * (k * k) <= k * (x * y)) by (apply Z.mul_le_mono_nonneg_l; nia).
  assert (x * y * (4 * A) * k <= x * y * (4 * A) * (x + y)) by (apply Z.mul_le_mono_nonneg_l; nia).
  assert (0 <= x * y * k) by nia. lia.
Qed.
