(* ===== verification/StableswapTrades.v ===== *)
(** * Trades in stable pools

    A sale or a purchase in a pool of two assets never lowers the invariant of the
    pool, for any decimals up to 18 and any pegs; concrete trades. *)

From S2P Require Import Prelude Arithmetic Ratio StableswapMath StableswapCurve.

(** Amounts that can be scaled to 18 decimals, and pegs. *)
Definition scalable (r : AssetReserve) : Prop :=
  0 <= amount r ∧ 0 <= decimals r <= 18 ∧ amount r * 10 ^ (18 - decimals r) <= max_value u128.
Definition is_peg (p : Z * Z) : Prop := 0 < p.1 <= max_value u128 ∧ 0 < p.2 <= max_value u128.

(** ** Decimals *)

Lemma pow10_bounds k : 0 <= k <= 18 → 1 <= 10 ^ k ∧ saturating_pow10 k = 10 ^ k.
Proof.
  intros Hk. pose proof (Z.pow_pos_nonneg 10 k ltac:(lia) ltac:(lia)). pose proof (Z.pow_le_mono_r 10 k 18 ltac:(lia) ltac:(lia)).
  split; [lia|]. unfold saturating_pow10, max_value, u128. lia.
Qed.

Lemma normalize_scalable r rounding :
  scalable r → normalize_value (amount r) (decimals r) TARGET_PRECISION rounding = amount r * 10 ^ (18 - decimals r).
Proof.
  intros (Ha & Hd & Hm). unfold normalize_value, TARGET_PRECISION.
  destruct (Z.eqb_spec 18 (decimals r)) as [<-|Hne]; [simpl; lia|].
  destruct (Z.ltb_spec (decimals r) 18); [|lia]. rewrite Z.abs_eq by lia.
  destruct (pow10_bounds (18 - decimals r) ltac:(lia)) as [_ ->]. unfold saturating_mul. lia.
Qed.

Lemma denormalize_down a dec :
  0 <= dec <= 18 → normalize_value a TARGET_PRECISION dec Round.Down = a / 10 ^ (18 - dec).
Proof.
  intros Hd. unfold normalize_value, TARGET_PRECISION.
  destruct (Z.eqb_spec dec 18) as [->|Hne]; [by rewrite Z.sub_diag, Z.pow_0_r, Z.div_1_r|].
  destruct (Z.ltb_spec 18 dec); [lia|]. rewrite Z.abs_neq by lia.
  replace (- (dec - 18)) with (18 - dec) by lia. by destruct (pow10_bounds (18 - dec) ltac:(lia)) as [_ ->].
Qed.

Lemma denormalize_up a dec :
  0 <= dec <= 18 → 0 <= a <= max_value u128 →
  a <= normalize_value a TARGET_PRECISION dec Round.Up * 10 ^ (18 - dec).
Proof.
  intros Hd Ha. unfold normalize_value, TARGET_PRECISION.
  destruct (Z.eqb_spec dec 18) as [->|Hne]; [rewrite Z.sub_diag, Z.pow_0_r; lia|].
  destruct (Z.ltb_spec 18 dec); [lia|]. rewrite Z.abs_neq by lia.
  replace (- (dec - 18)) with (18 - dec) by lia. destruct (pow10_bounds (18 - dec) ltac:(lia)) as [H1 ->].
  assert (10 <= 10 ^ (18 - dec)) by (change 10 with (10 ^ 1) at 1; apply Z.pow_le_mono_r; lia).
  set (p := 10 ^ (18 - dec)) in *. pose proof (div_bounds a p ltac:(lia)) as [H3 H4]. set (q := a / p) in *.
  assert (0 <= q) by (apply div_nonneg; lia). unfold saturating_add. rewrite Z.min_l; [lia|].
  unfold max_value, u128 in *. nia.
Qed.

Section trades.
Context `{SpArithmeticLaws}.

(** ** Pegs *)

Definition weight (p : Z * Z) (r : AssetReserve) : option Z :=
  multiply_by_rational_down (normalize_value (amount r) (decimals r) TARGET_PRECISION Round.Down) p.1 p.2.
Definition weights (rs : list AssetReserve) (pegs : list (Z * Z)) : option (list Z) :=
  peg_reserves (normalize_reserves rs) pegs.

Lemma multiply_down_Some a b c w :
  fits u128 a → 0 <= b <= max_value u128 → 0 < c <= max_value u128 →
  multiply_by_rational_down a b c = Some w ↔ w = a * b / c ∧ a * b / c <= max_value u128.
Proof.
  intros Ha Hb Hc. rewrite multiply_by_rational_down_spec by (done || unfold fits; lia).
  destruct (Z.eqb_spec c 0); [lia|]. apply try_from_Some.
Qed.

(** A reserve above a value divided by its peg weighs at least the value. *)
Lemma weight_lower y r a p :
  is_peg p → y * p.2 / p.1 < a → r = a * p.1 / p.2 → y <= r.
Proof.
  intros [[Hp1 _] [Hp2 _]] Ha ->. apply Z.div_le_lower_bound; [done|].
  pose proof (div_bounds (y * p.2) p.1 Hp1) as [_ Hq]. nia.
Qed.

(** ** The reserve Y of two assets *)

Lemma sort_single x : sort [x] = [x].
Proof. apply Permutation_singleton_r, sort_perm. Qed.

Lemma y_internal_two Y x d amp p po r w :
  1 <= amp → 8 * amp <= d → multiply_by_rational_down x p.1 p.2 = Some w → 0 < w →
  calculate_y_internal (S Y) [x] d amp [p] po = Some r →
  ∃ y, 0 < y <= max_value u128 ∧ reaches (amp * 2) w y d ∧ multiply_by_rational_down y po.2 po.1 = Some r.
Proof.
  intros Hamp Hd Hw Hw0 Hr. unfold calculate_y_internal in Hr. simpl in Hr. rewrite Hw in Hr. simpl in Hr.
  rewrite (nonzero_all [w]), sort_single in Hr by by repeat constructor.
  unfold calculate_ann, y_coefficients, checked_sum in Hr. simpl in Hr. inv_run.
  match goal with Hl : y_loop _ _ _ _ _ = Some _ |- _ => rename Hl into Hy end.
  assert (0 <= d * d / (w * 2)) by (apply div_nonneg; nia).
  apply y_loop_room in Hy as (? & Hpos & Hroom); [|apply div_nonneg; nia].
  match goal with Hm : multiply_by_rational_down ?y po.2 _ = Some _ |- _ => exists y end.
  split; [done|]. split; [|done]. apply room_covers_rounding; [lia|done|lia|lia|done..].
Qed.

(** ** Sales and purchases *)

Implicit Types (rin rout : AssetReserve) (pin pout : Z * Z).

Definition set_amount (r : AssetReserve) (a : Z) : AssetReserve := mkReserve a (decimals r).
Definition scaled (r : AssetReserve) : Z := amount r * 10 ^ (18 - decimals r).

Lemma weight_scalable p r w :
  is_peg p → scalable r → weight p r = Some w ↔ w = scaled r * p.1 / p.2 ∧ w <= max_value u128.
Proof.
  intros [? ?] Hr. unfold weight. rewrite (normalize_scalable r) by done. destruct Hr as (Ha & Hd & Hm).
  rewrite multiply_down_Some; [unfold scaled; naive_solver| |lia..].
  split; [|done]. apply Z.mul_nonneg_nonneg; [done|]. apply Z.pow_nonneg. lia.
Qed.

Lemma y_internal_weight Y p r d amp po y :
  calculate_y_internal Y [scaled r] d amp [p] po = Some y → scalable r →
  ∃ w, weight p r = Some w ∧ multiply_by_rational_down (scaled r) p.1 p.2 = Some w.
Proof.
  intros Hr Hs. unfold calculate_y_internal in Hr. simpl in Hr. unfold weight. rewrite (normalize_scalable r) by done.
  fold (scaled r). destruct (multiply_by_rational_down (scaled r) p.1 p.2) as [w|]; [by exists w|done].
Qed.

Lemma weight_mono p r a w w' :
  is_peg p → scalable r → scalable (set_amount r a) → amount r <= a →
  weight p r = Some w → weight p (set_amount r a) = Some w' → w <= w'.
Proof.
  intros Hp Hr Hr' Ha (-> & _)%weight_scalable (-> & _)%weight_scalable; [|done..]. destruct Hp as [[? _] [? _]].
  apply Z.div_le_mono; [done|]. apply Z.mul_le_mono_nonneg_r; [lia|].
  apply Z.mul_le_mono_nonneg_r; [apply Z.pow_nonneg; lia|done].
Qed.

Lemma weight_less p r a w :
  is_peg p → scalable r → 0 <= a <= amount r → weight p r = Some w →
  scalable (set_amount r a) ∧ weight p (set_amount r a) = Some (scaled (set_amount r a) * p.1 / p.2).
Proof.
  intros Hp Hr Ha (-> & Hw)%weight_scalable; [|done..].
  assert (scaled (set_amount r a) <= scaled r) as Hle.
  { apply Z.mul_le_mono_nonneg_r; [apply Z.pow_nonneg; destruct Hr; lia|simpl; lia]. }
  assert (scalable (set_amount r a)) by (destruct Hr as (? & ? & ?); unfold scaled in *; split_and!; simpl in *; lia).
  split; [done|]. apply weight_scalable; [done..|]. split; [done|]. etransitivity; [|exact Hw].
  destruct Hp as [[? _] [? _]]. apply Z.div_le_mono; [done|]. apply Z.mul_le_mono_nonneg_r; lia.
Qed.

(** The trade moves the pool from [(win, wout)] to weights that reach whatever it
    reached before. *)
Definition keeps_reach (A win wout win' wout' : Z) : Prop :=
  ∀ e, 0 <= e → reaches A win wout e → reaches A win' wout' e.

Lemma reach_through A win wout win' wout' d y :
  1 <= A → 0 < win → 0 < wout → 0 < win' → 0 < y <= wout' → 0 <= d →
  above A [win; wout] d → reaches A win' y d → keeps_reach A win wout win' wout'.
Proof.
  intros HA Hi Ho Hi' Hy Hd Ha Hr e He Hre. apply (reaches_less A win' wout' e d); [lia..| |].
  - split; [done|]. by apply (reaches_above A win wout).
  - by apply (reaches_mono A win' y).
Qed.

Lemma sell_pair Y rin rout pin pout amt amp d r win wout :
  is_peg pin → is_peg pout → scalable rin → scalable rout → scalable (set_amount rin (amount rin + amt)) →
  0 <= amt → 1 <= amp → weight pin rin = Some win → weight pout rout = Some wout →
  8 * amp <= win → 8 * amp <= wout → 0 <= d → above (amp * 2) [win; wout] d →
  calculate_y_internal (S Y) [scaled (set_amount rin (amount rin + amt))] d amp [pin] pout = Some r →
  r <= scaled rout →
  let out := saturating_sub ((scaled rout - r) / 10 ^ (18 - decimals rout)) 1 in
  ∃ win' wout', weight pin (set_amount rin (amount rin + amt)) = Some win' ∧
    weight pout (set_amount rout (amount rout - out)) = Some wout' ∧ keeps_reach (amp * 2) win wout win' wout'.
Proof.
  intros Hpi Hpo Hsi Hso Hsi' Hamt Hamp Hwi Hwo Hwi8 Hwo8 Hd0 Ha Hr Hle out.
  destruct (y_internal_weight _ _ _ _ _ _ _ Hr Hsi') as (win' & Hwi' & Hm).
  pose proof (weight_mono _ _ _ _ _ Hpi Hsi Hsi' ltac:(lia) Hwi Hwi') as Hmono.
  pose proof (above_lower (amp * 2) win wout d (8 * amp) ltac:(lia) ltac:(lia) Hwo8 Hd0 Ha) as Hd8.
  eapply y_internal_two in Hr as (y & Hy & Hreach & Hyr); [|done..|lia].
  apply multiply_down_Some in Hyr as [-> _]; [|unfold fits; lia|destruct Hpo; lia|destruct Hpo; lia].
  destruct (pow10_bounds (18 - decimals rout)) as [Hp10 _]; [destruct Hso; lia|].
  assert (0 <= y * pout.2 / pout.1) by (destruct Hpo; apply div_nonneg; nia).
  pose proof (div_bounds (scaled rout - y * pout.2 / pout.1) (10 ^ (18 - decimals rout)) ltac:(lia)) as [Ho1 Ho2].
  set (r := y * pout.2 / pout.1) in *. set (o1 := (scaled rout - r) / 10 ^ (18 - decimals rout)) in *.
  assert (0 <= o1 <= amount rout) as Ho by (unfold o1, scaled in *; split; [apply div_nonneg; lia|apply Z.div_le_upper_bound; lia]).
  destruct (weight_less pout rout (amount rout - out) wout) as [Hso' Hwo']; [done..|unfold out, saturating_sub; lia|done|].
  exists win'. eexists. split; [done|]. split; [exact Hwo'|].
  destruct (Z.le_gt_cases 1 o1) as [Hge|Hlt].
  - eapply (reach_through _ _ _ _ _ d y); [lia..| |done|done|done]. split; [lia|].
    eapply (weight_lower y _ (scaled (set_amount rout (amount rout - out))) pout); [done| |done]. fold r.
    unfold scaled, out, saturating_sub in *. simpl in *. rewrite Z.max_r by lia. nia.
  - intros e He Hre. eapply (reaches_mono_both _ win _ wout); [lia| |lia|done|done].
    assert (out = 0) as E by (unfold out, saturating_sub; lia). rewrite E, Z.sub_0_r in *.
    apply weight_scalable in Hwo as [Hwo _]; [|done..]. unfold scaled in *. simpl in *. lia.
Qed.

Lemma keeps_reach_comm A x y x' y' : keeps_reach A x y x' y' ↔ keeps_reach A y x y' x'.
Proof. unfold keeps_reach. setoid_rewrite (reaches_comm A x). setoid_rewrite (reaches_comm A x'). done. Qed.

Lemma buy_pair Y rin rout pin pout amt amp d r win wout win' wout' :
  is_peg pin → is_peg pout → scalable rin → scalable (set_amount rout (amount rout - amt)) →
  1 <= amp → weight pin rin = Some win → 8 * amp <= win → 8 * amp <= wout → 0 <= d → above (amp * 2) [win; wout] d →
  calculate_y_internal (S Y) [scaled (set_amount rout (amount rout - amt))] d amp [pout] pin = Some r →
  scaled rin <= r →
  let inp := saturating_add u128 (normalize_value (r - scaled rin) TARGET_PRECISION (decimals rin) Round.Up) 1 in
  scalable (set_amount rin (amount rin + inp)) →
  weight pin (set_amount rin (amount rin + inp)) = Some win' →
  weight pout (set_amount rout (amount rout - amt)) = Some wout' → 0 < wout' →
  keeps_reach (amp * 2) win wout win' wout'.
Proof.
  intros Hpi Hpo Hsi Hso' Hamp Hwi Hwi8 Hwo8 Hd0 Ha Hr Hle inp Hsi' Hwi' Hwo' Hpos.
  destruct (y_internal_weight _ _ _ _ _ _ _ Hr Hso') as (w & Hw & Hm). simplify_eq.
  pose proof (above_lower (amp * 2) win wout d (8 * amp) ltac:(lia) ltac:(lia) Hwo8 Hd0 Ha) as Hd8.
  eapply y_internal_two in Hr as (y & Hy & Hreach & Hyr); [|done..].
  apply multiply_down_Some in Hyr as [-> Hrmax]; [|unfold fits; lia|destruct Hpi; lia|destruct Hpi; lia].
  apply keeps_reach_comm. eapply (reach_through _ _ _ _ _ d y); [lia..| |done| |exact Hreach].
  2: { by rewrite (perm_swap win wout []). }
  split; [lia|]. apply weight_scalable in Hwi' as [Hwi' _], Hwi as [Hwi _]; [|done..].
  eapply (weight_lower y _ _ pin); [done| |exact Hwi']. set (r := y * pin.2 / pin.1) in *.
  pose proof (denormalize_up (r - scaled rin) (decimals rin) ltac:(destruct Hsi; lia)) as Hup.
  assert (0 <= scaled rin) by (destruct Hsi; apply Z.mul_nonneg_nonneg; [done|apply Z.pow_nonneg; lia]).
  specialize (Hup ltac:(lia)).
  set (v := normalize_value (r - scaled rin) TARGET_PRECISION (decimals rin) Round.Up) in *.
  destruct (pow10_bounds (18 - decimals rin)) as [Hp10 _]; [destruct Hsi; lia|].
  assert (0 < amount rin) as Hrin.
  { destruct (Z.le_gt_cases (amount rin) 0); [|done]. exfalso. destruct Hpi as [[? _] [? _]].
    assert (amount rin = 0) as E by (destruct Hsi; lia). unfold scaled in Hwi. rewrite E, !Z.mul_0_l, Z.div_0_l in Hwi by lia. lia. }
  assert (inp = v + 1) as E.
  { unfold inp, saturating_add in *. destruct Hsi' as (_ & _ & Hmax). simpl in Hmax. destruct (Z.min_spec (v + 1) (max_value u128)) as [[_ ->]|[? E]]; [done|].
    rewrite E in Hmax. nia. }
  rewrite E. unfold scaled in *. simpl. nia.
Qed.

(** A pool of two assets and the positions of the asset paid in and out. *)
Inductive two_pool rin rout pin pout : list AssetReserve → list (Z * Z) → nat → nat → Prop :=
| in_first : two_pool rin rout pin pout [rin; rout] [pin; pout] 0 1
| in_second : two_pool rin rout pin pout [rout; rin] [pout; pin] 1 0.

Lemma weights_two p q r t ws :
  weights [r; t] [p; q] = Some ws → ∃ w v, ws = [w; v] ∧ weight p r = Some w ∧ weight q t = Some v.
Proof. unfold weights, weight. simpl. intros Hr. inv_run. by do 2 eexists. Qed.
Lemma weights_two_Some p q r t w v : weight p r = Some w → weight q t = Some v → weights [r; t] [p; q] = Some [w; v].
Proof. unfold weights, weight. simpl. by intros -> ->. Qed.

(** What the two calculations compute in a pool of two assets. *)
Lemma d_two D rin rout pin pout pool pegs i j amp d win wout :
  two_pool rin rout pin pout pool pegs i j → 1 <= amp →
  weight pin rin = Some win → weight pout rout = Some wout → 8 * amp <= win → 8 * amp <= wout →
  calculate_d_internal (S D) (normalize_reserves pool) amp pegs = Some d →
  0 <= d ∧ above (amp * 2) [win; wout] d.
Proof.
  intros Hp Hamp Hwi Hwo Hi Ho Hd. destruct Hp.
  - eapply (calculate_d_above D _ _ _ [win; wout]) in Hd as [? ?]; [|by apply weights_two_Some|by repeat constructor; lia|done].
    split; [lia|done].
  - eapply (calculate_d_above D _ _ _ [wout; win]) in Hd as [? ?]; [|by apply weights_two_Some|by repeat constructor; lia|done].
    split; [lia|]. by rewrite (perm_swap wout win []).
Qed.

Lemma sell_two D Y rin rout pin pout pool pegs i j amt amp out :
  two_pool rin rout pin pout pool pegs i j → scalable rin → scalable rout → 0 <= amt →
  scalable (set_amount rin (amount rin + amt)) →
  calculate_out_given_in D Y pool i j amt amp pegs = Some out →
  ∃ d r, calculate_d_internal D (normalize_reserves pool) amp pegs = Some d ∧
    calculate_y_internal Y [scaled (set_amount rin (amount rin + amt))] d amp [pin] pout = Some r ∧
    r <= scaled rout ∧ out = saturating_sub ((scaled rout - r) / 10 ^ (18 - decimals rout)) 1.
Proof.
  intros Hp Hsi Hso Hamt Hsi' Hr.
  assert (normalize_value amt (decimals rin) TARGET_PRECISION Round.Up = amt * 10 ^ (18 - decimals rin)) as Ea.
  { apply (normalize_scalable (set_amount rin amt)). destruct Hsi as (? & ? & ?), Hsi' as (? & ? & ?).
    split_and!; simpl in *; lia. }
  assert (scaled (set_amount rin (amount rin + amt)) = amount rin * 10 ^ (18 - decimals rin) + amt * 10 ^ (18 - decimals rin))
    as Es by (unfold scaled; simpl; ring).
  assert (0 <= decimals rout <= 18) by by destruct Hso as (_ & ? & _).
  unfold calculate_out_given_in, calculate_y_given_in in Hr.
  destruct Hp; simpl in Hr; rewrite Ea, !normalize_scalable in Hr by done; inv_run; rewrite denormalize_down by done;
    do 2 eexists; (split; [simpl; rewrite !normalize_scalable by done; done|]); rewrite Es; done.
Qed.

Lemma buy_two D Y rin rout pin pout pool pegs i j amt amp inp :
  two_pool rin rout pin pout pool pegs i j → scalable rin → scalable rout → 0 <= amt <= amount rout →
  calculate_in_given_out D Y pool i j amt amp pegs = Some inp →
  ∃ d r, calculate_d_internal D (normalize_reserves pool) amp pegs = Some d ∧
    calculate_y_internal Y [scaled (set_amount rout (amount rout - amt))] d amp [pout] pin = Some r ∧
    scaled rin <= r ∧
    inp = saturating_add u128 (normalize_value (r - scaled rin) TARGET_PRECISION (decimals rin) Round.Up) 1.
Proof.
  intros Hp Hsi Hso Hamt Hr. destruct (pow10_bounds (18 - decimals rout)) as [Hp10 _]; [destruct Hso; lia|].
  assert (normalize_value amt (decimals rout) TARGET_PRECISION Round.Down = amt * 10 ^ (18 - decimals rout)) as Ea.
  { apply (normalize_scalable (set_amount rout amt)). destruct Hso as (? & ? & ?). split_and!; simpl in *; nia. }
  assert (scaled (set_amount rout (amount rout - amt)) = amount rout * 10 ^ (18 - decimals rout) - amt * 10 ^ (18 - decimals rout))
    as Es by (unfold scaled; simpl; ring).
  unfold calculate_in_given_out, calculate_y_given_out in Hr.
  destruct Hp; simpl in Hr; rewrite Ea, !normalize_scalable in Hr by done; inv_run;
    do 2 eexists; (split; [simpl; rewrite !normalize_scalable by done; done|]); rewrite Es; done.
Qed.

Notation traded pool i j rin rout inp out :=
  (<[i := set_amount rin (amount rin + inp)]> (<[j := set_amount rout (amount rout - out)]> pool)).

(** C28: a sale in a pool of two assets never lowers the invariant of the pool:
    the reserves after the trade reach every level the reserves before it reached.
    The assets have up to 18 decimals, the reserves weigh at least eight times the
    amplification, and the pegs are arbitrary. *)
Theorem stable_sell_keeps_invariant D Y rin rout pin pout pool pegs i j amt amp out ws :
  two_pool rin rout pin pout pool pegs i j → is_peg pin → is_peg pout → scalable rin → scalable rout →
  0 <= amt → scalable (set_amount rin (amount rin + amt)) →
  1 <= amp → weights pool pegs = Some ws → Forall (λ w, 8 * amp <= w) ws →
  calculate_out_given_in (S D) (S Y) pool i j amt amp pegs = Some out →
  ∃ ws', weights (traded pool i j rin rout amt out) pegs = Some ws' ∧
    ∀ e, 0 <= e → below (amp * 2) ws e → below (amp * 2) ws' e.
Proof.
  intros Hp Hpi Hpo Hsi Hso Hamt Hsi' Hamp Hws H8 Hr.
  destruct (sell_two _ _ _ _ _ _ _ _ _ _ _ _ _ Hp Hsi Hso Hamt Hsi' Hr) as (d & r & Hd & Hy & Hle & ->).
  destruct Hp; apply weights_two in Hws as (w & v & -> & Hw & Hv); apply Forall_cons in H8 as [H8a [H8b _]%Forall_cons].
  - destruct (d_two D rin rout pin pout [rin; rout] [pin; pout] 0 1 amp d w v) as [Hd0 Ha]; [constructor|done..|].
    destruct (sell_pair Y rin rout pin pout amt amp d r w v) as (w' & v' & Hw' & Hv' & Hk); [done..|].
    exists [w'; v']. split; [by apply weights_two_Some|]. intros e He Hb. apply below_two. apply Hk; [done|]. by apply below_two.
  - destruct (d_two D rin rout pin pout [rout; rin] [pout; pin] 1 0 amp d v w) as [Hd0 Ha]; [constructor|done..|].
    destruct (sell_pair Y rin rout pin pout amt amp d r v w) as (w' & v' & Hw' & Hv' & Hk); [done..|].
    exists [v'; w']. split; [by apply weights_two_Some|]. intros e He Hb.
    apply below_two, reaches_comm. apply Hk; [done|]. by apply reaches_comm, below_two.
Qed.

(** A purchase in a pool of two assets never lowers the invariant of the
    pool either. *)
Theorem stable_buy_keeps_invariant D Y rin rout pin pout pool pegs i j amt amp inp ws ws' :
  two_pool rin rout pin pout pool pegs i j → is_peg pin → is_peg pout → scalable rin → scalable rout →
  0 <= amt <= amount rout → scalable (set_amount rin (amount rin + inp)) →
  1 <= amp → weights pool pegs = Some ws → Forall (λ w, 8 * amp <= w) ws →
  calculate_in_given_out (S D) (S Y) pool i j amt amp pegs = Some inp →
  weights (traded pool i j rin rout inp amt) pegs = Some ws' → Forall (λ w, 0 < w) ws' →
  ∀ e, 0 <= e → below (amp * 2) ws e → below (amp * 2) ws' e.
Proof.
  intros Hp Hpi Hpo Hsi Hso Hamt Hsi' Hamp Hws H8 Hr Hws' Hpos e He Hb.
  destruct (buy_two _ _ _ _ _ _ _ _ _ _ _ _ _ Hp Hsi Hso Hamt Hr) as (d & r & Hd & Hy & Hle & ->).
  assert (scalable (set_amount rout (amount rout - amt))) as Hso'.
  { destruct Hso as (? & ? & ?). split_and!; simpl in *; [lia..|].
    destruct (pow10_bounds (18 - decimals rout)) as [? _]; [lia|]. nia. }
  destruct Hp; apply weights_two in Hws as (w & v & -> & Hw & Hv), Hws' as (w' & v' & -> & Hw' & Hv');
    apply Forall_cons in H8 as [H8a [H8b _]%Forall_cons], Hpos as [Hpa [Hpb _]%Forall_cons].
  - destruct (d_two D rin rout pin pout [rin; rout] [pin; pout] 0 1 amp d w v) as [Hd0 Ha]; [constructor|done..|].
    apply below_two. eapply (buy_pair Y rin rout pin pout amt amp d r w v); try done. by apply below_two.
  - destruct (d_two D rin rout pin pout [rout; rin] [pout; pin] 1 0 amp d v w) as [Hd0 Ha]; [constructor|done..|].
    apply below_two, reaches_comm. eapply (buy_pair Y rin rout pin pout amt amp d r v w); try done.
    by apply reaches_comm, below_two.
Qed.
End trades.

(** ** Concrete pools *)

Module StableDemo.
#[local] Existing Instance reference_arithmetic.
#[local] Existing Instance reference_arithmetic_laws.

(** A million of an asset with 6 decimals and two million of one with 18, which
    is worth 1.1 of the first; amplification 100. *)
Definition ra : AssetReserve := mkReserve 1000000000000 6.
Definition rb : AssetReserve := mkReserve 2000000000000000000000000 18.
Definition pool : list AssetReserve := [ra; rb].
Definition pegs : list (Z * Z) := [(1, 1); (11, 10)].
Definition ws : list Z := [1000000000000000000000000; 2200000000000000000000000].
Definition sold : option Z := calculate_out_given_in 64 128 pool 0 1 5000000000 100 pegs.
Definition paid : option Z := calculate_in_given_out 64 128 pool 1 0 5000000000 100 pegs.

(** The values of the tests of the crate. *)
Example crate_test_d : calculate_d_internal 128 [1000; 2000] 1 [(1, 1); (1, 1)] = Some 2914.
Proof. vm_compute. reflexivity. Qed.
Example crate_test_y_given_in : calculate_y_given_in 128 64 100 0 1 [1000; 2000] 1 [(1, 1); (1, 1)] = Some 1866.
Proof. vm_compute. reflexivity. Qed.
Example crate_test_withdraw :
  calculate_withdraw_one_asset 128 64 [mkReserve 1000000000000000 12; mkReserve 2000 12] 100 1 3000 100 100000
    [(1, 1); (1, 1)] = Some (181, 12).
Proof. vm_compute. reflexivity. Qed.

Lemma d_never_below_witness :
  above 200 ws (default 0 (calculate_d_internal 64 (normalize_reserves pool) 100 pegs)).
Proof.
  apply (d_never_below 63 (normalize_reserves pool) 100 pegs ws); [vm_compute; reflexivity| |discriminate|vm_compute; reflexivity].
  repeat constructor; discriminate.
Defined.


Lemma peg_a : is_peg (1, 1).
Proof. repeat split; vm_compute; (discriminate || reflexivity). Qed.
Lemma peg_b : is_peg (11, 10).
Proof. repeat split; vm_compute; (discriminate || reflexivity). Qed.
Lemma ra_scalable : scalable ra.
Proof. repeat split; vm_compute; (discriminate || reflexivity). Qed.
Lemma rb_scalable : scalable rb.
Proof. repeat split; vm_compute; (discriminate || reflexivity). Qed.
Lemma ws_weights : weights pool pegs = Some ws.
Proof. vm_compute. reflexivity. Qed.
Lemma ws_large : Forall (λ w, 8 * 100 <= w) ws.
Proof. by repeat constructor. Qed.

Definition out : Z := default 0 sold.
Definition inp : Z := default 0 paid.

Lemma stable_sell_keeps_invariant_witness :
  4500000000000000000000 <= out ∧
  ∃ ws', weights [set_amount ra (amount ra + 5000000000); set_amount rb (amount rb - out)] pegs = Some ws' ∧
    ∀ e, 0 <= e → below 200 ws e → below 200 ws' e.
Proof.
  split; [vm_compute; discriminate|].
  apply (stable_sell_keeps_invariant 63 127 ra rb (1, 1) (11, 10) pool pegs 0 1 5000000000 100 out ws).
  - constructor.
  - exact peg_a.
  - exact peg_b.
  - exact ra_scalable.
  - exact rb_scalable.
  - lia.
  - repeat split; vm_compute; discriminate.
  - lia.
  - exact ws_weights.
  - exact ws_large.
  - vm_compute. reflexivity.
Defined.

(** Buying the asset with 6 decimals: the other one is paid. *)
Definition ws_bought : list Z :=
  default [] (weights [set_amount ra (amount ra - 5000000000); set_amount rb (amount rb + inp)] pegs).

Lemma stable_buy_keeps_invariant_witness :
  paid = Some inp ∧ ∀ e, 0 <= e → below 200 ws e → below 200 ws_bought e.
Proof.
  split; [vm_compute; reflexivity|].
  apply (stable_buy_keeps_invariant 63 127 rb ra (11, 10) (1, 1) pool pegs 1 0 5000000000 100 inp ws ws_bought).
  - constructor.
  - exact peg_b.
  - exact peg_a.
  - exact rb_scalable.
  - exact ra_scalable.
  - split; vm_compute; discriminate.
  - repeat split; vm_compute; discriminate.
  - lia.
  - exact ws_weights.
  - exact ws_large.
  - vm_compute. reflexivity.
  - vm_compute. reflexivity.
  - vm_compute. by repeat constructor.
Defined.
End StableDemo.
