(* ===== verification/StableswapBounds.v ===== *)
(** * Ranges of the stableswap amounts

    Every amount the stableswap arithmetic returns for reserves, pegs, fees and
    issuances in the range of their types is itself in the range of a [u128]:
    the facts the pallet needs to hand the amounts on to the ledger. *)

From S2P Require Import Prelude Arithmetic Ratio StableswapMath.

(** ** Rational numbers in range *)

Definition ratio_ok (r : Ratio) : Prop := fits u128 (n r) ∧ fits u128 (d r) ∧ 0 < d r.

(** The parts of a peg are [u128]s. *)
Definition peg_typed (p : Peg) : Prop := fits u128 p.1 ∧ fits u128 p.2.

Create HintDb in_range.
#[export] Hint Extern 1 (fits _ _) => assumption : in_range.
#[export] Hint Extern 5 (fits _ _) => (unfold fits, max_value, u128; lia) : in_range.

Section ratios.
Implicit Types (r q : Ratio).

Lemma from_pair_ok p : peg_typed p → ratio_ok (Ratio.from_pair p).
Proof.
  intros [? ?]. unfold Ratio.from_pair, Ratio.new, ratio_ok. simpl. case_match; propify; [done|].
  split_and!; [done|by compute_done|lia].
Qed.

Lemma from_u128_ok b : fits u128 b → ratio_ok (Ratio.from_u128 b).
Proof. intros. split_and!; simpl; [done|compute_done|lia]. Qed.
Lemma one_ok : ratio_ok Ratio.one.
Proof. compute_done. Qed.
Lemma zero_ok : ratio_ok Ratio.zero.
Proof. compute_done. Qed.

Lemma rounded_ok a b rd : fits u256 a → fits u256 b → 0 < b → ratio_ok (Ratio.from_pair (round_to_rational (a, b) rd)).
Proof.
  intros Ha Hb H0. pose proof (round_to_rational_well_formed a b rd Ha Hb H0) as Hw.
  destruct (round_to_rational (a, b) rd). apply from_pair_ok. split; apply Hw.
Qed.

Lemma wide_mul a b : fits u128 a → fits u128 b → fits u256 (a * b).
Proof. intros. by apply (fits_mul u128). Qed.
Hint Resolve wide_mul : in_range.

Lemma saturating_add_ok r q : ratio_ok r → ratio_ok q → ratio_ok (Ratio.saturating_add r q).
Proof.
  intros (?&?&?) (?&?&?). unfold Ratio.saturating_add. repeat case_match; [done..|].
  apply rounded_ok; [apply saturating_add_fits|by apply wide_mul|nia]; [done|apply wide_mul..]; done.
Qed.
Lemma saturating_sub_ok r q : ratio_ok r → ratio_ok q → ratio_ok (Ratio.saturating_sub r q).
Proof.
  intros (?&?&?) (?&?&?). unfold Ratio.saturating_sub. case_match; [by apply from_pair_ok|].
  apply rounded_ok; [|by apply wide_mul|nia].
  assert (fits u256 (n r * d q)) by (by apply wide_mul). assert (fits u256 (n q * d r)) by (by apply wide_mul).
  unfold fits, saturating_sub in *. lia.
Qed.
Lemma saturating_mul_ok r q : ratio_ok r → ratio_ok q → ratio_ok (Ratio.saturating_mul r q).
Proof.
  intros (?&?&?) (?&?&?). unfold Ratio.saturating_mul, Ratio.mul. case_match; [apply zero_ok|].
  apply rounded_ok; [by apply wide_mul..|nia].
Qed.
Lemma saturating_div_ok r q : ratio_ok r → ratio_ok q → ratio_ok (Ratio.saturating_div r q).
Proof.
  intros (?&?&?) ([? ?]&?&?). unfold Ratio.saturating_div, Ratio.is_zero. case_match; [apply zero_ok|].
  propify. apply rounded_ok; [by apply wide_mul..|nia].
Qed.
End ratios.

#[export] Hint Resolve from_pair_ok from_u128_ok one_ok zero_ok saturating_add_ok saturating_sub_ok saturating_mul_ok saturating_div_ok : in_range.

(** ** Pegs *)

Section pegs.
Context `{SpArithmeticLaws}.

Definition delta_ok (dl : PegDelta) : Prop := ratio_ok (delta dl) ∧ fits u128 (block_diff dl).

Lemma peg_delta_ok b m c t :
  fits u128 b → is_perbill m → peg_typed c → peg_typed t → delta_ok (calculate_peg_delta b m c t).
Proof.
  intros Hb Hm Hc Ht. unfold calculate_peg_delta.
  assert (ratio_ok (Ratio.from_pair (m, PERBILL))) as Hmr.
  { apply from_pair_ok. unfold is_perbill, peg_typed, fits, max_value, u128, PERBILL in *. simpl. lia. }
  repeat case_match; split; simpl; simplify_eq; auto 10 with in_range.
Qed.

Lemma peg_deltas_ok block current at_block target m :
  fits u128 block → 0 <= at_block → is_perbill m → Forall peg_typed current → Forall (λ t, peg_typed t.1) target →
  Forall delta_ok (calculate_peg_deltas block current at_block target m).
Proof.
  intros Hb Ha Hm Hc Ht. unfold calculate_peg_deltas.
  assert (fits u128 (Z.max (saturating_sub block at_block) 1)).
  { unfold fits, saturating_sub, max_value, u128 in *. lia. }
  revert target Ht. induction Hc as [|c current Hc _ IH]; intros [|t target]; simpl; [done..|].
  intros [Ht1 Ht2]%Forall_cons. constructor; [by apply peg_delta_ok|by apply IH].
Qed.

Lemma new_pegs_typed current deltas :
  Forall peg_typed current → Forall delta_ok deltas → Forall peg_typed (calculate_new_pegs current deltas).
Proof.
  intros Hc. revert deltas. unfold calculate_new_pegs.
  induction Hc as [|c current Hc _ IH]; intros [|dl deltas]; simpl; [done..|].
  intros [[Hd _] Hds]%Forall_cons. constructor; [|by apply IH].
  case_match; split; simpl; [apply saturating_sub_ok|apply saturating_sub_ok|apply saturating_add_ok|apply saturating_add_ok];
    auto with in_range.
Qed.

Lemma one_plus_ok c : ratio_ok c.1 → ratio_ok (one_plus c).1.
Proof. intros. unfold one_plus. repeat case_match; simpl; auto with in_range. Qed.

Lemma foldl_ratio_ok (f : Ratio * bool → Ratio * bool → Ratio * bool) a l :
  (∀ a c, ratio_ok a.1 → ratio_ok c.1 → ratio_ok (f a c).1) →
  ratio_ok a.1 → Forall (λ c, ratio_ok c.1) l → ratio_ok (foldl f a l).1.
Proof. intros Hf Ha Hl. revert a Ha. induction Hl; simpl; auto. Qed.

Lemma target_fee_permill current deltas fee :
  Forall peg_typed current → Forall delta_ok deltas → is_permill fee →
  is_permill (calculate_target_fee current deltas fee).
Proof.
  intros Hc Hd Hf. unfold calculate_target_fee. cbv zeta.
  set (changes := zip_with _ deltas current).
  assert (Forall (λ c, ratio_ok c.1) changes) as Hch.
  { subst changes. revert current Hc. induction Hd as [|dl deltas [? ?] _ IH]; intros [|c current]; simpl; [done..|].
    intros [? ?]%Forall_cons. constructor; [|by apply IH]. simpl.
    auto with in_range. }
  clearbody changes.
  assert (ratio_ok (one_plus (foldl max_change_step (Ratio.zero, false) changes)).1) as H1.
  { apply one_plus_ok, foldl_ratio_ok; [|apply zero_ok|done]. intros [? ?] [? ?]. unfold max_change_step. repeat case_match; done. }
  assert (ratio_ok (one_plus (foldl min_change_step (Ratio.zero, false) changes)).1) as H2.
  { apply one_plus_ok, foldl_ratio_ok; [|apply zero_ok|done]. intros [? ?] [? ?]. unfold min_change_step. repeat case_match; done. }
  destruct (one_plus _) as [mx ?], (one_plus _) as [mn ?]. simpl in *. case_match; [done|].
  assert (ratio_ok (Ratio.saturating_mul (Ratio.from_u128 2) (Ratio.saturating_sub (Ratio.saturating_div mx mn) Ratio.one)))
    as (Hn & Hd' & _).
  { auto 10 with in_range. }
  pose proof (permill_from_rational_wf _ _ Hn Hd'). unfold is_permill in *. lia.
Qed.

(** The recalculated fee and pegs, one peg for each target. *)
Lemma recalculated_typed current at_block target block m fee fp :
  fits u128 block → 0 <= at_block → is_perbill m → is_permill fee →
  Forall peg_typed current → Forall (λ t, peg_typed t.1) target →
  recalculate_pegs current at_block target block m fee = Some fp →
  is_permill fp.1 ∧ Forall peg_typed fp.2 ∧ length fp.2 = (length current `min` length target)%nat.
Proof.
  intros Hb Ha Hm Hf Hc Ht [= <-]. pose proof (peg_deltas_ok block current at_block target m Hb Ha Hm Hc Ht). simpl.
  split_and!; [by apply target_fee_permill|by apply new_pegs_typed|].
  unfold calculate_new_pegs, calculate_peg_deltas. rewrite !length_zip_with. lia.
Qed.
End pegs.

(** ** D and Y *)

Definition reserve_typed (r : AssetReserve) : Prop := fits u128 (amount r).

Section amounts.
Context `{SpArithmeticLaws}.

Lemma normalize_nonneg x dec target r : 0 <= x → 0 <= normalize_value x dec target r.
Proof.
  intros. unfold normalize_value, saturating_pow10. repeat case_match; propify; auto with nonneg.
  all: assert (0 <= 10 ^ Z.abs (target - dec)) by (by apply Z.pow_nonneg).
  all: assert (0 <= max_value u128) by done.
  all: auto using Z.min_glb with nonneg.
Qed.

Lemma normalize_fits x dec target r : fits u128 x → fits u128 (normalize_value x dec target r).
Proof.
  intros Hx. unfold normalize_value, saturating_pow10.
  assert (0 <= Z.min (10 ^ Z.abs (target - dec)) (max_value u128)).
  { apply Z.min_glb; [by apply Z.pow_nonneg|done]. }
  repeat case_match; [done|apply saturating_mul_fits; [done|apply Hx|done]|by apply fits_div|].
  apply saturating_add_fits; [done| |done]. apply div_nonneg; [apply Hx|done].
Qed.

Lemma normalize_reserves_fit rs : Forall reserve_typed rs → Forall (fits u128) (normalize_reserves rs).
Proof. intros Hr. unfold normalize_reserves. apply Forall_fmap. by eapply Forall_impl; [|intros; apply normalize_fits]. Qed.

Lemma muldiv_down_fits a b c z :
  fits u128 a → fits u128 b → fits u128 c → multiply_by_rational_down a b c = Some z → fits u128 z.
Proof.
  intros Ha Hb Hc. rewrite multiply_by_rational_down_spec by done. case_match; intros; inv_run.
  split; [|done]. apply muldiv_nonneg; by eapply fits_nonneg.
Qed.

Lemma peg_reserves_fit xs pegs ys :
  Forall (fits u128) xs → Forall peg_typed pegs → peg_reserves xs pegs = Some ys → Forall (fits u128) ys.
Proof.
  intros Hx. revert pegs ys. induction Hx as [|x xs Hx _ IH]; intros [|p pegs] ys Hp Hr; simpl in Hr; inv_run; [done..|].
  apply Forall_cons in Hp as [[? ?] ?]. constructor; [by eapply (muldiv_down_fits x p.1 p.2)|by eapply IH].
Qed.

Lemma nonzero_reserves_fit xs ys : Forall (fits u128) xs → nonzero_reserves xs = Some ys → Forall (fits u128) ys.
Proof.
  intros Hx. unfold nonzero_reserves. case_match; [done|]. intros [= <-]. unfold sort.
  rewrite sorting.merge_sort_Permutation. apply Forall_forall. intros x [_ Hi]%list_elem_of_filter. by eapply Forall_forall in Hx.
Qed.

Lemma sum_from_nonneg acc xs z : 0 <= acc → Forall (fits u128) xs →
  foldl (λ s x, s ← s; checked_add u256 s x) (Some acc) xs = Some z → 0 <= z.
Proof.
  intros Ha Hx. revert acc Ha. induction Hx as [|x xs [? _] _ IH]; intros acc Ha; simpl; [congruence|].
  destruct (checked_add u256 acc x) as [a|] eqn:E.
  - inv_run. apply IH. lia.
  - intros Hf. exfalso. clear -Hf. induction xs; [done|auto].
Qed.

Lemma d_product_nonneg d n acc xs z :
  0 <= d → 0 <= n → 0 <= acc → Forall (fits u128) xs → d_product d n acc xs = Some z → 0 <= z.
Proof.
  intros Hd Hn Ha Hx. revert acc Ha. induction Hx as [|x xs [? _] _ IH]; intros acc Ha Hr; simpl in Hr; inv_run; [done|].
  eapply IH; [|done]. auto with nonneg.
Qed.

Lemma d_step_nonneg ann s n xs d z :
  0 <= ann → 0 <= s → 0 <= n → 0 <= d → Forall (fits u128) xs → d_step ann s n xs d = Some z → 0 <= z.
Proof.
  intros ? ? ? ? Hx Hr. unfold d_step in Hr. inv_run.
  match goal with Hp : d_product _ _ _ _ = Some ?p |- _ => assert (0 <= p) by (by eapply d_product_nonneg in Hp) end.
  assert (0 <= ann - 1) by lia. auto 10 with nonneg.
Qed.

Lemma d_loop_nonneg D ann s n xs d z :
  0 <= ann → 0 <= s → 0 <= n → 0 <= d → Forall (fits u128) xs → d_loop D ann s n xs d = Some z → 0 <= z.
Proof.
  intros Ha Hs Hn Hd Hx. revert d Hd. induction D as [|D IH]; intros d Hd Hr; cbn [d_loop] in Hr; inv_run; [done|].
  match goal with Hp : d_step _ _ _ _ _ = Some ?p |- _ => assert (0 <= p) by (by eapply d_step_nonneg in Hp) end.
  case_match; inv_run; [done|]. by eapply IH.
Qed.

Lemma ann_nonneg n amp ann : 0 <= amp → calculate_ann n amp = Some ann → 0 <= ann.
Proof. intros ? Hr. unfold calculate_ann in Hr. inv_run. lia. Qed.

Lemma d_internal_fits D xs amp pegs z :
  Forall (fits u128) xs → 0 <= amp → Forall peg_typed pegs → calculate_d_internal D xs amp pegs = Some z → fits u128 z.
Proof.
  intros Hx Ha Hp Hr. unfold calculate_d_internal in Hr. inv_run.
  match goal with Hy : peg_reserves _ _ = Some _ |- _ => apply peg_reserves_fit in Hy; [|done..] end.
  match goal with Hy : nonzero_reserves _ = Some _ |- _ => apply nonzero_reserves_fit in Hy; [|done] end.
  match goal with Hy : calculate_ann _ _ = Some _ |- _ => apply ann_nonneg in Hy; [|done] end.
  match goal with Hy : checked_sum _ = Some _ |- _ => apply sum_from_nonneg in Hy; [|done..] end.
  case_match; inv_run; [done|]. split; [|done].
  match goal with Hy : d_loop _ _ _ _ _ _ = Some _ |- _ => apply d_loop_nonneg in Hy; [done..|lia|done|done] end.
Qed.

Lemma calculate_d_fits D rs amp pegs z :
  Forall reserve_typed rs → 0 <= amp → Forall peg_typed pegs → calculate_d D rs amp pegs = Some z → fits u128 z.
Proof.
  intros Hx Ha Hp. unfold calculate_d. case_match; [done|]. apply d_internal_fits; [|done..].
  by apply normalize_reserves_fit.
Qed.

Lemma y_step_nonneg b c d y z : 0 <= c → y_step b c d y = Some z → 0 <= z.
Proof. intros Hc Hr. unfold y_step in Hr. inv_run. assert (0 <= 2 * y + b - d) by lia.
  assert (0 <= y * y) by nia. auto with nonneg.
Qed.
Lemma y_loop_nonneg Y b c d y z : 0 <= c → 0 <= y → y_loop Y b c d y = Some z → 0 <= z.
Proof.
  intros Hc. revert y. induction Y as [|Y IH]; intros y Hy Hr; cbn [y_loop] in Hr; inv_run; [done|].
  match goal with Hp : y_step _ _ _ _ = Some ?p |- _ => assert (0 <= p) by (by eapply y_step_nonneg in Hp) end.
  case_match; inv_run; [done|]. by eapply IH.
Qed.

Lemma y_internal_fits Y xs d amp pegs p z :
  Forall (fits u128) xs → 0 <= d → 0 <= amp → Forall peg_typed pegs → peg_typed p →
  calculate_y_internal Y xs d amp pegs p = Some z → fits u128 z.
Proof.
  intros Hx Hd Ha Hp [? ?] Hr. unfold calculate_y_internal, y_coefficients in Hr. inv_run. simpl in *.
  match goal with Hy : peg_reserves _ _ = Some _ |- _ => apply peg_reserves_fit in Hy; [|done..] end.
  match goal with Hy : nonzero_reserves _ = Some _ |- _ => apply nonzero_reserves_fit in Hy; [|done] end.
  match goal with Hy : calculate_ann _ _ = Some _ |- _ => apply ann_nonneg in Hy; [|done] end.
  match goal with Hy : d_product _ _ _ _ = Some _ |- _ => apply d_product_nonneg in Hy; [|done|lia|done|done] end.
  match goal with Hy : y_loop _ _ _ _ _ = Some _ |- _ => apply y_loop_nonneg in Hy; [|auto with nonneg|done] end.
  eapply muldiv_down_fits; [..|done]; [by split|done|done].
Qed.

Lemma pegs_lookup pegs i p : Forall peg_typed pegs → pegs !! i = Some p → peg_typed p.
Proof. intros Hp Hi. by eapply Forall_lookup_1 in Hp. Qed.
Lemma delete_Forall {A} (P : A → Prop) i (l : list A) : Forall P l → Forall P (delete i l).
Proof. intros Hl. revert i. induction Hl; intros []; simpl; auto. Qed.

(** ** Trades *)

Lemma out_with_fee_nonneg D Y rs i j x amp fee pegs out :
  calculate_out_given_in_with_fee D Y rs i j x amp fee pegs = Some out → 0 <= out.1.
Proof. intros Hr. unfold calculate_out_given_in_with_fee in Hr. inv_run. simpl in *. lia. Qed.

Lemma in_with_fee_fits D Y rs i j x amp fee pegs inp :
  is_permill fee → calculate_in_given_out_with_fee D Y rs i j x amp fee pegs = Some inp → fits u128 inp.1.
Proof.
  intros Hf Hr. unfold calculate_in_given_out_with_fee, calculate_in_given_out in Hr. inv_run.
  match goal with Hy : (if _ then None else _) = Some _ |- _ => case_match; inv_run end. simpl.
  match goal with |- fits _ (saturating_add u128 ?a 1 + _) => assert (fits u128 (saturating_add u128 a 1)) as Hx end.
  { apply saturating_add_fits; [done| |done]. apply normalize_nonneg. lia. }
  pose proof (permill_mul_ceil_bounds fee _ Hf Hx). split; [|done]. unfold calculate_fee_amount. destruct Hx. lia.
Qed.

(** ** Shares *)

Lemma calculate_shares_fits D rs us amp iss fee pegs out :
  Forall reserve_typed rs → Forall reserve_typed us → 0 <= amp → 0 <= iss → Forall peg_typed pegs →
  calculate_shares D rs us amp iss fee pegs = Some out → fits u128 out.1.
Proof.
  intros Hrs Hus Ha Hi Hp Hr. unfold calculate_shares in Hr. case_match; [done|]. inv_run. case_match; [done|].
  inv_run. match goal with Hy : (let '(_, _) := ?p in _) = Some _ |- _ => destruct p; inv_run end.
  match goal with Hy : calculate_d _ rs _ _ = Some _ |- _ => apply calculate_d_fits in Hy as [? ?]; [|done..] end.
  match goal with Hy : calculate_d _ us _ _ = Some _ |- _ => apply calculate_d_fits in Hy as [? ?]; [|done..] end.
  case_match; inv_run; simpl; [split; lia|]. split; [|done].
  apply div_nonneg; [apply Z.mul_nonneg_nonneg; lia|done].
Qed.

Lemma shares_for_amount_fits D rs i x amp iss fee pegs out :
  Forall reserve_typed rs → 0 <= amp → 0 <= iss → Forall peg_typed pegs →
  calculate_shares_for_amount D rs i x amp iss fee pegs = Some out → fits u128 out.1.
Proof.
  intros Hrs Ha Hi Hp Hr. unfold calculate_shares_for_amount in Hr. case_match; [done|]. inv_run.
  match goal with Hy : (let '(_, _) := ?p in _) = Some _ |- _ => destruct p; inv_run end.
  match goal with Hy : calculate_d _ rs _ _ = Some _ |- _ => apply calculate_d_fits in Hy as [? ?]; [|done..] end.
  simpl. split; [|done]. apply Z.add_nonneg_nonneg; [|done]. apply div_nonneg; [apply Z.mul_nonneg_nonneg; lia|done].
Qed.

Lemma liquidity_out_nonneg r x iss z :
  0 <= r → 0 <= x → 0 <= iss → calculate_liquidity_out r x iss = Some z → 0 <= z.
Proof. intros ? ? ? Hr. unfold calculate_liquidity_out in Hr. inv_run. auto with nonneg. Qed.

(** ** One asset for shares *)

Lemma withdraw_one_nonneg D Y rs x i iss amp fee pegs out :
  calculate_withdraw_one_asset D Y rs x i iss amp fee pegs = Some out → 0 <= out.1.
Proof.
  intros Hr. unfold calculate_withdraw_one_asset in Hr. case_match; [done|]. inv_run. simpl.
  apply normalize_nonneg. lia.
Qed.

Lemma scaled_fee_fits fee ct f : is_permill fee → (1 < ct < 100)%nat → scaled_fee fee ct = Some f → fits u128 f.
Proof.
  intros Hf Hct Hr. unfold scaled_fee in Hr. inv_run.
  assert (∀ k, 0 <= k <= 400 → fits u128 (fixed_from_integer k)) as Hk.
  { intros k ?. rewrite fixed_from_integer_spec by (unfold fits, max_value, u128; lia).
    apply saturating_mul_fits; unfold DIV; [done|lia|lia]. }
  assert (fits u128 (fixed_from_permill fee)) as Hp.
  { rewrite fixed_from_permill_spec by done. change (DIV / PERMILL) with 1000000000000.
    unfold is_permill, PERMILL, fits, max_value, u128 in *. lia. }
  pose proof (Hk (Z.of_nat ct) ltac:(lia)) as Hc. pose proof (Hk (4 * (Z.of_nat ct - 1)) ltac:(lia)) as Hq.
  match goal with Hy : fixed_checked_mul _ _ = Some _ |- _ => rewrite fixed_checked_mul_spec in Hy by done end. inv_run.
  match goal with Hx : ?v <= max_value u128, Hy : fixed_checked_div ?v _ = Some _ |- _ => assert (fits u128 v) as Hv end.
  { split; [|done]. apply muldiv_nonneg; [apply Hp|apply Hc|done]. }
  rewrite fixed_checked_div_spec in Hr by done. case_match; inv_run. split; [|done].
  apply muldiv_nonneg; [apply Hv|done|apply Hq].
Qed.

Lemma reduced_fit fee expected k rs out :
  fits u128 fee → Forall (fits u128) rs → (∀ i r x, expected i r = Some x → 0 <= x) →
  reduce_reserves fee expected k rs = Some out → Forall (fits u128) out.
Proof.
  intros Hf Hrs He. revert k out. induction Hrs as [|r rs Hr _ IH]; intros k out Ho; simpl in Ho; inv_run; [done|].
  constructor; [|by eapply IH].
  match goal with Hx : expected _ _ = Some ?x |- _ => apply He in Hx; assert (fits u128 x) as Hd by (by split) end.
  match goal with Hy : fixed_checked_mul_int _ _ = Some _ |- _ => rewrite fixed_checked_mul_int_spec in Hy by done end.
  inv_run. match goal with Hy : ?z <= r |- _ => assert (0 <= z) by (apply muldiv_nonneg; [apply Hf|apply Hd|done]) end.
  unfold fits in *. lia.
Qed.

Lemma add_one_fits D Y rs x i iss amp fee pegs out :
  Forall reserve_typed rs → 0 <= x → 0 <= iss → 0 <= amp → is_permill fee → (length rs < 100)%nat →
  Forall peg_typed pegs → calculate_add_one_asset D Y rs x i iss amp fee pegs = Some out → fits u128 out.1.
Proof.
  intros Hrs Hx Hi Ha Hf Hl Hp Hr. unfold calculate_add_one_asset in Hr. case_match eqn:Hg; [done|].
  unfold one_asset_guard in Hg. propify. pose proof (normalize_reserves_fit _ Hrs) as Hn. inv_run. simpl.
  match goal with Hd : calculate_d_internal _ _ _ _ = Some ?v |- _ =>
    apply d_internal_fits in Hd as [Hd0 _]; [|done..];
    assert (0 <= v + x * v / iss) as Hd1 by auto with nonneg end.
  match goal with Hs : scaled_fee _ ?l = Some _ |- _ =>
    apply scaled_fee_fits in Hs; [|done|split; [by apply Nat.leb_gt|done]] end.
  match goal with Hs : reduce_reserves _ _ _ _ = Some ?l |- _ =>
    apply reduced_fit in Hs; [|done|done|intros; inv_run; case_match; inv_run; lia] end.
  match goal with Hl : ?l !! i = Some ?v, Hs : Forall (fits u128) ?l |- _ =>
    pose proof (Forall_lookup_1 _ _ _ _ Hs Hl) as [Hv _] end.
  match goal with Hq : pegs !! i = Some _ |- _ => pose proof (pegs_lookup _ _ _ Hp Hq) end.
  match goal with Hs : Forall _ ?l, Hy : calculate_y_internal _ (delete i ?l) _ _ _ _ = Some _ |- _ =>
    apply y_internal_fits in Hy as [? ?]; [|by apply delete_Forall|done|done|by apply delete_Forall|done] end.
  apply normalize_fits. split; lia.
Qed.
End amounts.
