(* ===== verification/StableswapPallet.v ===== *)
(** * The stableswap pallet

    Models [pallets/stableswap]: the pools and their pegs, every dispatchable,
    the liquidity and trade checks, the snapshots of a block, the simulation of
    trades and the router's executor interface.  The arithmetic is
    [StableswapMath].

    The currency, the asset registry, the dust handler, the peg oracle, the hooks
    and the derivation of pool accounts are parameters.  A call that fails leaves
    the storage unchanged, which is what [#[transactional]] does; the
    [debug_assert]s are not part of the code that runs on chain. *)

From S2P Require Import Prelude Arithmetic Currency Ratio Broadcast Traits StableswapMath.

Definition MAX_ASSETS_IN_POOL : nat := 5.
Definition D_ITERATIONS : nat := MAX_D_ITERATIONS.
Definition Y_ITERATIONS : nat := MAX_Y_ITERATIONS.

(** ** Data ([types.rs], [traits/src/stableswap.rs], [traits/src/oracle.rs]) *)

(** Bit flags in a [u8]. *)
Module Tradability.
Definition FROZEN : Z := 0.
Definition SELL : Z := 1.
Definition BUY : Z := 2.
Definition ADD_LIQUIDITY : Z := 4.
Definition REMOVE_LIQUIDITY : Z := 8.
Definition contains (self other : Z) : bool := Z.land self other =? other.
Definition default : Z := Z.lor (Z.lor (Z.lor SELL BUY) ADD_LIQUIDITY) REMOVE_LIQUIDITY.
End Tradability.

Module OraclePeriod.
Inductive t := LastBlock | Short | TenMinutes | Hour | Day | Week.
End OraclePeriod.

(** The name of an oracle source has eight bytes; an [EvmAddress] is a number. *)
Module PegSource.
Inductive t :=
| Value (peg : Peg)
| Oracle (source : list Byte.byte) (period : OraclePeriod.t) (asset_id : AssetId)
| MMOracle (address : Z).
End PegSource.

Module AssetAmount.
Record t := new { asset_id : AssetId; amount : Balance }.
End AssetAmount.

(** [BTreeSet::insert] says whether the element is new. *)
Fixpoint has_unique_elements (uniq : gset Z) (l : list AssetId) : bool :=
  match l with
  | [] => true
  | x :: l => if decide (x ∈ uniq) then false else has_unique_elements ({[x]} ∪ uniq) l
  end.

(** [iter().position(...)]. *)
Definition index_of (asset : AssetId) (l : list AssetId) : option nat := fst <$> list_find (λ v, v = asset) l.

Module PoolInfo.
Record t := mk {
  assets : list AssetId;
  initial_amplification : Z;
  final_amplification : Z;
  initial_block : Z;
  final_block : Z;
  fee : Z;
}.

Definition find_asset (p : t) (asset : AssetId) : option nat := index_of asset (assets p).
Definition is_valid (p : t) : bool := (2 <=? length (assets p))%nat && has_unique_elements ∅ (assets p).
End PoolInfo.

Module PoolState.
Record t := mk {
  assets : list AssetId;
  before : list Balance;
  after : list Balance;
  delta : list Balance;
  issuance_before : Balance;
  issuance_after : Balance;
  share_prices : list (Balance * Balance);
}.
End PoolState.

Module PoolPegInfo.
Record t := mk {
  source : list PegSource.t;
  updated_at : Z;
  max_peg_update : Z;
  current : list Peg;
}.

Definition with_new_pegs (p : t) (pegs : list Peg) (at_block : Z) : t :=
  mk (source p) at_block (max_peg_update p) (take MAX_ASSETS_IN_POOL pegs).
End PoolPegInfo.

Module PoolSnapshot.
Record t := mk {
  assets : list AssetId;
  reserves : list AssetReserve;
  amplification : Z;
  fee : Z;
  block_fee : Z;
  pegs : list Peg;
  share_issuance : Balance;
}.

Definition asset_idx (s : t) (asset_id : AssetId) : option nat := index_of asset_id (assets s).
Definition asset_decimals_at (s : t) (idx : nat) : option Z := decimals <$> reserves s !! idx.
Definition asset_reserve_at (s : t) (idx : nat) : option Balance := amount <$> reserves s !! idx.

(** [saturating_add] and [saturating_sub] of an [AssetReserve]. *)
Definition reserve_add (r : AssetReserve) (x : Balance) : AssetReserve :=
  mkReserve (saturating_add u128 (amount r) x) (decimals r).
Definition reserve_sub (r : AssetReserve) (x : Balance) : AssetReserve :=
  mkReserve (saturating_sub (amount r) x) (decimals r).

Definition set_reserves (s : t) (v : list AssetReserve) : t :=
  mk (assets s) v (amplification s) (fee s) (block_fee s) (pegs s) (share_issuance s).

Definition update_reserves (s : t) (amount_in amount_out : AssetAmount.t) : t :=
  match asset_idx s (AssetAmount.asset_id amount_in), asset_idx s (AssetAmount.asset_id amount_out) with
  | Some asset_in_idx, Some asset_out_idx =>
      match reserves s !! asset_in_idx with
      | None => s
      | Some a =>
          let s := set_reserves s (<[asset_in_idx := reserve_add a (AssetAmount.amount amount_in)]> (reserves s)) in
          match reserves s !! asset_out_idx with
          | None => s
          | Some b =>
              set_reserves s (<[asset_out_idx := reserve_sub b (AssetAmount.amount amount_out)]> (reserves s))
          end
      end
  | _, _ => s
  end.
End PoolSnapshot.

Module StableError.
Inductive t :=
| IncorrectAssets
| MaxAssetsExceeded
| PoolNotFound
| PoolExists
| AssetNotInPool
| ShareAssetNotRegistered
| ShareAssetInPoolAssets
| AssetNotRegistered
| InvalidAssetAmount
| InsufficientBalance
| InsufficientShares
| InsufficientLiquidity
| InsufficientLiquidityRemaining
| InsufficientTradingAmount
| BuyLimitNotReached
| SellLimitExceeded
| InvalidInitialLiquidity
| InvalidAmplification
| InsufficientShareBalance
| NotAllowed
| PastBlock
| SameAmplification
| SlippageLimit
| UnknownDecimals
| IncorrectInitialPegs
| MissingTargetPegOracle
| IncorrectAssetDecimals
| NoPegSource
| ZeroAmountOut
| ZeroAmountIn
| InvariantError
| InsufficientShareIssuance
| UnaccountedShareIssuance.
End StableError.

Module StableEvent.
Inductive t (AccountId : Type) :=
| PoolCreated (pool_id : AssetId) (assets : list AssetId) (amplification fee : Z) (peg : option PoolPegInfo.t)
| FeeUpdated (pool_id : AssetId) (fee : Z)
| LiquidityAdded (pool_id : AssetId) (who : AccountId) (shares : Balance) (assets : list AssetAmount.t)
| LiquidityRemoved (pool_id : AssetId) (who : AccountId) (shares : Balance) (amounts : list AssetAmount.t)
    (fee : Balance)
| SellExecuted (who : AccountId) (pool_id asset_in asset_out : AssetId) (amount_in amount_out fee : Balance)
| BuyExecuted (who : AccountId) (pool_id asset_in asset_out : AssetId) (amount_in amount_out fee : Balance)
| TradableStateUpdated (pool_id asset_id : AssetId) (state : Z)
| AmplificationChanging (pool_id : AssetId) (current_amplification final_amplification start_block end_block : Z)
| PoolDestroyed (pool_id : AssetId)
| PoolPegSourceUpdated (pool_id asset_id : AssetId) (peg_source : PegSource.t)
| PoolMaxPegUpdateUpdated (pool_id : AssetId) (max_peg_update : Z).
#[global] Arguments PoolCreated {AccountId} _ _ _ _ _.
#[global] Arguments FeeUpdated {AccountId} _ _.
#[global] Arguments LiquidityAdded {AccountId} _ _ _ _.
#[global] Arguments LiquidityRemoved {AccountId} _ _ _ _ _.
#[global] Arguments SellExecuted {AccountId} _ _ _ _ _ _ _.
#[global] Arguments BuyExecuted {AccountId} _ _ _ _ _ _ _.
#[global] Arguments TradableStateUpdated {AccountId} _ _ _.
#[global] Arguments AmplificationChanging {AccountId} _ _ _ _ _.
#[global] Arguments PoolDestroyed {AccountId} _.
#[global] Arguments PoolPegSourceUpdated {AccountId} _ _ _.
#[global] Arguments PoolMaxPegUpdateUpdated {AccountId} _ _.
End StableEvent.

(** The pallet's [Config].  Components outside the pallet act on the rest of the
    chain [X].  [pool_account] is [ShareAccountId::from_assets] with the pallet's
    identifier.  Of an entry of the peg oracle the pallet reads the price and the
    block of its last update. *)
Record StableConfig (X AccountId : Type) := mkStableConfig {
  AuthorityOrigin : RawOrigin AccountId → bool;
  UpdateTradabilityOrigin : RawOrigin AccountId → bool;
  pool_account : AssetId → AccountId;
  MinPoolLiquidity : Balance;
  MinTradingLimit : Balance;
  AmplificationRange : Z * Z;
  current_block_number : X → Z;
  registry_exists : AssetId → X → bool;
  asset_decimals : AssetId → X → option Z;
  dust_add_account : AccountId → X → result Z X;
  dust_remove_account : AccountId → X → result Z X;
  on_liquidity_changed : AssetId → PoolState.t → X → result Z X;
  on_trade : AssetId → AssetId → AssetId → PoolState.t → X → result Z X;
  get_raw_entry : AssetId → PegSource.t → X → result Z (Peg * Z);
}.
#[global] Arguments AuthorityOrigin {X AccountId} _.
#[global] Arguments UpdateTradabilityOrigin {X AccountId} _.
#[global] Arguments pool_account {X AccountId} _.
#[global] Arguments MinPoolLiquidity {X AccountId} _.
#[global] Arguments MinTradingLimit {X AccountId} _.
#[global] Arguments AmplificationRange {X AccountId} _.
#[global] Arguments current_block_number {X AccountId} _.
#[global] Arguments registry_exists {X AccountId} _.
#[global] Arguments asset_decimals {X AccountId} _.
#[global] Arguments dust_add_account {X AccountId} _.
#[global] Arguments dust_remove_account {X AccountId} _.
#[global] Arguments on_liquidity_changed {X AccountId} _.
#[global] Arguments on_trade {X AccountId} _.
#[global] Arguments get_raw_entry {X AccountId} _.

(** The storage of the pallet, its events, the broadcast pallet and the rest of
    the chain. *)
Record stable (X AccountId : Type) := mkStable {
  Pools : gmap Z PoolInfo.t;
  PoolPegs : gmap Z PoolPegInfo.t;
  AssetTradability : gmap (Z * Z) Z;
  PoolSnapshots : gmap Z PoolSnapshot.t;
  BlockFee : gmap Z Z;
  ShareIssuance : gmap Z Balance;
  stable_events : list (StableEvent.t AccountId);
  stable_bcast : broadcast AccountId;
  stable_ext : X;
}.
#[global] Arguments mkStable {X AccountId} _ _ _ _ _ _ _ _ _.
#[global] Arguments Pools {X AccountId} _.
#[global] Arguments PoolPegs {X AccountId} _.
#[global] Arguments AssetTradability {X AccountId} _.
#[global] Arguments PoolSnapshots {X AccountId} _.
#[global] Arguments BlockFee {X AccountId} _.
#[global] Arguments ShareIssuance {X AccountId} _.
#[global] Arguments stable_events {X AccountId} _.
#[global] Arguments stable_bcast {X AccountId} _.
#[global] Arguments stable_ext {X AccountId} _.

Section stableswap_pallet.
Context {X AccountId : Type} `{!EqDecision AccountId} `{!MultiCurrency X AccountId} `{SpArithmetic}.
Context (T : StableConfig X AccountId).

Notation stable := (stable X AccountId).
Notation Error := (DispatchError StableError.t).
Notation StableM := (M stable Error).
Implicit Types (s : stable) (x : X) (who : AccountId) (o : RawOrigin AccountId) (pool : PoolInfo.t).

Definition set_Pools (v : gmap Z PoolInfo.t) s : stable :=
  mkStable v (PoolPegs s) (AssetTradability s) (PoolSnapshots s) (BlockFee s) (ShareIssuance s)
    (stable_events s) (stable_bcast s) (stable_ext s).
Definition set_PoolPegs (v : gmap Z PoolPegInfo.t) s : stable :=
  mkStable (Pools s) v (AssetTradability s) (PoolSnapshots s) (BlockFee s) (ShareIssuance s)
    (stable_events s) (stable_bcast s) (stable_ext s).
Definition set_AssetTradability (v : gmap (Z * Z) Z) s : stable :=
  mkStable (Pools s) (PoolPegs s) v (PoolSnapshots s) (BlockFee s) (ShareIssuance s)
    (stable_events s) (stable_bcast s) (stable_ext s).
Definition set_PoolSnapshots (v : gmap Z PoolSnapshot.t) s : stable :=
  mkStable (Pools s) (PoolPegs s) (AssetTradability s) v (BlockFee s) (ShareIssuance s)
    (stable_events s) (stable_bcast s) (stable_ext s).
Definition set_BlockFee (v : gmap Z Z) s : stable :=
  mkStable (Pools s) (PoolPegs s) (AssetTradability s) (PoolSnapshots s) v (ShareIssuance s)
    (stable_events s) (stable_bcast s) (stable_ext s).
Definition set_ShareIssuance (v : gmap Z Balance) s : stable :=
  mkStable (Pools s) (PoolPegs s) (AssetTradability s) (PoolSnapshots s) (BlockFee s) v
    (stable_events s) (stable_bcast s) (stable_ext s).
Definition set_stable_events (v : list (StableEvent.t AccountId)) s : stable :=
  mkStable (Pools s) (PoolPegs s) (AssetTradability s) (PoolSnapshots s) (BlockFee s) (ShareIssuance s)
    v (stable_bcast s) (stable_ext s).
Definition set_stable_bcast (v : broadcast AccountId) s : stable :=
  mkStable (Pools s) (PoolPegs s) (AssetTradability s) (PoolSnapshots s) (BlockFee s) (ShareIssuance s)
    (stable_events s) v (stable_ext s).
Definition set_stable_ext (v : X) s : stable :=
  mkStable (Pools s) (PoolPegs s) (AssetTradability s) (PoolSnapshots s) (BlockFee s) (ShareIssuance s)
    (stable_events s) (stable_bcast s) v.

Definition deposit_event (e : StableEvent.t AccountId) : StableM unit :=
  modify (λ s, set_stable_events (stable_events s ++ [e]) s).
Definition broadcast_event (f : broadcast AccountId → broadcast AccountId) : StableM unit :=
  modify (λ s, set_stable_bcast (f (stable_bcast s)) s).
Definition call (f : X → result Z X) : StableM unit := on_ext_ stable_ext set_stable_ext f.

Definition block_of s : Z := current_block_number T (stable_ext s).
(** Storage maps with a default. *)
Definition share_issuance s (pool_id : AssetId) : Balance := default 0 (ShareIssuance s !! pool_id).
Definition tradability s (pool_id asset_id : AssetId) : Z :=
  default Tradability.default (AssetTradability s !! (pool_id, asset_id)).

Definition is_asset_allowed (pool_id asset_id : AssetId) (operation : Z) s : bool :=
  Tradability.contains (tradability s pool_id asset_id) operation.

Definition reserves_with_decimals pool (account : AccountId) x : option (list AssetReserve) :=
  mapM (λ asset,
    decimals ← asset_decimals T asset x;
    Some (mkReserve (free_balance asset account x) decimals)) (PoolInfo.assets pool).

(** The reserves of a pool, as every operation reads them. *)
Definition pool_reserves (pool_id : AssetId) pool s : option (list AssetReserve) :=
  reserves_with_decimals pool (pool_account T pool_id) (stable_ext s).

Definition get_amplification pool s : Z :=
  calculate_amplification (PoolInfo.initial_amplification pool) (PoolInfo.final_amplification pool)
    (PoolInfo.initial_block pool) (PoolInfo.final_block pool) (block_of s).

(** ** Pegs *)

Fixpoint target_pegs (pool_assets : list AssetId) (peg_sources : list PegSource.t) x : result Error (list (Peg * Z)) :=
  match pool_assets, peg_sources with
  | asset_id :: pool_assets, source :: peg_sources =>
      p ← map_err (λ _, ModuleError StableError.MissingTargetPegOracle) (get_raw_entry T asset_id source x);
      r ← target_pegs pool_assets peg_sources x;
      Ok (p :: r)
  | _, _ => Ok []
  end.

Definition get_target_pegs (pool_assets : list AssetId) (peg_sources : list PegSource.t) x :
    result Error (list (Peg * Z)) :=
  match pool_assets with
  | [] => Err (ModuleError StableError.IncorrectAssets)
  | _ => target_pegs pool_assets peg_sources x
  end.

(** The trade fee and the pegs of the current block. *)
Definition get_updated_pegs (pool_id : AssetId) pool s : result Error (Z * list Peg) :=
  match PoolPegs s !! pool_id with
  | None => Ok (PoolInfo.fee pool, replicate (length (PoolInfo.assets pool)) (1, 1))
  | Some peg_info =>
      let current_block := block_of s in
      target ← get_target_pegs (PoolInfo.assets pool) (PoolPegInfo.source peg_info) (stable_ext s);
      if PoolPegInfo.updated_at peg_info =? current_block then
        Ok (default (PoolInfo.fee pool) (BlockFee s !! pool_id), PoolPegInfo.current peg_info)
      else
        ok_or (recalculate_pegs (PoolPegInfo.current peg_info) (PoolPegInfo.updated_at peg_info) target
                 current_block (PoolPegInfo.max_peg_update peg_info) (PoolInfo.fee pool))
          (Arithmetic ArithmeticError.Overflow)
  end.

Definition update_and_return_pegs_and_trade_fee (pool_id : AssetId) pool : StableM (Z * list Peg) :=
  s ← get;
  fp ← lift (get_updated_pegs pool_id pool s);
  _ ← match PoolPegs s !! pool_id with
      | None => mret tt
      | Some peg_info =>
          modify (λ s,
            set_BlockFee (<[pool_id := fp.1]> (BlockFee s))
              (set_PoolPegs (<[pool_id := PoolPegInfo.with_new_pegs peg_info fp.2 (block_of s)]> (PoolPegs s)) s))
      end;
  mret fp.

(** ** Snapshots of a block *)

Definition create_snapshot (pool_id : AssetId) s : option PoolSnapshot.t :=
  pool ← Pools s !! pool_id;
  let amplification := get_amplification pool s in
  let issuance := share_issuance s pool_id in
  reserves ← pool_reserves pool_id pool s;
  '(block_fee, asset_pegs) ← ok (get_updated_pegs pool_id pool s);
  Some (PoolSnapshot.mk (PoolInfo.assets pool) (take MAX_ASSETS_IN_POOL reserves) amplification
    (PoolInfo.fee pool) block_fee (take MAX_ASSETS_IN_POOL asset_pegs) issuance).

Definition initial_pool_snapshot (pool_id : AssetId) s : option PoolSnapshot.t :=
  match PoolSnapshots s !! pool_id with Some snapshot => Some snapshot | None => create_snapshot pool_id s end.

(** A method of [PoolSnapshot] that reads the storage. *)
Definition has_peg_source_set (pool_id : AssetId) s : bool := bool_decide (is_Some (PoolPegs s !! pool_id)).

Definition save_snapshot (pool_id : AssetId) : StableM unit := modify (λ s,
  match PoolSnapshots s !! pool_id with
  | Some _ => s
  | None =>
      match create_snapshot pool_id s with
      | Some snapshot => set_PoolSnapshots (<[pool_id := snapshot]> (PoolSnapshots s)) s
      | None => s
      end
  end).

Definition on_finalize s : stable := set_BlockFee ∅ (set_PoolSnapshots ∅ s).

(** ** Shares *)

Definition mint_shares (pool_id : AssetId) who (amount : Balance) : StableM unit :=
  s ← get;
  issuance ← math_or (checked_add u128 (share_issuance s pool_id) amount) ArithmeticError.Overflow;
  _ ← modify (λ s, set_ShareIssuance (<[pool_id := issuance]> (ShareIssuance s)) s);
  call (deposit pool_id who amount).

Definition burn_shares (pool_id : AssetId) who (amount : Balance) : StableM unit :=
  s ← get;
  issuance ← some_or (checked_sub (share_issuance s pool_id) amount) StableError.InsufficientShareIssuance;
  _ ← modify (λ s, set_ShareIssuance (<[pool_id := issuance]> (ShareIssuance s)) s);
  call (withdraw pool_id who amount AllowDeath).

Definition ensure_issuance_in_sync (pool_id : AssetId) : StableM unit :=
  s ← get;
  ensure_or (total_issuance pool_id (stable_ext s) <=? share_issuance s pool_id)
    StableError.UnaccountedShareIssuance.

(** ** Hooks and checks at the end of an operation *)

Definition get_pool_state (pool_id : AssetId) (initial_reserves : list AssetReserve)
    (initial_issuance : option Balance) s : result Error PoolState.t :=
  pool ← ok_or (Pools s !! pool_id) (ModuleError StableError.PoolNotFound);
  let amplification := get_amplification pool s in
  let issuance := share_issuance s pool_id in
  updated_reserves ← ok_or (pool_reserves pool_id pool s) (ModuleError StableError.UnknownDecimals);
  fp ← get_updated_pegs pool_id pool s;
  share_prices ← ok_or (calculate_share_prices D_ITERATIONS updated_reserves amplification issuance fp.2)
    (Arithmetic ArithmeticError.Overflow);
  let deltas := zip_with (λ initial updated, Z.abs (amount initial - amount updated))
    initial_reserves updated_reserves in
  Ok (PoolState.mk (PoolInfo.assets pool) (amount <$> initial_reserves) (amount <$> updated_reserves) deltas
        (default issuance initial_issuance) issuance share_prices).

Definition call_on_liquidity_change_hook (pool_id : AssetId) (initial_reserves : list AssetReserve)
    (initial_issuance : Balance) : StableM unit :=
  s ← get;
  state ← lift (get_pool_state pool_id initial_reserves (Some initial_issuance) s);
  call (on_liquidity_changed T pool_id state).

Definition call_on_trade_hook (pool_id asset_in asset_out : AssetId) (initial_reserves : list AssetReserve) :
    StableM unit :=
  s ← get;
  state ← lift (get_pool_state pool_id initial_reserves None s);
  call (on_trade T pool_id asset_in asset_out state).

Notation InvariantError := (ModuleError StableError.InvariantError).

(** D before and after the operation, with the pegs of the block: the part the
    three checks share. *)
Definition invariants (pool_id : AssetId) pool (initial_reserves : list AssetReserve) s : result Error (Z * Z) :=
  fp ← map_err (λ _, InvariantError) (get_updated_pegs pool_id pool s);
  final_reserves ← ok_or (pool_reserves pool_id pool s) InvariantError;
  let amplification := get_amplification pool s in
  initial_d ← ok_or (calculate_d D_ITERATIONS initial_reserves amplification fp.2) InvariantError;
  final_d ← ok_or (calculate_d D_ITERATIONS final_reserves amplification fp.2) InvariantError;
  Ok (initial_d, final_d).

(** [FixedU128::from_rational] panics on overflow. *)
Definition ensure_ratio (initial_d initial_issuance final_d current_issuance : Z) : result Error unit :=
  initial_r ← ok_or (fixed_from_rational initial_d initial_issuance) (Foreign (-1));
  final_r ← ok_or (fixed_from_rational final_d current_issuance) (Foreign (-1));
  ensure (initial_r <=? final_r) InvariantError.

Definition ensure_add_liquidity_invariant (pool_id : AssetId) (initial_reserves : list AssetReserve)
    (initial_issuance : Balance) : StableM unit :=
  _ ← ensure_issuance_in_sync pool_id;
  s ← get;
  lift (pool ← ok_or (Pools s !! pool_id) InvariantError;
        d ← invariants pool_id pool initial_reserves s;
        _ ← ensure (d.1 <=? d.2) InvariantError;
        if initial_issuance =? 0 then Ok tt else
        let current_share_issuance := share_issuance s pool_id in
        _ ← ensure (negb (current_share_issuance =? 0)) InvariantError;
        ensure_ratio d.1 initial_issuance d.2 current_share_issuance).

Definition ensure_remove_liquidity_invariant (pool_id : AssetId) (initial_reserves : list AssetReserve)
    (initial_issuance : Balance) : StableM unit :=
  _ ← ensure_issuance_in_sync pool_id;
  s ← get;
  lift match Pools s !! pool_id with
       | None => Ok tt
       | Some pool =>
           d ← invariants pool_id pool initial_reserves s;
           _ ← ensure (d.2 <=? d.1) InvariantError;
           let current_share_issuance := share_issuance s pool_id in
           if current_share_issuance =? 0 then Ok tt else
           _ ← ensure (negb (initial_issuance =? 0)) InvariantError;
           ensure_ratio d.1 initial_issuance d.2 current_share_issuance
       end.

Definition ensure_trade_invariant (pool_id : AssetId) (initial_reserves : list AssetReserve) : StableM unit :=
  _ ← ensure_issuance_in_sync pool_id;
  s ← get;
  lift (pool ← ok_or (Pools s !! pool_id) InvariantError;
        d ← invariants pool_id pool initial_reserves s;
        ensure (d.1 <=? d.2) InvariantError).

(** ** Amounts of a trade *)

(** Recalculate the pegs, and store them if [persist_peg]. *)
Definition pegs_for (persist_peg : bool) (pool_id : AssetId) pool : StableM (Z * list Peg) :=
  if persist_peg then update_and_return_pegs_and_trade_fee pool_id pool
  else s ← get; lift (get_updated_pegs pool_id pool s).

Definition calculate_out_amount (pool_id asset_in asset_out : AssetId) (amount_in : Balance) (persist_peg : bool) :
    StableM (Balance * Balance) :=
  s ← get;
  pool ← some_or (Pools s !! pool_id) StableError.PoolNotFound;
  index_in ← some_or (PoolInfo.find_asset pool asset_in) StableError.AssetNotInPool;
  index_out ← some_or (PoolInfo.find_asset pool asset_out) StableError.AssetNotInPool;
  initial_reserves ← some_or (pool_reserves pool_id pool s) StableError.UnknownDecimals;
  reserve_in ← or_panic (initial_reserves !! index_in);
  _ ← ensure_or (negb (amount reserve_in =? 0)) StableError.InsufficientLiquidity;
  reserve_out ← or_panic (initial_reserves !! index_out);
  _ ← ensure_or (negb (amount reserve_out =? 0)) StableError.InsufficientLiquidity;
  let amplification := get_amplification pool s in
  '(trade_fee, asset_pegs) ← pegs_for persist_peg pool_id pool;
  math_or (calculate_out_given_in_with_fee D_ITERATIONS Y_ITERATIONS initial_reserves index_in index_out amount_in
             amplification trade_fee asset_pegs) ArithmeticError.Overflow.

Definition calculate_in_amount (pool_id asset_in asset_out : AssetId) (amount_out : Balance) (persist_peg : bool) :
    StableM (Balance * Balance) :=
  s ← get;
  pool ← some_or (Pools s !! pool_id) StableError.PoolNotFound;
  index_in ← some_or (PoolInfo.find_asset pool asset_in) StableError.AssetNotInPool;
  index_out ← some_or (PoolInfo.find_asset pool asset_out) StableError.AssetNotInPool;
  initial_reserves ← some_or (pool_reserves pool_id pool s) StableError.UnknownDecimals;
  reserve_out ← or_panic (initial_reserves !! index_out);
  _ ← ensure_or (amount_out <? amount reserve_out) StableError.InsufficientLiquidity;
  reserve_in ← or_panic (initial_reserves !! index_in);
  _ ← ensure_or (negb (amount reserve_in =? 0)) StableError.InsufficientLiquidity;
  let amplification := get_amplification pool s in
  '(trade_fee, asset_pegs) ← pegs_for persist_peg pool_id pool;
  math_or (calculate_in_given_out_with_fee D_ITERATIONS Y_ITERATIONS initial_reserves index_in index_out amount_out
             amplification trade_fee asset_pegs) ArithmeticError.Overflow.

(** ** Creation of pools *)

Definition in_amplification_range (amplification : Z) : bool :=
  ((AmplificationRange T).1 <=? amplification) && (amplification <=? (AmplificationRange T).2).

(** [NonZeroU16::new]. *)
Definition non_zero (v : Z) : option Z := if v =? 0 then None else Some v.

(** The checks of the pegs of a new pool. *)
Definition check_pegs (p : PoolPegInfo.t) (pool_assets : list AssetId) x : result Error unit :=
  _ ← ensure (length (PoolPegInfo.current p) =? length pool_assets)%nat
        (ModuleError StableError.IncorrectInitialPegs);
  let enforce_decimals :=
    existsb (λ v, match v with PegSource.Oracle _ _ _ => true | _ => false end) (PoolPegInfo.source p) in
  decimals_info ← ok_or (mapM (λ asset, asset_decimals T asset x) pool_assets)
    (ModuleError StableError.UnknownDecimals);
  if enforce_decimals then
    ensure (forallb (λ v, bool_decide (Some v = head decimals_info)) decimals_info)
      (ModuleError StableError.IncorrectAssetDecimals)
  else Ok tt.

Definition do_create_pool (share_asset : AssetId) (assets : list AssetId) (amplification fee : Z)
    (peg_info : option PoolPegInfo.t) : StableM AssetId :=
  s ← get;
  _ ← ensure_or (bool_decide (Pools s !! share_asset = None)) StableError.PoolExists;
  _ ← ensure_or (registry_exists T share_asset (stable_ext s)) StableError.ShareAssetNotRegistered;
  _ ← ensure_or (negb (bool_decide (share_asset ∈ assets))) StableError.ShareAssetInPoolAssets;
  let block_number := block_of s in
  let pool_assets := sort assets in
  _ ← ensure_or (length pool_assets <=? MAX_ASSETS_IN_POOL)%nat StableError.MaxAssetsExceeded;
  let pool := PoolInfo.mk pool_assets amplification amplification block_number block_number fee in
  _ ← ensure_or (PoolInfo.is_valid pool) StableError.IncorrectAssets;
  _ ← ensure_or (in_amplification_range amplification) StableError.InvalidAmplification;
  _ ← ensure_or (forallb (λ asset, registry_exists T asset (stable_ext s)) pool_assets)
        StableError.AssetNotRegistered;
  _ ← match peg_info with
      | None => mret tt
      | Some p =>
          _ ← lift (check_pegs p pool_assets (stable_ext s));
          modify (λ s, set_PoolPegs (<[share_asset := p]> (PoolPegs s)) s)
      end;
  _ ← modify (λ s, set_Pools (<[share_asset := pool]> (Pools s)) s);
  _ ← call (dust_add_account T (pool_account T share_asset));
  mret share_asset.

(** The events of a new pool. *)
Definition pool_created (pool_id : AssetId) (assets : list AssetId) (amplification fee : Z)
    (peg : option PoolPegInfo.t) : StableM unit :=
  s ← get;
  _ ← deposit_event (StableEvent.PoolCreated pool_id assets amplification fee peg);
  deposit_event (StableEvent.AmplificationChanging pool_id amplification amplification (block_of s) (block_of s)).

Definition create_pool o (share_asset : AssetId) (assets : list AssetId) (amplification fee : Z) : StableM unit :=
  _ ← ensure_origin (AuthorityOrigin T) o;
  amplification ← some_or (non_zero amplification) StableError.InvalidAmplification;
  pool_id ← do_create_pool share_asset assets amplification fee None;
  pool_created pool_id assets amplification fee None.

Definition create_pool_with_pegs o (share_asset : AssetId) (assets : list AssetId) (amplification fee : Z)
    (peg_source : list PegSource.t) (max_peg_update : Z) : StableM unit :=
  _ ← ensure_origin (AuthorityOrigin T) o;
  amplification ← some_or (non_zero amplification) StableError.InvalidAmplification;
  s ← get;
  initial_pegs ← lift (get_target_pegs assets peg_source (stable_ext s));
  let peg_info := PoolPegInfo.mk peg_source (block_of s) max_peg_update
    (take MAX_ASSETS_IN_POOL (initial_pegs.*1)) in
  pool_id ← do_create_pool share_asset assets amplification fee (Some peg_info);
  pool_created pool_id assets amplification fee (Some peg_info).

(** ** Parameters of a pool *)

(** [Pools::try_mutate] and [PoolPegs::try_mutate] with the value that must be there. *)
Definition try_mutate_pool (pool_id : AssetId) (f : PoolInfo.t → StableM PoolInfo.t) : StableM unit :=
  s ← get;
  pool ← some_or (Pools s !! pool_id) StableError.PoolNotFound;
  pool ← f pool;
  modify (λ s, set_Pools (<[pool_id := pool]> (Pools s)) s).
Definition try_mutate_pegs (pool_id : AssetId) (f : PoolPegInfo.t → StableM PoolPegInfo.t) : StableM unit :=
  s ← get;
  peg_info ← some_or (PoolPegs s !! pool_id) StableError.NoPegSource;
  peg_info ← f peg_info;
  modify (λ s, set_PoolPegs (<[pool_id := peg_info]> (PoolPegs s)) s).

Definition update_pool_fee o (pool_id : AssetId) (fee : Z) : StableM unit :=
  _ ← ensure_origin (AuthorityOrigin T) o;
  try_mutate_pool pool_id (λ pool,
    _ ← deposit_event (StableEvent.FeeUpdated pool_id fee);
    mret (PoolInfo.mk (PoolInfo.assets pool) (PoolInfo.initial_amplification pool)
            (PoolInfo.final_amplification pool) (PoolInfo.initial_block pool) (PoolInfo.final_block pool) fee)).

Definition update_amplification o (pool_id : AssetId) (final_amplification start_block end_block : Z) :
    StableM unit :=
  _ ← ensure_origin (AuthorityOrigin T) o;
  s ← get;
  _ ← ensure_or ((start_block <? end_block) && (block_of s <=? start_block)) StableError.PastBlock;
  try_mutate_pool pool_id (λ pool,
    let current_amplification := get_amplification pool s in
    _ ← ensure_or (negb (current_amplification =? final_amplification)) StableError.SameAmplification;
    initial ← some_or (non_zero (Z.min current_amplification (max_value 16))) StableError.InvalidAmplification;
    final ← some_or (non_zero final_amplification) StableError.InvalidAmplification;
    _ ← ensure_or (in_amplification_range final) StableError.InvalidAmplification;
    _ ← deposit_event (StableEvent.AmplificationChanging pool_id initial final start_block end_block);
    mret (PoolInfo.mk (PoolInfo.assets pool) initial final start_block end_block (PoolInfo.fee pool))).

Definition set_asset_tradable_state o (pool_id asset_id : AssetId) (state : Z) : StableM unit :=
  _ ← ensure_origin (UpdateTradabilityOrigin T) o;
  s ← get;
  pool ← some_or (Pools s !! pool_id) StableError.PoolNotFound;
  _ ← some_or (PoolInfo.find_asset pool asset_id) StableError.AssetNotInPool;
  _ ← modify (λ s,
        if state =? Tradability.default
        then set_AssetTradability (delete (pool_id, asset_id) (AssetTradability s)) s
        else set_AssetTradability (<[(pool_id, asset_id) := state]> (AssetTradability s)) s);
  deposit_event (StableEvent.TradableStateUpdated pool_id asset_id state).

Definition update_asset_peg_source o (pool_id asset_id : AssetId) (peg_source : PegSource.t) : StableM unit :=
  _ ← ensure_origin (AuthorityOrigin T) o;
  s ← get;
  pool ← some_or (Pools s !! pool_id) StableError.PoolNotFound;
  asset_index ← some_or (PoolInfo.find_asset pool asset_id) StableError.AssetNotInPool;
  try_mutate_pegs pool_id (λ peg_info,
    _ ← ensure_or (length (PoolPegInfo.source peg_info) =? length (PoolInfo.assets pool))%nat
          StableError.IncorrectAssets;
    _ ← deposit_event (StableEvent.PoolPegSourceUpdated pool_id asset_id peg_source);
    mret (PoolPegInfo.mk (<[asset_index := peg_source]> (PoolPegInfo.source peg_info))
            (PoolPegInfo.updated_at peg_info) (PoolPegInfo.max_peg_update peg_info) (PoolPegInfo.current peg_info))).

Definition update_pool_max_peg_update o (pool_id : AssetId) (max_peg_update : Z) : StableM unit :=
  _ ← ensure_origin (AuthorityOrigin T) o;
  s ← get;
  _ ← ensure_or (bool_decide (is_Some (Pools s !! pool_id))) StableError.PoolNotFound;
  try_mutate_pegs pool_id (λ peg_info,
    _ ← deposit_event (StableEvent.PoolMaxPegUpdateUpdated pool_id max_peg_update);
    mret (PoolPegInfo.mk (PoolPegInfo.source peg_info) (PoolPegInfo.updated_at peg_info) max_peg_update
            (PoolPegInfo.current peg_info))).

(** ** Adding liquidity *)

(** The first loop: the amounts by asset. *)
Fixpoint collect_assets (pool_id : AssetId) who (assets : list AssetAmount.t) (added_assets : gmap Z Balance) s :
    result Error (gmap Z Balance) :=
  match assets with
  | [] => Ok added_assets
  | AssetAmount.new asset_id amount :: assets =>
      _ ← ensure (is_asset_allowed pool_id asset_id Tradability.ADD_LIQUIDITY s)
            (ModuleError StableError.NotAllowed);
      _ ← ensure (MinTradingLimit T <=? amount) (ModuleError StableError.InsufficientTradingAmount);
      _ ← ensure (amount <=? free_balance asset_id who (stable_ext s))
            (ModuleError StableError.InsufficientBalance);
      match added_assets !! asset_id with
      | Some _ => Err (ModuleError StableError.IncorrectAssets)
      | None => collect_assets pool_id who assets (<[asset_id := amount]> added_assets) s
      end
  end.

(** The second loop: the reserves before and after, what was provided, and the
    amounts that belong to no asset of the pool.  While no shares exist, what the
    pool holds belongs to the first provider. *)
Fixpoint apply_liquidity (account : AccountId) (issuance : Balance) x (pool_assets : list AssetId)
    (added_assets : gmap Z Balance) :
    result Error (list AssetReserve * list AssetReserve * list AssetAmount.t * gmap Z Balance) :=
  match pool_assets with
  | [] => Ok ([], [], [], added_assets)
  | pool_asset :: pool_assets =>
      decimals ← ok_or (asset_decimals T pool_asset x) (ModuleError StableError.UnknownDecimals);
      let reserve := free_balance pool_asset account x in
      let '(reserve, added_assets) :=
        if negb (reserve =? 0) && (issuance =? 0) then
          (0, <[pool_asset := match added_assets !! pool_asset with
                              | Some liq_added => saturating_add u128 liq_added reserve
                              | None => reserve
                              end]> added_assets)
        else (reserve, added_assets) in
      match added_assets !! pool_asset with
      | Some liq_added =>
          inc_reserve ← ok_or (checked_add u128 reserve liq_added) (Arithmetic ArithmeticError.Overflow);
          '(initial, updated, provided, remaining) ←
            apply_liquidity account issuance x pool_assets (delete pool_asset added_assets);
          Ok (mkReserve reserve decimals :: initial, mkReserve inc_reserve decimals :: updated,
              AssetAmount.new pool_asset liq_added :: provided, remaining)
      | None =>
          _ ← ensure (negb (reserve =? 0)) (ModuleError StableError.InvalidInitialLiquidity);
          '(initial, updated, provided, remaining) ← apply_liquidity account issuance x pool_assets added_assets;
          Ok (mkReserve reserve decimals :: initial, mkReserve reserve decimals :: updated, provided, remaining)
      end
  end.

Fixpoint transfer_all who (account : AccountId) (assets : list AssetAmount.t) : StableM unit :=
  match assets with
  | [] => mret tt
  | AssetAmount.new asset_id amount :: assets =>
      _ ← call (transfer asset_id who account amount AllowDeath);
      transfer_all who account assets
  end.

(** The fees of an operation on all assets, as the broadcast reports them. *)
Definition fees_of (fees : list Balance) (assets : list AssetId) (account : AccountId) : list (Fee AccountId) :=
  zip_with (λ balance asset_id, mkFee asset_id balance (Account account)) fees assets.

Definition do_add_liquidity who (pool_id : AssetId) (assets : list AssetAmount.t) (min_shares : Balance) :
    StableM Balance :=
  s ← get;
  pool ← some_or (Pools s !! pool_id) StableError.PoolNotFound;
  _ ← ensure_or (length assets <=? length (PoolInfo.assets pool))%nat StableError.MaxAssetsExceeded;
  added_assets ← lift (collect_assets pool_id who assets ∅ s);
  let issuance := share_issuance s pool_id in
  _ ← save_snapshot pool_id;
  let account := pool_account T pool_id in
  '(initial_reserves, updated_reserves, provided_assets, remaining) ←
    lift (apply_liquidity account issuance (stable_ext s) (PoolInfo.assets pool) added_assets);
  _ ← ensure_or (bool_decide (remaining = ∅)) StableError.AssetNotInPool;
  let amplification := get_amplification pool s in
  '(trade_fee, asset_pegs) ← update_and_return_pegs_and_trade_fee pool_id pool;
  '(share_amount, fees) ← math_or (calculate_shares D_ITERATIONS initial_reserves updated_reserves amplification
    issuance trade_fee asset_pegs) ArithmeticError.Overflow;
  _ ← ensure_or (negb (share_amount =? 0)) StableError.InvalidAssetAmount;
  _ ← ensure_or (min_shares <=? share_amount) StableError.SlippageLimit;
  let current_share_balance := free_balance pool_id who (stable_ext s) in
  _ ← ensure_or (MinPoolLiquidity T <=? saturating_add u128 current_share_balance share_amount)
        StableError.InsufficientShareBalance;
  _ ← mint_shares pool_id who share_amount;
  _ ← transfer_all who account assets;
  _ ← call_on_liquidity_change_hook pool_id initial_reserves issuance;
  _ ← ensure_add_liquidity_invariant pool_id initial_reserves issuance;
  _ ← deposit_event (StableEvent.LiquidityAdded pool_id who share_amount provided_assets);
  _ ← broadcast_event (deposit_trade_event who account (Stableswap pool_id) LiquidityAdd
        ((λ a, mkAsset (AssetAmount.asset_id a) (AssetAmount.amount a)) <$> provided_assets)
        [mkAsset pool_id share_amount] (fees_of fees (PoolInfo.assets pool) account));
  mret share_amount.

Definition add_assets_liquidity o (pool_id : AssetId) (assets : list AssetAmount.t) (min_shares : Balance) :
    StableM unit :=
  who ← lift (ensure_signed o);
  _ ← do_add_liquidity who pool_id assets min_shares;
  mret tt.

Definition do_add_liquidity_shares who (pool_id : AssetId) (shares : Balance) (asset_id : AssetId)
    (max_asset_amount : Balance) : StableM Balance :=
  s ← get;
  _ ← ensure_or (is_asset_allowed pool_id asset_id Tradability.ADD_LIQUIDITY s) StableError.NotAllowed;
  pool ← some_or (Pools s !! pool_id) StableError.PoolNotFound;
  asset_idx ← some_or (PoolInfo.find_asset pool asset_id) StableError.AssetNotInPool;
  let issuance := share_issuance s pool_id in
  let amplification := get_amplification pool s in
  let account := pool_account T pool_id in
  initial_reserves ← some_or (pool_reserves pool_id pool s) StableError.UnknownDecimals;
  _ ← ensure_or (forallb (λ reserve, negb (amount reserve =? 0)) initial_reserves)
        StableError.InvalidInitialLiquidity;
  '(trade_fee, asset_pegs) ← update_and_return_pegs_and_trade_fee pool_id pool;
  '(amount_in, fee) ← math_or (calculate_add_one_asset D_ITERATIONS Y_ITERATIONS initial_reserves shares asset_idx
    issuance amplification trade_fee asset_pegs) ArithmeticError.Overflow;
  _ ← ensure_or (amount_in <=? max_asset_amount) StableError.SlippageLimit;
  _ ← ensure_or (negb (amount_in =? 0)) StableError.InvalidAssetAmount;
  let current_share_balance := free_balance pool_id who (stable_ext s) in
  _ ← ensure_or (MinPoolLiquidity T <=? saturating_add u128 current_share_balance shares)
        StableError.InsufficientShareBalance;
  _ ← save_snapshot pool_id;
  _ ← mint_shares pool_id who shares;
  _ ← call (transfer asset_id who account amount_in AllowDeath);
  _ ← call_on_liquidity_change_hook pool_id initial_reserves issuance;
  _ ← ensure_add_liquidity_invariant pool_id initial_reserves issuance;
  _ ← broadcast_event (deposit_trade_event who account (Stableswap pool_id) LiquidityAdd
        [mkAsset asset_id amount_in] [mkAsset pool_id shares] [mkFee pool_id fee (Account account)]);
  mret amount_in.

Definition add_liquidity_shares o (pool_id : AssetId) (shares : Balance) (asset_id : AssetId)
    (max_asset_amount : Balance) : StableM unit :=
  who ← lift (ensure_signed o);
  amount_in ← do_add_liquidity_shares who pool_id shares asset_id max_asset_amount;
  deposit_event (StableEvent.LiquidityAdded pool_id who shares [AssetAmount.new asset_id amount_in]).

(** ** Removing liquidity *)

Definition do_remove_liquidity_one_asset who (pool_id asset_id : AssetId) (share_amount min_amount_out : Balance) :
    StableM Balance :=
  s ← get;
  _ ← ensure_or (is_asset_allowed pool_id asset_id Tradability.REMOVE_LIQUIDITY s) StableError.NotAllowed;
  _ ← ensure_or (0 <? share_amount) StableError.InvalidAssetAmount;
  _ ← ensure_or (share_amount <=? free_balance pool_id who (stable_ext s)) StableError.InsufficientShares;
  pool ← some_or (Pools s !! pool_id) StableError.PoolNotFound;
  asset_idx ← some_or (PoolInfo.find_asset pool asset_id) StableError.AssetNotInPool;
  let account := pool_account T pool_id in
  initial_reserves ← some_or (pool_reserves pool_id pool s) StableError.UnknownDecimals;
  let issuance := share_issuance s pool_id in
  _ ← ensure_or ((issuance =? share_amount) || (MinPoolLiquidity T <=? saturating_sub issuance share_amount))
        StableError.InsufficientLiquidityRemaining;
  let amplification := get_amplification pool s in
  '(trade_fee, asset_pegs) ← update_and_return_pegs_and_trade_fee pool_id pool;
  _ ← save_snapshot pool_id;
  '(amount, fee) ← math_or (calculate_withdraw_one_asset D_ITERATIONS Y_ITERATIONS initial_reserves share_amount
    asset_idx issuance amplification trade_fee asset_pegs) ArithmeticError.Overflow;
  _ ← ensure_or (min_amount_out <=? amount) StableError.SlippageLimit;
  _ ← ensure_or (1 <=? amount) StableError.ZeroAmountOut;
  _ ← burn_shares pool_id who share_amount;
  _ ← call (transfer asset_id account who amount AllowDeath);
  _ ← call_on_liquidity_change_hook pool_id initial_reserves issuance;
  _ ← deposit_event
        (StableEvent.LiquidityRemoved pool_id who share_amount [AssetAmount.new asset_id amount] fee);
  _ ← broadcast_event (deposit_trade_event who account (Stableswap pool_id) LiquidityRemove
        [mkAsset pool_id share_amount] [mkAsset asset_id amount] [mkFee pool_id fee (Account account)]);
  _ ← ensure_remove_liquidity_invariant pool_id initial_reserves issuance;
  mret amount.

Definition remove_liquidity_one_asset o (pool_id asset_id : AssetId) (share_amount min_amount_out : Balance) :
    StableM unit :=
  who ← lift (ensure_signed o);
  _ ← do_remove_liquidity_one_asset who pool_id asset_id share_amount min_amount_out;
  mret tt.

Definition withdraw_asset_amount o (pool_id asset_id : AssetId) (amount' max_share_amount : Balance) : StableM unit :=
  who ← lift (ensure_signed o);
  s ← get;
  _ ← ensure_or (is_asset_allowed pool_id asset_id Tradability.REMOVE_LIQUIDITY s) StableError.NotAllowed;
  _ ← ensure_or (0 <? amount') StableError.InvalidAssetAmount;
  pool ← some_or (Pools s !! pool_id) StableError.PoolNotFound;
  asset_idx ← some_or (PoolInfo.find_asset pool asset_id) StableError.AssetNotInPool;
  let account := pool_account T pool_id in
  initial_reserves ← some_or (pool_reserves pool_id pool s) StableError.UnknownDecimals;
  let issuance := share_issuance s pool_id in
  let amplification := get_amplification pool s in
  '(trade_fee, asset_pegs) ← update_and_return_pegs_and_trade_fee pool_id pool;
  _ ← save_snapshot pool_id;
  '(shares, fees) ← math_or (calculate_shares_for_amount D_ITERATIONS initial_reserves asset_idx amount'
    amplification issuance trade_fee asset_pegs) ArithmeticError.Overflow;
  _ ← ensure_or (shares <=? max_share_amount) StableError.SlippageLimit;
  _ ← ensure_or (1 <=? shares) StableError.ZeroAmountIn;
  _ ← burn_shares pool_id who shares;
  _ ← call (transfer asset_id account who amount' AllowDeath);
  _ ← call_on_liquidity_change_hook pool_id initial_reserves issuance;
  _ ← deposit_event (StableEvent.LiquidityRemoved pool_id who shares [AssetAmount.new asset_id amount'] 0);
  _ ← broadcast_event (deposit_trade_event who account (Stableswap pool_id) LiquidityRemove
        [mkAsset pool_id shares] [mkAsset asset_id amount'] (fees_of fees (PoolInfo.assets pool) account));
  ensure_remove_liquidity_invariant pool_id initial_reserves issuance.

(** The minimal amounts by asset. *)
Fixpoint min_amounts_map (min_amounts_out : list AssetAmount.t) (acc : gmap Z Balance) : result Error (gmap Z Balance) :=
  match min_amounts_out with
  | [] => Ok acc
  | AssetAmount.new asset_id amount :: min_amounts_out =>
      _ ← ensure (bool_decide (acc !! asset_id = None)) (ModuleError StableError.IncorrectAssets);
      min_amounts_map min_amounts_out (<[asset_id := amount]> acc)
  end.

(** The loop that pays out every asset; [at_least_one] refuses an amount of zero. *)
Fixpoint pay_out (at_least_one : bool) who (pool_id : AssetId) (share_amount issuance : Balance)
    (pool_assets : list AssetId) (min_amounts_out : gmap Z Balance) : StableM (list AssetAmount.t) :=
  match pool_assets with
  | [] => mret []
  | asset_id :: pool_assets =>
      s ← get;
      _ ← ensure_or (is_asset_allowed pool_id asset_id Tradability.REMOVE_LIQUIDITY s) StableError.NotAllowed;
      min_amount ← some_or (min_amounts_out !! asset_id) StableError.IncorrectAssets;
      let reserve := free_balance asset_id (pool_account T pool_id) (stable_ext s) in
      amount ← (if share_amount =? issuance then mret reserve
                else math_or (calculate_liquidity_out reserve share_amount issuance) ArithmeticError.Overflow);
      _ ← ensure_or (min_amount <=? amount) StableError.SlippageLimit;
      _ ← ensure_or (negb at_least_one || (1 <=? amount)) StableError.ZeroAmountOut;
      _ ← call (transfer asset_id (pool_account T pool_id) who amount AllowDeath);
      amounts ← pay_out at_least_one who pool_id share_amount issuance pool_assets
        (delete asset_id min_amounts_out);
      mret (AssetAmount.new asset_id amount :: amounts)
  end.

(** A pool has at most [MAX_ASSETS_IN_POOL] tradability entries, the limit given to
    [clear_prefix]. *)
Definition destroy_pool (pool_id : AssetId) : StableM unit :=
  _ ← modify (λ s,
        set_AssetTradability (filter (λ kv, kv.1.1 ≠ pool_id) (AssetTradability s))
          (set_ShareIssuance (delete pool_id (ShareIssuance s))
             (set_PoolPegs (delete pool_id (PoolPegs s)) (set_Pools (delete pool_id (Pools s)) s))));
  _ ← call (dust_remove_account T (pool_account T pool_id));
  deposit_event (StableEvent.PoolDestroyed pool_id).

(** The dispatchable and [do_remove_liquidity] differ in the check of amounts of zero. *)
Definition remove_uniformly (at_least_one : bool) who (pool_id : AssetId) (share_amount : Balance)
    (min_amounts_out : list AssetAmount.t) : StableM unit :=
  s ← get;
  _ ← ensure_or (0 <? share_amount) StableError.InvalidAssetAmount;
  _ ← ensure_or (share_amount <=? free_balance pool_id who (stable_ext s)) StableError.InsufficientShares;
  pool ← some_or (Pools s !! pool_id) StableError.PoolNotFound;
  initial_reserves ← some_or (pool_reserves pool_id pool s) StableError.UnknownDecimals;
  let issuance := share_issuance s pool_id in
  _ ← ensure_or (length min_amounts_out =? length (PoolInfo.assets pool))%nat StableError.IncorrectAssets;
  min_amounts ← lift (min_amounts_map min_amounts_out ∅);
  _ ← save_snapshot pool_id;
  amounts ← pay_out at_least_one who pool_id share_amount issuance (PoolInfo.assets pool) min_amounts;
  _ ← burn_shares pool_id who share_amount;
  _ ← (if negb (share_amount =? issuance) then call_on_liquidity_change_hook pool_id initial_reserves issuance
       else destroy_pool pool_id);
  _ ← deposit_event (StableEvent.LiquidityRemoved pool_id who share_amount amounts 0);
  ensure_remove_liquidity_invariant pool_id initial_reserves issuance.

Definition remove_liquidity o (pool_id : AssetId) (share_amount : Balance) (min_amounts_out : list AssetAmount.t) :
    StableM unit :=
  who ← lift (ensure_signed o);
  remove_uniformly false who pool_id share_amount min_amounts_out.

Definition do_remove_liquidity who (pool_id : AssetId) (share_amount : Balance)
    (min_amounts_out : list AssetAmount.t) : StableM unit :=
  remove_uniformly true who pool_id share_amount min_amounts_out.

(** ** Trades *)

Definition sell o (pool_id asset_in asset_out : AssetId) (amount_in min_buy_amount : Balance) : StableM unit :=
  who ← lift (ensure_signed o);
  s ← get;
  _ ← ensure_or (negb (asset_in =? asset_out)) StableError.NotAllowed;
  _ ← ensure_or (is_asset_allowed pool_id asset_in Tradability.SELL s
                 && is_asset_allowed pool_id asset_out Tradability.BUY s) StableError.NotAllowed;
  _ ← ensure_or (MinTradingLimit T <=? amount_in) StableError.InsufficientTradingAmount;
  _ ← ensure_or (amount_in <=? free_balance asset_in who (stable_ext s)) StableError.InsufficientBalance;
  pool ← some_or (Pools s !! pool_id) StableError.PoolNotFound;
  let account := pool_account T pool_id in
  initial_reserves ← some_or (pool_reserves pool_id pool s) StableError.UnknownDecimals;
  '(amount_out, fee_amount) ← calculate_out_amount pool_id asset_in asset_out amount_in true;
  _ ← ensure_or (min_buy_amount <=? amount_out) StableError.BuyLimitNotReached;
  _ ← save_snapshot pool_id;
  _ ← call (transfer asset_in who account amount_in AllowDeath);
  _ ← call (transfer asset_out account who amount_out AllowDeath);
  _ ← call_on_trade_hook pool_id asset_in asset_out initial_reserves;
  _ ← deposit_event (StableEvent.SellExecuted who pool_id asset_in asset_out amount_in amount_out fee_amount);
  _ ← broadcast_event (deposit_trade_event who account (Stableswap pool_id) ExactIn
        [mkAsset asset_in amount_in] [mkAsset asset_out amount_out] [mkFee asset_out fee_amount (Account account)]);
  ensure_trade_invariant pool_id initial_reserves.

Definition buy o (pool_id asset_out asset_in : AssetId) (amount_out max_sell_amount : Balance) : StableM unit :=
  who ← lift (ensure_signed o);
  s ← get;
  _ ← ensure_or (negb (asset_in =? asset_out)) StableError.NotAllowed;
  _ ← ensure_or (is_asset_allowed pool_id asset_in Tradability.SELL s
                 && is_asset_allowed pool_id asset_out Tradability.BUY s) StableError.NotAllowed;
  _ ← ensure_or (MinTradingLimit T <=? amount_out) StableError.InsufficientTradingAmount;
  pool ← some_or (Pools s !! pool_id) StableError.PoolNotFound;
  let account := pool_account T pool_id in
  initial_reserves ← some_or (pool_reserves pool_id pool s) StableError.UnknownDecimals;
  '(amount_in, fee_amount) ← calculate_in_amount pool_id asset_in asset_out amount_out true;
  _ ← ensure_or (amount_in <=? max_sell_amount) StableError.SellLimitExceeded;
  _ ← ensure_or (amount_in <=? free_balance asset_in who (stable_ext s)) StableError.InsufficientBalance;
  _ ← save_snapshot pool_id;
  _ ← call (transfer asset_in who account amount_in AllowDeath);
  _ ← call (transfer asset_out account who amount_out AllowDeath);
  _ ← call_on_trade_hook pool_id asset_in asset_out initial_reserves;
  _ ← deposit_event (StableEvent.BuyExecuted who pool_id asset_in asset_out amount_in amount_out fee_amount);
  _ ← broadcast_event (deposit_trade_event who account (Stableswap pool_id) ExactOut
        [mkAsset asset_in amount_in] [mkAsset asset_out amount_out] [mkFee asset_in fee_amount (Account account)]);
  ensure_trade_invariant pool_id initial_reserves.

(** ** [StableswapLiquidityMutation] *)

Definition mutation_add_liquidity who (pool_id : AssetId) (assets : list AssetAmount.t) : StableM Balance :=
  do_add_liquidity who pool_id assets 0.
Definition mutation_remove_liquidity_one_asset who (pool_id asset_id : AssetId)
    (share_amount min_amount_out : Balance) : StableM Balance :=
  do_remove_liquidity_one_asset who pool_id asset_id share_amount min_amount_out.
Definition mutation_remove_liquidity who (pool_id : AssetId) (share_amount : Balance)
    (min_amounts_out : list AssetAmount.t) : StableM unit :=
  do_remove_liquidity who pool_id share_amount min_amounts_out.

(** ** Simulation of trades *)

(** The snapshot to trade on: the given one, or the pool as it is. *)
Definition snapshot_or_current (pool_id : AssetId) (use_snapshot : option PoolSnapshot.t) s :
    result Error PoolSnapshot.t :=
  match use_snapshot with
  | Some snapshot => Ok snapshot
  | None => ok_or (create_snapshot pool_id s) (ModuleError StableError.PoolNotFound)
  end.

Definition simulate_sell (pool_id asset_in asset_out : AssetId) (amount_in min_buy_amount : Balance)
    (use_snapshot : option PoolSnapshot.t) s : result Error (Balance * PoolSnapshot.t) :=
  snapshot ← snapshot_or_current pool_id use_snapshot s;
  index_in ← ok_or (PoolSnapshot.asset_idx snapshot asset_in) (ModuleError StableError.AssetNotInPool);
  index_out ← ok_or (PoolSnapshot.asset_idx snapshot asset_out) (ModuleError StableError.AssetNotInPool);
  let initial_reserves := PoolSnapshot.reserves snapshot in
  reserve_in ← ok_or (initial_reserves !! index_in) (Foreign (-1));
  _ ← ensure (negb (amount reserve_in =? 0)) (ModuleError StableError.InsufficientLiquidity);
  reserve_out ← ok_or (initial_reserves !! index_out) (Foreign (-1));
  _ ← ensure (negb (amount reserve_out =? 0)) (ModuleError StableError.InsufficientLiquidity);
  out ← ok_or (calculate_out_given_in_with_fee D_ITERATIONS Y_ITERATIONS initial_reserves index_in index_out
    amount_in (PoolSnapshot.amplification snapshot) (PoolSnapshot.fee snapshot) (PoolSnapshot.pegs snapshot))
    (Arithmetic ArithmeticError.Overflow);
  _ ← ensure (min_buy_amount <=? out.1) (ModuleError StableError.SlippageLimit);
  Ok (out.1, PoolSnapshot.update_reserves snapshot (AssetAmount.new asset_in amount_in)
               (AssetAmount.new asset_out out.1)).

Definition simulate_buy (pool_id asset_in asset_out : AssetId) (amount_out max_amount_in : Balance)
    (use_snapshot : option PoolSnapshot.t) s : result Error (Balance * PoolSnapshot.t) :=
  snapshot ← snapshot_or_current pool_id use_snapshot s;
  index_in ← ok_or (PoolSnapshot.asset_idx snapshot asset_in) (ModuleError StableError.AssetNotInPool);
  index_out ← ok_or (PoolSnapshot.asset_idx snapshot asset_out) (ModuleError StableError.AssetNotInPool);
  let initial_reserves := PoolSnapshot.reserves snapshot in
  reserve_out ← ok_or (initial_reserves !! index_out) (Foreign (-1));
  _ ← ensure (amount_out <? amount reserve_out) (ModuleError StableError.InsufficientLiquidity);
  reserve_in ← ok_or (initial_reserves !! index_in) (Foreign (-1));
  _ ← ensure (negb (amount reserve_in =? 0)) (ModuleError StableError.InsufficientLiquidity);
  inp ← ok_or (calculate_in_given_out_with_fee D_ITERATIONS Y_ITERATIONS initial_reserves index_in index_out
    amount_out (PoolSnapshot.amplification snapshot) (PoolSnapshot.fee snapshot) (PoolSnapshot.pegs snapshot))
    (Arithmetic ArithmeticError.Overflow);
  _ ← ensure (inp.1 <=? max_amount_in) (ModuleError StableError.SlippageLimit);
  Ok (inp.1, PoolSnapshot.update_reserves snapshot (AssetAmount.new asset_in inp.1)
               (AssetAmount.new asset_out amount_out)).

(** ** The executor of the router ([trade_execution.rs]) *)

Notation StableQuote A := (result (ExecutorError.t Error) A).

(** Only the trades of a stable pool are supported. *)
Definition for_stableswap {A} (pool_type : PoolType.t) (f : AssetId → result Error A) : StableQuote A :=
  match pool_type with
  | PoolType.Stableswap pool_id => map_err ExecutorError.Error (f pool_id)
  | _ => Err ExecutorError.NotSupported
  end.

(** What the quotes against shares read: the pool, its reserves, the index of the
    asset, the amplification, the trade fee and the pegs. *)
Definition share_quote_inputs (pool_id asset : AssetId) s :
    result Error (nat * list AssetReserve * Z * Z * list Peg) :=
  pool ← ok_or (Pools s !! pool_id) (ModuleError StableError.PoolNotFound);
  asset_idx ← ok_or (PoolInfo.find_asset pool asset) (ModuleError StableError.AssetNotInPool);
  balances ← ok_or (pool_reserves pool_id pool s) (ModuleError StableError.UnknownDecimals);
  '(trade_fee, asset_pegs) ← get_updated_pegs pool_id pool s;
  Ok (asset_idx, balances, get_amplification pool s, trade_fee, asset_pegs).

Definition quote_withdraw (pool_id asset_out : AssetId) (amount_in : Balance) s : result Error Balance :=
  '(asset_idx, balances, amplification, trade_fee, asset_pegs) ← share_quote_inputs pool_id asset_out s;
  fst <$> ok_or (calculate_withdraw_one_asset D_ITERATIONS Y_ITERATIONS balances amount_in asset_idx
    (share_issuance s pool_id) amplification trade_fee asset_pegs) (Arithmetic ArithmeticError.Overflow).

(** The loop over the assets of the pool for a quote of added liquidity. *)
Fixpoint quote_liquidity (account : AccountId) x (pool_assets : list AssetId) (added_assets : gmap Z Balance) :
    result Error (list AssetReserve * list AssetReserve) :=
  match pool_assets with
  | [] => Ok ([], [])
  | pool_asset :: pool_assets =>
      decimals ← ok_or (asset_decimals T pool_asset x) (ModuleError StableError.UnknownDecimals);
      let reserve := free_balance pool_asset account x in
      match added_assets !! pool_asset with
      | Some liq_added =>
          inc_reserve ← ok_or (checked_add u128 reserve liq_added) (Arithmetic ArithmeticError.Overflow);
          iu ← quote_liquidity account x pool_assets (delete pool_asset added_assets);
          Ok (mkReserve reserve decimals :: iu.1, mkReserve inc_reserve decimals :: iu.2)
      | None =>
          _ ← ensure (0 <? reserve) (ModuleError StableError.InvalidInitialLiquidity);
          iu ← quote_liquidity account x pool_assets added_assets;
          Ok (mkReserve reserve decimals :: iu.1, mkReserve reserve decimals :: iu.2)
      end
  end.

Definition quote_add (pool_id asset_in : AssetId) (amount_in : Balance) s : result Error Balance :=
  pool ← ok_or (Pools s !! pool_id) (ModuleError StableError.PoolNotFound);
  _ ← ensure (is_asset_allowed pool_id asset_in Tradability.ADD_LIQUIDITY s) (ModuleError StableError.NotAllowed);
  _ ← ensure (MinTradingLimit T <=? amount_in) (ModuleError StableError.InsufficientTradingAmount);
  _ ← ok_or (PoolInfo.find_asset pool asset_in) (ModuleError StableError.AssetNotInPool);
  '(initial_reserves, updated_reserves) ←
    quote_liquidity (pool_account T pool_id) (stable_ext s) (PoolInfo.assets pool) {[asset_in := amount_in]};
  '(trade_fee, asset_pegs) ← get_updated_pegs pool_id pool s;
  fst <$> ok_or (calculate_shares D_ITERATIONS initial_reserves updated_reserves (get_amplification pool s)
    (share_issuance s pool_id) trade_fee asset_pegs) (Arithmetic ArithmeticError.Overflow).

Definition calculate_out_given_in (pool_type : PoolType.t) (asset_in asset_out : AssetId) (amount_in : Balance) s :
    StableQuote Balance :=
  for_stableswap pool_type (λ pool_id,
    if asset_in =? pool_id then quote_withdraw pool_id asset_out amount_in s
    else if asset_out =? pool_id then quote_add pool_id asset_in amount_in s
    else r ← calculate_out_amount pool_id asset_in asset_out amount_in false s; Ok r.1.1).

Definition calculate_in_given_out (pool_type : PoolType.t) (asset_in asset_out : AssetId) (amount_out : Balance) s :
    StableQuote Balance :=
  for_stableswap pool_type (λ pool_id,
    if asset_out =? pool_id then
      '(asset_idx, balances, amplification, trade_fee, asset_pegs) ← share_quote_inputs pool_id asset_in s;
      fst <$> ok_or (calculate_add_one_asset D_ITERATIONS Y_ITERATIONS balances amount_out asset_idx
        (share_issuance s pool_id) amplification trade_fee asset_pegs) (Arithmetic ArithmeticError.Overflow)
    else if asset_in =? pool_id then
      '(asset_idx, balances, amplification, trade_fee, asset_pegs) ← share_quote_inputs pool_id asset_out s;
      fst <$> ok_or (calculate_shares_for_amount D_ITERATIONS balances asset_idx amount_out amplification
        (share_issuance s pool_id) trade_fee asset_pegs) (Arithmetic ArithmeticError.Overflow)
    else r ← calculate_in_amount pool_id asset_in asset_out amount_out false s; Ok r.1.1).

(** A dispatchable of the pool a trade goes through. *)
Definition on_stableswap (pool_type : PoolType.t) (f : AssetId → StableM unit) :
    M stable (ExecutorError.t Error) unit :=
  match pool_type with
  | PoolType.Stableswap pool_id => executor (f pool_id)
  | _ => fail ExecutorError.NotSupported
  end.

Definition execute_sell o (pool_type : PoolType.t) (asset_in asset_out : AssetId) (amount_in min_limit : Balance) :
    M stable (ExecutorError.t Error) unit :=
  on_stableswap pool_type (λ pool_id,
    if asset_in =? pool_id then remove_liquidity_one_asset o pool_id asset_out amount_in min_limit
    else if asset_out =? pool_id then
      add_assets_liquidity o pool_id [AssetAmount.new asset_in amount_in] min_limit
    else sell o pool_id asset_in asset_out amount_in min_limit).

Definition execute_buy o (pool_type : PoolType.t) (asset_in asset_out : AssetId) (amount_out max_limit : Balance) :
    M stable (ExecutorError.t Error) unit :=
  on_stableswap pool_type (λ pool_id,
    if asset_out =? pool_id then add_liquidity_shares o pool_id amount_out asset_in max_limit
    else if asset_in =? pool_id then withdraw_asset_amount o pool_id asset_out amount_out max_limit
    else buy o pool_id asset_out asset_in amount_out max_limit).

Definition get_liquidity_depth (pool_type : PoolType.t) (asset_a : AssetId) s : StableQuote Balance :=
  for_stableswap pool_type (λ pool_id, Ok (free_balance asset_a (pool_account T pool_id) (stable_ext s))).

Definition calculate_spot_price_with_fee (pool_type : PoolType.t) (asset_a asset_b : AssetId) s : StableQuote Z :=
  for_stableswap pool_type (λ pool_id,
    pool ← ok_or (Pools s !! pool_id) (ModuleError StableError.PoolNotFound);
    balances ← ok_or (pool_reserves pool_id pool s) (ModuleError StableError.UnknownDecimals);
    '(trade_fee, asset_pegs) ← get_updated_pegs pool_id pool s;
    ok_or (calculate_spot_price pool_id (zip (PoolInfo.assets pool) balances) (get_amplification pool s)
             asset_a asset_b (share_issuance s pool_id) (MinTradingLimit T) (Some trade_fee) asset_pegs)
      (Arithmetic ArithmeticError.Overflow)).

Definition stableswap_executor : TradeExecution.t stable AccountId Error :=
  TradeExecution.mk calculate_out_given_in calculate_in_given_out execute_sell execute_buy
    (λ p a _ s, get_liquidity_depth p a s) calculate_spot_price_with_fee.
End stableswap_pallet.
