(* ===== verification/StableswapInvariant.v ===== *)
(** * Invariants of the stableswap pallet

    The storage of the pallet stays well formed (sorted distinct assets, one peg
    for each, values in the range of their types), and the issuance the pallet
    tracks moves in step with the issuance of the share tokens on the ledger. *)

From stdpp Require Import sorting.
From S2P Require Import Prelude Arithmetic Currency Ratio Broadcast Traits StableswapMath StableswapBounds StableswapPallet.

(** What the pallet relies on of the components around it. *)
Class StableConfigLaws {X AccountId} `{MultiCurrency X AccountId} (T : StableConfig X AccountId) : Prop := {
  whitelist_frames a : frames_ledger (AccountId := AccountId) (dust_add_account T a);
  unlist_frames a : frames_ledger (AccountId := AccountId) (dust_remove_account T a);
  liquidity_hook_frames p st : frames_ledger (AccountId := AccountId) (on_liquidity_changed T p st);
  trade_hook_frames p i o st : frames_ledger (AccountId := AccountId) (on_trade T p i o st);
  peg_oracle_typed a src x e : get_raw_entry T a src x = Ok e → peg_typed e.1;
  block_number_fits x : fits u32 (current_block_number T x);
  amplification_range_typed : 1 <= (AmplificationRange T).1 ∧ (AmplificationRange T).2 <= max_value 16;
  stable_limits_unsigned : 0 <= MinPoolLiquidity T ∧ 0 <= MinTradingLimit T;
}.

Create HintDb stable_frames.
#[export] Hint Resolve whitelist_frames unlist_frames liquidity_hook_frames trade_hook_frames : stable_frames.

(** ** Well-formed storage *)

Definition amplification_typed (a : Z) : Prop := 1 <= a <= max_value 16.

Record pool_ok (p : AssetId) (pool : PoolInfo.t) : Prop := {
  pool_sorted : StronglySorted Z.lt (PoolInfo.assets pool);
  pool_size : (2 <= length (PoolInfo.assets pool) <= MAX_ASSETS_IN_POOL)%nat;
  pool_apart : p ∉ PoolInfo.assets pool;
  pool_initial_amplification : amplification_typed (PoolInfo.initial_amplification pool);
  pool_final_amplification : amplification_typed (PoolInfo.final_amplification pool);
  pool_fee : is_permill (PoolInfo.fee pool);
}.

Record pegs_ok (pool : PoolInfo.t) (info : PoolPegInfo.t) : Prop := {
  pegs_length : length (PoolPegInfo.current info) = length (PoolInfo.assets pool);
  pegs_sources : (length (PoolInfo.assets pool) <= length (PoolPegInfo.source info))%nat;
  pegs_current : Forall peg_typed (PoolPegInfo.current info);
  pegs_max_update : is_perbill (PoolPegInfo.max_peg_update info);
  pegs_block : 0 <= PoolPegInfo.updated_at info;
}.

(** ** Generic facts *)

Lemma index_of_Some a l i : index_of a l = Some i → l !! i = Some a.
Proof.
  unfold index_of. intros Hr. destruct (list_find _ l) as [[j b]|] eqn:E; simpl in Hr; [|done].
  injection Hr as <-. by apply list_find_Some in E as (? & -> & _).
Qed.
Lemma index_of_elem a l i : index_of a l = Some i → a ∈ l.
Proof. intros Hi%index_of_Some. by eapply list_elem_of_lookup_2. Qed.

Lemma unique_elements_NoDup uniq l : has_unique_elements uniq l = true → NoDup l ∧ ∀ x, x ∈ l → x ∉ uniq.
Proof.
  revert uniq. induction l as [|x l IH]; intros uniq Hu; simpl in Hu; [split; [constructor|set_solver]|].
  case_decide; [done|]. apply IH in Hu as [Hn Hx]. split.
  - constructor; [|done]. intros Hi%Hx. set_solver.
  - intros y [->|Hy]%elem_of_cons; [done|]. apply Hx in Hy. set_solver.
Qed.

Lemma sorted_strict l : StronglySorted Z.le l → NoDup l → StronglySorted Z.lt l.
Proof.
  induction 1 as [|x l Hs IH Hx]; intros Hn; constructor; apply NoDup_cons in Hn as [Hni Hn]; [auto|].
  rewrite Forall_forall in Hx |- *. intros y Hy. specialize (Hx y Hy). assert (x ≠ y) by congruence. lia.
Qed.

(** Between its end points the amplification is a weighted mean of them. *)
Lemma amplification_between i f ib fb c :
  amplification_typed i → amplification_typed f → amplification_typed (calculate_amplification i f ib fb c).
Proof.
  unfold calculate_amplification, amplification_typed. intros Hi Hf.
  destruct ((c <? ib) || (fb <=? ib)) eqn:E1; [done|]. destruct (fb <=? c) eqn:E2; [done|]. propify.
  set (st := saturating_mul u128 (Z.abs (f - i)) (saturating_sub c ib) / saturating_sub fb ib).
  assert (0 <= st <= Z.abs (f - i)) as Hst.
  { unfold st, saturating_sub. rewrite !Z.max_r by lia. split.
    - apply div_nonneg; [|lia]. unfold saturating_mul. assert (0 <= max_value u128) by done. nia.
    - apply Z.div_le_upper_bound; [lia|]. unfold saturating_mul. nia. }
  clearbody st. unfold max_value in *. case_match; propify; unfold saturating_add, saturating_sub, max_value, u128; lia.
Qed.

Section invariant.
Context {X AccountId : Type} `{!EqDecision AccountId} `{!MultiCurrency X AccountId}
  `{!MultiCurrencyLaws X AccountId} `{SpArithmeticLaws}.
Context (T : StableConfig X AccountId) `{!StableConfigLaws T}.

Notation stable := (stable X AccountId).
Notation holds c a s := (free_balance c a (stable_ext s)).
Notation minted c s := (total_issuance (AccountId := AccountId) c (stable_ext s)).
Implicit Types (s : stable) (who : AccountId) (o : RawOrigin AccountId) (p c : AssetId) (pool : PoolInfo.t).

Record stable_inv s : Prop := {
  inv_pools p pool : Pools s !! p = Some pool → pool_ok p pool;
  inv_pegs p info : PoolPegs s !! p = Some info → ∃ pool, Pools s !! p = Some pool ∧ pegs_ok pool info;
  inv_tradability p a t : AssetTradability s !! (p, a) = Some t →
    ∃ pool, Pools s !! p = Some pool ∧ a ∈ PoolInfo.assets pool;
  inv_fees p f : BlockFee s !! p = Some f → is_permill f;
  inv_issuance p v : ShareIssuance s !! p = Some v → is_Some (Pools s !! p) ∧ fits u128 v;
}.

Lemma share_issuance_fits s p : stable_inv s → fits u128 (share_issuance s p).
Proof.
  intros Hinv. unfold share_issuance. destruct (ShareIssuance s !! p) eqn:E; simpl; [|done].
  by apply (inv_issuance _ Hinv) in E as [_ ?].
Qed.

Lemma amplification_range s p pool :
  stable_inv s → Pools s !! p = Some pool → amplification_typed (get_amplification T pool s).
Proof. intros Hinv Hp. apply (inv_pools _ Hinv) in Hp. destruct Hp. by apply amplification_between. Qed.

Lemma amplification_nonneg s p pool :
  stable_inv s → Pools s !! p = Some pool → 0 <= get_amplification T pool s.
Proof. intros Hinv Hp. pose proof (amplification_range s p pool Hinv Hp) as []. lia. Qed.

Lemma pool_reserves_typed s p pool rs :
  pool_reserves T p pool s = Some rs → Forall reserve_typed rs ∧ length rs = length (PoolInfo.assets pool).
Proof.
  unfold pool_reserves, reserves_with_decimals. intros Hr%mapM_Some. split.
  - induction Hr as [|a r l k Hx _ IH]; constructor; [|done]. inv_run. apply free_balance_fits.
  - symmetry. by eapply Forall2_length.
Qed.

(** ** The pegs in force *)

Lemma target_pegs_typed assets srcs x ts :
  target_pegs T assets srcs x = Ok ts →
  Forall (λ t, peg_typed t.1) ts ∧ length ts = (length assets `min` length srcs)%nat.
Proof.
  revert srcs ts. induction assets as [|a assets IH]; intros [|src srcs] ts Hr; simpl in Hr; inv_run; [by split..|].
  match goal with Hx : target_pegs _ _ _ _ = Ok _ |- _ => apply IH in Hx as [? ?] end.
  split; [|simpl; lia]. constructor; [by eapply peg_oracle_typed|done].
Qed.

Lemma get_target_pegs_typed assets srcs x ts :
  get_target_pegs T assets srcs x = Ok ts →
  Forall (λ t, peg_typed t.1) ts ∧ length ts = (length assets `min` length srcs)%nat.
Proof. unfold get_target_pegs. destruct assets; [done|]. apply target_pegs_typed. Qed.

Lemma block_fits s : fits u128 (block_of T s).
Proof. eapply fits_widen; [|apply block_number_fits]. done. Qed.

Lemma updated_pegs_typed s p pool fp :
  stable_inv s → Pools s !! p = Some pool → get_updated_pegs T p pool s = Ok fp →
  is_permill fp.1 ∧ Forall peg_typed fp.2 ∧ length fp.2 = length (PoolInfo.assets pool).
Proof.
  intros Hinv Hp Hr. pose proof (inv_pools _ Hinv _ _ Hp) as Hok. unfold get_updated_pegs in Hr.
  destruct (PoolPegs s !! p) as [info|] eqn:Ei; inv_run.
  - apply (inv_pegs _ Hinv) in Ei as (pool' & Hp' & Hpk). simplify_eq.
    match goal with Hx : get_target_pegs _ _ _ _ = Ok _ |- _ => apply get_target_pegs_typed in Hx as [Ht Hl] end.
    case_match; inv_run.
    + split_and!; [|apply Hpk..]. destruct (BlockFee s !! p) eqn:Ef; simpl; [by eapply inv_fees|apply Hok].
    + apply recalculated_typed in Hr as (? & ? & Hl'); [|apply block_fits|apply Hpk|apply Hpk|apply Hok|apply Hpk|done].
      split_and!; [done..|]. rewrite Hl', Hl, (pegs_length _ _ Hpk). pose proof (pegs_sources _ _ Hpk). lia.
  - simpl. split_and!; [apply Hok| |apply length_replicate]. by apply Forall_replicate.
Qed.

(** ** Steps that keep the books

    [still s s']: nothing but pegs, fees, snapshots, events and storage outside
    the ledger changes. *)
Record still s s' : Prop := {
  still_pools : Pools s' = Pools s;
  still_tradability : AssetTradability s' = AssetTradability s;
  still_issuance : ShareIssuance s' = ShareIssuance s;
  still_ledger : same_ledger (AccountId := AccountId) (stable_ext s) (stable_ext s');
  still_inv : stable_inv s → stable_inv s';
}.

#[global] Instance still_preorder : PreOrder still.
Proof.
  split.
  - intros s. by constructor.
  - intros s1 s2 s3 [] []. constructor; [congruence..|by etransitivity|auto].
Qed.

(** [books f g s s']: balances change by [f]; the issuance of every token and the
    issuance the pallet tracks both change by [g]. *)
Record books (f : AssetId → AccountId → Z) (g : AssetId → Z) s s' : Prop := {
  books_inv : stable_inv s → stable_inv s';
  books_free c who : holds c who s' = holds c who s + f c who;
  books_minted c : minted c s' = minted c s + g c;
  books_shares c : share_issuance s' c = share_issuance s c + g c;
}.

Lemma still_books s s' : still s s' → books (λ _ _, 0) (λ _, 0) s s'.
Proof.
  intros [_ _ Es [Hf Ht] Hi]. constructor; [done|..]; intros; unfold share_issuance;
    rewrite ?Hf, ?Ht, ?Es; lia.
Qed.

Lemma books_trans f g f' g' s s' s'' :
  books f g s s' → books f' g' s' s'' → books (λ c a, f c a + f' c a) (λ c, g c + g' c) s s''.
Proof.
  intros [Hi Hf Hm Hs] [Hi' Hf' Hm' Hs']. constructor; [auto|..]; intros; rewrite ?Hf', ?Hm', ?Hs', ?Hf, ?Hm, ?Hs; lia.
Qed.

Lemma books_eq f g f' g' s s' :
  books f g s s' → (∀ c a, f c a = f' c a) → (∀ c, g c = g' c) → books f' g' s s'.
Proof. intros [] Ef Eg. constructor; [done|..]; intros; rewrite <- ?Ef, <- ?Eg; auto. Qed.

Lemma still_then f g s s' s'' : still s s' → books f g s' s'' → books f g s s''.
Proof. intros Hs Hb. eapply books_eq; [by eapply books_trans; [apply still_books|]|done..]. Qed.
Lemma then_still f g s s' s'' : books f g s s' → still s' s'' → books f g s s''.
Proof. intros Hb Hs. eapply books_eq; [by eapply books_trans; [|apply still_books]|intros; simpl; lia..]. Qed.

(** *** The steps *)

Lemma event_still e s v s' : deposit_event e s = Ok (v, s') → still s s'.
Proof. intros. unfold deposit_event in *. inv_run. by constructor; try (by intros []). Qed.
Lemma event_pegs e s v s' : deposit_event e s = Ok (v, s') → PoolPegs s' = PoolPegs s.
Proof. intros. unfold deposit_event in *. by inv_run. Qed.
Lemma bcast_still f s v s' : broadcast_event f s = Ok (v, s') → still s s'.
Proof. intros. unfold broadcast_event in *. inv_run. by constructor; try (by intros []). Qed.

Lemma ext_still x s : same_ledger (AccountId := AccountId) (stable_ext s) x → still s (set_stable_ext x s).
Proof. intros. by constructor; try (by intros []). Qed.
Lemma call_still f s v s' : frames_ledger (AccountId := AccountId) f → call f s = Ok (v, s') → still s s'.
Proof. intros Hf Hr. unfold call in Hr. inv_ext. by apply ext_still, Hf. Qed.

Lemma snapshot_still p s v s' : save_snapshot T p s = Ok (v, s') → still s s'.
Proof.
  intros Hr. unfold save_snapshot in Hr. inv_run. case_match; [done|]. case_match; [|done].
  by constructor; try (by intros []).
Qed.

Lemma liquidity_hook_still p rs iss s v s' : call_on_liquidity_change_hook T p rs iss s = Ok (v, s') → still s s'.
Proof. intros Hr. unfold call_on_liquidity_change_hook in Hr. inv_run. by apply call_still in Hr; [|auto with stable_frames]. Qed.
Lemma trade_hook_still p i q rs s v s' : call_on_trade_hook T p i q rs s = Ok (v, s') → still s s'.
Proof. intros Hr. unfold call_on_trade_hook in Hr. inv_run. by apply call_still in Hr; [|auto with stable_frames]. Qed.

Lemma in_sync_same p s v s' :
  ensure_issuance_in_sync p s = Ok (v, s') → s' = s ∧ minted p s <= share_issuance s p.
Proof. intros Hr. unfold ensure_issuance_in_sync in Hr. inv_pallet. done. Qed.

Lemma with_new_pegs_ok pool info pegs b :
  (length (PoolInfo.assets pool) <= MAX_ASSETS_IN_POOL)%nat → 0 <= b →
  pegs_ok pool info → Forall peg_typed pegs → length pegs = length (PoolInfo.assets pool) →
  pegs_ok pool (PoolPegInfo.with_new_pegs info pegs b).
Proof.
  intros Hm Hb [] Ht Hl. unfold PoolPegInfo.with_new_pegs. rewrite take_ge by lia. by constructor.
Qed.

Lemma update_pegs_still p pool s fp s' :
  Pools s !! p = Some pool → update_and_return_pegs_and_trade_fee T p pool s = Ok (fp, s') →
  get_updated_pegs T p pool s = Ok fp ∧ still s s'.
Proof.
  intros Hp Hr. unfold update_and_return_pegs_and_trade_fee in Hr. inv_run.
  split; [by destruct (PoolPegs s !! p); inv_run|].
  destruct (PoolPegs s !! p) as [info|] eqn:Ei; inv_run; [|done]. constructor; [done..|]. intros Hinv.
  pose proof (updated_pegs_typed _ _ _ _ Hinv Hp ltac:(done)) as (Hf & Ht & Hl).
  pose proof (inv_pegs _ Hinv _ _ Ei) as (pool' & Hp' & Hok). simplify_eq.
  constructor; simpl; [apply Hinv| |apply Hinv| |apply Hinv].
  - intros p' info' [[<- <-]|[? Hi]]%lookup_insert_Some; [|by apply (inv_pegs _ Hinv)].
    exists pool. split; [done|]. apply with_new_pegs_ok; [|apply block_fits|done..]. by eapply (inv_pools _ Hinv).
  - intros p' f [[_ <-]|[? Hi]]%lookup_insert_Some; [done|]. by eapply (inv_fees _ Hinv).
Qed.

Lemma transfer_books c f t x er s v s' :
  0 <= x → call (transfer c f t x er) s = Ok (v, s') →
  books (moved c f t x) (λ _, 0) s s' ∧ Pools s' = Pools s ∧ ShareIssuance s' = ShareIssuance s ∧ x <= holds c f s.
Proof.
  intros Hx Hr. unfold call in Hr. inv_ext.
  match goal with Ht : transfer _ _ _ _ _ _ = Ok _ |- _ => apply transfer_moves in Ht as (? & E & E'); [|done] end.
  split_and!; [|done..]. constructor; simpl; [by intros []|done|intros; rewrite E'; lia|intros; unfold share_issuance; simpl; lia].
Qed.

(** The tracked issuance of one pool is replaced. *)
Lemma issuance_inv p v s :
  is_Some (Pools s !! p) → fits u128 v → stable_inv s → stable_inv (set_ShareIssuance (<[p := v]> (ShareIssuance s)) s).
Proof.
  intros Hp Hv []. constructor; simpl; [done..|].
  intros p' v' [[<- <-]|[? Hi]]%lookup_insert_Some; [done|eauto].
Qed.
Lemma issuance_insert p v s c :
  default 0 ((<[p := v]> (ShareIssuance s)) !! c) = share_issuance s c + when (c = p) (v - share_issuance s p).
Proof.
  unfold share_issuance, when. case_decide; subst; [rewrite lookup_insert_eq; simpl; lia|].
  rewrite lookup_insert_ne by done. lia.
Qed.

Lemma mint_books p who x s v s' :
  is_Some (Pools s !! p) → 0 <= x → mint_shares p who x s = Ok (v, s') →
  books (λ c a, when (c = p ∧ a = who) x) (λ c, when (c = p) x) s s' ∧ Pools s' = Pools s ∧
  share_issuance s p + x <= max_value u128.
Proof.
  intros Hp Hx Hr. unfold mint_shares, call in Hr. inv_pallet. inv_ext.
  match goal with Ht : deposit _ _ _ _ = Ok _ |- _ => apply deposit_adds in Ht as (E & E'); [|done] end.
  simpl in *. split_and!; [|done..]. constructor; simpl; [|done|done|].
  - intros Hinv. assert (stable_inv (set_ShareIssuance (<[p := share_issuance s p + x]> (ShareIssuance s)) s)) as [];
      [|by constructor].
    apply issuance_inv; [done| |done]. pose proof (share_issuance_fits s p Hinv). unfold fits in *. lia.
  - intros c. unfold share_issuance at 1. simpl. rewrite issuance_insert. do 2 f_equal. lia.
Qed.

Lemma burn_books p who x s v s' :
  is_Some (Pools s !! p) → 0 <= x → burn_shares p who x s = Ok (v, s') →
  books (λ c a, - when (c = p ∧ a = who) x) (λ c, - when (c = p) x) s s' ∧ Pools s' = Pools s ∧
  x <= share_issuance s p.
Proof.
  intros Hp Hx Hr. unfold burn_shares, call in Hr. inv_pallet. inv_ext.
  match goal with Ht : withdraw _ _ _ _ _ = Ok _ |- _ => apply withdraw_subtracts in Ht as (_ & E & E'); [|done] end.
  simpl in *. split_and!; [|done..]. constructor; simpl; [|intros; rewrite E; lia|intros; rewrite E'; lia|].
  - intros Hinv. assert (stable_inv (set_ShareIssuance (<[p := share_issuance s p - x]> (ShareIssuance s)) s)) as [];
      [|by constructor].
    apply issuance_inv; [done| |done]. pose proof (share_issuance_fits s p Hinv). unfold fits in *. lia.
  - intros c. unfold share_issuance at 1. simpl. rewrite issuance_insert. unfold when. case_decide; lia.
Qed.

Lemma books_refl s : books (λ _ _, 0) (λ _, 0) s s.
Proof. by apply still_books. Qed.

(** Go through the steps from the first state to the last. *)
Ltac chain_books :=
  lazymatch goal with
  | |- books _ _ ?s ?s => apply books_refl
  | |- books _ _ ?s ?s' =>
      first
        [ match goal with Hs : still s ?s1 |- _ => apply (still_then _ _ s s1 s' Hs); chain_books end
        | match goal with Hb : books ?f ?g s ?s1 |- _ => eapply (books_trans f g _ _ s s1 s' Hb); chain_books end ]
  end.

(** Name the effect of each call of a run. *)
Ltac to_books :=
  repeat match goal with
  | Hx : deposit_event _ _ = Ok _ |- _ => apply event_still in Hx
  | Hx : broadcast_event _ _ = Ok _ |- _ => apply bcast_still in Hx
  | Hx : save_snapshot _ _ _ = Ok _ |- _ => apply snapshot_still in Hx
  | Hx : call_on_liquidity_change_hook _ _ _ _ _ = Ok _ |- _ => apply liquidity_hook_still in Hx
  | Hx : call_on_trade_hook _ _ _ _ _ _ = Ok _ |- _ => apply trade_hook_still in Hx
  | Hx : update_and_return_pegs_and_trade_fee _ _ _ _ = Ok _ |- _ => apply update_pegs_still in Hx as [? Hx]; [|done]
  end.

(** The pools of a later state are those of an earlier one. *)
Ltac same_pools :=
  repeat match goal with
  | Hs : still ?a ?b |- context [Pools ?b] => rewrite (still_pools _ _ Hs)
  | E : Pools ?b = Pools ?a |- context [Pools ?b] => rewrite E
  end.

Ltac pools_kept :=
  match goal with |- context [books _ _ ?s ?e] => assert (Pools e = Pools s) by (by same_pools) end.

(** The balance changes of a run, added up. *)
Ltac close_books := eapply books_eq; [chain_books|intros; simpl; lia..].

(** ** Checks at the end of an operation *)

Lemma trade_check p rs s v s' :
  ensure_trade_invariant T p rs s = Ok (v, s') →
  s = s' ∧ ∃ pool d, Pools s !! p = Some pool ∧ invariants T p pool rs s = Ok d ∧ d.1 <= d.2.
Proof.
  intros Hr. unfold ensure_trade_invariant in Hr. inv_pallet.
  match goal with Hx : ensure_issuance_in_sync _ _ = Ok _ |- _ => apply in_sync_same in Hx as [-> _] end.
  split; [done|]. by eauto 10.
Qed.

(** D per share, as a [FixedU128]. *)
Definition share_value (d iss : Z) : Z := d * DIV / iss.

Lemma ensure_ratio_value d iss d' iss' :
  fits u128 d → fits u128 iss → fits u128 d' → fits u128 iss' →
  ensure_ratio d iss d' iss' = Ok tt → share_value d iss <= share_value d' iss'.
Proof.
  intros ? ? ? ? Hr. unfold ensure_ratio in Hr. rewrite !fixed_from_rational_spec in Hr by done.
  repeat case_match; inv_run. by propify.
Qed.

(** What both checks of liquidity say when shares exist before and after. *)
Definition value_kept p pool rs (iss : Balance) s : Prop :=
  ∃ d, invariants T p pool rs s = Ok d ∧
    (iss ≠ 0 → share_issuance s p ≠ 0 → ensure_ratio d.1 iss d.2 (share_issuance s p) = Ok tt).

Lemma add_check p rs iss s v s' :
  ensure_add_liquidity_invariant T p rs iss s = Ok (v, s') →
  s = s' ∧ ∃ pool, Pools s !! p = Some pool ∧ value_kept p pool rs iss s.
Proof.
  intros Hr. unfold ensure_add_liquidity_invariant in Hr. inv_pallet.
  match goal with Hx : ensure_issuance_in_sync _ _ = Ok _ |- _ => apply in_sync_same in Hx as [-> _] end.
  split; [done|]. eexists. split; [done|]. eexists. split; [done|]. intros Hi Hs.
  case_match; propify; [done|]. inv_run. by propify.
Qed.

Lemma remove_check p rs iss s v s' :
  ensure_remove_liquidity_invariant T p rs iss s = Ok (v, s') →
  s = s' ∧ ∀ pool, Pools s !! p = Some pool → value_kept p pool rs iss s.
Proof.
  intros Hr. unfold ensure_remove_liquidity_invariant in Hr. inv_pallet.
  match goal with Hx : ensure_issuance_in_sync _ _ = Ok _ |- _ => apply in_sync_same in Hx as [-> _] end.
  split; [done|]. intros pool Hp. rewrite Hp in *. inv_run. eexists. split; [done|]. intros Hi Hs.
  case_match; propify; [done|]. inv_run. by propify.
Qed.

(** Events do not change what the checks read. *)
Lemma event_value p pool rs iss e s v s' :
  deposit_event e s = Ok (v, s') → value_kept p pool rs iss s → value_kept p pool rs iss s'.
Proof. intros Hr. unfold deposit_event in Hr. by inv_run. Qed.
Lemma bcast_value p pool rs iss f s v s' :
  broadcast_event f s = Ok (v, s') → value_kept p pool rs iss s → value_kept p pool rs iss s'.
Proof. intros Hr. unfold broadcast_event in Hr. by inv_run. Qed.

(** A snapshot does not change the pegs. *)
Lemma snapshot_pegs p q pool s v s' :
  save_snapshot T p s = Ok (v, s') → get_updated_pegs T q pool s' = get_updated_pegs T q pool s.
Proof. intros Hr. unfold save_snapshot in Hr. inv_run. by repeat case_match. Qed.

(** ** Trades *)

(** What a quote of a trade reads and returns. *)
Definition trade_inputs p i q s pool (ii qi : nat) rs (fp : Z * list Peg) : Prop :=
  Pools s !! p = Some pool ∧ PoolInfo.find_asset pool i = Some ii ∧ PoolInfo.find_asset pool q = Some qi ∧
  pool_reserves T p pool s = Some rs ∧ get_updated_pegs T p pool s = Ok fp.

Lemma pegs_for_run persist p pool s fp s' :
  Pools s !! p = Some pool → pegs_for T persist p pool s = Ok (fp, s') →
  get_updated_pegs T p pool s = Ok fp ∧ still s s'.
Proof.
  intros Hp. unfold pegs_for. destruct persist; [by apply update_pegs_still|]. intros. by inv_run.
Qed.

Lemma out_amount_run p i q x persist s r s' :
  calculate_out_amount T p i q x persist s = Ok (r, s') →
  still s s' ∧ 0 <= r.1 ∧ ∃ pool ii qi rs fp, trade_inputs p i q s pool ii qi rs fp ∧
    calculate_out_given_in_with_fee D_ITERATIONS Y_ITERATIONS rs ii qi x (get_amplification T pool s) fp.1 fp.2 = Some r.
Proof.
  intros Hr. unfold calculate_out_amount in Hr. inv_pallet.
  match goal with Hx : pegs_for _ _ _ _ _ = Ok _ |- _ => apply pegs_for_run in Hx as [? ?]; [|done] end.
  split_and!; [done|by eapply out_with_fee_nonneg|]. do 5 eexists. split; [by split_and!|]. done.
Qed.

Lemma in_amount_run p i q y persist s r s' :
  stable_inv s → calculate_in_amount T p i q y persist s = Ok (r, s') →
  still s s' ∧ fits u128 r.1 ∧ ∃ pool ii qi rs fp, trade_inputs p i q s pool ii qi rs fp ∧
    calculate_in_given_out_with_fee D_ITERATIONS Y_ITERATIONS rs ii qi y (get_amplification T pool s) fp.1 fp.2 = Some r.
Proof.
  intros Hinv Hr. unfold calculate_in_amount in Hr. inv_pallet.
  match goal with Hx : pegs_for _ _ _ _ _ = Ok _ |- _ => apply pegs_for_run in Hx as [Hg ?]; [|done] end.
  pose proof (updated_pegs_typed _ _ _ _ Hinv ltac:(done) Hg) as (? & _).
  split_and!; [done|by eapply in_with_fee_fits|]. do 5 eexists. split; [by split_and!|]. done.
Qed.

(** [who] pays [x] of [i] to the pool and receives [y] of [q] from it. *)
Definition swapped p who i (x : Balance) q (y : Balance) c (b : AccountId) : Z :=
  moved i who (pool_account T p) x c b + moved q (pool_account T p) who y c b.

Lemma sell_books o p i q x min s v s' :
  0 <= x → sell T o p i q x min s = Ok (v, s') →
  ∃ who r s1 pool rs d, o = Signed who ∧ i ≠ q ∧ calculate_out_amount T p i q x true s = Ok (r, s1) ∧ min <= r.1 ∧
    fits u128 r.1 ∧ books (swapped p who i x q r.1) (λ _, 0) s s' ∧ Pools s' = Pools s ∧ Pools s !! p = Some pool ∧
    pool_reserves T p pool s = Some rs ∧ invariants T p pool rs s' = Ok d ∧ d.1 <= d.2.
Proof.
  intros Hx Hr. unfold sell in Hr. inv_pallet.
  match goal with Hy : calculate_out_amount _ _ _ _ _ _ _ = Ok _ |- _ =>
    pose proof (out_amount_run _ _ _ _ _ _ _ _ Hy) as (Hs & Hn & _) end.
  apply trade_check in Hr as (-> & pool & d & Hp & Hd & Hle).
  repeat match goal with Hy : call (transfer _ _ _ _ _) _ = Ok _ |- _ => apply transfer_books in Hy as (? & ? & ? & ?); [|done] end.
  to_books. pools_kept.
  match goal with Hz : Pools s !! p = Some ?p' |- _ => assert (pool = p') as -> by congruence end.
  do 6 eexists. split_and!; try done; [|unfold swapped; close_books].
  split; [done|]. etransitivity; [eassumption|]. apply free_balance_fits.
Qed.

Lemma buy_books o p q i y max s v s' :
  stable_inv s → 0 <= y → buy T o p q i y max s = Ok (v, s') →
  ∃ who r s1 pool rs d, o = Signed who ∧ i ≠ q ∧ calculate_in_amount T p i q y true s = Ok (r, s1) ∧ r.1 <= max ∧
    books (swapped p who i r.1 q y) (λ _, 0) s s' ∧ Pools s' = Pools s ∧ Pools s !! p = Some pool ∧
    pool_reserves T p pool s = Some rs ∧ invariants T p pool rs s' = Ok d ∧ d.1 <= d.2.
Proof.
  intros Hinv Hy Hr. unfold buy in Hr. inv_pallet.
  match goal with Hz : calculate_in_amount _ _ _ _ _ _ _ = Ok _ |- _ =>
    pose proof (in_amount_run _ _ _ _ _ _ _ _ Hinv Hz) as (Hs & [Hn _] & _) end.
  apply trade_check in Hr as (-> & pool & d & Hp & Hd & Hle).
  repeat match goal with Hz : call (transfer _ _ _ _ _) _ = Ok _ |- _ => apply transfer_books in Hz as (? & ? & ? & _); [|done] end.
  to_books. pools_kept.
  match goal with Hz : Pools s !! p = Some ?p' |- _ => assert (pool = p') as -> by congruence end.
  do 6 eexists. split_and!; try done. unfold swapped. close_books.
Qed.

(** ** Liquidity *)

(** Everything of [l] moves from [f] to [t]. *)
Definition moved_all (f t : AccountId) (l : list AssetAmount.t) c (b : AccountId) : Z :=
  foldr (λ a acc, moved (AssetAmount.asset_id a) f t (AssetAmount.amount a) c b + acc) 0 l.

Definition amounts_nonneg (l : list AssetAmount.t) : Prop := Forall (λ a, 0 <= AssetAmount.amount a) l.

Lemma transfer_all_books f t l s v s' :
  amounts_nonneg l → transfer_all f t l s = Ok (v, s') → books (moved_all f t l) (λ _, 0) s s' ∧ Pools s' = Pools s.
Proof.
  intros Hl. revert s. induction Hl as [|[a x] l Hx _ IH]; intros s Hr; simpl in Hr; inv_run.
  - split; [apply books_refl|done].
  - match goal with Hz : call (transfer _ _ _ _ _) _ = Ok _ |- _ => apply transfer_books in Hz as (? & ? & ? & _); [|done] end.
    apply IH in Hr as [? ?]. split; [close_books|congruence].
Qed.

Lemma applied_typed account iss x assets added rs us prov rest :
  map_Forall (λ _ y, 0 <= y) added → apply_liquidity T account iss x assets added = Ok (rs, us, prov, rest) →
  Forall reserve_typed rs ∧ Forall reserve_typed us.
Proof.
  revert added rs us prov rest. induction assets as [|a assets IH]; intros added rs us prov rest Ha Hr; simpl in Hr; inv_run; [done|].
  set (r := free_balance a account x) in *. pose proof (free_balance_fits a account x) as Hf. fold r in Hf.
  match type of Hr with (let '(_, _) := ?e in _) = _ => assert (fits u128 e.1 ∧ map_Forall (λ _ y, 0 <= y) e.2) as Hn end.
  { destruct (negb (r =? 0) && (iss =? 0)); simpl; [|done]. split; [done|]. apply map_Forall_insert_2; [|done].
    destruct (added !! a) eqn:E; [|apply Hf]. apply saturating_add_nonneg; [done|by eapply (Ha a)|apply Hf]. }
  destruct (if negb (r =? 0) && _ then _ else _) as [r' added']. simpl in Hn. destruct Hn as [Hr' Ha'].
  destruct (added' !! a) as [l|] eqn:El; inv_run.
  all: match goal with Hx : apply_liquidity _ _ _ _ _ _ = Ok ?y |- _ => destruct y as [[[rs' us'] prov'] rest'] end; inv_run.
  all: match goal with Hx : apply_liquidity _ _ _ _ _ _ = Ok _ |- _ =>
         apply IH in Hx as [? ?]; [|first [done|by apply map_Forall_delete]] end; split; constructor; try done.
  apply (Ha' a) in El. unfold reserve_typed, fits in *. simpl. lia.
Qed.

(** The amounts collected are the ones given. *)
Lemma collected_nonneg p who l acc s added :
  amounts_nonneg l → map_Forall (λ _ y, 0 <= y) acc → collect_assets T p who l acc s = Ok added →
  map_Forall (λ _ y, 0 <= y) added.
Proof.
  intros Hl. revert acc. induction Hl as [|[a x] l Hx _ IH]; intros acc Ha Hr; simpl in Hr; inv_run; [done|].
  case_match; [done|]. eapply IH; [|done]. by apply map_Forall_insert_2.
Qed.

Lemma do_add_books who p l min s v s' :
  stable_inv s → amounts_nonneg l → do_add_liquidity T who p l min s = Ok (v, s') →
  ∃ pool added rs us prov fp fees, Pools s !! p = Some pool ∧ collect_assets T p who l ∅ s = Ok added ∧
    apply_liquidity T (pool_account T p) (share_issuance s p) (stable_ext s) (PoolInfo.assets pool) added
      = Ok (rs, us, prov, ∅) ∧ get_updated_pegs T p pool s = Ok fp ∧
    calculate_shares D_ITERATIONS rs us (get_amplification T pool s) (share_issuance s p) fp.1 fp.2 = Some (v, fees) ∧
    v ≠ 0 ∧ min <= v ∧ fits u128 v ∧
    books (λ c b, when (c = p ∧ b = who) v + moved_all who (pool_account T p) l c b) (λ c, when (c = p) v) s s' ∧
    Pools s' = Pools s ∧ value_kept p pool rs (share_issuance s p) s'.
Proof.
  intros Hinv Hl Hr. unfold do_add_liquidity in Hr. inv_pallet.
  match goal with Hx : save_snapshot _ _ _ = Ok _ |- _ =>
    pose proof (snapshot_pegs _ p x1 _ _ _ Hx) as Epegs; apply snapshot_still in Hx as Hs; clear Hx end.
  match goal with Hx : update_and_return_pegs_and_trade_fee _ _ _ _ = Ok _ |- _ =>
    apply update_pegs_still in Hx as [Hg ?]; [|by same_pools] end. rewrite Epegs in Hg.
  pose proof (updated_pegs_typed _ _ _ _ Hinv ltac:(done) Hg) as (_ & Ht & _).
  match goal with Hx : apply_liquidity _ _ _ _ _ _ = Ok _ |- _ => pose proof (applied_typed _ _ _ _ _ _ _ _ _
    (collected_nonneg _ _ _ _ _ _ Hl (map_Forall_empty _) ltac:(done)) Hx) as [Hrs Hus] end.
  match goal with Hx : calculate_shares _ _ _ _ _ _ _ = Some _ |- _ =>
    apply calculate_shares_fits in Hx as Hz; [|done|done|by eapply amplification_nonneg|by apply share_issuance_fits|done] end.
  match goal with Hx : mint_shares _ _ _ _ = Ok _ |- _ => apply mint_books in Hx as (? & ? & _); [|by same_pools|apply Hz] end.
  match goal with Hx : transfer_all _ _ _ _ = Ok _ |- _ => apply transfer_all_books in Hx as [? ?]; [|done] end.
  match goal with Hx : ensure_add_liquidity_invariant _ _ _ _ _ = Ok _ |- _ => apply add_check in Hx as (-> & pool & Hp & Hv) end.
  eapply event_value in Hv; [|done]. eapply bcast_value in Hv; [|done].
  to_books. pools_kept.
  assert (pool = x1) as -> by (revert Hp; same_pools; congruence).
  subst. do 7 eexists. split_and!; try done. close_books.
Qed.

(** The pool, its reserves and pegs, as an operation against one asset reads them. *)
Definition asset_inputs p a s pool (ai : nat) rs (fp : Z * list Peg) : Prop :=
  Pools s !! p = Some pool ∧ PoolInfo.find_asset pool a = Some ai ∧ pool_reserves T p pool s = Some rs ∧
  get_updated_pegs T p pool s = Ok fp.

Lemma asset_inputs_typed p a s pool ai rs fp :
  stable_inv s → asset_inputs p a s pool ai rs fp →
  Forall reserve_typed rs ∧ (length rs <= MAX_ASSETS_IN_POOL)%nat ∧ 0 <= get_amplification T pool s ∧
  0 <= share_issuance s p ∧ is_permill fp.1 ∧ Forall peg_typed fp.2 ∧ p ≠ a.
Proof.
  intros Hinv (Hp & Ha & Hr & Hf). pose proof (inv_pools _ Hinv _ _ Hp) as Hok.
  apply pool_reserves_typed in Hr as [? El]. apply updated_pegs_typed in Hf as (? & ? & ?); [|done..].
  split_and!; try done; [rewrite El; apply Hok|by eapply amplification_nonneg|by apply share_issuance_fits|].
  intros ->. apply index_of_elem in Ha. by apply Hok.
Qed.

Ltac open_asset Hinv p a s :=
  match goal with Hx : update_and_return_pegs_and_trade_fee _ ?p ?pool s = Ok (?fp, _),
    Hi : PoolInfo.find_asset ?pool a = Some ?ai, Hr : pool_reserves _ _ _ _ = Some ?rs |- _ =>
    apply update_pegs_still in Hx as [Hg ?]; [|done];
    assert (asset_inputs p a s pool ai rs fp) as Hin by (by split_and!);
    pose proof (asset_inputs_typed _ _ _ _ _ _ _ Hinv Hin) as (Hrs & Hlen & Hamp & Hiss & Hfee & Hpegs & Hne) end.

Lemma do_add_shares_books who p x a max s y s' :
  stable_inv s → 0 <= x → do_add_liquidity_shares T who p x a max s = Ok (y, s') →
  ∃ pool ai rs fp fee, asset_inputs p a s pool ai rs fp ∧
    calculate_add_one_asset D_ITERATIONS Y_ITERATIONS rs x ai (share_issuance s p) (get_amplification T pool s) fp.1 fp.2
      = Some (y, fee) ∧ y <= max ∧ fits u128 y ∧
    books (λ c b, when (c = p ∧ b = who) x + moved a who (pool_account T p) y c b) (λ c, when (c = p) x) s s' ∧
    Pools s' = Pools s ∧ value_kept p pool rs (share_issuance s p) s'.
Proof.
  intros Hinv Hx Hr. unfold do_add_liquidity_shares in Hr. inv_pallet. open_asset Hinv p a s.
  match goal with Hz : calculate_add_one_asset _ _ _ _ _ _ _ _ _ = Some _ |- _ =>
    apply add_one_fits in Hz as Hy; [|done..|unfold MAX_ASSETS_IN_POOL in *; lia|done] end.
  match goal with Hz : save_snapshot _ _ _ = Ok _ |- _ => apply snapshot_still in Hz end.
  match goal with Hz : mint_shares _ _ _ _ = Ok _ |- _ => apply mint_books in Hz as (? & ? & _); [|by same_pools|done] end.
  match goal with Hz : call (transfer _ _ _ _ _) _ = Ok _ |- _ => apply transfer_books in Hz as (? & ? & _); [|apply Hy] end.
  match goal with Hz : ensure_add_liquidity_invariant _ _ _ _ _ = Ok _ |- _ => apply add_check in Hz as (-> & pool & Hp & Hv) end.
  eapply bcast_value in Hv; [|done].
  to_books. pools_kept.
  match goal with Hz : Pools s !! p = Some ?p' |- _ => assert (pool = p') as -> by (revert Hp; same_pools; congruence) end.
  do 5 eexists. split_and!; try done. close_books.
Qed.

Lemma do_remove_one_books who p a x min s y s' :
  stable_inv s → do_remove_liquidity_one_asset T who p a x min s = Ok (y, s') →
  ∃ pool ai rs fp fee, asset_inputs p a s pool ai rs fp ∧ 0 < x ∧
    calculate_withdraw_one_asset D_ITERATIONS Y_ITERATIONS rs x ai (share_issuance s p) (get_amplification T pool s)
      fp.1 fp.2 = Some (y, fee) ∧ min <= y ∧ 1 <= y ∧ fits u128 y ∧
    books (λ c b, moved a (pool_account T p) who y c b - when (c = p ∧ b = who) x) (λ c, - when (c = p) x) s s' ∧
    Pools s' = Pools s ∧ value_kept p pool rs (share_issuance s p) s'.
Proof.
  intros Hinv Hr. unfold do_remove_liquidity_one_asset in Hr. inv_pallet. open_asset Hinv p a s.
  match goal with Hz : save_snapshot _ _ _ = Ok _ |- _ => apply snapshot_still in Hz end.
  match goal with Hz : burn_shares _ _ _ _ = Ok _ |- _ => apply burn_books in Hz as (? & ? & _); [|by same_pools|lia] end.
  match goal with Hz : call (transfer _ _ _ _ _) _ = Ok _ |- _ => apply transfer_books in Hz as (? & ? & _ & Hle); [|lia] end.
  match goal with Hz : ensure_remove_liquidity_invariant _ _ _ _ _ = Ok _ |- _ => apply remove_check in Hz as (-> & Hv) end.
  to_books. pools_kept. do 5 eexists. split_and!; try done; [|close_books|].
  { split; [lia|]. etransitivity; [exact Hle|]. apply free_balance_fits. }
  apply Hv. congruence.
Qed.

Lemma withdraw_books o p a y max s v s' :
  stable_inv s → withdraw_asset_amount T o p a y max s = Ok (v, s') →
  ∃ who x pool ai rs fp fees, o = Signed who ∧ asset_inputs p a s pool ai rs fp ∧ 0 < y ∧
    calculate_shares_for_amount D_ITERATIONS rs ai y (get_amplification T pool s) (share_issuance s p) fp.1 fp.2
      = Some (x, fees) ∧ x <= max ∧ fits u128 x ∧
    books (λ c b, moved a (pool_account T p) who y c b - when (c = p ∧ b = who) x) (λ c, - when (c = p) x) s s' ∧
    Pools s' = Pools s ∧ value_kept p pool rs (share_issuance s p) s'.
Proof.
  intros Hinv Hr. unfold withdraw_asset_amount in Hr. inv_pallet. open_asset Hinv p a s.
  match goal with Hz : calculate_shares_for_amount _ _ _ _ _ _ _ _ = Some _ |- _ =>
    apply shares_for_amount_fits in Hz as Hy; [|done..] end.
  match goal with Hz : save_snapshot _ _ _ = Ok _ |- _ => apply snapshot_still in Hz end.
  match goal with Hz : burn_shares _ _ _ _ = Ok _ |- _ => apply burn_books in Hz as (? & ? & _); [|by same_pools|lia] end.
  match goal with Hz : call (transfer _ _ _ _ _) _ = Ok _ |- _ => apply transfer_books in Hz as (? & ? & _); [|lia] end.
  apply remove_check in Hr as (-> & Hv).
  to_books. pools_kept. do 7 eexists. split_and!; try done; [close_books|]. apply Hv. congruence.
Qed.

(** *** Uniform withdrawals *)

Lemma pay_out_books b who p x iss assets mins s l s' :
  0 <= x → 0 <= iss → pay_out T b who p x iss assets mins s = Ok (l, s') →
  books (moved_all (pool_account T p) who l) (λ _, 0) s s' ∧ Pools s' = Pools s ∧
  AssetAmount.asset_id <$> l = assets.
Proof.
  intros Hx Hi. revert mins s l. induction assets as [|a assets IH]; intros mins s l Hr; simpl in Hr; inv_pallet.
  - split_and!; [apply books_refl|done..].
  - match goal with Hz : call (transfer _ _ _ ?y _) _ = Ok _ |- _ => assert (0 <= y) as Hy end.
    { case_match; inv_pallet; [apply free_balance_fits|]. 
      eapply liquidity_out_nonneg; [| | |eassumption]; [apply free_balance_fits|done|done]. }
    match goal with Hz : (if _ then mret _ else _) _ = Ok (_, ?s1) |- _ => assert (s = s1) as <- by (case_match; by inv_pallet) end.
    match goal with Hz : call (transfer _ _ _ _ _) _ = Ok _ |- _ => apply transfer_books in Hz as (? & ? & _); [|done] end.
    match goal with Hz : pay_out _ _ _ _ _ _ _ _ _ = Ok _ |- _ => apply IH in Hz as (? & ? & ?) end.
    split_and!; [close_books|congruence|simpl; by f_equal].
Qed.

Lemma destroy_books p s v s' :
  share_issuance s p = 0 → destroy_pool T p s = Ok (v, s') →
  books (λ _ _, 0) (λ _, 0) s s' ∧ Pools s' = delete p (Pools s).
Proof.
  intros Hi Hr. unfold destroy_pool in Hr. inv_run.
  apply event_still in Hr.
  match goal with Hz : call _ ?s1 = Ok _ |- _ =>
    apply call_still in Hz; [|auto with stable_frames];
    assert (books (λ _ _, 0) (λ _, 0) s s1) as Hb; [|split; [close_books|by same_pools]] end.
  constructor; simpl; [|intros; lia|intros; lia|].
  - intros []. constructor; simpl.
    + intros q pool [? Hq]%lookup_delete_Some. eauto.
    + intros q info [? Hq]%lookup_delete_Some. rewrite lookup_delete_ne by done. eauto.
    + intros q a t [Hq ?]%map_lookup_filter_Some. simpl in *. rewrite lookup_delete_ne by congruence. eauto.
    + done.
    + intros q w [? Hq]%lookup_delete_Some. rewrite lookup_delete_ne by done. eauto.
  - intros c. unfold share_issuance in *. simpl. destruct (decide (c = p)) as [->|].
    + rewrite lookup_delete_eq. simpl. lia.
    + rewrite lookup_delete_ne by done. lia.
Qed.

Lemma remove_uniformly_books b who p x mins s v s' :
  stable_inv s → remove_uniformly T b who p x mins s = Ok (v, s') →
  ∃ pool l rs, Pools s !! p = Some pool ∧ 0 < x <= share_issuance s p ∧ AssetAmount.asset_id <$> l = PoolInfo.assets pool ∧
    books (λ c a, moved_all (pool_account T p) who l c a - when (c = p ∧ a = who) x) (λ c, - when (c = p) x) s s' ∧
    pool_reserves T p pool s = Some rs ∧
    ((x ≠ share_issuance s p ∧ Pools s' = Pools s ∧ value_kept p pool rs (share_issuance s p) s') ∨
     (x = share_issuance s p ∧ Pools s' = delete p (Pools s))).
Proof.
  intros Hinv Hr. unfold remove_uniformly in Hr. inv_pallet.
  apply remove_check in Hr as (-> & Hv).
  match goal with Hz : save_snapshot _ _ _ = Ok _ |- _ => apply snapshot_still in Hz end.
  match goal with Hz : pay_out _ _ _ _ _ _ _ _ _ = Ok _ |- _ =>
    apply pay_out_books in Hz as (Hb & ? & ?); [|lia|by apply share_issuance_fits] end.
  match goal with Hz : burn_shares _ _ _ _ = Ok _ |- _ => apply burn_books in Hz as (Hb' & ? & ?); [|by same_pools|lia] end.
  match goal with Hz : still s ?s1 |- _ => assert (share_issuance s1 p = share_issuance s p) as E1
    by (unfold share_issuance; by rewrite (still_issuance _ _ Hz)) end.
  pose proof (books_shares _ _ _ _ Hb p) as E2. pose proof (books_shares _ _ _ _ Hb' p) as E3. cbv beta in E2, E3.
  rewrite when_true in E3 by done. to_books. do 3 eexists. split_and!; try done; [lia|..].
  - case_match; [|propify; match goal with Hz : destroy_pool _ _ _ = Ok _ |- _ => apply destroy_books in Hz as [? ?]; [|lia] end];
      to_books; close_books.
  - case_match; propify.
    + left. to_books. assert (Pools s' = Pools s) as E by (by same_pools). split_and!; try done. apply Hv. congruence.
    + right. match goal with Hz : destroy_pool _ _ _ = Ok _ |- _ => apply destroy_books in Hz as [_ Ed]; [|lia] end.
      split; [done|]. same_pools. rewrite Ed. by same_pools.
Qed.

(** ** Creation and parameters *)

(** A storage change that concerns neither the ledger nor the issuance. *)
Lemma storage_books s s' :
  stable_ext s' = stable_ext s → ShareIssuance s' = ShareIssuance s → (stable_inv s → stable_inv s') →
  books (λ _ _, 0) (λ _, 0) s s'.
Proof. intros Ex Es Hi. constructor; [done|..]; intros; unfold share_issuance; rewrite ?Ex, ?Es; lia. Qed.

Lemma created_ok p pool assets :
  PoolInfo.assets pool = sort assets → p ∉ assets → (length (PoolInfo.assets pool) <=? MAX_ASSETS_IN_POOL)%nat = true →
  PoolInfo.is_valid pool = true → PoolInfo.final_amplification pool = PoolInfo.initial_amplification pool →
  in_amplification_range T (PoolInfo.initial_amplification pool) = true → is_permill (PoolInfo.fee pool) → pool_ok p pool.
Proof.
  intros Ea Hp Hl Hv Ef Hr Hfee. unfold PoolInfo.is_valid in Hv. propify.
  match goal with Hu : has_unique_elements _ _ = true |- _ => apply unique_elements_NoDup in Hu as [Hn _] end.
  assert (amplification_typed (PoolInfo.initial_amplification pool)) as Ha.
  { unfold in_amplification_range in Hr. propify. pose proof amplification_range_typed. unfold amplification_typed. lia. }
  constructor; [| | |done|by rewrite Ef|done].
  - apply sorted_strict; [|done]. rewrite Ea. apply (StronglySorted_merge_sort _).
  - split; by apply Nat.leb_le.
  - rewrite Ea. unfold sort. by rewrite merge_sort_Permutation.
Qed.

(** Pegs a pool may be created with. *)
Definition new_pegs_ok (i : PoolPegInfo.t) : Prop :=
  (length (PoolPegInfo.current i) <= length (PoolPegInfo.source i))%nat ∧ Forall peg_typed (PoolPegInfo.current i) ∧
  is_perbill (PoolPegInfo.max_peg_update i) ∧ 0 <= PoolPegInfo.updated_at i.

Lemma check_pegs_run i assets x : check_pegs T i assets x = Ok tt → length (PoolPegInfo.current i) = length assets.
Proof. intros Hr. unfold check_pegs in Hr. inv_run. by apply Nat.eqb_eq. Qed.

(** The storage with a new pool. *)
Lemma new_pool_inv p pool pegs s :
  Pools s !! p = None → pool_ok p pool →
  (∀ q i, pegs !! q = Some i → (q = p ∧ pegs_ok pool i) ∨ PoolPegs s !! q = Some i) →
  stable_inv s → stable_inv (set_Pools (<[p := pool]> (Pools s)) (set_PoolPegs pegs s)).
Proof.
  intros Hn Hok Hpegs []. constructor; simpl.
  - intros q pool' [[<- <-]|[? Hq]]%lookup_insert_Some; eauto.
  - intros q i [[-> ?]|Hq]%Hpegs; [exists pool; by rewrite lookup_insert_eq|].
    apply inv_pegs0 in Hq as (pool' & Hq & ?). exists pool'. rewrite lookup_insert_ne by congruence. done.
  - intros q a t Hq. apply inv_tradability0 in Hq as (pool' & Hq & ?). exists pool'. rewrite lookup_insert_ne by congruence. done.
  - done.
  - intros q v Hq. apply inv_issuance0 in Hq as [[pool' Hq] ?]. rewrite lookup_insert_ne by congruence. eauto.
Qed.

Lemma create_books p assets amp fee info s q s' :
  is_permill fee → (∀ i, info = Some i → new_pegs_ok i) → do_create_pool T p assets amp fee info s = Ok (q, s') →
  q = p ∧ books (λ _ _, 0) (λ _, 0) s s' ∧ Pools s !! p = None ∧
  PoolPegs s' = match info with Some i => <[p := i]> (PoolPegs s) | None => PoolPegs s end ∧
  ∃ pool, Pools s' = <[p := pool]> (Pools s) ∧ PoolInfo.assets pool = sort assets.
Proof.
  intros Hfee Hinfo Hr. unfold do_create_pool in Hr. inv_pallet.
  match goal with Hz : call _ (set_Pools (<[p := ?pl]> _) ?s0) = Ok (_, ?s1), Hy : _ s = Ok (_, ?s0) |- _ =>
    assert (pool_ok p pl) as Hok by (by eapply created_ok);
    assert (PoolPegs s1 = PoolPegs s0) as Ep by (unfold call in Hz; by inv_ext);
    apply call_still in Hz as Hs; [|auto with stable_frames]; clear Hz; rename Hy into Hpegs;
    assert (PoolInfo.assets pl = sort assets) as Ea by done; set (pool := pl) in *; clearbody pool end.
  assert (∃ pegs, x16 = set_PoolPegs pegs s ∧ pegs = match info with Some i => <[p := i]> (PoolPegs s) | None => PoolPegs s end ∧
    ∀ q i, pegs !! q = Some i → (q = p ∧ pegs_ok pool i) ∨ PoolPegs s !! q = Some i) as (pegs & -> & Epegs & Hpg).
  { destruct info as [i|]; inv_run; [|exists (PoolPegs s); destruct s; auto].
    match goal with Hc : check_pegs _ _ _ _ = Ok _ |- _ => apply check_pegs_run in Hc; rewrite <- Ea in Hc end.
    destruct (Hinfo i eq_refl) as (? & ? & ? & ?). eexists. split_and!; [done..|].
    intros q j [[<- <-]|[? ?]]%lookup_insert_Some; [left|by right]. split; [done|]. constructor; by try lia. }
  split_and!; [done| |done|by rewrite Ep|exists pool; split; [by rewrite (still_pools _ _ Hs)|done]].
  eapply then_still; [|done]. apply storage_books; [done..|]. intros. by apply (new_pool_inv p pool pegs s).
Qed.

(** A change of the parameters of a pool or of its pegs. *)
Lemma mutate_pool_books p f s v s' :
  (∀ pool s1 pool' s2, f pool s1 = Ok (pool', s2) → still s1 s2 ∧
     (pool_ok p pool → PoolInfo.assets pool' = PoolInfo.assets pool ∧ pool_ok p pool')) →
  try_mutate_pool p f s = Ok (v, s') →
  books (λ _ _, 0) (λ _, 0) s s' ∧ dom (Pools s') = dom (Pools s).
Proof.
  intros Hok Hr. unfold try_mutate_pool in Hr. inv_pallet.
  match goal with Hf : f _ _ = Ok (?pl, _), Hp : Pools s !! p = Some _ |- _ =>
    pose proof (Hok _ _ _ _ Hf) as [Hs Hk]; rename Hp into Hp0; rewrite <- (still_pools _ _ Hs) in Hp0 end.
  split.
  2: { simpl. rewrite dom_insert_lookup_L by eauto. by rewrite (still_pools _ _ Hs). }
  eapply still_then; [done|]. apply storage_books; [done..|]. intros Hinv1.
  destruct (Hk (inv_pools _ Hinv1 _ _ Hp0)) as [Ea Hok']. destruct Hinv1. constructor; simpl; [| | |done|].
  - intros q pool' [[<- <-]|[? Hq]]%lookup_insert_Some; eauto.
  - intros q i Hq. apply inv_pegs0 in Hq as (pool' & Hq & []). destruct (decide (q = p)) as [->|].
    + rewrite lookup_insert_eq. eexists. split; [done|]. simplify_eq. constructor; by rewrite ?Ea.
    + rewrite lookup_insert_ne by done. by exists pool'.
  - intros q a t Hq. apply inv_tradability0 in Hq as (pool' & Hq & ?). destruct (decide (q = p)) as [->|].
    + rewrite lookup_insert_eq. eexists. split; [done|]. simplify_eq. by rewrite Ea.
    + rewrite lookup_insert_ne by done. by exists pool'.
  - intros q w Hq. apply inv_issuance0 in Hq as [? ?]. split; [|done]. by apply lookup_insert_is_Some'; right.
Qed.

Lemma mutate_pegs_books p f s v s' :
  (∀ info s1 info' s2, f info s1 = Ok (info', s2) → still s1 s2 ∧ PoolPegs s2 = PoolPegs s1 ∧
     (∀ pool, pegs_ok pool info → pegs_ok pool info')) →
  try_mutate_pegs p f s = Ok (v, s') → books (λ _ _, 0) (λ _, 0) s s' ∧ Pools s' = Pools s.
Proof.
  intros Hok Hr. unfold try_mutate_pegs in Hr. inv_pallet.
  match goal with Hf : f _ _ = Ok _ |- _ => pose proof (Hok _ _ _ _ Hf) as (Hs & Ep & Hk) end.
  split; [|simpl; by same_pools]. eapply still_then; [done|]. apply storage_books; [done..|]. intros [].
  constructor; simpl; [done| |done..].
  intros q i [[<- <-]|[? Hq]]%lookup_insert_Some; [|eauto].
  match goal with Hp : PoolPegs s !! p = Some _ |- _ => rewrite <- Ep in Hp; apply inv_pegs0 in Hp as (pool & ? & ?) end.
  exists pool. auto.
Qed.

(** ** All calls *)

Notation in_sync s := (∀ p, is_Some (Pools s !! p) → minted p s = share_issuance s p).

(** The calls of the pallet, with arguments in the range of their types, the end
    of a block, and what other components do: they do not mint or burn shares.  A
    pool is created with a share token of which nothing was issued. *)
Inductive stable_step s : stable → Prop :=
| step_create_pool o p assets amp fee v s' :
    is_permill fee → minted p s = 0 → create_pool T o p assets amp fee s = Ok (v, s') → stable_step s s'
| step_create_pool_with_pegs o p assets amp fee srcs m v s' :
    is_permill fee → is_perbill m → minted p s = 0 →
    create_pool_with_pegs T o p assets amp fee srcs m s = Ok (v, s') → stable_step s s'
| step_update_pool_fee o p fee v s' :
    is_permill fee → update_pool_fee T o p fee s = Ok (v, s') → stable_step s s'
| step_update_amplification o p amp b e v s' :
    0 <= amp → update_amplification T o p amp b e s = Ok (v, s') → stable_step s s'
| step_add_liquidity_shares o p x a max v s' :
    0 <= x → add_liquidity_shares T o p x a max s = Ok (v, s') → stable_step s s'
| step_remove_liquidity_one_asset o p a x min v s' :
    remove_liquidity_one_asset T o p a x min s = Ok (v, s') → stable_step s s'
| step_withdraw_asset_amount o p a y max v s' :
    withdraw_asset_amount T o p a y max s = Ok (v, s') → stable_step s s'
| step_sell o p i q x min v s' : 0 <= x → sell T o p i q x min s = Ok (v, s') → stable_step s s'
| step_buy o p q i y max v s' : 0 <= y → buy T o p q i y max s = Ok (v, s') → stable_step s s'
| step_set_tradable o p a t v s' : set_asset_tradable_state T o p a t s = Ok (v, s') → stable_step s s'
| step_remove_liquidity o p x mins v s' : remove_liquidity T o p x mins s = Ok (v, s') → stable_step s s'
| step_do_remove_liquidity who p x mins v s' : do_remove_liquidity T who p x mins s = Ok (v, s') → stable_step s s'
| step_add_assets_liquidity o p l min v s' :
    amounts_nonneg l → add_assets_liquidity T o p l min s = Ok (v, s') → stable_step s s'
| step_update_peg_source o p a src v s' : update_asset_peg_source T o p a src s = Ok (v, s') → stable_step s s'
| step_update_max_peg o p m v s' :
    is_perbill m → update_pool_max_peg_update T o p m s = Ok (v, s') → stable_step s s'
| step_finalize : stable_step s (on_finalize s)
| step_elsewhere x :
    (∀ p, is_Some (Pools s !! p) → total_issuance (AccountId := AccountId) p x = minted p s) →
    stable_step s (set_stable_ext x s).

Lemma books_sync f g s s' :
  books f g s s' → dom (Pools s') ⊆ dom (Pools s) → in_sync s → in_sync s'.
Proof.
  intros [_ _ Hm Hs] Hd Hsync p Hp%elem_of_dom. rewrite Hm, Hs, Hsync; [done|]. by apply elem_of_dom, Hd.
Qed.

(** Well-formed storage, and the share tokens issued are the ones the pallet tracks. *)
Definition good s : Prop := stable_inv s ∧ in_sync s.

Lemma books_good f g s s' :
  stable_inv s → in_sync s → books f g s s' → dom (Pools s') ⊆ dom (Pools s) → good s'.
Proof. intros Hi Hs Hb Hd. split; [by apply Hb|by eapply books_sync]. Qed.
Lemma books_same_good f g s s' :
  stable_inv s → in_sync s → books f g s s' → Pools s' = Pools s → good s'.
Proof. intros Hi Hs Hb Hp. eapply books_good; [done..|]. by rewrite Hp. Qed.

Lemma created_good p assets amp fee info s q s1 s' :
  stable_inv s → in_sync s → is_permill fee → (∀ i, info = Some i → new_pegs_ok i) → minted p s = 0 →
  do_create_pool T p assets amp fee info s = Ok (q, s1) → still s1 s' → good s'.
Proof.
  intros Hinv Hsync Hf Hi Hm Hc Hst. apply create_books in Hc as (_ & Hb & Hn & _ & pool & Ep & _); [|done..].
  pose proof (then_still _ _ _ _ _ Hb Hst) as Hb'. split; [by apply Hb'|]. intros c Hc.
  rewrite (books_minted _ _ _ _ Hb'), (books_shares _ _ _ _ Hb').
  destruct (decide (c = p)) as [->|].
  - rewrite Hm. unfold share_issuance. destruct (ShareIssuance s !! p) eqn:E; [|done].
    apply (inv_issuance _ Hinv) in E as [[? ?] _]. congruence.
  - rewrite Hsync; [done|]. rewrite (still_pools _ _ Hst), Ep, lookup_insert_ne in Hc; done.
Qed.

Lemma pool_created_still p assets amp fee info s v s' : pool_created T p assets amp fee info s = Ok (v, s') → still s s'.
Proof. intros Hr. unfold pool_created in Hr. inv_run. to_books. by etransitivity. Qed.

Lemma initial_pegs_ok assets srcs x ts b m :
  get_target_pegs T assets srcs x = Ok ts → 0 <= b → is_perbill m →
  new_pegs_ok (PoolPegInfo.mk srcs b m (take MAX_ASSETS_IN_POOL (ts.*1))).
Proof.
  intros [Ht Hl]%get_target_pegs_typed Hb Hm. unfold new_pegs_ok. simpl.
  rewrite length_take, length_fmap. split_and!; [lia| |done..]. by apply Forall_take, Forall_fmap.
Qed.

Lemma fee_update_ok p fee pool s1 pool' s2 :
  is_permill fee →
  (_ ← deposit_event (StableEvent.FeeUpdated p fee);
   mret (PoolInfo.mk (PoolInfo.assets pool) (PoolInfo.initial_amplification pool) (PoolInfo.final_amplification pool)
           (PoolInfo.initial_block pool) (PoolInfo.final_block pool) fee)) s1 = Ok (pool', s2) →
  still s1 s2 ∧ (pool_ok p pool → PoolInfo.assets pool' = PoolInfo.assets pool ∧ pool_ok p pool').
Proof. intros Hf Hr. inv_run. to_books. split; [done|]. intros []. split; [done|by constructor]. Qed.

Lemma tradable_good o p a t s v s' :
  stable_inv s → in_sync s → set_asset_tradable_state T o p a t s = Ok (v, s') → good s'.
Proof.
  intros Hinv Hsync Hr. unfold set_asset_tradable_state in Hr. inv_pallet. apply event_still in Hr.
  match goal with Hi : PoolInfo.find_asset _ _ = Some _ |- _ => apply index_of_elem in Hi end.
  eapply books_same_good; [done..| |].
  2: { rewrite (still_pools _ _ Hr). by case_match. }
  eapply then_still; [|done]. apply storage_books; [by case_match..|]. intros [].
  case_match; constructor; simpl; try done; intros q b w; rewrite ?lookup_delete_Some, ?lookup_insert_Some; naive_solver.
Qed.

Lemma amplification_good o p amp b e s v s' :
  0 <= amp → stable_inv s → in_sync s → update_amplification T o p amp b e s = Ok (v, s') → good s'.
Proof.
  intros Ha Hinv Hsync Hr. unfold update_amplification in Hr. inv_pallet.
  apply mutate_pool_books in Hr as [Hb Hd]; [eapply books_good; [done..|by rewrite Hd]|].
  assert (∀ w, in_amplification_range T w = true → amplification_typed w) as Hrange.
  { intros w Hw. unfold in_amplification_range in Hw. propify. pose proof amplification_range_typed.
    unfold amplification_typed. lia. }
  intros pool s1 pool' s2 Hf. assert (∀ w z, non_zero w = Some z → z = w) as Hnz by (unfold non_zero; intros; case_match; by inv_run).
  inv_pallet. to_books. split; [done|]. intros Hok. split; [done|].
  repeat match goal with Hw : non_zero _ = Some _ |- _ => apply Hnz in Hw end. subst.
  assert (amplification_typed (Z.min (get_amplification T pool s) (max_value 16))).
  { pose proof (amplification_between _ _ (PoolInfo.initial_block pool) (PoolInfo.final_block pool) (block_of T s)
      (pool_initial_amplification _ _ Hok) (pool_final_amplification _ _ Hok)) as Hb.
    unfold get_amplification, amplification_typed in *. lia. }
  destruct Hok. constructor; simpl; auto.
Qed.

Lemma peg_source_good o p a src s v s' :
  stable_inv s → in_sync s → update_asset_peg_source T o p a src s = Ok (v, s') → good s'.
Proof.
  intros Hinv Hsync Hr. unfold update_asset_peg_source in Hr. inv_pallet.
  apply mutate_pegs_books in Hr as [Hb Hd]; [by eapply books_same_good|].
  intros info s1 info' s2 Hf. inv_pallet. match goal with He : deposit_event _ _ = Ok _ |- _ => apply event_pegs in He as ? end.
  to_books. split_and!; [done..|]. intros pl []. constructor; simpl; [done|by rewrite length_insert|done..].
Qed.

Lemma max_peg_good o p m s v s' :
  is_perbill m → stable_inv s → in_sync s → update_pool_max_peg_update T o p m s = Ok (v, s') → good s'.
Proof.
  intros Hm Hinv Hsync Hr. unfold update_pool_max_peg_update in Hr. inv_pallet.
  apply mutate_pegs_books in Hr as [Hb Hd]; [by eapply books_same_good|].
  intros info s1 info' s2 Hf. inv_pallet. match goal with He : deposit_event _ _ = Ok _ |- _ => apply event_pegs in He as ? end.
  to_books. split_and!; [done..|]. intros pl []. by constructor.
Qed.

Lemma uniform_good b who p x mins s v s' :
  stable_inv s → in_sync s → remove_uniformly T b who p x mins s = Ok (v, s') → good s'.
Proof.
  intros Hinv Hsync Hr. apply remove_uniformly_books in Hr as (pool & l & rs & Hp & _ & _ & Hb & _ & Hd); [|done].
  eapply books_good; [done..|]. destruct Hd as [(_ & -> & _)|[_ ->]]; [done|]. rewrite dom_delete_L. set_solver.
Qed.

Lemma finalize_good s : stable_inv s → in_sync s → good (on_finalize s).
Proof.
  intros Hinv Hsync. eapply (books_same_good (λ _ _, 0) (λ _, 0)); [done..| |done].
  apply storage_books; [done..|]. intros []. by constructor.
Qed.

Lemma step_good s s' : stable_inv s → in_sync s → stable_step s s' → good s'.
Proof.
  intros Hinv Hsync Hstep. destruct Hstep as [o p assets amp fee v s' Hf Hm Hr|o p assets amp fee srcs m v s' Hf Hpb Hm Hr
    |o p fee v s' Hf Hr|o p amp b e v s' Ha Hr|o p x a max v s' Hx Hr|o p a x min v s' Hr|o p a y max v s' Hr
    |o p i q x min v s' Hx Hr|o p q i y max v s' Hy Hr|o p a t v s' Hr|o p x mins v s' Hr|who p x mins v s' Hr
    |o p l min v s' Hl Hr|o p a src v s' Hr|o p m v s' Hpb Hr| |x Hx].
  - unfold create_pool in Hr. inv_pallet.
    by eapply created_good; [done|done|done| |done|done|by eapply pool_created_still].
  - unfold create_pool_with_pegs in Hr. inv_pallet.
    eapply created_good; [done|done|done| |done|done|by eapply pool_created_still].
    intros i [= <-]. eapply initial_pegs_ok; [done|apply block_fits|done].
  - unfold update_pool_fee in Hr. inv_pallet. apply mutate_pool_books in Hr as [? Hd].
    + eapply books_good; [done..|by rewrite Hd].
    + intros. by eapply fee_update_ok.
  - by eapply amplification_good.
  - unfold add_liquidity_shares in Hr. inv_pallet. apply event_still in Hr as Hs.
    match goal with Hc : do_add_liquidity_shares _ _ _ _ _ _ _ = Ok _ |- _ =>
      apply do_add_shares_books in Hc as (? & ? & ? & ? & ? & _ & _ & _ & _ & Hb & Hp & _); [|done..] end.
    eapply books_same_good; [done|done|by eapply then_still|]. by rewrite (still_pools _ _ Hs).
  - unfold remove_liquidity_one_asset in Hr. inv_pallet.
    match goal with Hc : do_remove_liquidity_one_asset _ _ _ _ _ _ _ = Ok _ |- _ =>
      apply do_remove_one_books in Hc as (? & ? & ? & ? & ? & _ & _ & _ & _ & _ & _ & Hb & Hp & _); [|done] end.
    by eapply books_same_good.
  - apply withdraw_books in Hr as (? & ? & ? & ? & ? & ? & ? & _ & _ & _ & _ & _ & _ & Hb & Hp & _); [|done].
    by eapply books_same_good.
  - apply sell_books in Hr as (? & ? & ? & ? & ? & ? & _ & _ & _ & _ & _ & Hb & Hp & _); [|done]. by eapply books_same_good.
  - apply buy_books in Hr as (? & ? & ? & ? & ? & ? & _ & _ & _ & _ & Hb & Hp & _); [|done..]. by eapply books_same_good.
  - by eapply tradable_good.
  - unfold remove_liquidity in Hr. inv_pallet. by eapply uniform_good.
  - by eapply uniform_good.
  - unfold add_assets_liquidity in Hr. inv_pallet.
    match goal with Hc : do_add_liquidity _ _ _ _ _ _ = Ok _ |- _ =>
      apply do_add_books in Hc as (? & ? & ? & ? & ? & ? & ? & _ & _ & _ & _ & _ & _ & _ & _ & Hb & Hp & _); [|done..] end.
    by eapply books_same_good.
  - by eapply peg_source_good.
  - by eapply max_peg_good.
  - by apply finalize_good.
  - split; [by destruct Hinv; constructor|]. intros p Hp. simpl in *. rewrite Hx by done. by apply Hsync.
Qed.

(** A chain without stable pools. *)
Record stable_genesis s : Prop := {
  genesis_pools : Pools s = ∅;
  genesis_pegs : PoolPegs s = ∅;
  genesis_tradability : AssetTradability s = ∅;
  genesis_fees : BlockFee s = ∅;
  genesis_issuance : ShareIssuance s = ∅;
}.

Lemma genesis_good s : stable_genesis s → good s.
Proof.
  intros [E1 E2 E3 E4 E5]. split.
  - constructor; rewrite ?E1, ?E2, ?E3, ?E4, ?E5; set_solver.
  - intros p. rewrite E1, lookup_empty. by intros [? ?].
Qed.

Lemma reachable_good s s' : stable_genesis s → rtc stable_step s s' → good s'.
Proof.
  intros Hg%genesis_good Hr. induction Hr as [|s s1 s2 H1 _ IH]; [done|]. apply IH. destruct Hg. by eapply step_good.
Qed.

(** ** Value of the shares *)

(** D of the reserves [rs] and of the reserves of [s], with the pegs and the
    amplification of [s]. *)
Definition measured p pool rs s (d d' : Z) : Prop :=
  ∃ fp rs', get_updated_pegs T p pool s = Ok fp ∧ pool_reserves T p pool s = Some rs' ∧
    calculate_d D_ITERATIONS rs (get_amplification T pool s) fp.2 = Some d ∧
    calculate_d D_ITERATIONS rs' (get_amplification T pool s) fp.2 = Some d'.

Lemma invariants_measured p pool rs s d : invariants T p pool rs s = Ok d → measured p pool rs s d.1 d.2.
Proof. intros Hr. unfold invariants in Hr. inv_run. unfold measured. by eauto 10. Qed.

Lemma measured_fits p pool rs s d d' :
  stable_inv s → Pools s !! p = Some pool → Forall reserve_typed rs → measured p pool rs s d d' →
  fits u128 d ∧ fits u128 d'.
Proof.
  intros Hinv Hp Hrs (fp & rs' & Hf & Hr & Hd & Hd'). apply pool_reserves_typed in Hr as [? _].
  pose proof (updated_pegs_typed _ _ _ _ Hinv Hp Hf) as (_ & ? & _). pose proof (amplification_nonneg _ _ _ Hinv Hp).
  split; eapply calculate_d_fits; [| | |exact Hd| | | |exact Hd']; done.
Qed.

Lemma kept_value p pool rs iss s :
  stable_inv s → Pools s !! p = Some pool → Forall reserve_typed rs → fits u128 iss → value_kept p pool rs iss s →
  iss ≠ 0 → share_issuance s p ≠ 0 →
  ∃ d d', measured p pool rs s d d' ∧ share_value d iss <= share_value d' (share_issuance s p).
Proof.
  intros Hinv Hp Hrs Hi (d & Hd & Hv) Hn Hn'. apply invariants_measured in Hd. exists d.1, d.2. split; [done|].
  apply measured_fits in Hd as [? ?]; [|done..]. apply ensure_ratio_value; [done..|by apply share_issuance_fits|auto].
Qed.

(** While shares exist, the reserves an addition starts from are those of the pool. *)
Lemma applied_reserves p pool iss s added rs us prov rest :
  iss ≠ 0 → apply_liquidity T (pool_account T p) iss (stable_ext s) (PoolInfo.assets pool) added = Ok (rs, us, prov, rest) →
  pool_reserves T p pool s = Some rs.
Proof.
  intros Hi. unfold pool_reserves, reserves_with_decimals. generalize (PoolInfo.assets pool) as assets. intros assets.
  revert added rs us prov rest. induction assets as [|a assets IH]; intros added rs us prov rest Hr; simpl in Hr; inv_run; [done|].
  rewrite (proj2 (Z.eqb_neq iss 0) Hi), andb_false_r in Hr. simpl.
  match goal with Hd : asset_decimals _ _ _ = Some _ |- _ => rewrite Hd end. simpl.
  destruct (added !! a); inv_run;
    match goal with Hx : apply_liquidity _ _ _ _ _ _ = Ok ?y |- _ => destruct y as [[[? ?] ?] ?]; apply IH in Hx end;
    inv_run; by match goal with Hx : mapM _ _ = Some _ |- _ => rewrite Hx end.
Qed.

(** The trades of a pool, and the calls that change its shares. *)
Inductive trade_call p s s' : Prop :=
| trade_sell o i q x min v : 0 <= x → sell T o p i q x min s = Ok (v, s') → trade_call p s s'
| trade_buy o q i y max v : 0 <= y → buy T o p q i y max s = Ok (v, s') → trade_call p s s'.

Inductive share_call p s s' : Prop :=
| share_add o l min v : amounts_nonneg l → add_assets_liquidity T o p l min s = Ok (v, s') → share_call p s s'
| share_add_shares o x a max v : 0 <= x → add_liquidity_shares T o p x a max s = Ok (v, s') → share_call p s s'
| share_remove_one o a x min v : remove_liquidity_one_asset T o p a x min s = Ok (v, s') → share_call p s s'
| share_withdraw o a y max v : withdraw_asset_amount T o p a y max s = Ok (v, s') → share_call p s s'
| share_remove o x mins v : remove_liquidity T o p x mins s = Ok (v, s') → share_call p s s'.

(** What a share call establishes. *)
Lemma share_call_kept p s s' pool rs :
  stable_inv s → share_call p s s' → Pools s !! p = Some pool → pool_reserves T p pool s = Some rs →
  share_issuance s p ≠ 0 → share_issuance s' p ≠ 0 →
  stable_inv s' ∧ Pools s' = Pools s ∧ value_kept p pool rs (share_issuance s p) s'.
Proof.
  intros Hinv [o l min v Hl Hr|o x a max v Hx Hr|o a x min v Hr|o a y max v Hr|o x mins v Hr] Hp Hrs Hn Hn'.
  - unfold add_assets_liquidity in Hr. inv_pallet.
    match goal with Hc : do_add_liquidity _ _ _ _ _ _ = Ok _ |- _ =>
      apply do_add_books in Hc as (pl & ? & rs' & ? & ? & ? & ? & Hp' & _ & Ha & _ & _ & _ & _ & _ & Hb & Ep & Hv); [|done..] end.
    simplify_eq. apply applied_reserves in Ha; [|done]. simplify_eq. split_and!; [by apply Hb|done..].
  - unfold add_liquidity_shares in Hr. inv_pallet. apply event_still in Hr as Hs.
    match goal with Hc : do_add_liquidity_shares _ _ _ _ _ _ _ = Ok _ |- _ =>
      apply do_add_shares_books in Hc as (? & ? & ? & ? & ? & (? & _ & ? & _) & _ & _ & _ & Hb & Ep & Hv); [|done..] end.
    simplify_eq. split_and!; [by apply Hs, Hb|by same_pools|by eapply event_value].
  - unfold remove_liquidity_one_asset in Hr. inv_pallet.
    match goal with Hc : do_remove_liquidity_one_asset _ _ _ _ _ _ _ = Ok _ |- _ =>
      apply do_remove_one_books in Hc as (? & ? & ? & ? & ? & (? & _ & ? & _) & _ & _ & _ & _ & _ & Hb & Ep & Hv); [|done] end.
    simplify_eq. split_and!; [by apply Hb|done..].
  - apply withdraw_books in Hr as (? & ? & ? & ? & ? & ? & ? & _ & (? & _ & ? & _) & _ & _ & _ & _ & Hb & Ep & Hv); [|done].
    simplify_eq. split_and!; [by apply Hb|done..].
  - unfold remove_liquidity in Hr. inv_pallet.
    apply remove_uniformly_books in Hr as (? & ? & ? & ? & _ & _ & Hb & ? & [(_ & Ep & Hv)|[E _]]); [| |done..].
    + simplify_eq. split_and!; [by apply Hb|done..].
    + exfalso. apply Hn'. rewrite (books_shares _ _ _ _ Hb). cbv beta. rewrite when_true by done. lia.
Qed.

(** ** Properties *)

(** C32: in every state the pallet can reach, the stored pools have two to five
    distinct sorted assets without the share token, amplifications and fees in
    range and one current peg for every asset; tradability and issuance are only
    stored for existing pools and their assets. *)
Theorem stable_storage_well_formed s s' : stable_genesis s → rtc stable_step s s' → stable_inv s'.
Proof. intros Hg Hr. by apply (reachable_good s). Qed.


(** C6: a trade never lowers the invariant D of its pool. *)
Theorem stable_trade_keeps_d p s s' pool rs :
  stable_inv s → trade_call p s s' → Pools s !! p = Some pool → pool_reserves T p pool s = Some rs →
  ∃ d d', measured p pool rs s' d d' ∧ d <= d'.
Proof.
  intros Hinv [o i q x min v Hx Hr|o q i y max v Hy Hr] Hp Hrs.
  - apply sell_books in Hr as (? & ? & ? & ? & ? & d & _ & _ & _ & _ & _ & _ & _ & Hp' & Hr' & Hd & Hle); [|done].
    simplify_eq. apply invariants_measured in Hd. eauto.
  - apply buy_books in Hr as (? & ? & ? & ? & ? & d & _ & _ & _ & _ & _ & _ & Hp' & Hr' & Hd & Hle); [|done..].
    simplify_eq. apply invariants_measured in Hd. eauto.
Qed.


(** C37: a pool with pegs is stored with its assets sorted, but with the pegs and
    the peg sources in the order of the call. *)
Theorem initial_pegs_in_call_order o p assets amp fee srcs m s v s' :
  is_permill fee → is_perbill m → create_pool_with_pegs T o p assets amp fee srcs m s = Ok (v, s') →
  ∃ pool info ts, Pools s' !! p = Some pool ∧ PoolPegs s' !! p = Some info ∧
    PoolInfo.assets pool = sort assets ∧ get_target_pegs T assets srcs (stable_ext s) = Ok ts ∧
    PoolPegInfo.current info = take MAX_ASSETS_IN_POOL (ts.*1) ∧ PoolPegInfo.source info = srcs.
Proof.
  intros Hf Hm Hr. unfold create_pool_with_pegs in Hr. inv_pallet.
  match goal with Hc : do_create_pool _ _ _ _ _ _ _ = Ok _ |- _ =>
    apply create_books in Hc as (-> & _ & _ & Epegs & pool & Ep & Ea); [|done|] end.
  2: { intros i [= <-]. eapply initial_pegs_ok; [done|apply block_fits|done]. }
  unfold pool_created, deposit_event in Hr. inv_run. simpl. rewrite Ep, Epegs, !lookup_insert_eq. by eauto 10.
Qed.
End invariant.
