(* ===== verification/StableswapRouter.v ===== *)
(** * Stable pools as pools of the router

    The executor of the stableswap pallet settles at its quotes, in trades
    between two assets and in trades against the share token, and meets the
    interface the theorems on routes are proved against. *)

From S2P Require Import Prelude Arithmetic Currency Ratio Broadcast Traits RouteExecutor RouterTrades RouterOmnipool StableswapMath StableswapBounds StableswapPallet StableswapInvariant.

Section stableswap.
Context {X AccountId : Type} `{!EqDecision AccountId} `{!MultiCurrency X AccountId}
  `{!MultiCurrencyLaws X AccountId} `{SpArithmeticLaws}.
Context (T : StableConfig X AccountId) `{!StableConfigLaws T}.

(** The balance an account can spend. *)
Context (reducible : AssetId → AccountId → X → Balance).
Hypothesis reducible_free : ∀ c a x, 0 <= reducible c a x <= free_balance c a x.

Notation stable := (stable X AccountId).
Implicit Types (s : stable) (who : AccountId) (p c : AssetId) (pool : PoolInfo.t).

(** The chain the router works on is the pallet's storage. *)
#[local] Instance stable_currency : MultiCurrency stable AccountId := {|
  free_balance c a s := free_balance c a (stable_ext s);
  total_balance c a s := total_balance c a (stable_ext s);
  total_issuance c s := total_issuance c (stable_ext s);
  transfer c f t z er s := (λ x, set_stable_ext x s) <$> transfer c f t z er (stable_ext s);
  deposit c t z s := (λ x, set_stable_ext x s) <$> deposit c t z (stable_ext s);
  withdraw c f z er s := (λ x, set_stable_ext x s) <$> withdraw c f z er (stable_ext s);
  ensure_can_withdraw c a z s := ensure_can_withdraw c a z (stable_ext s);
|}.
#[local] Instance stable_world : RouterWorld stable AccountId := {|
  reducible_balance c a s := reducible c a (stable_ext s);
  bcast_of s := stable_bcast s;
  set_bcast := set_stable_bcast;
|}.

#[local] Instance stable_currency_laws : MultiCurrencyLaws stable AccountId.
Proof.
  constructor; simpl; intros; inv_run.
  - apply free_balance_fits.
  - apply total_issuance_fits.
  - by eapply (transfer_moves c f t).
  - by eapply (deposit_adds c t).
  - by eapply (withdraw_subtracts c f).
Qed.
#[local] Instance stable_world_laws : RouterWorldLaws stable AccountId.
Proof. constructor; simpl; intros; [apply reducible_free|done]. Qed.

(** The accounts of the pools. *)
Definition pool_held who : Prop := ∃ p, who = pool_account T p.

Lemma not_account who p : ¬ pool_held who → who ≠ pool_account T p.
Proof. intros Hw ->. apply Hw. by exists p. Qed.

Lemma books_traded f g who i x q y s s' :
  books f g s s' →
  (∀ c b, ¬ pool_held b → f c b = when (c = q ∧ b = who) y - when (c = i ∧ b = who) x) →
  traded pool_held who i x q y s s'.
Proof. intros Hb Hf c b Hn. simpl. rewrite (books_free _ _ _ _ Hb), Hf by done. lia. Qed.

Lemma swapped_outside p who i x q y c b :
  ¬ pool_held who → ¬ pool_held b →
  swapped T p who i x q y c b = when (c = q ∧ b = who) y - when (c = i ∧ b = who) x.
Proof.
  intros Hw%(not_account _ p) Hb%(not_account _ p). unfold swapped. by_moves.
Qed.

(** ** Quotes of added liquidity *)

Ltac both IH :=
  match goal with Hx : quote_liquidity _ _ _ _ _ = Ok _, Hy : apply_liquidity _ _ _ _ _ _ = Ok _ |- _ =>
    destruct (IH _ _ _ _ _ _ _ Hx Hy) as [-> Hi] end.

Lemma quoted_liquidity account iss x assets added qi qu rs us prov rest :
  quote_liquidity T account x assets added = Ok (qi, qu) →
  apply_liquidity T account iss x assets added = Ok (rs, us, prov, rest) →
  us = qu ∧ (iss ≠ 0 → rs = qi).
Proof.
  revert added qi qu rs us prov rest.
  induction assets as [|a assets IH]; intros added qi qu rs us prov rest Hq Ha; simpl in Hq, Ha; inv_run; [done|].
  pose proof (free_balance_fits a account x) as Hf. set (r := free_balance a account x) in *.
  destruct (negb (r =? 0) && (iss =? 0)) eqn:Ez; simpl in Ha.
  - propify. rewrite lookup_insert_eq, delete_insert_eq in Ha. inv_run.
    match goal with Hx : apply_liquidity _ _ _ _ _ _ = Ok ?y |- _ => destruct y as [[[rs' us'] prov'] rest'] end. inv_run.
    destruct (added !! a) eqn:El; inv_run;
      match goal with Hx : quote_liquidity _ _ _ _ _ = Ok ?y |- _ => destruct y as [qi' qu'] end.
    + both IH. simplify_eq/=. split; [|lia]. do 2 f_equal. unfold saturating_add. lia.
    + rewrite delete_id in * by done. both IH. simplify_eq/=. split; [done|lia].
  - destruct (added !! a) eqn:El; inv_run;
      match goal with Hx : apply_liquidity _ _ _ _ _ _ = Ok ?y |- _ => destruct y as [[[rs' us'] prov'] rest'] end; inv_run;
      match goal with Hx : quote_liquidity _ _ _ _ _ = Ok ?y |- _ => destruct y as [qi' qu'] end;
      both IH; simplify_eq/=; (split; [done|]; intros Hn; by rewrite (Hi Hn)).
Qed.

(** The first shares are D less two; they do not depend on the reserves before. *)
Lemma first_shares D rs us amp fee pegs out :
  calculate_shares D rs us amp 0 fee pegs = Some out → calculate_d D us amp pegs = Some (out.1 + 2).
Proof.
  intros Hr. unfold calculate_shares in Hr. case_match; [done|]. inv_run. case_match; [done|]. inv_run.
  match goal with Hx : (let '(_, _) := ?p in _) = Some _ |- _ => destruct p end. inv_run. simpl in *. inv_run.
  match goal with Hx : calculate_d D ?l _ _ = Some ?v, Hv : 2 <= ?v |- _ => rewrite Hx end. f_equal. simpl. lia.
Qed.
Lemma shares_same D rs rs' us amp iss fee pegs out out' :
  (iss ≠ 0 → rs = rs') →
  calculate_shares D rs us amp iss fee pegs = Some out → calculate_shares D rs' us amp iss fee pegs = Some out' →
  out.1 = out'.1.
Proof.
  intros Hrs Ho Ho'. destruct (decide (iss = 0)) as [->|Hn]; [|rewrite Hrs in Ho by done; congruence].
  apply first_shares in Ho, Ho'. rewrite Ho in Ho'. injection Ho' as E. lia.
Qed.

(** ** Sales *)

Definition settles_sell who p i x q y s s' : Prop :=
  stable_inv s' ∧ i ≠ q ∧ fits u128 y ∧ traded pool_held who i x q y s s'.

Lemma quoted_out p i q x s r z :
  calculate_out_amount T p i q x false s = Ok z → calculate_out_amount T p i q x true s = Ok r → z.1 = r.1.
Proof.
  destruct z as [z sz], r as [r sr]. intros Hz Hr.
  apply (out_amount_run T) in Hz as (_ & _ & ? & ? & ? & ? & ? & (? & ? & ? & ? & ?) & Hz).
  apply (out_amount_run T) in Hr as (_ & _ & ? & ? & ? & ? & ? & (? & ? & ? & ? & ?) & Hr). simpl. congruence.
Qed.

Lemma share_inputs_run p a s pool ai rs fp :
  asset_inputs T p a s pool ai rs fp →
  share_quote_inputs T p a s = Ok (ai, rs, get_amplification T pool s, fp.1, fp.2).
Proof.
  intros (Hp & Ha & Hr & Hf). unfold share_quote_inputs. rewrite Hp. simpl. rewrite Ha. simpl. rewrite Hr. simpl.
  rewrite Hf. by destruct fp.
Qed.
Lemma share_inputs_inv p a s ai rs amp fee pegs :
  share_quote_inputs T p a s = Ok (ai, rs, amp, fee, pegs) →
  ∃ pool, asset_inputs T p a s pool ai rs (fee, pegs) ∧ amp = get_amplification T pool s.
Proof. intros Hq. unfold share_quote_inputs in Hq. inv_run. repeat case_match. inv_run. eexists. by split_and!. Qed.

(** The quote for added liquidity is what the addition mints. *)
Lemma quoted_add p i x who s pool added rs us prov fp v fees z :
  Pools s !! p = Some pool → collect_assets T p who [AssetAmount.new i x] ∅ s = Ok added →
  apply_liquidity T (pool_account T p) (share_issuance s p) (stable_ext s) (PoolInfo.assets pool) added
    = Ok (rs, us, prov, ∅) → get_updated_pegs T p pool s = Ok fp →
  calculate_shares D_ITERATIONS rs us (get_amplification T pool s) (share_issuance s p) fp.1 fp.2 = Some (v, fees) →
  quote_add T p i x s = Ok z → z = v.
Proof.
  intros Hp Hc Ha Hf Hs Hz. simpl in Hc. rewrite lookup_empty in Hc. inv_run. rewrite insert_empty in Ha.
  unfold quote_add in Hz. rewrite Hp in Hz. inv_run. rewrite Hf in Hz.
  match goal with Hx : quote_liquidity _ _ _ _ _ = Ok ?y |- _ => destruct y as [qi qu] end. destruct fp. inv_run. simpl in *.
  match goal with Hx : quote_liquidity _ _ _ _ _ = Ok _ |- _ => destruct (quoted_liquidity _ _ _ _ _ _ _ _ _ _ _ Hx Ha) as [<- E] end.
  match goal with Hx : calculate_shares _ qi _ _ _ _ _ = Some _ |- _ => apply (shares_same _ _ _ _ _ _ _ _ _ _ E Hs) in Hx end.
  done.
Qed.

Lemma execute_sell_settles who p i q x min s v s' :
  stable_inv s → ¬ pool_held who → 0 <= x →
  execute_sell T (Signed who) (PoolType.Stableswap p) i q x min s = Ok (v, s') →
  ∃ y, min <= y ∧ settles_sell who p i x q y s s' ∧
    ∀ z, calculate_out_given_in T (PoolType.Stableswap p) i q x s = Ok z → z = y.
Proof.
  intros Hinv Hw Hx Hr. unfold execute_sell, on_stableswap in Hr. apply (proj1 (executor_Ok _ _ _ _)) in Hr.
  unfold calculate_out_given_in, for_stableswap, settles_sell. destruct (i =? p) eqn:Ei; [|destruct (q =? p) eqn:Eq]; propify.
  - subst i. unfold remove_liquidity_one_asset in Hr. inv_pallet.
    match goal with Hx0 : do_remove_liquidity_one_asset _ _ _ _ _ _ _ = Ok _ |- _ =>
      apply (do_remove_one_books T) in Hx0 as (pool & ai & rs & fp & fee & Hin & _ & Hc & Hm & _ & Hy & Hb & _); [|done] end.
    pose proof (asset_inputs_typed T _ _ _ _ _ _ _ Hinv Hin) as (_ & _ & _ & _ & _ & _ & Hne).
    eexists. split; [done|]. split; [split_and!; [by apply Hb|done|done|]|].
    + eapply books_traded; [done|]. intros c b Hn. apply (not_account _ p) in Hn, Hw. simpl. by_moves.
    + intros z Hz. unfold quote_withdraw in Hz. apply share_inputs_run in Hin. rewrite Hin in Hz. inv_run.
      simpl in *. by simplify_eq.
  - subst q. unfold add_assets_liquidity in Hr. inv_pallet.
    match goal with Hx0 : do_add_liquidity _ _ _ _ _ _ = Ok _ |- _ =>
      apply (do_add_books T) in Hx0 as (pool & added & rs & us & prov & fp & fees & Hp & Hc & Ha & Hf & Hs & _ & Hm & Hv & Hb & _);
        [|done|by repeat constructor] end.
    eexists. split; [done|]. split; [split_and!; [by apply Hb|done|done|]|].
    + eapply books_traded; [done|]. intros c b Hn. apply (not_account _ p) in Hn, Hw. simpl. by_moves.
    + intros z Hz. apply map_err_Ok in Hz. by eapply quoted_add.
  - apply (sell_books T) in Hr as (w & r & s1 & _ & _ & _ & [= <-] & Hne & Hc & Hm & Hy & Hb & _); [|done].
    eexists. split; [done|]. split; [split_and!; [by apply Hb|done|done|]|].
    + eapply books_traded; [done|]. intros. by apply swapped_outside.
    + intros z Hz. inv_run. match goal with Hx : calculate_out_amount _ _ _ _ _ false _ = Ok ?y |- _ =>
        by rewrite (quoted_out _ _ _ _ _ _ _ Hx Hc) end.
Qed.

(** ** Purchases *)

Lemma quoted_in p i q y s r z :
  stable_inv s → calculate_in_amount T p i q y false s = Ok z → calculate_in_amount T p i q y true s = Ok r → z.1 = r.1.
Proof.
  destruct z as [z sz], r as [r sr]. intros Hinv Hz Hr.
  apply (in_amount_run T) in Hz as (_ & _ & ? & ? & ? & ? & ? & (? & ? & ? & ? & ?) & Hz); [|done].
  apply (in_amount_run T) in Hr as (_ & _ & ? & ? & ? & ? & ? & (? & ? & ? & ? & ?) & Hr); [|done]. simpl. congruence.
Qed.

Lemma execute_buy_settles who p i q y max s v s' :
  stable_inv s → ¬ pool_held who → 0 <= y →
  execute_buy T (Signed who) (PoolType.Stableswap p) i q y max s = Ok (v, s') →
  ∃ x, fits u128 x ∧ x <= max ∧ (stable_inv s' ∧ i ≠ q ∧ traded pool_held who i x q y s s') ∧
    ∀ z, calculate_in_given_out T (PoolType.Stableswap p) i q y s = Ok z → z = x.
Proof.
  intros Hinv Hw Hy Hr. unfold execute_buy, on_stableswap in Hr. apply (proj1 (executor_Ok _ _ _ _)) in Hr.
  unfold calculate_in_given_out, for_stableswap. destruct (q =? p) eqn:Eq; [|destruct (i =? p) eqn:Ei]; propify.
  - subst q. unfold add_liquidity_shares in Hr. inv_pallet. apply event_still in Hr.
    match goal with Hx0 : do_add_liquidity_shares _ _ _ _ _ _ _ = Ok _ |- _ =>
      apply (do_add_shares_books T) in Hx0 as (pool & ai & rs & fp & fee & Hin & Hc & Hm & Hx & Hb & _); [|done..] end.
    pose proof (asset_inputs_typed T _ _ _ _ _ _ _ Hinv Hin) as (_ & _ & _ & _ & _ & _ & Hne).
    eapply then_still in Hb; [|done].
    eexists. split; [done|]. split; [done|]. split; [split_and!; [by apply Hb|done|]|].
    + eapply books_traded; [done|]. intros c b Hn. apply (not_account _ p) in Hn, Hw. simpl. by_moves.
    + intros z Hz. apply share_inputs_run in Hin. rewrite Hin in Hz. inv_run. simpl in *. by simplify_eq.
  - subst i. apply (withdraw_books T) in Hr as (w & x & pool & ai & rs & fp & fees & [= <-] & Hin & _ & Hc & Hm & Hx & Hb & _); [|done].
    pose proof (asset_inputs_typed T _ _ _ _ _ _ _ Hinv Hin) as (_ & _ & _ & _ & _ & _ & Hne).
    eexists. split; [done|]. split; [done|]. split; [split_and!; [by apply Hb|done|]|].
    + eapply books_traded; [done|]. intros c b Hn. apply (not_account _ p) in Hn, Hw. simpl. by_moves.
    + intros z Hz. apply share_inputs_run in Hin. rewrite Hin in Hz. inv_run. simpl in *. by simplify_eq.
  - apply (buy_books T) in Hr as (w & r & s1 & _ & _ & _ & [= <-] & Hne & Hc & Hm & Hb & _); [|done..].
    pose proof (in_amount_run T _ _ _ _ _ _ _ _ Hinv Hc) as (_ & Hx & _).
    eexists. split; [done|]. split; [done|]. split; [split_and!; [by apply Hb|done|]|].
    + eapply books_traded; [done|]. intros. by apply swapped_outside.
    + intros z Hz. inv_run. match goal with Hx : calculate_in_amount _ _ _ _ _ false _ = Ok ?y |- _ =>
        by rewrite (quoted_in _ _ _ _ _ _ _ Hinv Hx Hc) end.
Qed.

(** The quote for a purchase is a [u128]. *)
Lemma in_quote_fits_stable pt i q y s z :
  stable_inv s → 0 <= y → calculate_in_given_out T pt i q y s = Ok z → fits u128 z.
Proof.
  intros Hinv Hy Hr. unfold calculate_in_given_out, for_stableswap in Hr. destruct pt as [| |p| | |]; try done.
  apply map_err_Ok in Hr. destruct (q =? p); [|destruct (i =? p)]; inv_run.
  - match goal with Hq : share_quote_inputs _ _ _ _ = Ok ?t |- _ => destruct t as [[[[ai rs] amp] fee] pegs];
      apply share_inputs_inv in Hq as (pool & Hin & ->) end.
    apply (asset_inputs_typed T) in Hin as (? & Hl & ? & ? & ? & ? & _); [|done]. inv_run.
    eapply add_one_fits; [..|done]; try done. unfold MAX_ASSETS_IN_POOL in Hl. lia.
  - match goal with Hq : share_quote_inputs _ _ _ _ = Ok ?t |- _ => destruct t as [[[[ai rs] amp] fee] pegs];
      apply share_inputs_inv in Hq as (pool & Hin & ->) end.
    apply (asset_inputs_typed T) in Hin as (? & _ & ? & ? & ? & ? & _); [|done]. inv_run.
    eapply shares_for_amount_fits; [..|done]; done.
  - match goal with Hq : calculate_in_amount _ _ _ _ _ _ _ = Ok ?t |- _ => destruct t as [r sr];
      apply (in_amount_run T) in Hq as (_ & ? & _); [|done] end. done.
Qed.

(** ** The laws of a pool *)

#[export] Instance stableswap_pool_laws : PoolLaws (stableswap_executor T) stable_inv pool_held.
Proof.
  constructor; simpl.
  - intros who pt i q x lim s v s' Hinv Hw [Hx _] Hr. destruct pt as [| |p| | |]; try done.
    apply execute_sell_settles in Hr as (y & ? & (? & ? & [? _] & ?) & _); [|done..]. split_and!; [done..|]. by exists y.
  - intros who pt i q y lim s v s' Hinv Hw [Hy _] Hr. destruct pt as [| |p| | |]; try done.
    apply execute_buy_settles in Hr as (x & [? _] & ? & (? & ? & ?) & _); [|done..]. split_and!; [done..|]. by exists x.
  - intros pt i q y s x Hinv [Hy _] Hr. by eapply in_quote_fits_stable.
  - intros c f t z er s s' [] Hf Ht Hz Hr. inv_run. by constructor.
  - intros b s []. by constructor.
Qed.

(** ** Quotes and the rest of the chain *)

(** What a quote reads. *)
Record same_view s s' : Prop := {
  view_pools : Pools s' = Pools s;
  view_pegs : PoolPegs s' = PoolPegs s;
  view_tradability : AssetTradability s' = AssetTradability s;
  view_fee : BlockFee s' = BlockFee s;
  view_issuance : ShareIssuance s' = ShareIssuance s;
  view_reserves c p : free_balance c (pool_account T p) (stable_ext s') = free_balance c (pool_account T p) (stable_ext s);
  view_decimals a : asset_decimals T a (stable_ext s') = asset_decimals T a (stable_ext s);
  view_block : current_block_number T (stable_ext s') = current_block_number T (stable_ext s);
  view_oracle a src : get_raw_entry T a src (stable_ext s') = get_raw_entry T a src (stable_ext s);
}.

Lemma view_pool_reserves s s' p pool : same_view s s' → pool_reserves T p pool s' = pool_reserves T p pool s.
Proof.
  intros []. unfold pool_reserves, reserves_with_decimals. induction (PoolInfo.assets pool) as [|a l IH]; [done|].
  simpl. by rewrite IH, view_decimals0, view_reserves0.
Qed.
Lemma view_target s s' assets srcs :
  same_view s s' → target_pegs T assets srcs (stable_ext s') = target_pegs T assets srcs (stable_ext s).
Proof.
  intros []. revert srcs. induction assets as [|a l IH]; intros [|src srcs]; simpl; [done..|]. by rewrite IH, view_oracle0.
Qed.
Lemma view_updated s s' p pool : same_view s s' → get_updated_pegs T p pool s' = get_updated_pegs T p pool s.
Proof.
  intros Hv. unfold get_updated_pegs, get_target_pegs, block_of. pose proof (view_target s s' (PoolInfo.assets pool)) as Et.
  rewrite (view_pegs _ _ Hv), (view_block _ _ Hv), (view_fee _ _ Hv). case_match; [|done].
  destruct (PoolInfo.assets pool); [done|]. by rewrite Et.
Qed.
Lemma view_amplification s s' pool : same_view s s' → get_amplification T pool s' = get_amplification T pool s.
Proof. intros Hv. unfold get_amplification, block_of. by rewrite (view_block _ _ Hv). Qed.
Lemma view_quoted s s' p assets added :
  same_view s s' →
  quote_liquidity T (pool_account T p) (stable_ext s') assets added = quote_liquidity T (pool_account T p) (stable_ext s) assets added.
Proof.
  intros []. revert added. induction assets as [|a l IH]; intros added; simpl; [done|].
  rewrite view_decimals0, view_reserves0. destruct (asset_decimals T a (stable_ext s)); simpl; [|done].
  case_match; [destruct (checked_add _ _ _)|destruct (0 <? _)]; simpl; by rewrite ?IH.
Qed.

Lemma quote_same_view_stable pt i q x s s' :
  same_view s s' → calculate_out_given_in T pt i q x s' = calculate_out_given_in T pt i q x s.
Proof.
  intros Hv. unfold calculate_out_given_in, for_stableswap. destruct pt as [| |p| | |]; try done. f_equal.
  assert (share_issuance s' p = share_issuance s p) as Ei by (unfold share_issuance; by rewrite (view_issuance _ _ Hv)).
  destruct (i =? p); [|destruct (q =? p)].
  - unfold quote_withdraw, share_quote_inputs. rewrite (view_pools _ _ Hv), Ei.
    destruct (Pools s !! p) as [pool|]; simpl; [|done].
    by rewrite (view_pool_reserves _ _ _ _ Hv), (view_updated _ _ _ _ Hv), (view_amplification _ _ _ Hv).
  - unfold quote_add, is_asset_allowed, tradability. rewrite (view_pools _ _ Hv), (view_tradability _ _ Hv), Ei.
    destruct (Pools s !! p) as [pool|]; simpl; [|done].
    by rewrite (view_quoted _ _ _ _ _ Hv), (view_updated _ _ _ _ Hv), (view_amplification _ _ _ Hv).
  - unfold calculate_out_amount, pegs_for, Prelude.some_or, or_panic, Prelude.ensure_or, ensureM, math_or.
    unfold mbind, M_bind, result_bind, lift, get. simpl.
    rewrite (view_pools _ _ Hv). destruct (Pools s !! p) as [pool|]; simpl; [|done].
    rewrite (view_pool_reserves _ _ _ _ Hv), (view_amplification _ _ _ Hv).
    destruct (PoolInfo.find_asset pool i) as [ii|]; simpl; [|done].
    destruct (PoolInfo.find_asset pool q) as [qi|]; simpl; [|done].
    destruct (pool_reserves T p pool s) as [rs|]; simpl; [|done].
    destruct (rs !! ii) as [ri|]; simpl; [|done]. destruct (amount ri =? 0); simpl; [done|].
    destruct (rs !! qi) as [rq|]; simpl; [|done]. destruct (amount rq =? 0); simpl; [done|].
    rewrite (view_updated _ _ _ _ Hv). destruct (get_updated_pegs T p pool s) as [[fee pegs]|]; [|done].
    by destruct (calculate_out_given_in_with_fee _ _ _ _ _ _ _ _ _).
Qed.

(** The registry, the peg oracle and the block number are not read from the ledger. *)
Hypothesis registry_off_ledger : ∀ c f t z er x x' a,
  transfer c f t z er x = Ok x' → asset_decimals T a x' = asset_decimals T a x.
Hypothesis block_off_ledger : ∀ c f t z er x x',
  transfer c f t z er x = Ok x' → current_block_number T x' = current_block_number T x.
Hypothesis oracle_off_ledger : ∀ c f t z er x x' a src,
  transfer c f t z er x = Ok x' → get_raw_entry T a src x' = get_raw_entry T a src x.

Lemma transfer_view_stable c f t z er s s' :
  0 <= z → ¬ pool_held f → ¬ pool_held t → transfer c f t z er s = Ok s' → same_view s s'.
Proof.
  intros Hz Hf Ht Hr. simpl in Hr. inv_run. constructor; simpl; [done..| | | |]; eauto.
  match goal with Hx : transfer _ _ _ _ _ _ = Ok _ |- _ => apply transfer_moves in Hx as (_ & Hm & _); [|done] end.
  intros b p. apply (not_account _ p) in Hf, Ht. rewrite Hm. by_moves.
Qed.

#[export] Instance stableswap_pool_quotes : PoolQuotes (stableswap_executor T) stable_inv pool_held.
Proof.
  constructor; simpl.
  - intros who pt i q x lim z s v s' Hinv Hw [Hx _] Hq Hr. destruct pt as [| |p| | |]; try done.
    apply execute_sell_settles in Hr as (y & ? & (? & ? & ? & ?) & E); [|done..]. rewrite (E _ Hq). done.
  - intros c f t z er pt i q x s s' Hinv Hf Ht Hz Hr. apply quote_same_view_stable. exact (transfer_view_stable c f t z er s s' Hz Hf Ht Hr).
  - intros b pt i q x s. apply quote_same_view_stable. by constructor.
Qed.

(** ** Properties *)

(** C25: a sale through a stable pool, of one asset for another or to or from the
    share token, takes exactly the amount and pays exactly what the executor
    quotes, at least the minimum; other accounts outside the pools are as before. *)
Theorem stable_sell_settles_at_quote who p i q x min s z v s' :
  stable_inv s → ¬ pool_held who → fits u128 x →
  TradeExecution.calculate_out_given_in (stableswap_executor T) (PoolType.Stableswap p) i q x s = Ok z →
  TradeExecution.execute_sell (stableswap_executor T) (Signed who) (PoolType.Stableswap p) i q x min s = Ok (v, s') →
  min <= z ∧ i ≠ q ∧ ∀ c b, ¬ pool_held b →
    free_balance c b (stable_ext s') =
    free_balance c b (stable_ext s) + when (c = q ∧ b = who) z - when (c = i ∧ b = who) x.
Proof.
  intros Hinv Hw [Hx _] Hq Hr. apply execute_sell_settles in Hr as (y & ? & (_ & ? & _ & Ht) & E); [|done..].
  rewrite (E _ Hq). by split_and!.
Qed.

(** A purchase through a stable pool delivers exactly the amount and takes
    exactly what the executor quotes, at most the maximum. *)
Theorem stable_buy_settles_at_quote who p i q y max s z v s' :
  stable_inv s → ¬ pool_held who → fits u128 y →
  TradeExecution.calculate_in_given_out (stableswap_executor T) (PoolType.Stableswap p) i q y s = Ok z →
  TradeExecution.execute_buy (stableswap_executor T) (Signed who) (PoolType.Stableswap p) i q y max s = Ok (v, s') →
  z <= max ∧ i ≠ q ∧ ∀ c b, ¬ pool_held b →
    free_balance c b (stable_ext s') =
    free_balance c b (stable_ext s) + when (c = q ∧ b = who) y - when (c = i ∧ b = who) z.
Proof.
  intros Hinv Hw [Hy _] Hq Hr. apply execute_buy_settles in Hr as (x & _ & ? & (_ & ? & Ht) & E); [|done..].
  rewrite (E _ Hq). by split_and!.
Qed.
End stableswap.
