(* ===== verification/StableswapDemo.v ===== *)
(** * A stable pool on concrete data

    A pool is created, filled, traded with and partly emptied on the concrete
    ledger; the runs instantiate the theorems on the stableswap pallet.  A pool
    with pegs is created with its assets out of order. *)

From S2P Require Import Prelude Arithmetic Currency Ratio Broadcast Traits RouteExecutor RouterTrades RouterOmnipool StableswapMath StableswapBounds StableswapPallet StableswapInvariant StableswapRouter.

Module StablePoolDemo.
#[local] Existing Instance reference_arithmetic.
#[local] Existing Instance reference_arithmetic_laws.

Definition alice : Z := 1.
Definition usd : AssetId := 10.
Definition eur : AssetId := 11.
Definition share : AssetId := 100.
Definition unit_ : Z := 10 ^ 12.

(** Assets with twelve decimals; only fixed pegs have an oracle. *)
Definition T : StableConfig ledger Z := {|
  AuthorityOrigin o := match o with Root => true | _ => false end;
  UpdateTradabilityOrigin o := match o with Root => true | _ => false end;
  pool_account p := 1000 + Z.abs p;
  MinPoolLiquidity := 1000;
  MinTradingLimit := 1000;
  AmplificationRange := (2, 10000);
  current_block_number _ := 7;
  registry_exists _ _ := true;
  asset_decimals _ _ := Some 12;
  dust_add_account _ x := Ok x;
  dust_remove_account _ x := Ok x;
  on_liquidity_changed _ _ x := Ok x;
  on_trade _ _ _ _ x := Ok x;
  get_raw_entry _ src _ :=
    match src with PegSource.Value peg => Ok ((clamp peg.1, clamp peg.2), 7) | _ => Err 1 end;
|}.

#[local] Instance T_laws : StableConfigLaws T.
Proof.
  constructor; simpl; try done.
  1-4: intros; intros x x' [= <-]; done.
  intros a src x e. case_match; [|done..]. intros [= <-]. split; apply clamp_fits.
Qed.

Definition s0 : stable ledger Z :=
  mkStable ∅ ∅ ∅ ∅ ∅ ∅ [] (mkBroadcast 0 [] None [])
    {| balances := {[(usd, alice) := 10 ^ 18; (eur, alice) := 10 ^ 18]}; issuance := ∅ |}.

Definition created := run (create_pool T Root share [eur; usd] 100 3000) s0.
Definition provided := run (add_assets_liquidity T (Signed alice) share
  [AssetAmount.new usd (1000 * unit_); AssetAmount.new eur (1000 * unit_)] 1) created.
Definition sold := run (sell T (Signed alice) share usd eur (10 * unit_) 1) provided.
(** ** The runs *)

Lemma s0_stable_genesis : stable_genesis s0.
Proof. by constructor. Qed.

Lemma created_step : stable_step T s0 created.
Proof.
  apply (step_create_pool T s0 Root share [eur; usd] 100 3000 tt); [compute_done|compute_done|].
  refine (run_Ok (create_pool T Root share [eur; usd] 100 3000) s0 _). vm_compute. reflexivity.
Qed.
Lemma provided_step : stable_step T created provided.
Proof.
  apply (step_add_assets_liquidity T created (Signed alice) share
    [AssetAmount.new usd (1000 * unit_); AssetAmount.new eur (1000 * unit_)] 1 tt).
  - repeat constructor; vm_compute; discriminate.
  - refine (run_Ok (add_assets_liquidity T (Signed alice) share _ 1) created _). vm_compute. reflexivity.
Qed.
Lemma sold_run : sell T (Signed alice) share usd eur (10 * unit_) 1 provided = Ok (tt, sold).
Proof. refine (run_Ok (sell T (Signed alice) share usd eur (10 * unit_) 1) provided _). vm_compute. reflexivity. Qed.

Lemma provided_trace : rtc (stable_step T) s0 provided.
Proof. eapply rtc_l; [apply created_step|]. eapply rtc_l; [apply provided_step|]. apply rtc_refl. Qed.
Lemma provided_stable_inv : stable_inv provided.
Proof. apply (reachable_good T s0); [apply s0_stable_genesis|apply provided_trace]. Qed.

Definition pool : PoolInfo.t := PoolInfo.mk [usd; eur] 100 100 7 7 3000.
Definition reserves : list AssetReserve := [mkReserve (1000 * unit_) 12; mkReserve (1000 * unit_) 12].

Lemma provided_pool : Pools provided !! share = Some pool ∧ pool_reserves T share pool provided = Some reserves.
Proof. split; vm_compute; reflexivity. Qed.

Lemma alice_apart : ¬ pool_held T alice.
Proof. intros [p Hp]. unfold alice in Hp. simpl in Hp. lia. Qed.

(** The two sides of a trade, for the trader. *)
Lemma trader_receives (i q who x y f f' : Z) :
  i ≠ q → f' = f + when (q = q ∧ who = who) y - when (q = i ∧ who = who) x → f' = f + y.
Proof. intros Hne ->. by_moves. Qed.
Lemma trader_pays (i q who x y f f' : Z) :
  i ≠ q → f' = f + when (i = q ∧ who = who) y - when (i = i ∧ who = who) x → f' = f - x.
Proof. intros Hne ->. by_moves. Qed.
Lemma usd_not_eur : usd ≠ eur.
Proof. discriminate. Qed.
Lemma usd_not_share : usd ≠ share.
Proof. discriminate. Qed.

(** ** Witnesses *)

Lemma stable_storage_well_formed_witness : stable_inv provided ∧ Pools provided !! share = Some pool.
Proof.
  split; [|exact (proj1 provided_pool)].
  exact (stable_storage_well_formed T s0 provided s0_stable_genesis provided_trace).
Defined.


Lemma stable_trade_keeps_d_witness : ∃ d d', measured T share pool reserves sold d d' ∧ d <= d'.
Proof.
  apply (stable_trade_keeps_d T share provided sold pool reserves provided_stable_inv); [|apply provided_pool..].
  apply (trade_sell T share provided sold (Signed alice) usd eur (10 * unit_) 1 tt); [vm_compute; discriminate|apply sold_run].
Defined.

Definition withdrawn := run (remove_liquidity_one_asset T (Signed alice) share usd (100 * unit_ * 1000000) 1) provided.


(** A pool of dollars and euros, a euro being worth two dollars, created with the
    euro first: the peg of the euro ends up with the dollar. *)
Definition pegged := run (create_pool_with_pegs T Root share [eur; usd] 100 3000
  [PegSource.Value (2, 1); PegSource.Value (1, 1)] 1000) s0.

Lemma initial_pegs_in_call_order_witness :
  (∃ pool info ts, Pools pegged !! share = Some pool ∧ PoolPegs pegged !! share = Some info ∧
    PoolInfo.assets pool = sort [eur; usd] ∧
    get_target_pegs T [eur; usd] [PegSource.Value (2, 1); PegSource.Value (1, 1)] (stable_ext s0) = Ok ts ∧
    PoolPegInfo.current info = take MAX_ASSETS_IN_POOL (ts.*1) ∧
    PoolPegInfo.source info = [PegSource.Value (2, 1); PegSource.Value (1, 1)]) ∧
  option_map PoolInfo.assets (Pools pegged !! share) = Some [usd; eur] ∧
  option_map PoolPegInfo.current (PoolPegs pegged !! share) = Some [(2, 1); (1, 1)].
Proof.
  split; [|split; vm_compute; reflexivity].
  apply (initial_pegs_in_call_order T Root share [eur; usd] 100 3000
    [PegSource.Value (2, 1); PegSource.Value (1, 1)] 1000 s0 tt pegged); [compute_done|compute_done|].
  refine (run_Ok (create_pool_with_pegs T Root share [eur; usd] 100 3000
    [PegSource.Value (2, 1); PegSource.Value (1, 1)] 1000) s0 _). vm_compute. reflexivity.
Defined.

Lemma stable_sell_settles_at_quote_witness :
  free_balance eur alice (stable_ext sold) = free_balance eur alice (stable_ext provided) + 9969012872264.
Proof.
  destruct (stable_sell_settles_at_quote T alice share usd eur (10 * unit_) 1 provided 9969012872264 tt sold)
    as (_ & _ & Hb).
  - apply provided_stable_inv.
  - apply alice_apart.
  - compute_done.
  - vm_compute. reflexivity.
  - exact (proj2 (executor_Ok _ _ _ _) sold_run).
  - exact (trader_receives usd eur alice _ _ _ _ usd_not_eur (Hb eur alice alice_apart)).
Defined.

Definition bought := run (add_liquidity_shares T (Signed alice) share (10 * unit_ * 1000000) usd (11 * unit_)) provided.

Lemma stable_buy_settles_at_quote_witness :
  ∃ x, free_balance share alice (stable_ext bought) = free_balance share alice (stable_ext provided) + 10 * unit_ * 1000000 ∧
    free_balance usd alice (stable_ext bought) = free_balance usd alice (stable_ext provided) - x.
Proof.
  destruct (TradeExecution.calculate_in_given_out (stableswap_executor T) (PoolType.Stableswap share) usd share
    (10 * unit_ * 1000000) provided) as [x|] eqn:Hq; [|vm_compute in Hq; discriminate].
  exists x.
  destruct (stable_buy_settles_at_quote T alice share usd share (10 * unit_ * 1000000) (11 * unit_) provided x tt bought)
    as (_ & _ & Hb).
  - apply provided_stable_inv.
  - apply alice_apart.
  - compute_done.
  - exact Hq.
  - refine (proj2 (executor_Ok _ _ _ _) _).
    refine (run_Ok (add_liquidity_shares T (Signed alice) share (10 * unit_ * 1000000) usd (11 * unit_)) provided _).
    vm_compute. reflexivity.
  - split.
    + exact (trader_receives usd share alice _ _ _ _ usd_not_share (Hb share alice alice_apart)).
    + exact (trader_pays usd share alice _ _ _ _ usd_not_share (Hb usd alice alice_apart)).
Defined.
End StablePoolDemo.
