(* ===== verification/LiquidityMiningMath.v ===== *)
(** * Liquidity mining arithmetic

    Models [math/src/liquidity_mining/liquidity_mining.rs]: the rewards of global
    farms, yield farms and deposits, and the loyalty multiplier.  [FixedU128] is
    its inner [u128].  The lemmas below the functions bound every reward and show
    that the loyalty multiplier only grows with time. *)

From S2P Require Import Prelude Arithmetic.

Notation FixedU128 := Z (only parsing).

Section liquidity_mining_math.
Context `{SpArithmetic}.

Definition calculate_loyalty_multiplier (periods : Z) (initial_reward_percentage : FixedU128) (scale_coef : Z) :
    result MathError.t FixedU128 :=
  let periods := fixed_from_integer periods in
  let sc_coef := fixed_from_integer scale_coef in
  num ← ok_or (fixed_checked_mul initial_reward_percentage sc_coef) MathError.Overflow;
  num ← ok_or (checked_add u128 num periods) MathError.Overflow;
  denom ← ok_or (checked_add u128 periods sc_coef) MathError.Overflow;
  ok_or (fixed_checked_div num denom) MathError.Overflow.

Definition calculate_accumulated_rps (accumulated_rps_now : FixedU128) (total_shares reward : Z) :
    result MathError.t FixedU128 :=
  rps ← ok_or (fixed_checked_from_rational reward total_shares) MathError.DivisionByZero;
  ok_or (checked_add u128 rps accumulated_rps_now) MathError.Overflow.

Definition calculate_reward (accumulated_rps_start accumulated_rps_now : FixedU128) (shares : Z) :
    result MathError.t Z :=
  delta ← ok_or (checked_sub accumulated_rps_now accumulated_rps_start) MathError.Overflow;
  ok_or (fixed_checked_mul_int delta shares) MathError.Overflow.

Definition calculate_user_reward (accumulated_rpvs : FixedU128) (valued_shares accumulated_claimed_rewards : Z)
    (accumulated_rpvs_now loyalty_multiplier : FixedU128) : result MathError.t (Z * Z) :=
  max_rewards ← calculate_reward accumulated_rpvs accumulated_rpvs_now valued_shares;
  if max_rewards =? 0 then Ok (0, 0) else
  claimable_rewards ← ok_or (fixed_checked_mul_int loyalty_multiplier max_rewards) MathError.Overflow;
  unclaimable_rewards ← ok_or (checked_sub max_rewards claimable_rewards) MathError.Overflow;
  user_rewards ← ok_or (checked_sub claimable_rewards accumulated_claimed_rewards) MathError.Overflow;
  Ok (user_rewards, unclaimable_rewards).

Definition calculate_valued_shares (shares incentivized_asset_balance : Z) : result MathError.t Z :=
  ok_or (checked_mul u128 shares incentivized_asset_balance) MathError.Overflow.

Definition calculate_global_farm_shares (valued_shares : Z) (multiplier : FixedU128) : result MathError.t Z :=
  ok_or (fixed_checked_mul_int multiplier valued_shares) MathError.Overflow.

Definition calculate_yield_farm_rewards (yield_farm_rpz global_farm_rpz multiplier : FixedU128)
    (total_valued_shares : Z) : result MathError.t (FixedU128 * Z) :=
  stake_in_global_farm ← calculate_global_farm_shares total_valued_shares multiplier;
  yield_farm_rewards ← calculate_reward yield_farm_rpz global_farm_rpz stake_in_global_farm;
  delta_rpvs ← ok_or (fixed_checked_from_rational yield_farm_rewards total_valued_shares) MathError.Overflow;
  Ok (delta_rpvs, yield_farm_rewards).

Definition calculate_global_farm_rewards (total_shares_z : Z) (price_adjustment yield_per_period : FixedU128)
    (max_reward_per_period periods_since_last_update : Z) : result MathError.t Z :=
  total_shares_z_adjusted ← ok_or (fixed_checked_mul_int price_adjustment total_shares_z) MathError.Overflow;
  calculated_rewards ← ok_or (checked_mul u256 (total_shares_z_adjusted * yield_per_period)
    periods_since_last_update) MathError.Overflow;
  calculated_rewards ← ok_or (checked_div calculated_rewards DIV) MathError.Overflow;
  rewards ← to_balance calculated_rewards;
  max_reward_for_periods ← ok_or (checked_mul u128 max_reward_per_period periods_since_last_update) MathError.Overflow;
  Ok (Z.min rewards max_reward_for_periods).
End liquidity_mining_math.

(** ** Values *)

Lemma DIV_pos : 0 < DIV.
Proof. by unfold DIV. Qed.
#[export] Hint Resolve DIV_pos : core.

Section values.
Context `{SpArithmeticLaws}.

(** The reward of [shares] whose reward per share rose from [start] to [now]. *)
Lemma calculate_reward_Ok start now shares r :
  fits u128 start → fits u128 now → fits u128 shares → calculate_reward start now shares = Ok r →
  start <= now ∧ r = (now - start) * shares / DIV ∧ fits u128 r.
Proof.
  intros Hs Hn Hsh Hr. unfold calculate_reward in Hr. inv_run.
  assert (fits u128 (now - start)) by (unfold fits in *; lia).
  rewrite fixed_checked_mul_int_spec in Hr by done. inv_run. split_and!; [done..|].
  split; [|done]. apply div_nonneg; [unfold fits in *; nia|by unfold DIV].
Qed.

(** The stake of [valued_shares] in the global farm. *)
Lemma calculate_global_farm_shares_Ok v m r :
  fits u128 v → fits u128 m → calculate_global_farm_shares v m = Ok r → r = m * v / DIV ∧ fits u128 r.
Proof.
  intros Hv Hm Hr. unfold calculate_global_farm_shares in Hr.
  inv_run. rewrite fixed_checked_mul_int_spec in Hr by done. inv_run. split; [done|].
  split; [|done]. apply div_nonneg; [unfold fits in *; nia|by unfold DIV].
Qed.

(** What a yield farm is given covers what its shares can be paid: the reward per
    share is rounded down. *)
Lemma calculate_yield_farm_rewards_Ok y g m v d r :
  fits u128 y → fits u128 g → fits u128 m → fits u128 v →
  calculate_yield_farm_rewards y g m v = Ok (d, r) →
  y <= g ∧ fits u128 d ∧ fits u128 r ∧ d * v <= r * DIV ∧ r = (g - y) * (m * v / DIV) / DIV.
Proof.
  intros Hy Hg Hm Hv Hr. unfold calculate_yield_farm_rewards in Hr. inv_run.
  match goal with E : calculate_global_farm_shares _ _ = Ok _ |- _ =>
    apply calculate_global_farm_shares_Ok in E as [-> ?]; [|done..] end.
  match goal with E : calculate_reward _ _ _ = Ok _ |- _ =>
    apply calculate_reward_Ok in E as (? & -> & ?); [|done..] end.
  match goal with E : fixed_checked_from_rational _ _ = Some _ |- _ =>
    rewrite fixed_checked_from_rational_spec in E by done end.
  case_match; inv_run. propify. pose proof (fits_nonneg _ _ Hv).
  pose proof (div_bounds ((g - y) * (m * v / DIV) / DIV * DIV) v).
  split_and!; [done| |done|lia|done]. split; [|done].
  apply div_nonneg; [|lia]. unfold fits, DIV in *. lia.
Qed.

(** A global farm pays at most [max_reward_per_period] for every period. *)
Lemma calculate_global_farm_rewards_Ok z p y m n r :
  fits u128 z → fits u128 p → 0 <= y → 0 <= m → 0 <= n → calculate_global_farm_rewards z p y m n = Ok r →
  fits u128 r ∧ r <= m * n ∧ r <= (p * z / DIV) * y * n / DIV.
Proof.
  intros Hz Hp Hy Hm Hn Hr. unfold calculate_global_farm_rewards, to_balance in Hr. inv_run.
  match goal with E : fixed_checked_mul_int _ _ = Some _ |- _ =>
    rewrite fixed_checked_mul_int_spec in E by done; inv_run end.
  assert (0 <= p * z / DIV) by (apply div_nonneg; [unfold fits in *; nia|by unfold DIV]).
  assert (0 <= p * z / DIV * y * n / DIV) by (apply div_nonneg; [nia|by unfold DIV]).
  unfold fits. split_and!; [nia|lia..].
Qed.

Lemma calculate_accumulated_rps_Ok a z r a' :
  fits u128 a → fits u128 z → fits u128 r → calculate_accumulated_rps a z r = Ok a' →
  a <= a' ∧ fits u128 a' ∧ a' = r * DIV / z + a.
Proof.
  intros Ha Hz Hr E. unfold calculate_accumulated_rps in E. inv_run.
  match goal with E : fixed_checked_from_rational _ _ = Some _ |- _ =>
    rewrite fixed_checked_from_rational_spec in E by done end.
  case_match; inv_run.
  assert (0 <= r * DIV / z) by (apply div_nonneg; unfold fits, DIV in *; lia). unfold fits in *. lia.
Qed.
End values.

(** ** The loyalty multiplier *)

(** A fraction below one grows when both of its parts grow by the same amount. *)
Lemma fraction_mono n d k D : 0 <= n <= d → 0 < d → 0 <= k → 0 < D → n * D / d <= (n + k) * D / (d + k).
Proof.
  intros. pose proof (div_bounds (n * D) d). assert (n * D / d <= D) by (apply Z.div_le_upper_bound; nia).
  apply Z.div_le_lower_bound; nia.
Qed.

Section loyalty.
Context `{SpArithmeticLaws}.

(** The multiplier as a function of the inner values. *)
Definition loyalty (periods initial scale : Z) : Z :=
  (initial * (scale * DIV) / DIV + periods * DIV) * DIV / (periods * DIV + scale * DIV).

Lemma loyalty_fits_integer n : fits u32 n → fixed_from_integer n = n * DIV ∧ fits u128 (n * DIV) ∧ n * DIV <= 2 ^ 92.
Proof.
  intros Hn. assert (fits u128 (n * DIV) ∧ n * DIV <= 2 ^ 92) as [Hf ?].
  { unfold fits, max_value, u32, u128, DIV in *. lia. }
  split_and!; [|done..]. rewrite fixed_from_integer_spec.
  - unfold saturating_mul. unfold fits in Hf. lia.
  - unfold fits, max_value, u32, u128 in *. lia.
Qed.

Section curve.
Context (initial scale : Z).
Context (Hi : 0 <= initial <= DIV) (Hs : fits u32 scale).

Lemma loyalty_numerator periods :
  fits u32 periods →
  initial * (scale * DIV) / DIV = initial * scale ∧
  0 <= initial * scale + periods * DIV <= periods * DIV + scale * DIV.
Proof.
  intros Hp. unfold fits in *. split; [|nia].
  replace (initial * (scale * DIV)) with (initial * scale * DIV) by ring. by rewrite Z.div_mul.
Qed.

(** The multiplier exists as soon as a period has passed or the scale is positive. *)
Lemma calculate_loyalty_multiplier_spec periods :
  fits u32 periods →
  calculate_loyalty_multiplier periods initial scale =
    if periods + scale =? 0 then Err MathError.Overflow else Ok (loyalty periods initial scale).
Proof.
  intros Hp. destruct (loyalty_fits_integer periods Hp) as (Ep & Fp & Bp).
  destruct (loyalty_fits_integer scale Hs) as (Es & Fs & Bs).
  unfold calculate_loyalty_multiplier, loyalty. rewrite Ep, Es.
  destruct (loyalty_numerator periods Hp) as (En & Hn). rewrite En.
  assert (fits u128 initial) by (unfold fits, max_value, u128, DIV in *; lia).
  assert (initial * scale <= 2 ^ 92) by (unfold fits in *; nia).
  assert (2 ^ 92 + 2 ^ 92 <= max_value u128) by done.
  rewrite fixed_checked_mul_spec, En, try_from_ok by (done || lia). simpl.
  rewrite checked_add_ok by lia. simpl. rewrite checked_add_ok by lia. simpl.
  rewrite fixed_checked_div_spec by (unfold fits in *; lia).
  destruct (Z.eqb_spec (periods + scale) 0) as [E|E].
  - assert (periods * DIV + scale * DIV = 0) as -> by nia. done.
  - assert (periods * DIV + scale * DIV ≠ 0) by (unfold DIV; lia).
    destruct (Z.eqb_spec (periods * DIV + scale * DIV) 0); [done|]. rewrite try_from_ok; [done|].
    transitivity DIV; [|done]. unfold fits in *. apply Z.div_le_upper_bound; [unfold DIV; lia|]. nia.
Qed.

Lemma loyalty_bounds periods :
  fits u32 periods → 0 < periods + scale → 0 <= loyalty periods initial scale <= DIV.
Proof.
  intros Hp E. unfold loyalty. destruct (loyalty_numerator periods Hp) as (-> & Hn).
  unfold fits in *. assert (0 < DIV) by done. split; [apply div_nonneg; nia|]. apply Z.div_le_upper_bound; nia.
Qed.

(** It only grows with time. *)
Lemma loyalty_mono p q :
  fits u32 p → fits u32 q → p <= q → 0 < p + scale → loyalty p initial scale <= loyalty q initial scale.
Proof.
  intros Hp Hq Hpq E. destruct (loyalty_numerator p Hp) as (Ep & Hn). unfold loyalty. rewrite Ep.
  replace (initial * scale + q * DIV) with ((initial * scale + p * DIV) + (q - p) * DIV) by ring.
  replace (q * DIV + scale * DIV) with ((p * DIV + scale * DIV) + (q - p) * DIV) by ring.
  assert (0 < DIV) by done. apply fraction_mono; unfold fits in *; nia.
Qed.
End curve.
End loyalty.
