(* ===== verification/LiquidityMining.v ===== *)
(** * Liquidity mining

    Models [pallets/liquidity-mining/src/lib.rs] and [types.rs].  A global farm
    pays rewards from its own account into the pot; its yield farms divide them by
    their stake, and the deposits of a yield farm divide what the yield farm was
    given by the value of their shares.  A farm record that the code mutates
    inside [try_mutate] is read from the storage, passed along and written back at
    the end.  The ledger, the asset registry, the price adjustment, the accounts
    derived from the pallet's id and the whitelist of the duster are operations of
    [LmConfig]; the value of deposited shares is the callback of the caller.
    Block numbers and periods are [u32]. *)

From S2P Require Import Prelude Arithmetic Currency LiquidityMiningMath.

Definition MIN_DEPOSIT : Balance := 1000.
Definition MIN_YIELD_FARM_MULTIPLIER : FixedU128 := 1000000000000000.

(** [FixedU128::one()]. *)
Notation fixed_one := DIV (only parsing).

(** ** Types *)

Module FarmState.
Inductive t := Active | Stopped | Terminated.
#[global] Instance t_eq_dec : EqDecision t.
Proof. solve_decision. Defined.
Definition is_active (s : t) : bool := bool_decide (s = Active).
Definition is_stopped (s : t) : bool := bool_decide (s = Stopped).
Definition is_terminated (s : t) : bool := bool_decide (s = Terminated).
End FarmState.

Module LoyaltyCurve.
Record t := mk {
  initial_reward_percentage : FixedU128;
  scale_coef : Z;
}.
Definition default : t := mk 500000000000000000 100.
End LoyaltyCurve.

Module InconsistentStateError.
Inductive t :=
| YieldFarmNotFound
| GlobalFarmNotFound
| LiquidityIsNotActive
| GlobalFarmIsNotActive
| DepositNotFound
| InvalidPeriod
| NotEnoughRewardsInYieldFarm
| InvalidLiveYielFarmsCount
| InvalidTotalYieldFarmsCount
| InvalidYieldFarmEntriesCount
| InvalidTotalShares
| InvalidValuedShares
| InvalidTotalSharesZ
| InvalidPaidAccumulatedRewards
| InvalidFarmId
| InvalidLoyaltyMultiplier
| NoExistentialDepositForAsset.
End InconsistentStateError.

Module LmError.
Inductive t :=
| GlobalFarmNotFound
| YieldFarmNotFound
| DoubleClaimInPeriod
| LiquidityMiningCanceled
| LiquidityMiningIsActive
| LiquidityMiningIsNotStopped
| Forbidden
| InvalidMultiplier
| YieldFarmAlreadyExists
| InvalidInitialRewardPercentage
| GlobalFarmIsNotEmpty
| MissingIncentivizedAsset
| InsufficientRewardCurrencyBalance
| InvalidBlocksPerPeriod
| InvalidYieldPerPeriod
| InvalidTotalRewards
| InvalidPlannedYieldingPeriods
| MaxEntriesPerDeposit
| DoubleLock
| YieldFarmEntryNotFound
| GlobalFarmIsFull
| InvalidMinDeposit
| InvalidPriceAdjustment
| ErrorGetAccountId
| IncorrectValuedShares
| RewardCurrencyNotRegistered
| IncentivizedAssetNotRegistered
| AmmPoolIdMismatch
| InconsistentState (e : InconsistentStateError.t).
End LmError.

Module LmEvent.
Inductive t :=
| GlobalFarmAccRPZUpdated (global_farm_id : Z) (accumulated_rpz : FixedU128) (total_shares_z : Balance)
| YieldFarmAccRPVSUpdated (global_farm_id yield_farm_id : Z) (accumulated_rpvs : FixedU128)
    (total_valued_shares : Balance)
| AllRewardsDistributed (global_farm_id : Z).
End LmEvent.

Notation LmErr := (DispatchError LmError.t).

(** An error that the code reports as a defect of its own state. *)
Definition inconsistent (e : InconsistentStateError.t) : LmErr := ModuleError (LmError.InconsistentState e).

Module GlobalFarmData.
Record t (AccountId : Type) := mk {
  id : Z;
  owner : AccountId;
  updated_at : Z;
  total_shares_z : Balance;
  accumulated_rpz : FixedU128;
  reward_currency : AssetId;
  pending_rewards : Balance;
  accumulated_paid_rewards : Balance;
  yield_per_period : Z;
  planned_yielding_periods : Z;
  blocks_per_period : Z;
  incentivized_asset : AssetId;
  max_reward_per_period : Balance;
  min_deposit : Balance;
  live_yield_farms_count : Z;
  total_yield_farms_count : Z;
  price_adjustment : FixedU128;
  state : FarmState.t;
}.
#[global] Arguments mk {AccountId} _ _ _ _ _ _ _ _ _ _ _ _ _ _ _ _ _ _.
#[global] Arguments id {AccountId} _.
#[global] Arguments owner {AccountId} _.
#[global] Arguments updated_at {AccountId} _.
#[global] Arguments total_shares_z {AccountId} _.
#[global] Arguments accumulated_rpz {AccountId} _.
#[global] Arguments reward_currency {AccountId} _.
#[global] Arguments pending_rewards {AccountId} _.
#[global] Arguments accumulated_paid_rewards {AccountId} _.
#[global] Arguments yield_per_period {AccountId} _.
#[global] Arguments planned_yielding_periods {AccountId} _.
#[global] Arguments blocks_per_period {AccountId} _.
#[global] Arguments incentivized_asset {AccountId} _.
#[global] Arguments max_reward_per_period {AccountId} _.
#[global] Arguments min_deposit {AccountId} _.
#[global] Arguments live_yield_farms_count {AccountId} _.
#[global] Arguments total_yield_farms_count {AccountId} _.
#[global] Arguments price_adjustment {AccountId} _.
#[global] Arguments state {AccountId} _.

Definition set_updated_at {AccountId} (v : Z) (f : t AccountId) : t AccountId :=
  mk (id f) (owner f) v (total_shares_z f) (accumulated_rpz f) (reward_currency f) (pending_rewards f) (accumulated_paid_rewards f) (yield_per_period f) (planned_yielding_periods f) (blocks_per_period f) (incentivized_asset f) (max_reward_per_period f) (min_deposit f) (live_yield_farms_count f) (total_yield_farms_count f) (price_adjustment f) (state f).
Definition set_total_shares_z {AccountId} (v : Balance) (f : t AccountId) : t AccountId :=
  mk (id f) (owner f) (updated_at f) v (accumulated_rpz f) (reward_currency f) (pending_rewards f) (accumulated_paid_rewards f) (yield_per_period f) (planned_yielding_periods f) (blocks_per_period f) (incentivized_asset f) (max_reward_per_period f) (min_deposit f) (live_yield_farms_count f) (total_yield_farms_count f) (price_adjustment f) (state f).
Definition set_accumulated_rpz {AccountId} (v : FixedU128) (f : t AccountId) : t AccountId :=
  mk (id f) (owner f) (updated_at f) (total_shares_z f) v (reward_currency f) (pending_rewards f) (accumulated_paid_rewards f) (yield_per_period f) (planned_yielding_periods f) (blocks_per_period f) (incentivized_asset f) (max_reward_per_period f) (min_deposit f) (live_yield_farms_count f) (total_yield_farms_count f) (price_adjustment f) (state f).
Definition set_pending_rewards {AccountId} (v : Balance) (f : t AccountId) : t AccountId :=
  mk (id f) (owner f) (updated_at f) (total_shares_z f) (accumulated_rpz f) (reward_currency f) v (accumulated_paid_rewards f) (yield_per_period f) (planned_yielding_periods f) (blocks_per_period f) (incentivized_asset f) (max_reward_per_period f) (min_deposit f) (live_yield_farms_count f) (total_yield_farms_count f) (price_adjustment f) (state f).
Definition set_accumulated_paid_rewards {AccountId} (v : Balance) (f : t AccountId) : t AccountId :=
  mk (id f) (owner f) (updated_at f) (total_shares_z f) (accumulated_rpz f) (reward_currency f) (pending_rewards f) v (yield_per_period f) (planned_yielding_periods f) (blocks_per_period f) (incentivized_asset f) (max_reward_per_period f) (min_deposit f) (live_yield_farms_count f) (total_yield_farms_count f) (price_adjustment f) (state f).
Definition set_yield_per_period {AccountId} (v : Z) (f : t AccountId) : t AccountId :=
  mk (id f) (owner f) (updated_at f) (total_shares_z f) (accumulated_rpz f) (reward_currency f) (pending_rewards f) (accumulated_paid_rewards f) v (planned_yielding_periods f) (blocks_per_period f) (incentivized_asset f) (max_reward_per_period f) (min_deposit f) (live_yield_farms_count f) (total_yield_farms_count f) (price_adjustment f) (state f).
Definition set_planned_yielding_periods {AccountId} (v : Z) (f : t AccountId) : t AccountId :=
  mk (id f) (owner f) (updated_at f) (total_shares_z f) (accumulated_rpz f) (reward_currency f) (pending_rewards f) (accumulated_paid_rewards f) (yield_per_period f) v (blocks_per_period f) (incentivized_asset f) (max_reward_per_period f) (min_deposit f) (live_yield_farms_count f) (total_yield_farms_count f) (price_adjustment f) (state f).
Definition set_max_reward_per_period {AccountId} (v : Balance) (f : t AccountId) : t AccountId :=
  mk (id f) (owner f) (updated_at f) (total_shares_z f) (accumulated_rpz f) (reward_currency f) (pending_rewards f) (accumulated_paid_rewards f) (yield_per_period f) (planned_yielding_periods f) (blocks_per_period f) (incentivized_asset f) v (min_deposit f) (live_yield_farms_count f) (total_yield_farms_count f) (price_adjustment f) (state f).
Definition set_min_deposit {AccountId} (v : Balance) (f : t AccountId) : t AccountId :=
  mk (id f) (owner f) (updated_at f) (total_shares_z f) (accumulated_rpz f) (reward_currency f) (pending_rewards f) (accumulated_paid_rewards f) (yield_per_period f) (planned_yielding_periods f) (blocks_per_period f) (incentivized_asset f) (max_reward_per_period f) v (live_yield_farms_count f) (total_yield_farms_count f) (price_adjustment f) (state f).
Definition set_live_yield_farms_count {AccountId} (v : Z) (f : t AccountId) : t AccountId :=
  mk (id f) (owner f) (updated_at f) (total_shares_z f) (accumulated_rpz f) (reward_currency f) (pending_rewards f) (accumulated_paid_rewards f) (yield_per_period f) (planned_yielding_periods f) (blocks_per_period f) (incentivized_asset f) (max_reward_per_period f) (min_deposit f) v (total_yield_farms_count f) (price_adjustment f) (state f).
Definition set_total_yield_farms_count {AccountId} (v : Z) (f : t AccountId) : t AccountId :=
  mk (id f) (owner f) (updated_at f) (total_shares_z f) (accumulated_rpz f) (reward_currency f) (pending_rewards f) (accumulated_paid_rewards f) (yield_per_period f) (planned_yielding_periods f) (blocks_per_period f) (incentivized_asset f) (max_reward_per_period f) (min_deposit f) (live_yield_farms_count f) v (price_adjustment f) (state f).
Definition set_price_adjustment {AccountId} (v : FixedU128) (f : t AccountId) : t AccountId :=
  mk (id f) (owner f) (updated_at f) (total_shares_z f) (accumulated_rpz f) (reward_currency f) (pending_rewards f) (accumulated_paid_rewards f) (yield_per_period f) (planned_yielding_periods f) (blocks_per_period f) (incentivized_asset f) (max_reward_per_period f) (min_deposit f) (live_yield_farms_count f) (total_yield_farms_count f) v (state f).
Definition set_state {AccountId} (v : FarmState.t) (f : t AccountId) : t AccountId :=
  mk (id f) (owner f) (updated_at f) (total_shares_z f) (accumulated_rpz f) (reward_currency f) (pending_rewards f) (accumulated_paid_rewards f) (yield_per_period f) (planned_yielding_periods f) (blocks_per_period f) (incentivized_asset f) (max_reward_per_period f) (min_deposit f) (live_yield_farms_count f) (total_yield_farms_count f) (price_adjustment f) v.

Section farm.
Context {AccountId : Type}.
Implicit Types (f : t AccountId).

Definition new (id updated_at : Z) (reward_currency : AssetId) (yield_per_period planned_yielding_periods
    blocks_per_period : Z) (owner : AccountId) (incentivized_asset : AssetId)
    (max_reward_per_period min_deposit : Balance) (price_adjustment : FixedU128) : t AccountId :=
  mk id owner updated_at 0 0 reward_currency 0 0 yield_per_period planned_yielding_periods blocks_per_period
     incentivized_asset max_reward_per_period min_deposit 0 0 price_adjustment FarmState.Active.

Definition increase_yield_farm_counts f : result LmErr (t AccountId) :=
  live ← ok_or (checked_add u32 (live_yield_farms_count f) 1) (Arithmetic ArithmeticError.Overflow);
  total ← ok_or (checked_add u32 (total_yield_farms_count f) 1) (Arithmetic ArithmeticError.Overflow);
  Ok (set_total_yield_farms_count total (set_live_yield_farms_count live f)).

Definition decrease_live_yield_farm_count f : result LmErr (t AccountId) :=
  live ← ok_or (checked_sub (live_yield_farms_count f) 1)
    (inconsistent InconsistentStateError.InvalidLiveYielFarmsCount);
  Ok (set_live_yield_farms_count live f).

Definition decrease_total_yield_farm_count f : result LmErr (t AccountId) :=
  total ← ok_or (checked_sub (total_yield_farms_count f) 1)
    (inconsistent InconsistentStateError.InvalidTotalYieldFarmsCount);
  Ok (set_total_yield_farms_count total f).

Definition has_live_farms f : bool := negb (live_yield_farms_count f =? 0).

Definition can_be_removed f : bool :=
  bool_decide (state f = FarmState.Terminated) && (total_yield_farms_count f =? 0).

Definition is_full (MaxYieldFarmsPerGlobalFarm : Z) f : bool :=
  MaxYieldFarmsPerGlobalFarm <=? total_yield_farms_count f.

Definition add_stake (amount : Balance) f : result LmErr (t AccountId) :=
  z ← ok_or (checked_add u128 (total_shares_z f) amount) (Arithmetic ArithmeticError.Overflow);
  Ok (set_total_shares_z z f).

Definition remove_stake (amount : Balance) f : result LmErr (t AccountId) :=
  z ← ok_or (checked_sub (total_shares_z f) amount) (inconsistent InconsistentStateError.InvalidTotalSharesZ);
  Ok (set_total_shares_z z f).
End farm.
End GlobalFarmData.

Module YieldFarmData.
Record t := mk {
  id : Z;
  updated_at : Z;
  total_shares : Balance;
  total_valued_shares : Balance;
  accumulated_rpvs : FixedU128;
  accumulated_rpz : FixedU128;
  loyalty_curve : option LoyaltyCurve.t;
  multiplier : FixedU128;
  state : FarmState.t;
  entries_count : Z;
  left_to_distribute : Balance;
  total_stopped : Z;
}.

Definition set_updated_at (v : Z) (f : t) : t :=
  mk (id f) v (total_shares f) (total_valued_shares f) (accumulated_rpvs f) (accumulated_rpz f) (loyalty_curve f) (multiplier f) (state f) (entries_count f) (left_to_distribute f) (total_stopped f).
Definition set_total_shares (v : Balance) (f : t) : t :=
  mk (id f) (updated_at f) v (total_valued_shares f) (accumulated_rpvs f) (accumulated_rpz f) (loyalty_curve f) (multiplier f) (state f) (entries_count f) (left_to_distribute f) (total_stopped f).
Definition set_total_valued_shares (v : Balance) (f : t) : t :=
  mk (id f) (updated_at f) (total_shares f) v (accumulated_rpvs f) (accumulated_rpz f) (loyalty_curve f) (multiplier f) (state f) (entries_count f) (left_to_distribute f) (total_stopped f).
Definition set_accumulated_rpvs (v : FixedU128) (f : t) : t :=
  mk (id f) (updated_at f) (total_shares f) (total_valued_shares f) v (accumulated_rpz f) (loyalty_curve f) (multiplier f) (state f) (entries_count f) (left_to_distribute f) (total_stopped f).
Definition set_accumulated_rpz (v : FixedU128) (f : t) : t :=
  mk (id f) (updated_at f) (total_shares f) (total_valued_shares f) (accumulated_rpvs f) v (loyalty_curve f) (multiplier f) (state f) (entries_count f) (left_to_distribute f) (total_stopped f).
Definition set_multiplier (v : FixedU128) (f : t) : t :=
  mk (id f) (updated_at f) (total_shares f) (total_valued_shares f) (accumulated_rpvs f) (accumulated_rpz f) (loyalty_curve f) v (state f) (entries_count f) (left_to_distribute f) (total_stopped f).
Definition set_state (v : FarmState.t) (f : t) : t :=
  mk (id f) (updated_at f) (total_shares f) (total_valued_shares f) (accumulated_rpvs f) (accumulated_rpz f) (loyalty_curve f) (multiplier f) v (entries_count f) (left_to_distribute f) (total_stopped f).
Definition set_entries_count (v : Z) (f : t) : t :=
  mk (id f) (updated_at f) (total_shares f) (total_valued_shares f) (accumulated_rpvs f) (accumulated_rpz f) (loyalty_curve f) (multiplier f) (state f) v (left_to_distribute f) (total_stopped f).
Definition set_left_to_distribute (v : Balance) (f : t) : t :=
  mk (id f) (updated_at f) (total_shares f) (total_valued_shares f) (accumulated_rpvs f) (accumulated_rpz f) (loyalty_curve f) (multiplier f) (state f) (entries_count f) v (total_stopped f).
Definition set_total_stopped (v : Z) (f : t) : t :=
  mk (id f) (updated_at f) (total_shares f) (total_valued_shares f) (accumulated_rpvs f) (accumulated_rpz f) (loyalty_curve f) (multiplier f) (state f) (entries_count f) (left_to_distribute f) v.

Definition new (id updated_at : Z) (loyalty_curve : option LoyaltyCurve.t) (multiplier : FixedU128) : t :=
  mk id updated_at 0 0 0 0 loyalty_curve multiplier FarmState.Active 0 0 0.

Definition can_be_removed (f : t) : bool :=
  bool_decide (state f = FarmState.Terminated) && (entries_count f =? 0).

Definition decrease_entries_count (f : t) : result LmErr t :=
  n ← ok_or (checked_sub (entries_count f) 1) (inconsistent InconsistentStateError.InvalidYieldFarmEntriesCount);
  Ok (set_entries_count n f).

Definition increase_entries_count (f : t) : result LmErr t :=
  n ← ok_or (checked_add u64 (entries_count f) 1) (Arithmetic ArithmeticError.Overflow);
  Ok (set_entries_count n f).

Definition has_entries (f : t) : bool := negb (entries_count f =? 0).
End YieldFarmData.

Module YieldFarmEntry.
Record t := mk {
  global_farm_id : Z;
  yield_farm_id : Z;
  valued_shares : Balance;
  accumulated_rpvs : FixedU128;
  accumulated_claimed_rewards : Balance;
  entered_at : Z;
  updated_at : Z;
  stopped_at_creation : Z;
}.

Definition set_accumulated_claimed_rewards (v : Balance) (f : t) : t :=
  mk (global_farm_id f) (yield_farm_id f) (valued_shares f) (accumulated_rpvs f) v (entered_at f) (updated_at f) (stopped_at_creation f).
Definition set_updated_at (v : Z) (f : t) : t :=
  mk (global_farm_id f) (yield_farm_id f) (valued_shares f) (accumulated_rpvs f) (accumulated_claimed_rewards f) (entered_at f) v (stopped_at_creation f).

Definition new (global_farm_id yield_farm_id : Z) (valued_shares : Balance) (accumulated_rpvs : FixedU128)
    (entered_at stopped_at_creation : Z) : t :=
  mk global_farm_id yield_farm_id valued_shares accumulated_rpvs 0 entered_at entered_at stopped_at_creation.
End YieldFarmEntry.

(** [Vec::swap_remove]: the last element takes the place of the removed one. *)
Definition swap_remove {A} (i : nat) (l : list A) : list A :=
  match last l with
  | Some x => <[i := x]> (removelast l)
  | None => l
  end.

Module DepositData.
Record t (AmmPoolId : Type) := mk {
  shares : Balance;
  amm_pool_id : AmmPoolId;
  yield_farm_entries : list YieldFarmEntry.t;
}.
#[global] Arguments mk {AmmPoolId} _ _ _.
#[global] Arguments shares {AmmPoolId} _.
#[global] Arguments amm_pool_id {AmmPoolId} _.
#[global] Arguments yield_farm_entries {AmmPoolId} _.

Definition set_yield_farm_entries {AmmPoolId} (v : list YieldFarmEntry.t) (f : t AmmPoolId) : t AmmPoolId :=
  mk (shares f) (amm_pool_id f) v.

Section deposit.
Context {AmmPoolId : Type}.
Implicit Types (d : t AmmPoolId).

Definition new (shares : Balance) (amm_pool_id : AmmPoolId) : t AmmPoolId := mk shares amm_pool_id [].

(** The index of the entry of a yield farm, as [Iterator::position] finds it. *)
Definition search_yield_farm_entry (yield_farm_id : Z) d : option nat :=
  fst <$> list_find (λ e, YieldFarmEntry.yield_farm_id e = yield_farm_id) (yield_farm_entries d).

Definition add_yield_farm_entry (MaxFarmEntriesPerDeposit : Z) (entry : YieldFarmEntry.t) d :
    result LmErr (t AmmPoolId) :=
  match search_yield_farm_entry (YieldFarmEntry.yield_farm_id entry) d with
  | Some _ => Err (ModuleError LmError.DoubleLock)
  | None =>
      if Z.of_nat (length (yield_farm_entries d)) <? MaxFarmEntriesPerDeposit
      then Ok (set_yield_farm_entries (yield_farm_entries d ++ [entry]) d)
      else Err (ModuleError LmError.MaxEntriesPerDeposit)
  end.

Definition remove_yield_farm_entry (yield_farm_id : Z) d : result LmErr (YieldFarmEntry.t * t AmmPoolId) :=
  match search_yield_farm_entry yield_farm_id d with
  | Some idx =>
      entry ← ok_or (yield_farm_entries d !! idx) (Foreign (-1));
      Ok (entry, set_yield_farm_entries (swap_remove idx (yield_farm_entries d)) d)
  | None => Err (ModuleError LmError.YieldFarmEntryNotFound)
  end.

Definition get_yield_farm_entry (yield_farm_id : Z) d : option (nat * YieldFarmEntry.t) :=
  idx ← search_yield_farm_entry yield_farm_id d;
  entry ← yield_farm_entries d !! idx;
  Some (idx, entry).

Definition can_be_removed d : bool := bool_decide (yield_farm_entries d = []).
End deposit.
End DepositData.

(** ** Configuration and storage *)

Record LmConfig (X AccountId : Type) := mkLmConfig {
  pot_account_id : option AccountId;
  sub_account : Z → option AccountId;
  TreasuryAccountId : AccountId;
  MinTotalFarmRewards : Balance;
  MinPlannedYieldingPeriods : Z;
  MaxFarmEntriesPerDeposit : Z;
  MaxYieldFarmsPerGlobalFarm : Z;
  current_block_number : X → Z;
  asset_is_registered : AssetId → X → bool;
  registry_existential_deposit : AssetId → X → option Balance;
  registry_get : AssetId → X → Balance;
  whitelist_add_account : AccountId → X → result Z X;
  whitelist_remove_account : AccountId → X → result Z X;
  get_price_adjustment : GlobalFarmData.t AccountId → X → result Z FixedU128;
}.
#[global] Arguments pot_account_id {X AccountId} _.
#[global] Arguments sub_account {X AccountId} _ _.
#[global] Arguments TreasuryAccountId {X AccountId} _.
#[global] Arguments MinTotalFarmRewards {X AccountId} _.
#[global] Arguments MinPlannedYieldingPeriods {X AccountId} _.
#[global] Arguments MaxFarmEntriesPerDeposit {X AccountId} _.
#[global] Arguments MaxYieldFarmsPerGlobalFarm {X AccountId} _.
#[global] Arguments current_block_number {X AccountId} _ _.
#[global] Arguments asset_is_registered {X AccountId} _ _ _.
#[global] Arguments registry_existential_deposit {X AccountId} _ _ _.
#[global] Arguments registry_get {X AccountId} _ _ _.
#[global] Arguments whitelist_add_account {X AccountId} _ _ _.
#[global] Arguments whitelist_remove_account {X AccountId} _ _ _.
#[global] Arguments get_price_adjustment {X AccountId} _ _ _.

(** [DefaultPriceAdjustment]: the value saved in the farm. *)
Definition default_price_adjustment {X AccountId} (f : GlobalFarmData.t AccountId) (_ : X) : result Z FixedU128 :=
  Ok (GlobalFarmData.price_adjustment f).

Record lm (X AccountId AmmPoolId : Type) `{Countable AmmPoolId} := mkLm {
  FarmSequencer : Z;
  DepositSequencer : Z;
  GlobalFarm : gmap Z (GlobalFarmData.t AccountId);
  YieldFarm : gmap (AmmPoolId * Z * Z) YieldFarmData.t;
  Deposit : gmap Z (DepositData.t AmmPoolId);
  ActiveYieldFarm : gmap (AmmPoolId * Z) Z;
  lm_events : list LmEvent.t;
  lm_ext : X;
}.
#[global] Arguments mkLm {X AccountId AmmPoolId _ _} _ _ _ _ _ _ _ _.
#[global] Arguments FarmSequencer {X AccountId AmmPoolId _ _} _.
#[global] Arguments DepositSequencer {X AccountId AmmPoolId _ _} _.
#[global] Arguments GlobalFarm {X AccountId AmmPoolId _ _} _.
#[global] Arguments YieldFarm {X AccountId AmmPoolId _ _} _.
#[global] Arguments Deposit {X AccountId AmmPoolId _ _} _.
#[global] Arguments ActiveYieldFarm {X AccountId AmmPoolId _ _} _.
#[global] Arguments lm_events {X AccountId AmmPoolId _ _} _.
#[global] Arguments lm_ext {X AccountId AmmPoolId _ _} _.

Section liquidity_mining.
Context {X AccountId AmmPoolId : Type} `{EqDecision AccountId} `{Countable AmmPoolId} `{SpArithmetic}.
Context `{!MultiCurrency X AccountId}.
Context (T : LmConfig X AccountId).

Notation lm := (lm X AccountId AmmPoolId).
Notation LmM := (M lm LmErr).
Notation GlobalFarmData := (GlobalFarmData.t AccountId).
Notation DepositData := (DepositData.t AmmPoolId).
Implicit Types (s : lm) (who owner : AccountId) (global_farm : GlobalFarmData) (yield_farm : YieldFarmData.t)
  (deposit : DepositData) (amm_pool_id : AmmPoolId).

Definition set_FarmSequencer (v : Z) s : lm :=
  mkLm v (DepositSequencer s) (GlobalFarm s) (YieldFarm s) (Deposit s) (ActiveYieldFarm s) (lm_events s) (lm_ext s).
Definition set_DepositSequencer (v : Z) s : lm :=
  mkLm (FarmSequencer s) v (GlobalFarm s) (YieldFarm s) (Deposit s) (ActiveYieldFarm s) (lm_events s) (lm_ext s).
Definition set_GlobalFarm (v : gmap Z (GlobalFarmData.t AccountId)) s : lm :=
  mkLm (FarmSequencer s) (DepositSequencer s) v (YieldFarm s) (Deposit s) (ActiveYieldFarm s) (lm_events s) (lm_ext s).
Definition set_YieldFarm (v : gmap (AmmPoolId * Z * Z) YieldFarmData.t) s : lm :=
  mkLm (FarmSequencer s) (DepositSequencer s) (GlobalFarm s) v (Deposit s) (ActiveYieldFarm s) (lm_events s) (lm_ext s).
Definition set_Deposit (v : gmap Z (DepositData.t AmmPoolId)) s : lm :=
  mkLm (FarmSequencer s) (DepositSequencer s) (GlobalFarm s) (YieldFarm s) v (ActiveYieldFarm s) (lm_events s) (lm_ext s).
Definition set_ActiveYieldFarm (v : gmap (AmmPoolId * Z) Z) s : lm :=
  mkLm (FarmSequencer s) (DepositSequencer s) (GlobalFarm s) (YieldFarm s) (Deposit s) v (lm_events s) (lm_ext s).
Definition set_lm_events (v : list LmEvent.t) s : lm :=
  mkLm (FarmSequencer s) (DepositSequencer s) (GlobalFarm s) (YieldFarm s) (Deposit s) (ActiveYieldFarm s) v (lm_ext s).
Definition set_lm_ext (v : X) s : lm :=
  mkLm (FarmSequencer s) (DepositSequencer s) (GlobalFarm s) (YieldFarm s) (Deposit s) (ActiveYieldFarm s) (lm_events s) v.

Definition lm_deposit_event (e : LmEvent.t) : LmM unit := modify (λ s, set_lm_events (lm_events s ++ [e]) s).
Definition lm_call (f : X → result Z X) : LmM unit := on_ext_ lm_ext set_lm_ext f.
Definition put_global_farm (id : Z) global_farm : LmM unit :=
  modify (λ s, set_GlobalFarm (<[id := global_farm]> (GlobalFarm s)) s).
Definition put_yield_farm (key : AmmPoolId * Z * Z) yield_farm : LmM unit :=
  modify (λ s, set_YieldFarm (<[key := yield_farm]> (YieldFarm s)) s).
Definition put_deposit (id : Z) deposit : LmM unit :=
  modify (λ s, set_Deposit (<[id := deposit]> (Deposit s)) s).
(** The math crate's errors become an overflow. *)
Definition or_overflow {A} (r : result MathError.t A) : LmM A :=
  lift (map_err (λ _, Arithmetic ArithmeticError.Overflow) r).
(** [defensive_ok_or] of an error that should never happen. *)
Definition defensive_or {A} (o : option A) (e : InconsistentStateError.t) : LmM A := lift (ok_or o (inconsistent e)).
Definition defensive_ensure (b : bool) (e : InconsistentStateError.t) : LmM unit := ensureM b (inconsistent e).

(** ** Ids, accounts and periods *)

Definition get_next_farm_id : LmM Z :=
  s ← get;
  id ← math_or (checked_add u32 (FarmSequencer s) 1) ArithmeticError.Overflow;
  modify (set_FarmSequencer id);;
  mret id.

Definition get_next_deposit_id : LmM Z :=
  s ← get;
  id ← math_or (checked_add u128 (DepositSequencer s) 1) ArithmeticError.Overflow;
  modify (set_DepositSequencer id);;
  mret id.

Definition validate_farm_id (farm_id : Z) : result LmErr unit :=
  if farm_id =? 0 then Err (inconsistent InconsistentStateError.InvalidFarmId) else Ok tt.

Definition farm_account_id (farm_id : Z) : result LmErr AccountId :=
  _ ← validate_farm_id farm_id;
  ok_or (sub_account T farm_id) (ModuleError LmError.ErrorGetAccountId).

Definition get_period_number (block blocks_per_period : Z) : result LmErr Z :=
  ok_or (checked_div block blocks_per_period) (inconsistent InconsistentStateError.InvalidPeriod).

Definition get_current_period (blocks_per_period : Z) : LmM Z :=
  s ← get;
  lift (get_period_number (current_block_number T (lm_ext s)) blocks_per_period).

Definition get_loyalty_multiplier (periods : Z) (curve : option LoyaltyCurve.t) : result LmErr FixedU128 :=
  match curve with
  | None => Ok fixed_one
  | Some curve =>
      m ← map_err (λ _, Arithmetic ArithmeticError.Overflow)
            (calculate_loyalty_multiplier periods (LoyaltyCurve.initial_reward_percentage curve)
               (LoyaltyCurve.scale_coef curve));
      _ ← ensure (m <=? fixed_one) (inconsistent InconsistentStateError.InvalidLoyaltyMultiplier);
      Ok m
  end.

(** ** Synchronisation of the farms *)

Definition sync_global_farm global_farm (current_period : Z) : LmM (GlobalFarmData * Balance) :=
  if negb (FarmState.is_active (GlobalFarmData.state global_farm)) then mret (global_farm, 0)
  else if GlobalFarmData.updated_at global_farm =? current_period then mret (global_farm, 0)
  else if GlobalFarmData.total_shares_z global_farm =? 0 then
    mret (GlobalFarmData.set_updated_at current_period global_farm, 0)
  else
  global_farm_account ← lift (farm_account_id (GlobalFarmData.id global_farm));
  s ← get;
  let reward_currency := GlobalFarmData.reward_currency global_farm in
  let reward_currency_ed := registry_get T reward_currency (lm_ext s) in
  let left_to_distribute :=
    saturating_sub (free_balance reward_currency global_farm_account (lm_ext s)) reward_currency_ed in
  periods_since_last_update ← defensive_or
    (checked_sub current_period (GlobalFarmData.updated_at global_farm)) InconsistentStateError.InvalidPeriod;
  let global_farm :=
    match get_price_adjustment T global_farm (lm_ext s) with
    | Ok price_adjustment => GlobalFarmData.set_price_adjustment price_adjustment global_farm
    | Err _ => global_farm
    end in
  reward ← or_overflow (calculate_global_farm_rewards (GlobalFarmData.total_shares_z global_farm)
    (GlobalFarmData.price_adjustment global_farm)
    (fixed_from_perquintill (GlobalFarmData.yield_per_period global_farm))
    (GlobalFarmData.max_reward_per_period global_farm) periods_since_last_update);
  let reward := Z.min reward left_to_distribute in
  global_farm ←
    (if negb (reward =? 0) then
       pot ← some_or (pot_account_id T) LmError.ErrorGetAccountId;
       lm_call (transfer reward_currency global_farm_account pot reward AllowDeath);;
       accumulated_rpz ← or_overflow (calculate_accumulated_rps (GlobalFarmData.accumulated_rpz global_farm)
         (GlobalFarmData.total_shares_z global_farm) reward);
       pending_rewards ← math_or (checked_add u128 (GlobalFarmData.pending_rewards global_farm) reward)
         ArithmeticError.Overflow;
       mret (GlobalFarmData.set_pending_rewards pending_rewards
               (GlobalFarmData.set_accumulated_rpz accumulated_rpz global_farm))
     else
       lm_deposit_event (LmEvent.AllRewardsDistributed (GlobalFarmData.id global_farm));;
       mret global_farm);
  let global_farm := GlobalFarmData.set_updated_at current_period global_farm in
  lm_deposit_event (LmEvent.GlobalFarmAccRPZUpdated (GlobalFarmData.id global_farm)
    (GlobalFarmData.accumulated_rpz global_farm) (GlobalFarmData.total_shares_z global_farm));;
  mret (global_farm, reward).

Definition sync_yield_farm yield_farm global_farm (current_period : Z) :
    LmM (YieldFarmData.t * GlobalFarmData) :=
  if negb (FarmState.is_active (YieldFarmData.state yield_farm)) then mret (yield_farm, global_farm)
  else if YieldFarmData.updated_at yield_farm =? current_period then mret (yield_farm, global_farm)
  else if YieldFarmData.total_valued_shares yield_farm =? 0 then
    mret (YieldFarmData.set_updated_at current_period
            (YieldFarmData.set_accumulated_rpz (GlobalFarmData.accumulated_rpz global_farm) yield_farm),
          global_farm)
  else
  '(delta_rpvs, yield_farm_rewards) ← or_overflow (calculate_yield_farm_rewards
    (YieldFarmData.accumulated_rpz yield_farm) (GlobalFarmData.accumulated_rpz global_farm)
    (YieldFarmData.multiplier yield_farm) (YieldFarmData.total_valued_shares yield_farm));
  let yield_farm := YieldFarmData.set_accumulated_rpz (GlobalFarmData.accumulated_rpz global_farm) yield_farm in
  paid ← math_or (checked_add u128 (GlobalFarmData.accumulated_paid_rewards global_farm) yield_farm_rewards)
    ArithmeticError.Overflow;
  let global_farm := GlobalFarmData.set_accumulated_paid_rewards paid global_farm in
  pending ← math_or (checked_sub (GlobalFarmData.pending_rewards global_farm) yield_farm_rewards)
    ArithmeticError.Overflow;
  let global_farm := GlobalFarmData.set_pending_rewards pending global_farm in
  rpvs ← math_or (checked_add u128 (YieldFarmData.accumulated_rpvs yield_farm) delta_rpvs)
    ArithmeticError.Overflow;
  let yield_farm := YieldFarmData.set_accumulated_rpvs rpvs yield_farm in
  let yield_farm := YieldFarmData.set_updated_at current_period yield_farm in
  left ← math_or (checked_add u128 (YieldFarmData.left_to_distribute yield_farm) yield_farm_rewards)
    ArithmeticError.Overflow;
  let yield_farm := YieldFarmData.set_left_to_distribute left yield_farm in
  lm_deposit_event (LmEvent.YieldFarmAccRPVSUpdated (GlobalFarmData.id global_farm) (YieldFarmData.id yield_farm)
    (YieldFarmData.accumulated_rpvs yield_farm) (YieldFarmData.total_valued_shares yield_farm));;
  mret (yield_farm, global_farm).

(** ** Global farms *)

Definition validate_create_global_farm_data (total_rewards : Balance) (planned_yielding_periods blocks_per_period
    yield_per_period : Z) (min_deposit : Balance) (price_adjustment : FixedU128) : LmM unit :=
  ensure_or (MIN_DEPOSIT <=? min_deposit) LmError.InvalidMinDeposit;;
  ensure_or (negb (price_adjustment =? 0)) LmError.InvalidPriceAdjustment;;
  ensure_or (MinTotalFarmRewards T <=? total_rewards) LmError.InvalidTotalRewards;;
  ensure_or (MinPlannedYieldingPeriods T <=? planned_yielding_periods) LmError.InvalidPlannedYieldingPeriods;;
  ensure_or (negb (blocks_per_period =? 0)) LmError.InvalidBlocksPerPeriod;;
  ensure_or (negb (yield_per_period =? 0)) LmError.InvalidYieldPerPeriod.

Definition create_global_farm (total_rewards : Balance) (planned_yielding_periods blocks_per_period : Z)
    (incentivized_asset reward_currency : AssetId) owner (yield_per_period : Z) (min_deposit : Balance)
    (price_adjustment : FixedU128) : LmM (Z * Balance) :=
  validate_create_global_farm_data total_rewards planned_yielding_periods blocks_per_period yield_per_period
    min_deposit price_adjustment;;
  s ← get;
  ensure_or (asset_is_registered T reward_currency (lm_ext s)) LmError.RewardCurrencyNotRegistered;;
  ensure_or (asset_is_registered T incentivized_asset (lm_ext s)) LmError.IncentivizedAssetNotRegistered;;
  ensure_or (is_ok (ensure_can_withdraw reward_currency owner total_rewards (lm_ext s)))
    LmError.InsufficientRewardCurrencyBalance;;
  max_reward_per_period ← math_or (checked_div total_rewards planned_yielding_periods)
    ArithmeticError.DivisionByZero;
  current_period ← get_current_period blocks_per_period;
  farm_id ← get_next_farm_id;
  put_global_farm farm_id (GlobalFarmData.new farm_id current_period reward_currency yield_per_period
    planned_yielding_periods blocks_per_period owner incentivized_asset max_reward_per_period min_deposit
    price_adjustment);;
  global_farm_account ← lift (farm_account_id farm_id);
  lm_call (whitelist_add_account T global_farm_account);;
  lm_call (transfer reward_currency owner global_farm_account total_rewards AllowDeath);;
  mret (farm_id, max_reward_per_period).

Definition create_global_farm_without_price_adjustment (total_rewards : Balance) (planned_yielding_periods
    blocks_per_period : Z) (incentivized_asset reward_currency : AssetId) owner (yield_per_period : Z)
    (min_deposit : Balance) : LmM (Z * Balance) :=
  create_global_farm total_rewards planned_yielding_periods blocks_per_period incentivized_asset reward_currency
    owner yield_per_period min_deposit fixed_one.

Definition update_global_farm_price_adjustment who (global_farm_id : Z) (price_adjustment : FixedU128) : LmM unit :=
  ensure_or (negb (price_adjustment =? 0)) LmError.InvalidPriceAdjustment;;
  s ← get;
  global_farm ← some_or (GlobalFarm s !! global_farm_id) LmError.GlobalFarmNotFound;
  ensure_or (FarmState.is_active (GlobalFarmData.state global_farm)) LmError.GlobalFarmNotFound;;
  ensure_or (bool_decide (who = GlobalFarmData.owner global_farm)) LmError.Forbidden;;
  current_period ← get_current_period (GlobalFarmData.blocks_per_period global_farm);
  '(global_farm, _) ← sync_global_farm global_farm current_period;
  put_global_farm global_farm_id (GlobalFarmData.set_price_adjustment price_adjustment global_farm).

Definition update_global_farm (global_farm_id planned_yielding_periods yield_per_period : Z) (min_deposit : Balance) :
    LmM unit :=
  ensure_or (MIN_DEPOSIT <=? min_deposit) LmError.InvalidMinDeposit;;
  ensure_or (MinPlannedYieldingPeriods T <=? planned_yielding_periods) LmError.InvalidPlannedYieldingPeriods;;
  ensure_or (negb (yield_per_period =? 0)) LmError.InvalidYieldPerPeriod;;
  s ← get;
  global_farm ← some_or (GlobalFarm s !! global_farm_id) LmError.GlobalFarmNotFound;
  ensure_or (FarmState.is_active (GlobalFarmData.state global_farm)) LmError.GlobalFarmNotFound;;
  current_period ← get_current_period (GlobalFarmData.blocks_per_period global_farm);
  '(global_farm, _) ← sync_global_farm global_farm current_period;
  global_farm_account ← lift (farm_account_id (GlobalFarmData.id global_farm));
  s ← get;
  let total_rewards := free_balance (GlobalFarmData.reward_currency global_farm) global_farm_account (lm_ext s) in
  new_max_reward_period ← some_or (checked_div total_rewards planned_yielding_periods)
    LmError.InvalidPlannedYieldingPeriods;
  ensure_or (negb (new_max_reward_period =? 0)) LmError.InvalidPlannedYieldingPeriods;;
  put_global_farm global_farm_id
    (GlobalFarmData.set_max_reward_per_period new_max_reward_period
      (GlobalFarmData.set_min_deposit min_deposit
        (GlobalFarmData.set_yield_per_period yield_per_period
          (GlobalFarmData.set_planned_yielding_periods planned_yielding_periods global_farm)))).

Definition terminate_global_farm who (farm_id : Z) : LmM (AssetId * Balance * AccountId) :=
  s ← get;
  global_farm ← some_or (GlobalFarm s !! farm_id) LmError.GlobalFarmNotFound;
  ensure_or (bool_decide (who = GlobalFarmData.owner global_farm)) LmError.Forbidden;;
  ensure_or (FarmState.is_active (GlobalFarmData.state global_farm)) LmError.GlobalFarmNotFound;;
  ensure_or (negb (GlobalFarmData.has_live_farms global_farm)) LmError.GlobalFarmIsNotEmpty;;
  global_farm_account ← lift (farm_account_id (GlobalFarmData.id global_farm));
  let reward_currency := GlobalFarmData.reward_currency global_farm in
  let undistributed_rewards := free_balance reward_currency global_farm_account (lm_ext s) in
  lm_call (transfer reward_currency global_farm_account who undistributed_rewards AllowDeath);;
  let global_farm := GlobalFarmData.set_state FarmState.Terminated global_farm in
  lm_call (whitelist_remove_account T global_farm_account);;
  (if GlobalFarmData.can_be_removed global_farm
   then modify (λ s, set_GlobalFarm (delete farm_id (GlobalFarm s)) s)
   else put_global_farm farm_id global_farm);;
  mret (reward_currency, undistributed_rewards, who).

(** ** Yield farms *)

Definition create_yield_farm who (global_farm_id : Z) (multiplier : FixedU128)
    (loyalty_curve : option LoyaltyCurve.t) amm_pool_id (assets : list AssetId) : LmM Z :=
  ensure_or (MIN_YIELD_FARM_MULTIPLIER <=? multiplier) LmError.InvalidMultiplier;;
  ensure_or (match loyalty_curve with
             | Some curve => LoyaltyCurve.initial_reward_percentage curve <? fixed_one
             | None => true
             end) LmError.InvalidInitialRewardPercentage;;
  s ← get;
  global_farm ← some_or (GlobalFarm s !! global_farm_id) LmError.GlobalFarmNotFound;
  ensure_or (FarmState.is_active (GlobalFarmData.state global_farm)) LmError.GlobalFarmNotFound;;
  ensure_or (bool_decide (who = GlobalFarmData.owner global_farm)) LmError.Forbidden;;
  ensure_or (negb (GlobalFarmData.is_full (MaxYieldFarmsPerGlobalFarm T) global_farm)) LmError.GlobalFarmIsFull;;
  ensure_or (bool_decide (GlobalFarmData.incentivized_asset global_farm ∈ assets)) LmError.MissingIncentivizedAsset;;
  ensure_or (bool_decide (ActiveYieldFarm s !! (amm_pool_id, global_farm_id) = None))
    LmError.YieldFarmAlreadyExists;;
  current_period ← get_current_period (GlobalFarmData.blocks_per_period global_farm);
  '(global_farm, _) ← sync_global_farm global_farm current_period;
  yield_farm_id ← get_next_farm_id;
  put_yield_farm (amm_pool_id, global_farm_id, yield_farm_id)
    (YieldFarmData.new yield_farm_id current_period loyalty_curve multiplier);;
  global_farm ← lift (GlobalFarmData.increase_yield_farm_counts global_farm);
  modify (λ s, set_ActiveYieldFarm (<[(amm_pool_id, global_farm_id) := yield_farm_id]> (ActiveYieldFarm s)) s);;
  put_global_farm global_farm_id global_farm;;
  mret yield_farm_id.

Definition update_yield_farm_multiplier who (global_farm_id : Z) amm_pool_id (multiplier : FixedU128) : LmM Z :=
  ensure_or (MIN_YIELD_FARM_MULTIPLIER <=? multiplier) LmError.InvalidMultiplier;;
  s ← get;
  yield_farm_id ← some_or (ActiveYieldFarm s !! (amm_pool_id, global_farm_id)) LmError.YieldFarmNotFound;
  yield_farm ← defensive_or (YieldFarm s !! (amm_pool_id, global_farm_id, yield_farm_id))
    InconsistentStateError.YieldFarmNotFound;
  ensure_or (FarmState.is_active (YieldFarmData.state yield_farm)) LmError.LiquidityMiningCanceled;;
  global_farm ← defensive_or (GlobalFarm s !! global_farm_id) InconsistentStateError.GlobalFarmNotFound;
  ensure_or (bool_decide (who = GlobalFarmData.owner global_farm)) LmError.Forbidden;;
  old_stake_in_global_farm ← or_overflow (calculate_global_farm_shares
    (YieldFarmData.total_valued_shares yield_farm) (YieldFarmData.multiplier yield_farm));
  current_period ← get_current_period (GlobalFarmData.blocks_per_period global_farm);
  '(global_farm, _) ← sync_global_farm global_farm current_period;
  '(yield_farm, global_farm) ← sync_yield_farm yield_farm global_farm current_period;
  new_stake_in_global_farm ← or_overflow (calculate_global_farm_shares
    (YieldFarmData.total_valued_shares yield_farm) multiplier);
  global_farm ← lift (GlobalFarmData.remove_stake old_stake_in_global_farm global_farm);
  global_farm ← lift (GlobalFarmData.add_stake new_stake_in_global_farm global_farm);
  let yield_farm := YieldFarmData.set_multiplier multiplier yield_farm in
  put_global_farm global_farm_id global_farm;;
  put_yield_farm (amm_pool_id, global_farm_id, yield_farm_id) yield_farm;;
  mret (YieldFarmData.id yield_farm).

Definition stop_yield_farm who (global_farm_id : Z) amm_pool_id : LmM Z :=
  s ← get;
  yield_farm_id ← some_or (ActiveYieldFarm s !! (amm_pool_id, global_farm_id)) LmError.YieldFarmNotFound;
  yield_farm ← defensive_or (YieldFarm s !! (amm_pool_id, global_farm_id, yield_farm_id))
    InconsistentStateError.YieldFarmNotFound;
  defensive_ensure (FarmState.is_active (YieldFarmData.state yield_farm)) InconsistentStateError.LiquidityIsNotActive;;
  global_farm ← defensive_or (GlobalFarm s !! global_farm_id) InconsistentStateError.GlobalFarmNotFound;
  ensure_or (bool_decide (GlobalFarmData.owner global_farm = who)) LmError.Forbidden;;
  current_period ← get_current_period (GlobalFarmData.blocks_per_period global_farm);
  '(global_farm, _) ← sync_global_farm global_farm current_period;
  '(yield_farm, global_farm) ← sync_yield_farm yield_farm global_farm current_period;
  old_stake_in_global_farm ← or_overflow (calculate_global_farm_shares
    (YieldFarmData.total_valued_shares yield_farm) (YieldFarmData.multiplier yield_farm));
  global_farm ← lift (GlobalFarmData.remove_stake old_stake_in_global_farm global_farm);
  let yield_farm := YieldFarmData.set_multiplier 0 (YieldFarmData.set_state FarmState.Stopped yield_farm) in
  put_global_farm global_farm_id global_farm;;
  put_yield_farm (amm_pool_id, global_farm_id, yield_farm_id) yield_farm;;
  modify (λ s, set_ActiveYieldFarm (delete (amm_pool_id, global_farm_id) (ActiveYieldFarm s)) s);;
  mret yield_farm_id.

Definition resume_yield_farm who (global_farm_id yield_farm_id : Z) amm_pool_id (multiplier : FixedU128) : LmM unit :=
  ensure_or (MIN_YIELD_FARM_MULTIPLIER <=? multiplier) LmError.InvalidMultiplier;;
  s ← get;
  ensure_or (bool_decide (ActiveYieldFarm s !! (amm_pool_id, global_farm_id) = None))
    LmError.YieldFarmAlreadyExists;;
  yield_farm ← some_or (YieldFarm s !! (amm_pool_id, global_farm_id, yield_farm_id)) LmError.YieldFarmNotFound;
  ensure_or (FarmState.is_stopped (YieldFarmData.state yield_farm)) LmError.LiquidityMiningIsNotStopped;;
  global_farm ← defensive_or (GlobalFarm s !! global_farm_id) InconsistentStateError.GlobalFarmNotFound;
  ensure_or (bool_decide (GlobalFarmData.owner global_farm = who)) LmError.Forbidden;;
  current_period ← get_current_period (GlobalFarmData.blocks_per_period global_farm);
  '(global_farm, _) ← sync_global_farm global_farm current_period;
  stopped_periods ← defensive_or (checked_sub current_period (YieldFarmData.updated_at yield_farm))
    InconsistentStateError.InvalidPeriod;
  new_stake_in_global_farm ← or_overflow (calculate_global_farm_shares
    (YieldFarmData.total_valued_shares yield_farm) multiplier);
  global_farm ← lift (GlobalFarmData.add_stake new_stake_in_global_farm global_farm);
  total_stopped ← math_or (checked_add u32 (YieldFarmData.total_stopped yield_farm) stopped_periods)
    ArithmeticError.Overflow;
  let yield_farm :=
    YieldFarmData.set_total_stopped total_stopped
      (YieldFarmData.set_multiplier multiplier
        (YieldFarmData.set_state FarmState.Active
          (YieldFarmData.set_updated_at current_period
            (YieldFarmData.set_accumulated_rpz (GlobalFarmData.accumulated_rpz global_farm) yield_farm)))) in
  put_global_farm global_farm_id global_farm;;
  put_yield_farm (amm_pool_id, global_farm_id, yield_farm_id) yield_farm;;
  modify (λ s, set_ActiveYieldFarm
    (<[(amm_pool_id, global_farm_id) := YieldFarmData.id yield_farm]> (ActiveYieldFarm s)) s).

(** The yield farm is written back, or removed when nothing refers to it any more. *)
Definition store_or_remove_yield_farm (key : AmmPoolId * Z * Z) yield_farm global_farm : LmM GlobalFarmData :=
  if YieldFarmData.can_be_removed yield_farm then
    global_farm ← lift (GlobalFarmData.decrease_total_yield_farm_count global_farm);
    modify (λ s, set_YieldFarm (delete key (YieldFarm s)) s);;
    mret global_farm
  else
    put_yield_farm key yield_farm;;
    mret global_farm.

Definition terminate_yield_farm who (global_farm_id yield_farm_id : Z) amm_pool_id : LmM unit :=
  s ← get;
  ensure_or (negb (bool_decide (ActiveYieldFarm s !! (amm_pool_id, global_farm_id) = Some yield_farm_id)))
    LmError.LiquidityMiningIsActive;;
  global_farm ← some_or (GlobalFarm s !! global_farm_id) LmError.GlobalFarmNotFound;
  ensure_or (bool_decide (GlobalFarmData.owner global_farm = who)) LmError.Forbidden;;
  yield_farm ← some_or (YieldFarm s !! (amm_pool_id, global_farm_id, yield_farm_id)) LmError.YieldFarmNotFound;
  ensure_or (FarmState.is_stopped (YieldFarmData.state yield_farm)) LmError.LiquidityMiningIsNotStopped;;
  global_farm_account ← lift (farm_account_id (GlobalFarmData.id global_farm));
  pot ← some_or (pot_account_id T) LmError.ErrorGetAccountId;
  paid ← math_or (checked_sub (GlobalFarmData.accumulated_paid_rewards global_farm)
    (YieldFarmData.left_to_distribute yield_farm)) ArithmeticError.Overflow;
  let global_farm := GlobalFarmData.set_accumulated_paid_rewards paid global_farm in
  lm_call (transfer (GlobalFarmData.reward_currency global_farm) pot global_farm_account
    (YieldFarmData.left_to_distribute yield_farm) AllowDeath);;
  let yield_farm := YieldFarmData.set_state FarmState.Terminated
    (YieldFarmData.set_left_to_distribute 0 yield_farm) in
  global_farm ← lift (GlobalFarmData.decrease_live_yield_farm_count global_farm);
  global_farm ← store_or_remove_yield_farm (amm_pool_id, global_farm_id, yield_farm_id) yield_farm global_farm;
  put_global_farm global_farm_id global_farm.

(** ** Deposits *)

Definition do_deposit_lp_shares deposit (global_farm_id yield_farm_id : Z)
    (get_token_value_of_lp_shares : AssetId → AmmPoolId → Balance → X → result Z Balance) : LmM DepositData :=
  ensure_or (bool_decide (DepositData.search_yield_farm_entry yield_farm_id deposit = None)) LmError.DoubleLock;;
  s ← get;
  let key := (DepositData.amm_pool_id deposit, global_farm_id, yield_farm_id) in
  yield_farm ← some_or (YieldFarm s !! key) LmError.YieldFarmNotFound;
  ensure_or (FarmState.is_active (YieldFarmData.state yield_farm)) LmError.LiquidityMiningCanceled;;
  global_farm ← defensive_or (GlobalFarm s !! global_farm_id) InconsistentStateError.GlobalFarmNotFound;
  defensive_ensure (FarmState.is_active (GlobalFarmData.state global_farm)) InconsistentStateError.GlobalFarmNotFound;;
  current_period ← get_current_period (GlobalFarmData.blocks_per_period global_farm);
  '(global_farm, _) ← sync_global_farm global_farm current_period;
  '(yield_farm, global_farm) ← sync_yield_farm yield_farm global_farm current_period;
  s ← get;
  valued_shares ← lift (map_err Foreign (get_token_value_of_lp_shares (GlobalFarmData.incentivized_asset global_farm)
    (DepositData.amm_pool_id deposit) (DepositData.shares deposit) (lm_ext s)));
  ensure_or (GlobalFarmData.min_deposit global_farm <=? valued_shares) LmError.IncorrectValuedShares;;
  deposit_stake_in_global_farm ← or_overflow
    (calculate_global_farm_shares valued_shares (YieldFarmData.multiplier yield_farm));
  total_shares ← math_or (checked_add u128 (YieldFarmData.total_shares yield_farm) (DepositData.shares deposit))
    ArithmeticError.Overflow;
  total_valued_shares ← math_or (checked_add u128 (YieldFarmData.total_valued_shares yield_farm) valued_shares)
    ArithmeticError.Overflow;
  let yield_farm := YieldFarmData.set_total_valued_shares total_valued_shares
    (YieldFarmData.set_total_shares total_shares yield_farm) in
  global_farm ← lift (GlobalFarmData.add_stake deposit_stake_in_global_farm global_farm);
  let farm_entry := YieldFarmEntry.new (GlobalFarmData.id global_farm) (YieldFarmData.id yield_farm) valued_shares
    (YieldFarmData.accumulated_rpvs yield_farm) current_period (YieldFarmData.total_stopped yield_farm) in
  deposit ← lift (DepositData.add_yield_farm_entry (MaxFarmEntriesPerDeposit T) farm_entry deposit);
  yield_farm ← lift (YieldFarmData.increase_entries_count yield_farm);
  put_global_farm global_farm_id global_farm;;
  put_yield_farm key yield_farm;;
  mret deposit.

Definition deposit_lp_shares (global_farm_id yield_farm_id : Z) amm_pool_id (shares_amount : Balance)
    (get_token_value_of_lp_shares : AssetId → AmmPoolId → Balance → X → result Z Balance) : LmM Z :=
  deposit ← do_deposit_lp_shares (DepositData.new shares_amount amm_pool_id) global_farm_id yield_farm_id
    get_token_value_of_lp_shares;
  deposit_id ← get_next_deposit_id;
  put_deposit deposit_id deposit;;
  mret deposit_id.

Definition redeposit_lp_shares (global_farm_id yield_farm_id deposit_id : Z)
    (get_token_value_of_lp_shares : AssetId → AmmPoolId → Balance → X → result Z Balance) :
    LmM (Balance * AmmPoolId) :=
  s ← get;
  deposit ← defensive_or (Deposit s !! deposit_id) InconsistentStateError.DepositNotFound;
  deposit ← do_deposit_lp_shares deposit global_farm_id yield_farm_id get_token_value_of_lp_shares;
  put_deposit deposit_id deposit;;
  mret (DepositData.shares deposit, DepositData.amm_pool_id deposit).

(** Periods the entry was rewarded for: those since it was made, without the ones
    the yield farm was stopped. *)
Definition rewarded_periods yield_farm (farm_entry : YieldFarmEntry.t) : LmM Z :=
  delta_stopped ← defensive_or
    (checked_sub (YieldFarmData.total_stopped yield_farm) (YieldFarmEntry.stopped_at_creation farm_entry))
    InconsistentStateError.InvalidPeriod;
  periods ← defensive_or (checked_sub (YieldFarmData.updated_at yield_farm) (YieldFarmEntry.entered_at farm_entry))
    InconsistentStateError.InvalidPeriod;
  defensive_or (checked_sub periods delta_stopped) InconsistentStateError.InvalidPeriod.

(** Pay [rewards] out of the pot, to the treasury when they would not keep the
    account of the user alive. *)
Definition pay_rewards (reward_currency : AssetId) who (rewards : Balance) (to_treasury : bool)
    (current_period : Z) yield_farm (farm_entry : YieldFarmEntry.t) : LmM (YieldFarmData.t * YieldFarmEntry.t) :=
  if negb (rewards =? 0) then
    left ← defensive_or (checked_sub (YieldFarmData.left_to_distribute yield_farm) rewards)
      InconsistentStateError.NotEnoughRewardsInYieldFarm;
    claimed ← math_or (checked_add u128 (YieldFarmEntry.accumulated_claimed_rewards farm_entry) rewards)
      ArithmeticError.Overflow;
    pot ← some_or (pot_account_id T) LmError.ErrorGetAccountId;
    lm_call (transfer reward_currency pot (if to_treasury then TreasuryAccountId T else who) rewards AllowDeath);;
    mret (YieldFarmData.set_left_to_distribute left yield_farm,
          YieldFarmEntry.set_updated_at current_period
            (YieldFarmEntry.set_accumulated_claimed_rewards claimed farm_entry))
  else mret (yield_farm, farm_entry).

Definition claim_rewards who (deposit_id yield_farm_id : Z) (fail_on_doubleclaim : bool) :
    LmM (Z * AssetId * Balance * Balance) :=
  s ← get;
  deposit ← defensive_or (Deposit s !! deposit_id) InconsistentStateError.DepositNotFound;
  '(idx, farm_entry) ← some_or (DepositData.get_yield_farm_entry yield_farm_id deposit)
    LmError.YieldFarmEntryNotFound;
  let global_farm_id := YieldFarmEntry.global_farm_id farm_entry in
  let key := (DepositData.amm_pool_id deposit, global_farm_id, yield_farm_id) in
  yield_farm ← defensive_or (YieldFarm s !! key) InconsistentStateError.YieldFarmNotFound;
  ensure_or (negb (FarmState.is_terminated (YieldFarmData.state yield_farm))) LmError.LiquidityMiningCanceled;;
  global_farm ← defensive_or (GlobalFarm s !! global_farm_id) InconsistentStateError.GlobalFarmNotFound;
  current_period ← get_current_period (GlobalFarmData.blocks_per_period global_farm);
  ensure_or (negb (fail_on_doubleclaim && (YieldFarmEntry.updated_at farm_entry =? current_period)))
    LmError.DoubleClaimInPeriod;;
  '(global_farm, _) ← sync_global_farm global_farm current_period;
  '(yield_farm, global_farm) ← sync_yield_farm yield_farm global_farm current_period;
  periods ← rewarded_periods yield_farm farm_entry;
  loyalty_multiplier ← lift (get_loyalty_multiplier periods (YieldFarmData.loyalty_curve yield_farm));
  '(rewards, unclaimable_rewards) ← or_overflow (calculate_user_reward (YieldFarmEntry.accumulated_rpvs farm_entry)
    (YieldFarmEntry.valued_shares farm_entry) (YieldFarmEntry.accumulated_claimed_rewards farm_entry)
    (YieldFarmData.accumulated_rpvs yield_farm) loyalty_multiplier);
  s ← get;
  let reward_currency := GlobalFarmData.reward_currency global_farm in
  ed ← defensive_or (registry_existential_deposit T reward_currency (lm_ext s))
    InconsistentStateError.NoExistentialDepositForAsset;
  let should_send_reward_to_treasury := (rewards <? ed) && (free_balance reward_currency who (lm_ext s) <? ed) in
  '(yield_farm, farm_entry) ← pay_rewards reward_currency who rewards should_send_reward_to_treasury current_period
    yield_farm farm_entry;
  put_global_farm global_farm_id global_farm;;
  put_yield_farm key yield_farm;;
  put_deposit deposit_id (DepositData.set_yield_farm_entries
    (<[idx := farm_entry]> (DepositData.yield_farm_entries deposit)) deposit);;
  mret (GlobalFarmData.id global_farm, reward_currency,
        if should_send_reward_to_treasury then 0 else rewards, unclaimable_rewards).

(** The rewards the user gives up go back to the global farm. *)
Definition return_unclaimable (unclaimable_rewards : Balance) yield_farm global_farm :
    LmM (YieldFarmData.t * GlobalFarmData) :=
  if negb (unclaimable_rewards =? 0) then
    left ← defensive_or (checked_sub (YieldFarmData.left_to_distribute yield_farm) unclaimable_rewards)
      InconsistentStateError.NotEnoughRewardsInYieldFarm;
    paid ← defensive_or (checked_sub (GlobalFarmData.accumulated_paid_rewards global_farm) unclaimable_rewards)
      InconsistentStateError.InvalidPaidAccumulatedRewards;
    global_farm_account ← lift (farm_account_id (GlobalFarmData.id global_farm));
    pot ← some_or (pot_account_id T) LmError.ErrorGetAccountId;
    lm_call (transfer (GlobalFarmData.reward_currency global_farm) pot global_farm_account unclaimable_rewards
      AllowDeath);;
    mret (YieldFarmData.set_left_to_distribute left yield_farm,
          GlobalFarmData.set_accumulated_paid_rewards paid global_farm)
  else mret (yield_farm, global_farm).

Definition withdraw_lp_shares (deposit_id yield_farm_id : Z) (unclaimable_rewards : Balance) amm_pool_id :
    LmM (Z * Balance * bool) :=
  s ← get;
  deposit ← defensive_or (Deposit s !! deposit_id) InconsistentStateError.DepositNotFound;
  '(farm_entry, deposit) ← lift (DepositData.remove_yield_farm_entry yield_farm_id deposit);
  ensure_or (bool_decide (amm_pool_id = DepositData.amm_pool_id deposit)) LmError.AmmPoolIdMismatch;;
  let global_farm_id := YieldFarmEntry.global_farm_id farm_entry in
  let key := (amm_pool_id, global_farm_id, yield_farm_id) in
  global_farm ← defensive_or (GlobalFarm s !! global_farm_id) InconsistentStateError.GlobalFarmNotFound;
  yield_farm ← defensive_or (YieldFarm s !! key) InconsistentStateError.YieldFarmNotFound;
  total_shares ← defensive_or (checked_sub (YieldFarmData.total_shares yield_farm) (DepositData.shares deposit))
    InconsistentStateError.InvalidTotalShares;
  total_valued_shares ← defensive_or
    (checked_sub (YieldFarmData.total_valued_shares yield_farm) (YieldFarmEntry.valued_shares farm_entry))
    InconsistentStateError.InvalidValuedShares;
  let yield_farm := YieldFarmData.set_total_valued_shares total_valued_shares
    (YieldFarmData.set_total_shares total_shares yield_farm) in
  global_farm ←
    (if FarmState.is_active (YieldFarmData.state yield_farm) then
       deposit_stake_in_global_farm ← or_overflow (calculate_global_farm_shares
         (YieldFarmEntry.valued_shares farm_entry) (YieldFarmData.multiplier yield_farm));
       lift (GlobalFarmData.remove_stake deposit_stake_in_global_farm global_farm)
     else mret global_farm);
  defensive_ensure ((unclaimable_rewards =? 0) || negb (FarmState.is_terminated (YieldFarmData.state yield_farm)))
    InconsistentStateError.NotEnoughRewardsInYieldFarm;;
  '(yield_farm, global_farm) ← return_unclaimable unclaimable_rewards yield_farm global_farm;
  yield_farm ← lift (YieldFarmData.decrease_entries_count yield_farm);
  global_farm ← store_or_remove_yield_farm key yield_farm global_farm;
  (if GlobalFarmData.can_be_removed global_farm
   then modify (λ s, set_GlobalFarm (delete global_farm_id (GlobalFarm s)) s)
   else put_global_farm global_farm_id global_farm);;
  let deposit_destroyed := DepositData.can_be_removed deposit in
  (if deposit_destroyed then modify (λ s, set_Deposit (delete deposit_id (Deposit s)) s)
   else put_deposit deposit_id deposit);;
  mret (global_farm_id, DepositData.shares deposit, deposit_destroyed).

(** ** The interface to the pallets that hold the shares *)

Definition is_yield_farm_claimable (global_farm_id yield_farm_id : Z) amm_pool_id s : bool :=
  match YieldFarm s !! (amm_pool_id, global_farm_id, yield_farm_id) with
  | Some yield_farm =>
      negb (FarmState.is_terminated (YieldFarmData.state yield_farm)) && YieldFarmData.has_entries yield_farm
  | None => false
  end.

Definition get_global_farm_id (id yield_farm_id : Z) s : option Z :=
  deposit ← Deposit s !! id;
  '(_, farm_entry) ← DepositData.get_yield_farm_entry yield_farm_id deposit;
  Some (YieldFarmEntry.global_farm_id farm_entry).

Definition get_yield_farm_ids (deposit_id : Z) s : option (list Z) :=
  deposit ← Deposit s !! deposit_id;
  Some (YieldFarmEntry.yield_farm_id <$> DepositData.yield_farm_entries deposit).

Definition mutate_claim_rewards who (deposit_id yield_farm_id : Z) : LmM (Z * AssetId * Balance * Balance) :=
  claim_rewards who deposit_id yield_farm_id true.

Definition mutate_withdraw_lp_shares who (deposit_id global_farm_id yield_farm_id : Z) amm_pool_id :
    LmM (Balance * option (AssetId * Balance * Balance) * bool) :=
  s ← get;
  claim_data ←
    (if is_yield_farm_claimable global_farm_id yield_farm_id amm_pool_id s then
       '(_, reward_currency, claimed, unclaimable) ← claim_rewards who deposit_id yield_farm_id false;
       mret (Some (reward_currency, claimed, unclaimable))
     else mret None);
  let unclaimable := match claim_data with Some (_, _, unclaimable) => unclaimable | None => 0 end in
  '(_, withdrawn_amount, deposit_destroyed) ← withdraw_lp_shares deposit_id yield_farm_id unclaimable amm_pool_id;
  mret (withdrawn_amount, claim_data, deposit_destroyed).
End liquidity_mining.
