(* ===== verification/LiquidityMiningInvariant.v ===== *)
(** * The books of liquidity mining

    The invariant of the storage of [LiquidityMining]: every counter is the number
    of records it counts, the pot holds what the farms have been promised, a yield
    farm holds what its deposits can still claim.  Every operation that changes
    the storage replaces at most one global farm, one yield farm, one deposit and
    one active farm; [inv_change] reduces the preservation of the invariant to
    conditions on these. *)

From S2P Require Import Prelude Arithmetic Currency LiquidityMiningMath LiquidityMining.

(** ** Lists of entries *)

Lemma swap_remove_perm {A} (l : list A) i x : l !! i = Some x → l ≡ₚ x :: swap_remove i l.
Proof.
  intros Hi. unfold swap_remove. destruct (last l) as [z|] eqn:Hl.
  2: { apply last_None in Hl as ->. by destruct i. }
  apply last_Some in Hl as [l' ->]. rewrite removelast_last.
  destruct (decide (i < length l')%nat) as [Hlt|Hge].
  - rewrite lookup_app_l in Hi by done. apply list_elem_of_split_length in Hi as (l1 & l2 & -> & ->).
    rewrite insert_app_r_alt, Nat.sub_diag by done. simpl. rewrite <- !app_assoc. simpl.
    rewrite <- Permutation_middle. apply perm_skip. by rewrite (Permutation_app_comm l2 [z]).
  - rewrite list_insert_ge by lia. apply lookup_lt_Some in Hi as Hlen. rewrite length_app in Hlen. simpl in Hlen.
    assert (i = length l') as -> by lia. rewrite list_lookup_middle in Hi by done. simplify_eq.
    by rewrite Permutation_app_comm.
Qed.

(** ** Records of the right type *)

Section typed.
Context {AccountId AmmPoolId : Type}.
Implicit Types (gf : GlobalFarmData.t AccountId) (yf : YieldFarmData.t) (e : YieldFarmEntry.t)
  (d : DepositData.t AmmPoolId).

Record global_typed gf : Prop := {
  gt_updated : fits u32 (GlobalFarmData.updated_at gf);
  gt_z : fits u128 (GlobalFarmData.total_shares_z gf);
  gt_rpz : fits u128 (GlobalFarmData.accumulated_rpz gf);
  gt_pending : fits u128 (GlobalFarmData.pending_rewards gf);
  gt_paid : fits u128 (GlobalFarmData.accumulated_paid_rewards gf);
  gt_yield : is_perquintill (GlobalFarmData.yield_per_period gf);
  gt_blocks : 0 < GlobalFarmData.blocks_per_period gf;
  gt_max : 0 <= GlobalFarmData.max_reward_per_period gf;
  gt_price : fits u128 (GlobalFarmData.price_adjustment gf);
  gt_live : 0 <= GlobalFarmData.live_yield_farms_count gf;
  gt_total : 0 <= GlobalFarmData.total_yield_farms_count gf;
}.

Definition curve_ok (c : option LoyaltyCurve.t) : Prop :=
  ∀ curve, c = Some curve →
    0 <= LoyaltyCurve.initial_reward_percentage curve <= DIV ∧ fits u32 (LoyaltyCurve.scale_coef curve).

Record yield_typed yf : Prop := {
  yt_updated : fits u32 (YieldFarmData.updated_at yf);
  yt_shares : fits u128 (YieldFarmData.total_shares yf);
  yt_valued : fits u128 (YieldFarmData.total_valued_shares yf);
  yt_rpvs : fits u128 (YieldFarmData.accumulated_rpvs yf);
  yt_rpz : fits u128 (YieldFarmData.accumulated_rpz yf);
  yt_curve : curve_ok (YieldFarmData.loyalty_curve yf);
  yt_multiplier : fits u128 (YieldFarmData.multiplier yf);
  yt_left : fits u128 (YieldFarmData.left_to_distribute yf);
  yt_stopped : fits u32 (YieldFarmData.total_stopped yf);
}.

Record entry_typed e : Prop := {
  et_valued : fits u128 (YieldFarmEntry.valued_shares e);
  et_rpvs : fits u128 (YieldFarmEntry.accumulated_rpvs e);
  et_claimed : fits u128 (YieldFarmEntry.accumulated_claimed_rewards e);
  et_entered : fits u32 (YieldFarmEntry.entered_at e);
  et_stopped : fits u32 (YieldFarmEntry.stopped_at_creation e);
}.
End typed.

(** ** What an entry can claim *)

Section claims.
Implicit Types (yf : YieldFarmData.t) (e : YieldFarmEntry.t).

(** The periods, the rewards without loyalty and the rewards the entry can claim. *)
Definition entry_periods yf e : Z :=
  YieldFarmData.updated_at yf - YieldFarmEntry.entered_at e
  - (YieldFarmData.total_stopped yf - YieldFarmEntry.stopped_at_creation e).
Definition entry_max yf e : Z :=
  (YieldFarmData.accumulated_rpvs yf - YieldFarmEntry.accumulated_rpvs e) * YieldFarmEntry.valued_shares e / DIV.
Definition entry_loyalty yf e : Z :=
  match YieldFarmData.loyalty_curve yf with
  | None => DIV
  | Some c =>
      if entry_periods yf e + LoyaltyCurve.scale_coef c =? 0 then 0
      else loyalty (entry_periods yf e) (LoyaltyCurve.initial_reward_percentage c) (LoyaltyCurve.scale_coef c)
  end.
Definition entry_claimable yf e : Z := entry_loyalty yf e * entry_max yf e / DIV.

(** What the entry may still take out of its yield farm, in units of [1 / DIV]. *)
Definition entry_owed (rpvs : Z) e : Z :=
  (rpvs - YieldFarmEntry.accumulated_rpvs e) * YieldFarmEntry.valued_shares e
  - YieldFarmEntry.accumulated_claimed_rewards e * DIV.

Record entry_ok yf e : Prop := {
  eo_typed : entry_typed e;
  eo_rpvs : YieldFarmEntry.accumulated_rpvs e <= YieldFarmData.accumulated_rpvs yf;
  eo_stopped : YieldFarmEntry.stopped_at_creation e <= YieldFarmData.total_stopped yf;
  eo_periods : 0 <= entry_periods yf e;
  eo_claimed : YieldFarmEntry.accumulated_claimed_rewards e <= entry_claimable yf e;
}.

(** How a yield farm may change under the entries it already has. *)
Record yield_grows yf yf' : Prop := {
  yg_rpvs : YieldFarmData.accumulated_rpvs yf <= YieldFarmData.accumulated_rpvs yf';
  yg_stopped : YieldFarmData.total_stopped yf <= YieldFarmData.total_stopped yf';
  yg_periods : YieldFarmData.updated_at yf - YieldFarmData.total_stopped yf
               <= YieldFarmData.updated_at yf' - YieldFarmData.total_stopped yf';
  yg_curve : YieldFarmData.loyalty_curve yf' = YieldFarmData.loyalty_curve yf;
}.

#[global] Instance yield_grows_preorder : PreOrder yield_grows.
Proof. split; [by constructor|]. intros ? ? ? [] []. constructor; [lia..|congruence]. Qed.

Lemma entry_periods_fits yf e : yield_typed yf → entry_ok yf e → fits u32 (entry_periods yf e).
Proof.
  intros [] [[] ? ? Hp ?]. unfold entry_periods in *. unfold fits in *. lia.
Qed.

Lemma entry_max_nonneg yf e : entry_ok yf e → 0 <= entry_max yf e.
Proof. intros [[] ? ? ? ?]. apply div_nonneg; [|done]. unfold fits in *. nia. Qed.

Lemma entry_loyalty_bounds yf e : yield_typed yf → entry_ok yf e → 0 <= entry_loyalty yf e <= DIV.
Proof.
  intros Hy He. pose proof (entry_periods_fits yf e Hy He) as Hp. unfold entry_loyalty.
  destruct (YieldFarmData.loyalty_curve yf) as [c|] eqn:E; [|done].
  destruct (yt_curve yf Hy c E) as [Hi Hs]. case_match; propify; [done|].
  apply loyalty_bounds; [done..|]. unfold fits in *. lia.
Qed.

Lemma entry_claimable_le yf e : yield_typed yf → entry_ok yf e → 0 <= entry_claimable yf e <= entry_max yf e.
Proof.
  intros Hy He. pose proof (entry_loyalty_bounds yf e Hy He). pose proof (entry_max_nonneg yf e He).
  unfold entry_claimable. rewrite Z.mul_comm. split; [apply muldiv_nonneg|apply muldiv_le]; done || lia.
Qed.

(** Nobody has claimed more than they were given. *)
Lemma entry_owed_nonneg yf e : yield_typed yf → entry_ok yf e → 0 <= entry_owed (YieldFarmData.accumulated_rpvs yf) e.
Proof.
  intros Hy He. pose proof (entry_claimable_le yf e Hy He) as Hc. pose proof (eo_claimed yf e He).
  unfold entry_owed, entry_max in *.
  pose proof (div_bounds ((YieldFarmData.accumulated_rpvs yf - YieldFarmEntry.accumulated_rpvs e)
    * YieldFarmEntry.valued_shares e) DIV DIV_pos). nia.
Qed.

Lemma entry_loyalty_mono yf yf' e :
  yield_typed yf → yield_typed yf' → yield_grows yf yf' → entry_ok yf e →
  entry_loyalty yf e <= entry_loyalty yf' e.
Proof.
  intros Hy Hy' [G1 G2 G3 G4] He. pose proof (entry_periods_fits yf e Hy He) as Hp.
  pose proof (entry_loyalty_bounds yf e Hy He) as Hb.
  assert (entry_periods yf e <= entry_periods yf' e) as Hle by (unfold entry_periods; lia).
  assert (fits u32 (entry_periods yf' e)) as Hp'.
  { destruct He as [[]], Hy'. unfold entry_periods, fits in *. lia. }
  unfold entry_loyalty in *. rewrite G4 in *. destruct (YieldFarmData.loyalty_curve yf) as [c|] eqn:E; [|done].
  destruct (yt_curve yf Hy c E) as [Hi Hs]. unfold fits in Hp, Hs.
  destruct (Z.eqb_spec (entry_periods yf e + LoyaltyCurve.scale_coef c) 0).
  - case_match; [done|]. propify. apply loyalty_bounds; [done..|]. lia.
  - destruct (Z.eqb_spec (entry_periods yf' e + LoyaltyCurve.scale_coef c) 0); [lia|].
    apply loyalty_mono; try done. lia.
Qed.

(** Growth of its yield farm keeps an entry in order. *)
Lemma entry_ok_grows yf yf' e :
  yield_typed yf → yield_typed yf' → yield_grows yf yf' → entry_ok yf e → entry_ok yf' e.
Proof.
  intros Hy Hy' G He. pose proof (entry_loyalty_mono yf yf' e Hy Hy' G He).
  pose proof (entry_loyalty_bounds yf e Hy He). pose proof (entry_max_nonneg yf e He).
  destruct G as [G1 G2 G3 G4], He as [Ht ? ? ? Hc].
  constructor; [done|lia|lia|unfold entry_periods in *; lia|].
  etransitivity; [exact Hc|]. apply Z.div_le_mono; [done|]. apply Z.mul_le_mono_nonneg; try lia.
  apply Z.div_le_mono; [done|]. destruct Ht. unfold fits in *. nia.
Qed.

(** An entry made now owes nothing to the past. *)
Lemma entry_ok_new yf g y v :
  yield_typed yf → fits u128 v →
  entry_ok yf (YieldFarmEntry.new g y v (YieldFarmData.accumulated_rpvs yf) (YieldFarmData.updated_at yf)
    (YieldFarmData.total_stopped yf)).
Proof.
  intros [] Hv. constructor; simpl; [by constructor|lia|lia|unfold entry_periods; simpl; lia|].
  unfold entry_claimable, entry_max. simpl. rewrite Z.sub_diag, Z.mul_0_l. by rewrite Z.mul_0_r.
Qed.
End claims.

(** ** Sums over entries and over farms *)

Section sums.
Context {AccountId AmmPoolId : Type} `{Countable AmmPoolId}.
Implicit Types (d : DepositData.t AmmPoolId) (e : YieldFarmEntry.t) (k : AmmPoolId * Z * Z)
  (D : gmap Z (DepositData.t AmmPoolId)) (YF : gmap (AmmPoolId * Z * Z) YieldFarmData.t).

(** The yield farm an entry belongs to. *)
Definition entry_key d e : AmmPoolId * Z * Z :=
  (DepositData.amm_pool_id d, YieldFarmEntry.global_farm_id e, YieldFarmEntry.yield_farm_id e).

(** The sum of [f] over the entries of one deposit, and of all deposits, in one yield farm. *)
Definition deposit_sum (f : DepositData.t AmmPoolId → YieldFarmEntry.t → Z) k d : Z :=
  sum_list_with_Z (λ e, if decide (entry_key d e = k) then f d e else 0) (DepositData.yield_farm_entries d).
Definition entry_sum (f : DepositData.t AmmPoolId → YieldFarmEntry.t → Z) k D : Z :=
  sum_kmap (λ _ d, deposit_sum f k d) D.

Definition one_each : DepositData.t AmmPoolId → YieldFarmEntry.t → Z := λ _ _, 1.
Definition shares_each : DepositData.t AmmPoolId → YieldFarmEntry.t → Z := λ d _, DepositData.shares d.
Definition valued_each : DepositData.t AmmPoolId → YieldFarmEntry.t → Z := λ _ e, YieldFarmEntry.valued_shares e.
Definition owed_each (rpvs : Z) : DepositData.t AmmPoolId → YieldFarmEntry.t → Z := λ _ e, entry_owed rpvs e.

Lemma entry_sum_alter f k D i o :
  entry_sum f k (partial_alter (λ _, o) i D)
  = entry_sum f k D - from_option (deposit_sum f k) 0 (D !! i) + from_option (deposit_sum f k) 0 o.
Proof. unfold entry_sum. by rewrite sum_kmap_alter. Qed.

(** A rise of the reward per share is owed to every share. *)
Lemma entry_sum_owed k D r r' :
  entry_sum (owed_each r') k D = entry_sum (owed_each r) k D + (r' - r) * entry_sum valued_each k D.
Proof.
  unfold entry_sum. rewrite <- sum_kmap_scale, <- sum_kmap_add. apply sum_kmap_ext. intros _ d _.
  unfold deposit_sum. induction (DepositData.yield_farm_entries d) as [|e l IH]; simpl; [lia|].
  rewrite IH. case_decide; unfold owed_each, valued_each, entry_owed; lia.
Qed.

Lemma deposit_sum_nonneg f k d :
  (∀ e, e ∈ DepositData.yield_farm_entries d → entry_key d e = k → 0 <= f d e) → 0 <= deposit_sum f k d.
Proof. intros Hf. apply sum_list_with_Z_nonneg. intros e He. case_decide; [by apply Hf|done]. Qed.

(** An entry is part of the sum over its yield farm. *)
Lemma entry_sum_elem f k D i d e :
  (∀ i d e, D !! i = Some d → e ∈ DepositData.yield_farm_entries d → entry_key d e = k → 0 <= f d e) →
  D !! i = Some d → e ∈ DepositData.yield_farm_entries d → entry_key d e = k → f d e <= entry_sum f k D.
Proof.
  intros Hf Hi He Hk. transitivity (deposit_sum f k d).
  - pose proof (sum_list_with_Z_elem (λ e, if decide (entry_key d e = k) then f d e else 0)
      (DepositData.yield_farm_entries d) e) as Hle. cbv beta in Hle. rewrite decide_True in Hle by done.
    apply Hle; [|done]. intros e' He'. case_decide; [by eapply Hf|done].
  - apply (sum_kmap_term (λ _ d, deposit_sum f k d) D i d); [|done].
    intros j d' Hj. apply deposit_sum_nonneg. intros e' He'. by eapply Hf.
Qed.

Lemma entry_sum_one_nonneg k D : 0 <= entry_sum one_each k D.
Proof. apply sum_kmap_nonneg. intros i d _. by apply deposit_sum_nonneg. Qed.

(** The sum of [f] over the yield farms of one global farm. *)
Definition farm_sum (f : YieldFarmData.t → Z) (g : Z) YF : Z :=
  sum_kmap (λ k yf, if decide (k.1.2 = g) then f yf else 0) YF.

Definition is_live (yf : YieldFarmData.t) : Z :=
  if FarmState.is_terminated (YieldFarmData.state yf) then 0 else 1.
Definition one_farm : YieldFarmData.t → Z := λ _, 1.

Lemma farm_sum_alter f g p y YF o :
  farm_sum f g (partial_alter (λ _, o) (p, g, y) YF)
  = farm_sum f g YF - from_option f 0 (YF !! (p, g, y)) + from_option f 0 o.
Proof.
  unfold farm_sum. rewrite sum_kmap_alter. destruct (YF !! (p, g, y)), o; simpl; by rewrite ?decide_True by done.
Qed.
Lemma farm_sum_alter_ne f g g' p y YF o :
  g' ≠ g → farm_sum f g' (partial_alter (λ _, o) (p, g, y) YF) = farm_sum f g' YF.
Proof.
  intros. unfold farm_sum. rewrite sum_kmap_alter.
  destruct (YF !! (p, g, y)), o; simpl; rewrite ?decide_False by done; lia.
Qed.
Lemma farm_sum_none f g YF : (∀ p y, YF !! (p, g, y) = None) → farm_sum f g YF = 0.
Proof.
  intros Hn. apply sum_kmap_zero. intros [[p g'] y] yf Hk. simpl. case_decide; [|done]. subst.
  by rewrite Hn in Hk.
Qed.
Lemma farm_sum_elem f g YF p y yf :
  (∀ p y yf, YF !! (p, g, y) = Some yf → 0 <= f yf) → YF !! (p, g, y) = Some yf → f yf <= farm_sum f g YF.
Proof.
  intros Hf Hy. pose proof (sum_kmap_term (λ k yf, if decide (k.1.2 = g) then f yf else 0) YF (p, g, y) yf) as Hle.
  cbv beta in Hle. simpl in Hle. rewrite decide_True in Hle by done. apply Hle; [|done].
  intros [[p' g'] y'] v Hv. simpl. case_decide; [|done]. subst. by eapply Hf.
Qed.
Lemma farm_sum_nonneg f g YF : (∀ p y yf, YF !! (p, g, y) = Some yf → 0 <= f yf) → 0 <= farm_sum f g YF.
Proof.
  intros Hf. apply sum_kmap_nonneg. intros [[p g'] y] yf Hk. simpl. case_decide; [|done]. subst. by eapply Hf.
Qed.

(** The rewards promised in one currency and not yet paid out: those a global farm
    has not divided yet, and those its yield farms have not distributed. *)
Definition farm_held (c : AssetId) YF (g : Z) (gf : GlobalFarmData.t AccountId) : Z :=
  when (GlobalFarmData.reward_currency gf = c)
    (GlobalFarmData.pending_rewards gf + farm_sum YieldFarmData.left_to_distribute g YF).
Definition held (c : AssetId) (GF : gmap Z (GlobalFarmData.t AccountId)) YF : Z := sum_kmap (farm_held c YF) GF.

Lemma held_alter c GF YF g p y ogf oyf :
  held c (partial_alter (λ _, ogf) g GF) (partial_alter (λ _, oyf) (p, g, y) YF)
  = held c GF YF - from_option (farm_held c YF g) 0 (GF !! g)
    + from_option (farm_held c (partial_alter (λ _, oyf) (p, g, y) YF) g) 0 ogf.
Proof.
  unfold held. rewrite sum_kmap_alter. set (YF' := partial_alter (λ _, oyf) (p, g, y) YF).
  assert (sum_kmap (farm_held c YF') (delete g GF) = sum_kmap (farm_held c YF) (delete g GF)) as E.
  { apply sum_kmap_ext. intros g' gf [Hne _]%lookup_delete_Some. unfold farm_held, YF'.
    by rewrite farm_sum_alter_ne. }
  pose proof (sum_kmap_alter (farm_held c YF') GF g None) as E1.
  pose proof (sum_kmap_alter (farm_held c YF) GF g None) as E2.
  change (partial_alter (λ _, None) g GF) with (delete g GF) in E1, E2. simpl in *. lia.
Qed.
End sums.

(** ** The invariant *)

(** What the pallet relies on of its configuration: the account of the pot is no
    farm's account, block numbers are [u32] and no ledger operation changes them,
    the whitelist of the duster is not the ledger. *)
Class LmConfigLaws {X AccountId} `{MultiCurrency X AccountId} (T : LmConfig X AccountId) : Prop := {
  lm_farm_not_pot id a pot : id ≠ 0 → sub_account T id = Some a → pot_account_id T = Some pot → a ≠ pot;
  lm_block_fits x : fits u32 (current_block_number T x);
  lm_transfer_block c f t amount er x x' :
    transfer c f t amount er x = Ok x' → current_block_number T x' = current_block_number T x;
  lm_whitelist_add a x x' : whitelist_add_account T a x = Ok x' →
    same_ledger (AccountId := AccountId) x x' ∧ current_block_number T x' = current_block_number T x;
  lm_whitelist_remove a x x' : whitelist_remove_account T a x = Ok x' →
    same_ledger (AccountId := AccountId) x x' ∧ current_block_number T x' = current_block_number T x;
  lm_registry_get_nonneg c x : 0 <= registry_get T c x;
  lm_price_fits gf x v : get_price_adjustment T gf x = Ok v → fits u128 v;
}.

Section books.
Context {X AccountId AmmPoolId : Type} `{EqDecision AccountId} `{Countable AmmPoolId} `{!Inhabited AmmPoolId}.
Context `{SpArithmeticLaws}.
Context `{!MultiCurrency X AccountId} `{!MultiCurrencyLaws X AccountId}.
Context (T : LmConfig X AccountId) `{!LmConfigLaws T}.

Notation lm := (lm X AccountId AmmPoolId).
Implicit Types (s : lm) (gf : GlobalFarmData.t AccountId) (yf : YieldFarmData.t) (d : DepositData.t AmmPoolId)
  (e : YieldFarmEntry.t) (k : AmmPoolId * Z * Z) (D : gmap Z (DepositData.t AmmPoolId))
  (YF : gmap (AmmPoolId * Z * Z) YieldFarmData.t) (p : AmmPoolId) (g y i : Z).

Definition lm_block s : Z := current_block_number T (lm_ext s).

Record global_ok (block seq : Z) YF g gf : Prop := {
  go_typed : global_typed gf;
  go_id : GlobalFarmData.id gf = g;
  go_seq : 0 < g <= seq;
  go_updated : GlobalFarmData.updated_at gf <= block / GlobalFarmData.blocks_per_period gf;
  go_live : GlobalFarmData.live_yield_farms_count gf = farm_sum is_live g YF;
  go_total : GlobalFarmData.total_yield_farms_count gf = farm_sum one_farm g YF;
  go_paid : farm_sum YieldFarmData.left_to_distribute g YF <= GlobalFarmData.accumulated_paid_rewards gf;
}.

Record yield_ok (block seq : Z) D k gf yf : Prop := {
  yo_typed : yield_typed yf;
  yo_id : YieldFarmData.id yf = k.2;
  yo_seq : 0 < k.2 <= seq;
  yo_rpz : YieldFarmData.accumulated_rpz yf <= GlobalFarmData.accumulated_rpz gf;
  yo_updated : YieldFarmData.updated_at yf <= block / GlobalFarmData.blocks_per_period gf;
  yo_live : YieldFarmData.state yf ≠ FarmState.Terminated → GlobalFarmData.state gf = FarmState.Active;
  yo_entries : YieldFarmData.entries_count yf = entry_sum one_each k D;
  yo_shares : YieldFarmData.total_shares yf = entry_sum shares_each k D;
  yo_valued : YieldFarmData.total_valued_shares yf = entry_sum valued_each k D;
  yo_terminated : YieldFarmData.state yf = FarmState.Terminated → YieldFarmData.left_to_distribute yf = 0;
  yo_owed : YieldFarmData.state yf ≠ FarmState.Terminated →
    entry_sum (owed_each (YieldFarmData.accumulated_rpvs yf)) k D <= YieldFarmData.left_to_distribute yf * DIV;
}.

Record deposit_ok (seq : Z) YF i d : Prop := {
  do_seq : 0 < i <= seq;
  do_shares : fits u128 (DepositData.shares d);
  do_nodup : NoDup (YieldFarmEntry.yield_farm_id <$> DepositData.yield_farm_entries d);
  do_entries e : e ∈ DepositData.yield_farm_entries d → ∃ yf, YF !! entry_key d e = Some yf ∧ entry_ok yf e;
}.

Definition active_ok YF (AF : gmap (AmmPoolId * Z) Z) : Prop :=
  ∀ p g y, AF !! (p, g) = Some y ↔ ∃ yf, YF !! (p, g, y) = Some yf ∧ YieldFarmData.state yf = FarmState.Active.

(** The pot holds every reward that is promised. *)
Definition pot_covers s : Prop :=
  ∀ c pot, pot_account_id T = Some pot → held c (GlobalFarm s) (YieldFarm s) <= free_balance c pot (lm_ext s).

Record lm_inv s : Prop := {
  inv_farm_seq : fits u32 (FarmSequencer s);
  inv_deposit_seq : fits u128 (DepositSequencer s);
  inv_global g gf :
    GlobalFarm s !! g = Some gf → global_ok (lm_block s) (FarmSequencer s) (YieldFarm s) g gf;
  inv_yield k yf : YieldFarm s !! k = Some yf →
    ∃ gf, GlobalFarm s !! k.1.2 = Some gf ∧ yield_ok (lm_block s) (FarmSequencer s) (Deposit s) k gf yf;
  inv_deposit i d : Deposit s !! i = Some d → deposit_ok (DepositSequencer s) (YieldFarm s) i d;
  inv_active : active_ok (YieldFarm s) (ActiveYieldFarm s);
  inv_pot : pot_covers s;
}.

(** How a global farm may change under the yield farms it already has. *)
Record global_grows gf gf' : Prop := {
  gg_rpz : GlobalFarmData.accumulated_rpz gf <= GlobalFarmData.accumulated_rpz gf';
  gg_blocks : GlobalFarmData.blocks_per_period gf' = GlobalFarmData.blocks_per_period gf;
  gg_state : GlobalFarmData.state gf = FarmState.Active → GlobalFarmData.state gf' = FarmState.Active;
}.

#[local] Instance global_grows_preorder : PreOrder global_grows.
Proof. split; [by constructor|]. intros ? ? ? [] []. constructor; [lia|congruence|auto]. Qed.

Lemma lm_block_mono gf b b' x :
  global_typed gf → b <= b' → x <= b / GlobalFarmData.blocks_per_period gf →
  x <= b' / GlobalFarmData.blocks_per_period gf.
Proof. intros [] ? ?. etransitivity; [done|]. by apply Z.div_le_mono. Qed.

(** Consequences of the invariant at one yield farm. *)
Lemma inv_owed_nonneg s k i d e yf :
  lm_inv s → YieldFarm s !! k = Some yf → Deposit s !! i = Some d → e ∈ DepositData.yield_farm_entries d →
  entry_key d e = k → 0 <= entry_owed (YieldFarmData.accumulated_rpvs yf) e.
Proof.
  intros I Hy Hd He <-. destruct (inv_yield s I _ _ Hy) as (gf & _ & Yo).
  destruct (inv_deposit s I _ _ Hd) as [_ _ _ Hes]. destruct (Hes e He) as (yf' & Hy' & Ho).
  simplify_eq. apply entry_owed_nonneg; [by eapply yo_typed|done].
Qed.

(** One global farm, one of its yield farms, one deposit and the active farm of one
    pool change together. *)
Section change.
Context (s s' : lm) (g : Z) (p : AmmPoolId) (y i : Z).
Context (ogf : option (GlobalFarmData.t AccountId)) (oyf : option YieldFarmData.t)
  (od : option (DepositData.t AmmPoolId)) (oa : option Z).

Notation k := (p, g, y).

Record changes : Prop := {
  ch_farm_seq : FarmSequencer s <= FarmSequencer s' ∧ fits u32 (FarmSequencer s');
  ch_deposit_seq : DepositSequencer s <= DepositSequencer s' ∧ fits u128 (DepositSequencer s');
  ch_block : lm_block s <= lm_block s';
  ch_GF : GlobalFarm s' = partial_alter (λ _, ogf) g (GlobalFarm s);
  ch_YF : YieldFarm s' = partial_alter (λ _, oyf) k (YieldFarm s);
  ch_D : Deposit s' = partial_alter (λ _, od) i (Deposit s);
  ch_AF : ActiveYieldFarm s' = partial_alter (λ _, oa) (p, g) (ActiveYieldFarm s);
  (** The global farm counts the change of the yield farm. *)
  ch_global gf' : ogf = Some gf' → global_ok (lm_block s') (FarmSequencer s') (YieldFarm s') g gf';
  ch_global_gone : ogf = None → farm_sum one_farm g (YieldFarm s') = 0;
  (** The other yield farms of the global farm stay in order. *)
  ch_global_grows gf gf' p' y' yf : GlobalFarm s !! g = Some gf → ogf = Some gf' →
    YieldFarm s !! (p', g, y') = Some yf → (p', g, y') ≠ k →
    GlobalFarmData.accumulated_rpz gf <= GlobalFarmData.accumulated_rpz gf' ∧
    GlobalFarmData.blocks_per_period gf' = GlobalFarmData.blocks_per_period gf ∧
    (YieldFarmData.state yf ≠ FarmState.Terminated → GlobalFarmData.state gf' = FarmState.Active);
  ch_yield yf' : oyf = Some yf' → ∃ gf', ogf = Some gf' ∧
    yield_ok (lm_block s') (FarmSequencer s') (Deposit s') k gf' yf';
  ch_yield_gone : oyf = None → entry_sum one_each k (Deposit s') = 0;
  ch_yield_grows yf yf' : YieldFarm s !! k = Some yf → oyf = Some yf' → yield_grows yf yf';
  (** The entries in other yield farms are the old ones. *)
  ch_deposit d' : od = Some d' → 0 < i <= DepositSequencer s' ∧ fits u128 (DepositData.shares d') ∧
    NoDup (YieldFarmEntry.yield_farm_id <$> DepositData.yield_farm_entries d') ∧
    ∀ e, e ∈ DepositData.yield_farm_entries d' →
      if decide (entry_key d' e = k) then ∃ yf', oyf = Some yf' ∧ entry_ok yf' e
      else ∃ d, Deposit s !! i = Some d ∧ entry_key d e = entry_key d' e ∧ e ∈ DepositData.yield_farm_entries d;
  ch_entries f k' : (f = one_each ∨ f = shares_each ∨ f = valued_each ∨ ∃ r, f = owed_each r) → k' ≠ k →
    from_option (deposit_sum f k') 0 od = from_option (deposit_sum f k') 0 (Deposit s !! i);
  ch_active y' : oa = Some y' ↔
    ∃ yf, YieldFarm s' !! (p, g, y') = Some yf ∧ YieldFarmData.state yf = FarmState.Active;
  ch_pot : pot_covers s';
}.

Hypothesis I : lm_inv s.
Hypothesis C : changes.

Lemma change_entry_sum f k' :
  (f = one_each ∨ f = shares_each ∨ f = valued_each ∨ ∃ r, f = owed_each r) → k' ≠ k →
  entry_sum f k' (Deposit s') = entry_sum f k' (Deposit s).
Proof. intros Hf Hne. rewrite (ch_D C), entry_sum_alter, (ch_entries C f k') by done. lia. Qed.

Lemma change_global g' gf' :
  GlobalFarm s' !! g' = Some gf' → global_ok (lm_block s') (FarmSequencer s') (YieldFarm s') g' gf'.
Proof.
  rewrite (ch_GF C). destruct (decide (g' = g)) as [->|Hne].
  - rewrite lookup_partial_alter_eq. apply (ch_global C).
  - rewrite lookup_partial_alter_ne by done. intros Hg. destruct (inv_global s I g' gf' Hg).
    pose proof (proj1 (ch_farm_seq C)). pose proof (ch_block C).
    constructor; [done|done|lia|by eapply lm_block_mono|..];
      rewrite (ch_YF C), farm_sum_alter_ne by done; done.
Qed.

Lemma change_yield k' yf' : YieldFarm s' !! k' = Some yf' →
  ∃ gf', GlobalFarm s' !! k'.1.2 = Some gf' ∧ yield_ok (lm_block s') (FarmSequencer s') (Deposit s') k' gf' yf'.
Proof.
  destruct (decide (k' = k)) as [->|Hne].
  - rewrite (ch_YF C), lookup_partial_alter_eq. intros Hy. destruct (ch_yield C yf' Hy) as (gf' & Hgf & Ho).
    exists gf'. simpl. by rewrite (ch_GF C), lookup_partial_alter_eq.
  - intros Hy'. pose proof Hy' as Hy. rewrite (ch_YF C), lookup_partial_alter_ne in Hy by done.
    destruct (inv_yield s I k' yf' Hy) as (gf & Hgf & Ho).
    assert (∃ gf', GlobalFarm s' !! k'.1.2 = Some gf' ∧
      GlobalFarmData.accumulated_rpz gf <= GlobalFarmData.accumulated_rpz gf' ∧
      GlobalFarmData.blocks_per_period gf' = GlobalFarmData.blocks_per_period gf ∧
      (YieldFarmData.state yf' ≠ FarmState.Terminated → GlobalFarmData.state gf' = FarmState.Active))
      as (gf' & Hgf' & Hr & Hb & Hs).
    { destruct k' as [[p' g'] y']. simpl in *. destruct (decide (g' = g)) as [->|Hg].
      - rewrite (ch_GF C), lookup_partial_alter_eq. destruct ogf as [gf'|] eqn:E.
        + exists gf'. split; [done|]. by eapply (ch_global_grows C).
        + pose proof (ch_global_gone C E) as Hz.
          pose proof (farm_sum_elem one_farm g (YieldFarm s') p' y' yf') as Hle. unfold one_farm at 2 in Hle.
          exfalso. apply (Z.nle_succ_diag_l 0). rewrite <- Hz at 2. by apply Hle.
      - exists gf. rewrite (ch_GF C), lookup_partial_alter_ne by done.
        split_and!; [done..|]. apply Ho. }
    exists gf'. split; [done|]. pose proof (inv_global s I _ _ Hgf) as Hg.
    pose proof (proj1 (ch_farm_seq C)). pose proof (ch_block C).
    destruct Ho. constructor; rewrite ?Hb, ?change_entry_sum by eauto; try done; try lia.
    eapply lm_block_mono; [by eapply go_typed|done..].
Qed.

Lemma change_entry_ok e k' :
  k' ≠ k ∨ is_Some oyf →
  (∃ yf, YieldFarm s !! k' = Some yf ∧ entry_ok yf e) → ∃ yf, YieldFarm s' !! k' = Some yf ∧ entry_ok yf e.
Proof.
  intros Hk (yf & Hy & Ho). rewrite (ch_YF C). destruct (decide (k' = k)) as [->|Hne].
  - destruct Hk as [?|[yf' E]]; [done|]. exists yf'. rewrite lookup_partial_alter_eq. split; [done|].
    destruct (ch_yield C yf' E) as (? & _ & Yo'). destruct (inv_yield s I _ _ Hy) as (? & _ & Yo).
    eapply entry_ok_grows; [by eapply yo_typed|by eapply yo_typed|by eapply (ch_yield_grows C)|done].
  - exists yf. by rewrite lookup_partial_alter_ne.
Qed.

Lemma change_deposit j d' : Deposit s' !! j = Some d' → deposit_ok (DepositSequencer s') (YieldFarm s') j d'.
Proof.
  intros Hd'. pose proof Hd' as Hd. rewrite (ch_D C) in Hd. destruct (decide (j = i)) as [->|Hne].
  - rewrite lookup_partial_alter_eq in Hd. destruct (ch_deposit C d' Hd) as (Hi & Hs & Hn & He).
    constructor; [done..|]. intros e Hin. specialize (He e Hin). case_decide as Hk.
    + destruct He as (yf' & E & Ho). exists yf'. by rewrite (ch_YF C), Hk, lookup_partial_alter_eq.
    + destruct He as (d & E & Ek & Hin'). rewrite <- Ek in *. apply change_entry_ok; [by left|].
      by apply (inv_deposit s I i d E).
  - rewrite lookup_partial_alter_ne in Hd by done. destruct (inv_deposit s I j d' Hd) as [? ? ? He].
    pose proof (proj1 (ch_deposit_seq C)). constructor; [lia|done..|]. intros e Hin. apply change_entry_ok; [|by apply He].
    destruct oyf as [yf'|] eqn:E; [by right|left]. intros Hk.
    pose proof (ch_yield_gone C E) as Hz.
    pose proof (entry_sum_elem one_each k (Deposit s') j d' e) as Hle. unfold one_each at 1 2 in Hle.
    rewrite Hz in Hle. specialize (Hle ltac:(done) Hd' Hin Hk). lia.
Qed.

Lemma change_active : active_ok (YieldFarm s') (ActiveYieldFarm s').
Proof.
  intros p' g' y'. rewrite (ch_AF C). destruct (decide ((p', g') = (p, g))) as [E|Hne].
  - simplify_eq. rewrite lookup_partial_alter_eq. apply (ch_active C).
  - rewrite lookup_partial_alter_ne by done. rewrite (ch_YF C), lookup_partial_alter_ne by naive_solver.
    apply (inv_active s I).
Qed.

Lemma inv_change : lm_inv s'.
Proof.
  constructor; [apply (ch_farm_seq C)|apply (ch_deposit_seq C)|apply change_global|apply change_yield
    |apply change_deposit|apply change_active|apply (ch_pot C)].
Qed.
End change.

(** *** Changes of the farms alone *)

Lemma no_deposit_zero s : lm_inv s → Deposit s !! 0 = None.
Proof.
  intros I. destruct (Deposit s !! 0) as [d|] eqn:E; [|done]. destruct (inv_deposit s I 0 d E). lia.
Qed.
Lemma no_yield_farm_zero s p g : lm_inv s → YieldFarm s !! (p, g, 0) = None.
Proof.
  intros I. destruct (YieldFarm s !! (p, g, 0)) as [yf|] eqn:E; [|done].
  destruct (inv_yield s I _ _ E) as (gf & _ & []). simpl in *. lia.
Qed.
Lemma entry_sum_no_farm s f k : lm_inv s → YieldFarm s !! k = None → entry_sum f k (Deposit s) = 0.
Proof.
  intros I Hk. apply sum_kmap_zero. intros i d Hd. unfold deposit_sum.
  erewrite sum_list_with_Z_ext; [apply sum_list_with_Z_zero|]. intros e He. simpl. case_decide as E; [|done].
  destruct (do_entries _ _ _ _ (inv_deposit s I i d Hd) e He) as (yf & Hy & _). congruence.
Qed.
Lemma farm_sum_no_global s f g : lm_inv s → GlobalFarm s !! g = None → farm_sum f g (YieldFarm s) = 0.
Proof.
  intros I Hg. apply farm_sum_none. intros p y. destruct (YieldFarm s !! (p, g, y)) as [yf|] eqn:E; [|done].
  destruct (inv_yield s I _ _ E) as (gf & Hgf & _). simpl in Hgf. congruence.
Qed.

(** Storage that only differs in the farms. *)
Record farms_only s s' : Prop := {
  fo_deposit_seq : DepositSequencer s' = DepositSequencer s;
  fo_deposits : Deposit s' = Deposit s;
  fo_farm_seq : FarmSequencer s <= FarmSequencer s' ∧ fits u32 (FarmSequencer s');
  fo_block : lm_block s <= lm_block s';
}.

Section farms.
Context (s s' : lm) (g : Z) (p : AmmPoolId) (y : Z).
Context (ogf : option (GlobalFarmData.t AccountId)) (oyf : option YieldFarmData.t) (oa : option Z).

Lemma inv_change_farms :
  lm_inv s → farms_only s s' →
  GlobalFarm s' = partial_alter (λ _, ogf) g (GlobalFarm s) →
  YieldFarm s' = partial_alter (λ _, oyf) (p, g, y) (YieldFarm s) →
  ActiveYieldFarm s' = partial_alter (λ _, oa) (p, g) (ActiveYieldFarm s) →
  (∀ gf', ogf = Some gf' → global_ok (lm_block s') (FarmSequencer s') (YieldFarm s') g gf') →
  (ogf = None → farm_sum one_farm g (YieldFarm s') = 0) →
  (∀ gf gf' p' y' yf, GlobalFarm s !! g = Some gf → ogf = Some gf' →
    YieldFarm s !! (p', g, y') = Some yf → (p', g, y') ≠ (p, g, y) →
    GlobalFarmData.accumulated_rpz gf <= GlobalFarmData.accumulated_rpz gf' ∧
    GlobalFarmData.blocks_per_period gf' = GlobalFarmData.blocks_per_period gf ∧
    (YieldFarmData.state yf ≠ FarmState.Terminated → GlobalFarmData.state gf' = FarmState.Active)) →
  (∀ yf', oyf = Some yf' → ∃ gf', ogf = Some gf' ∧
    yield_ok (lm_block s') (FarmSequencer s') (Deposit s) (p, g, y) gf' yf') →
  (oyf = None → entry_sum one_each (p, g, y) (Deposit s) = 0) →
  (∀ yf yf', YieldFarm s !! (p, g, y) = Some yf → oyf = Some yf' → yield_grows yf yf') →
  (∀ y', oa = Some y' ↔
    ∃ yf, YieldFarm s' !! (p, g, y') = Some yf ∧ YieldFarmData.state yf = FarmState.Active) →
  pot_covers s' → lm_inv s'.
Proof.
  intros I [Fd Fds Ff Fb] EG EY EA Hg Hgone Hgr Hy Hygone Hyg Ha Hpot.
  pose proof (no_deposit_zero s I) as Hz.
  apply (inv_change s s' g p y 0 ogf oyf None oa); [done|].
  constructor; rewrite ?Fds; try done.
  - rewrite Fd. split; [done|]. apply (inv_deposit_seq s I).
  - change (partial_alter (λ _, None) 0 (Deposit s)) with (delete 0 (Deposit s)). by rewrite delete_id.
  - by rewrite Hz.
Qed.
End farms.

(** One global farm changes; its yield farms stay. *)
Lemma inv_change_global s s' g gf gf' :
  lm_inv s → farms_only s s' → GlobalFarm s !! g = Some gf →
  GlobalFarm s' = <[g := gf']> (GlobalFarm s) → YieldFarm s' = YieldFarm s →
  ActiveYieldFarm s' = ActiveYieldFarm s →
  global_typed gf' → GlobalFarmData.id gf' = GlobalFarmData.id gf →
  GlobalFarmData.updated_at gf' <= lm_block s' / GlobalFarmData.blocks_per_period gf' →
  GlobalFarmData.live_yield_farms_count gf' = GlobalFarmData.live_yield_farms_count gf →
  GlobalFarmData.total_yield_farms_count gf' = GlobalFarmData.total_yield_farms_count gf →
  GlobalFarmData.accumulated_paid_rewards gf <= GlobalFarmData.accumulated_paid_rewards gf' →
  global_grows gf gf' → pot_covers s' → lm_inv s'.
Proof.
  intros I F Hgf EG EY EA Ht Hid Hup Hlive Htot Hpaid Hgr Hpot.
  pose proof (inv_global s I g gf Hgf) as [? ? ? ? ? ? ?]. pose proof (proj1 (fo_farm_seq _ _ F)).
  set (p := inhabitant : AmmPoolId). pose proof (no_yield_farm_zero s p g I) as Hnone.
  apply (inv_change_farms s s' g p 0 (Some gf') None (ActiveYieldFarm s !! (p, g))); try done.
  - change (partial_alter (λ _, None) (p, g, 0) (YieldFarm s)) with (delete (p, g, 0) (YieldFarm s)).
    by rewrite delete_id.
  - by rewrite partial_alter_self.
  - intros ? [= <-]. constructor; rewrite ?EY; congruence || lia.
  - intros gf0 ? p' y' yf ? [= <-] Hy _. simplify_eq. destruct (inv_yield s I _ _ Hy) as (gf1 & Hgf1 & Ho).
    simpl in Hgf1. simplify_eq. split_and!; [apply Hgr..|]. intros Hs. by apply Hgr, Ho.
  - intros _. by apply entry_sum_no_farm.
  - intros y'. rewrite EY. apply (inv_active s I).
Qed.

(** *** Synchronising the farms

    The code works on copies of the farms; [with_global] and [with_yield] are the
    storage with the copies written back. *)

Definition with_global g gf s : lm := set_GlobalFarm (<[g := gf]> (GlobalFarm s)) s.
Definition with_yield k yf s : lm := set_YieldFarm (<[k := yf]> (YieldFarm s)) s.

Lemma with_global_id s g gf : GlobalFarm s !! g = Some gf → with_global g gf s = s.
Proof. intros. unfold with_global, set_GlobalFarm. rewrite insert_id by done. by destruct s. Qed.
Lemma with_yield_id s k yf : YieldFarm s !! k = Some yf → with_yield k yf s = s.
Proof. intros. unfold with_yield, set_YieldFarm. rewrite insert_id by done. by destruct s. Qed.

(** A step that leaves the storage alone. *)
Record same_storage s s' : Prop := {
  ss_farm_seq : FarmSequencer s' = FarmSequencer s;
  ss_deposit_seq : DepositSequencer s' = DepositSequencer s;
  ss_GF : GlobalFarm s' = GlobalFarm s;
  ss_YF : YieldFarm s' = YieldFarm s;
  ss_D : Deposit s' = Deposit s;
  ss_AF : ActiveYieldFarm s' = ActiveYieldFarm s;
  ss_block : lm_block s' = lm_block s;
}.

#[local] Instance same_storage_preorder : PreOrder same_storage.
Proof. split; [by constructor|]. intros ? ? ? [] []. constructor; congruence. Qed.

(** The global farm after [r] was paid into the pot. *)
Definition resynced (u rpz price : Z) (r : Balance) gf : GlobalFarmData.t AccountId :=
  GlobalFarmData.set_updated_at u
    (GlobalFarmData.set_pending_rewards (GlobalFarmData.pending_rewards gf + r)
      (GlobalFarmData.set_accumulated_rpz rpz (GlobalFarmData.set_price_adjustment price gf))).

(** What synchronising a global farm does: at most the reward of the periods since
    the last time moves from the account of the farm to the pot. *)
Record global_synced s gf (cp : Z) gf' (r : Balance) s' : Prop := {
  gs_storage : same_storage s s';
  gs_typed : global_typed gf';
  gs_farm : ∃ u rpz price, gf' = resynced u rpz price r gf;
  gs_active : GlobalFarmData.state gf = FarmState.Active → GlobalFarmData.updated_at gf' = cp;
  gs_updated : GlobalFarmData.updated_at gf' = cp ∨ GlobalFarmData.updated_at gf' = GlobalFarmData.updated_at gf;
  gs_rpz : GlobalFarmData.accumulated_rpz gf <= GlobalFarmData.accumulated_rpz gf';
  gs_reward : 0 <= r ∧ (r ≠ 0 → r <= GlobalFarmData.max_reward_per_period gf * (cp - GlobalFarmData.updated_at gf));
  gs_ledger : (r = 0 ∧ lm_ext s' = lm_ext s) ∨
    ∃ account pot, farm_account_id T (GlobalFarmData.id gf) = Ok account ∧ pot_account_id T = Some pot ∧
      transfer (GlobalFarmData.reward_currency gf) account pot r AllowDeath (lm_ext s) = Ok (lm_ext s') ∧
      r <= free_balance (GlobalFarmData.reward_currency gf) account (lm_ext s);
}.

Lemma resynced_id gf cp :
  GlobalFarmData.updated_at gf = cp →
  gf = resynced cp (GlobalFarmData.accumulated_rpz gf) (GlobalFarmData.price_adjustment gf) 0 gf.
Proof. intros <-. unfold resynced. rewrite Z.add_0_r. by destruct gf. Qed.

Lemma sync_global_synced s gf cp gf' r s' :
  global_typed gf → fits u32 cp → sync_global_farm T gf cp s = Ok ((gf', r), s') →
  global_synced s gf cp gf' r s'.
Proof.
  intros Ht Hcp Hr. unfold sync_global_farm in Hr.
  destruct (FarmState.is_active (GlobalFarmData.state gf)) eqn:Ea; simpl in Hr.
  2: { inv_run. apply bool_decide_eq_false_1 in Ea. constructor; try done; [|by right|by left].
       do 3 eexists. by apply resynced_id. }
  destruct (Z.eqb_spec (GlobalFarmData.updated_at gf) cp) as [Eu|Eu].
  { inv_run. constructor; try done; [|by right|by left]. do 3 eexists. by apply resynced_id. }
  destruct (Z.eqb_spec (GlobalFarmData.total_shares_z gf) 0) as [Ez|Ez].
  { inv_run. constructor; try done; [by destruct Ht; constructor| |by left|by left].
    exists cp, (GlobalFarmData.accumulated_rpz gf), (GlobalFarmData.price_adjustment gf).
    unfold resynced. rewrite Z.add_0_r. by destruct gf. }
  unfold or_overflow, defensive_or, lm_call in Hr. inv_pallet. rename x into account.
  match goal with E : farm_account_id _ _ = Ok _ |- _ => rename E into Eacc end.
  assert (∃ price, match get_price_adjustment T gf (lm_ext s) with
                   | Ok v => GlobalFarmData.set_price_adjustment v gf | Err _ => gf end
                   = GlobalFarmData.set_price_adjustment price gf ∧ fits u128 price) as (price & Egf & Hprice).
  { destruct (get_price_adjustment T gf (lm_ext s)) as [v|] eqn:E.
    - exists v. split; [done|]. by eapply lm_price_fits.
    - exists (GlobalFarmData.price_adjustment gf). split; [by destruct gf|apply Ht]. }
  rewrite Egf in *. simpl in *. clear Egf. destruct Ht as [? ? ? ? ? ? ? ? ? ? ?].
  match goal with E : calculate_global_farm_rewards _ _ _ _ _ = Ok ?r0 |- _ =>
    rewrite fixed_from_perquintill_spec in E by done;
    apply calculate_global_farm_rewards_Ok in E as (? & ? & _); [|done|done|unfold is_perquintill in *; lia|done|lia];
    set (left := saturating_sub _ _) in *; assert (0 <= left) by apply saturating_sub_nonneg;
    assert (left <= free_balance (GlobalFarmData.reward_currency gf) account (lm_ext s))
      by (pose proof (lm_registry_get_nonneg (T := T) (GlobalFarmData.reward_currency gf) (lm_ext s));
          pose proof (free_balance_fits (GlobalFarmData.reward_currency gf) account (lm_ext s));
          unfold left, saturating_sub, fits in *; lia) end.
  match goal with _ : context [Z.min ?r0 left] |- _ =>
    assert (fits u128 (Z.min r0 left) ∧ Z.min r0 left <= left ∧ Z.min r0 left <= r0) as (? & ? & ?)
      by (unfold fits in *; lia); generalize dependent (Z.min r0 left); intros reward end.
  intros. clearbody left. case_match; inv_pallet; inv_ext; unfold lm_deposit_event in *; inv_run; simpl in *.
  - match goal with E : calculate_accumulated_rps _ _ _ = Ok _ |- _ =>
      apply calculate_accumulated_rps_Ok in E as (? & ? & _); [|done..] end.
    match goal with E : transfer _ _ _ _ _ _ = Ok _ |- _ => pose proof (lm_transfer_block _ _ _ _ _ _ _ E) end.
    constructor; simpl; try done.
    + constructor; simpl; try done. unfold fits in *. lia.
    + by eexists _, _, _.
    + by left.
    + unfold fits in *. split; [lia|]. lia.
    + right. eexists _, _. split_and!; [done|done|done|lia].
  - constructor; simpl; try done.
    + exists cp, (GlobalFarmData.accumulated_rpz gf), price. unfold resynced. rewrite Z.add_0_r. by destruct gf.
    + by left.
    + by left.
Qed.

Lemma held_update_global c (GF : gmap Z (GlobalFarmData.t AccountId)) YF g gf gf' :
  GF !! g = Some gf → GlobalFarmData.reward_currency gf' = GlobalFarmData.reward_currency gf →
  held c (<[g := gf']> GF) YF = held c GF YF
    + when (GlobalFarmData.reward_currency gf = c)
        (GlobalFarmData.pending_rewards gf' - GlobalFarmData.pending_rewards gf).
Proof.
  intros Hg Hc. unfold held. rewrite (sum_kmap_update _ _ _ gf) by done. unfold farm_held. rewrite Hc.
  unfold when. case_decide; lia.
Qed.

(** The account of a farm is not the pot. *)
Lemma farm_account_not_pot id account pot :
  farm_account_id T id = Ok account → pot_account_id T = Some pot → account ≠ pot.
Proof.
  unfold farm_account_id, validate_farm_id. intros Ha Hp. case_match; inv_run. propify.
  by eapply lm_farm_not_pot.
Qed.

(** The pot gains what is transferred to it. *)
Lemma global_synced_pot s gf cp gf' r s' c pot :
  global_synced s gf cp gf' r s' → pot_account_id T = Some pot →
  free_balance c pot (lm_ext s') = free_balance c pot (lm_ext s)
    + when (GlobalFarmData.reward_currency gf = c) r.
Proof.
  intros [_ _ _ _ _ _ [Hr _] [[-> ->]|(account & pot' & Ha & Hp & Ht & _)]] Hpot.
  - unfold when. case_decide; lia.
  - simplify_eq. pose proof (farm_account_not_pot _ _ _ Ha Hp).
    apply transfer_moves in Ht as (_ & -> & _); [|done]. by_moves.
Qed.

Lemma current_period_fits s gf : global_typed gf → fits u32 (lm_block s / GlobalFarmData.blocks_per_period gf).
Proof. intros []. apply fits_div; [apply lm_block_fits|lia]. Qed.

Lemma sync_global_inv s g gf cp gf' r s' :
  lm_inv (with_global g gf s) → cp = lm_block s / GlobalFarmData.blocks_per_period gf →
  sync_global_farm T gf cp s = Ok ((gf', r), s') →
  global_synced s gf cp gf' r s' ∧ lm_inv (with_global g gf' s').
Proof.
  intros I -> Hs. assert (GlobalFarm (with_global g gf s) !! g = Some gf) as Hg by apply lookup_insert_eq.
  pose proof (inv_global _ I g gf Hg) as Go. pose proof (go_typed _ _ _ _ _ Go) as Ht.
  apply sync_global_synced in Hs as Sy; [|done|by apply current_period_fits]. split; [done|].
  pose proof (go_updated _ _ _ _ _ Go) as Hup. change (lm_block (with_global g gf s)) with (lm_block s) in Hup.
  destruct (gs_storage _ _ _ _ _ _ Sy) as [S1 S2 S3 S4 S5 S6 S7].
  destruct (gs_farm _ _ _ _ _ _ Sy) as (u & rpz & price & ->).
  apply (inv_change_global (with_global g gf s) _ g gf (resynced u rpz price r gf)); try done.
  - pose proof (inv_farm_seq _ I) as Hseq. simpl in Hseq.
    constructor; simpl; rewrite ?S1; try done. apply Z.eq_le_incl. exact (eq_sym S7).
  - simpl. by rewrite S3, insert_insert_eq.
  - apply (gs_typed _ _ _ _ _ _ Sy).
  - change (lm_block (with_global g _ s')) with (lm_block s'). rewrite S7.
    destruct (gs_updated _ _ _ _ _ _ Sy) as [->| ->]; done.
  - constructor; [apply (gs_rpz _ _ _ _ _ _ Sy)|done|done].
  - intros c pot Hpot. pose proof (inv_pot _ I c pot Hpot) as Hp. simpl in *.
    rewrite (global_synced_pot _ _ _ _ _ _ c pot Sy Hpot), S3, S4.
    rewrite <- (insert_insert_eq (GlobalFarm s) g _ gf).
    rewrite (held_update_global c _ _ g gf) by (done || apply lookup_insert_eq). simpl.
    unfold when in *. case_decide; lia.
Qed.

(** *** Synchronising a yield farm *)

(** What synchronising a yield farm does: its share of the pending rewards becomes
    its own, and every valued share is owed its part of them. *)
Record yield_synced yf gf (cp : Z) yf' gf' : Prop := {
  ys_farms : ∃ r rpvs u rpz,
    yf' = YieldFarmData.set_left_to_distribute (YieldFarmData.left_to_distribute yf + r)
            (YieldFarmData.set_updated_at u (YieldFarmData.set_accumulated_rpvs rpvs
              (YieldFarmData.set_accumulated_rpz rpz yf))) ∧
    gf' = GlobalFarmData.set_pending_rewards (GlobalFarmData.pending_rewards gf - r)
            (GlobalFarmData.set_accumulated_paid_rewards (GlobalFarmData.accumulated_paid_rewards gf + r) gf) ∧
    0 <= r ∧ (rpvs - YieldFarmData.accumulated_rpvs yf) * YieldFarmData.total_valued_shares yf <= r * DIV ∧
    YieldFarmData.accumulated_rpvs yf <= rpvs ∧
    rpz <= GlobalFarmData.accumulated_rpz gf ∧
    (u = cp ∨ u = YieldFarmData.updated_at yf) ∧
    (YieldFarmData.state yf ≠ FarmState.Active → r = 0 ∧ u = YieldFarmData.updated_at yf);
  ys_typed : yield_typed yf' ∧ global_typed gf';
  ys_active : YieldFarmData.state yf = FarmState.Active → YieldFarmData.updated_at yf' = cp;
}.

Lemma yield_unsynced yf gf cp :
  yield_typed yf → global_typed gf → YieldFarmData.accumulated_rpz yf <= GlobalFarmData.accumulated_rpz gf →
  (YieldFarmData.state yf = FarmState.Active → YieldFarmData.updated_at yf = cp) → yield_synced yf gf cp yf gf.
Proof.
  intros Hy Hg Hr Hu. constructor; [|done..].
  exists 0, (YieldFarmData.accumulated_rpvs yf), (YieldFarmData.updated_at yf), (YieldFarmData.accumulated_rpz yf).
  rewrite !Z.add_0_r, Z.sub_0_r. split_and!; [by destruct yf|by destruct gf|lia..|by right|done].
Qed.

Lemma sync_yield_synced s yf gf cp yf' gf' s' :
  yield_typed yf → global_typed gf → fits u32 cp →
  YieldFarmData.accumulated_rpz yf <= GlobalFarmData.accumulated_rpz gf →
  sync_yield_farm yf gf cp s = Ok ((yf', gf'), s') →
  yield_synced yf gf cp yf' gf' ∧ same_storage s s' ∧ lm_ext s' = lm_ext s.
Proof.
  intros Hy Hg Hcp Hrpz Hr. unfold sync_yield_farm in Hr.
  destruct (FarmState.is_active (YieldFarmData.state yf)) eqn:Ea; simpl in Hr.
  2: { inv_run. apply bool_decide_eq_false_1 in Ea. by split; [apply yield_unsynced|]. }
  destruct (Z.eqb_spec (YieldFarmData.updated_at yf) cp) as [Eu|Eu].
  { inv_run. by split; [apply yield_unsynced|]. }
  destruct (Z.eqb_spec (YieldFarmData.total_valued_shares yf) 0) as [Ez|Ez].
  { inv_run. split; [|done]. constructor.
    - exists 0, (YieldFarmData.accumulated_rpvs yf), cp, (GlobalFarmData.accumulated_rpz gf).
      rewrite !Z.add_0_r, Z.sub_0_r, Ez. apply bool_decide_eq_true_1 in Ea.
      split_and!; [by destruct yf|by destruct gf|lia..|by left|done].
    - split; [|done]. destruct Hy, Hg. by constructor.
    - done. }
  unfold or_overflow, lm_deposit_event in Hr. inv_pallet. simpl in *. destruct Hy, Hg.
  match goal with E : calculate_yield_farm_rewards _ _ _ _ = Ok _ |- _ =>
    apply calculate_yield_farm_rewards_Ok in E as (? & ? & ? & ? & _); [|done..] end.
  split; [|done]. constructor; simpl; [|split|done].
  - apply bool_decide_eq_true_1 in Ea.
    eexists _, _, cp, _. split_and!; [done|done|unfold fits in *; lia..|by left|done].
  - constructor; simpl; try done; unfold fits in *; lia.
  - constructor; simpl; try done; unfold fits in *; lia.
Qed.

Lemma held_update_pair c (GF : gmap Z (GlobalFarmData.t AccountId)) YF g p y gf gf' yf oyf :
  GF !! g = Some gf → YF !! (p, g, y) = Some yf →
  GlobalFarmData.reward_currency gf' = GlobalFarmData.reward_currency gf →
  held c (<[g := gf']> GF) (partial_alter (λ _, oyf) (p, g, y) YF) = held c GF YF
    + when (GlobalFarmData.reward_currency gf = c)
        (GlobalFarmData.pending_rewards gf' - GlobalFarmData.pending_rewards gf
         + from_option YieldFarmData.left_to_distribute 0 oyf - YieldFarmData.left_to_distribute yf).
Proof.
  intros Hg Hy Hc. change (<[g := gf']> GF) with (partial_alter (λ _, Some gf') g GF).
  rewrite held_alter, Hg. simpl. unfold farm_held. rewrite farm_sum_alter, Hy, Hc. simpl.
  unfold when. case_decide; lia.
Qed.

Lemma held_insert_pair c (GF : gmap Z (GlobalFarmData.t AccountId)) YF g p y gf gf' yf yf' :
  GF !! g = Some gf → YF !! (p, g, y) = Some yf →
  GlobalFarmData.reward_currency gf' = GlobalFarmData.reward_currency gf →
  held c (<[g := gf']> GF) (<[(p, g, y) := yf']> YF) = held c GF YF
    + when (GlobalFarmData.reward_currency gf = c)
        (GlobalFarmData.pending_rewards gf' - GlobalFarmData.pending_rewards gf
         + YieldFarmData.left_to_distribute yf' - YieldFarmData.left_to_distribute yf).
Proof. apply (held_update_pair c GF YF g p y gf gf' yf (Some yf')). Qed.

(** A global farm and one of its yield farms change together. *)
Lemma inv_change_pair s s' g p y gf gf' yf yf' oa :
  lm_inv s → farms_only s s' → GlobalFarm s !! g = Some gf → YieldFarm s !! (p, g, y) = Some yf →
  GlobalFarm s' = <[g := gf']> (GlobalFarm s) → YieldFarm s' = <[(p, g, y) := yf']> (YieldFarm s) →
  ActiveYieldFarm s' = partial_alter (λ _, oa) (p, g) (ActiveYieldFarm s) →
  (** the global farm *)
  global_typed gf' → GlobalFarmData.id gf' = GlobalFarmData.id gf →
  GlobalFarmData.updated_at gf' <= lm_block s' / GlobalFarmData.blocks_per_period gf' →
  GlobalFarmData.live_yield_farms_count gf' = GlobalFarmData.live_yield_farms_count gf - is_live yf + is_live yf' →
  GlobalFarmData.total_yield_farms_count gf' = GlobalFarmData.total_yield_farms_count gf →
  GlobalFarmData.accumulated_paid_rewards gf - YieldFarmData.left_to_distribute yf
    + YieldFarmData.left_to_distribute yf' <= GlobalFarmData.accumulated_paid_rewards gf' →
  global_grows gf gf' →
  (** the yield farm *)
  yield_typed yf' → YieldFarmData.id yf' = YieldFarmData.id yf →
  YieldFarmData.accumulated_rpz yf' <= GlobalFarmData.accumulated_rpz gf' →
  YieldFarmData.updated_at yf' <= lm_block s' / GlobalFarmData.blocks_per_period gf' →
  YieldFarmData.entries_count yf' = YieldFarmData.entries_count yf →
  YieldFarmData.total_shares yf' = YieldFarmData.total_shares yf →
  YieldFarmData.total_valued_shares yf' = YieldFarmData.total_valued_shares yf →
  (YieldFarmData.state yf' = FarmState.Terminated → YieldFarmData.left_to_distribute yf' = 0) →
  (YieldFarmData.state yf' ≠ FarmState.Terminated → YieldFarmData.state yf ≠ FarmState.Terminated ∧
    (YieldFarmData.accumulated_rpvs yf' - YieldFarmData.accumulated_rpvs yf) * YieldFarmData.total_valued_shares yf
    <= (YieldFarmData.left_to_distribute yf' - YieldFarmData.left_to_distribute yf) * DIV) →
  yield_grows yf yf' →
  (** the active farm of the pool, and the pot *)
  (∀ y', oa = Some y' ↔
    ∃ v, YieldFarm s' !! (p, g, y') = Some v ∧ YieldFarmData.state v = FarmState.Active) →
  pot_covers s' → lm_inv s'.
Proof.
  intros I F Hg Hy EG EY EA Tg Ig Ug Lg Ng Pg Gg Ty Iy Ry Uy Cy Sy Vy Zy Oy Gy Ha Hpot.
  pose proof (inv_global s I g gf Hg) as [? ? ? ? ? ? ?]. pose proof (proj1 (fo_farm_seq _ _ F)).
  destruct (inv_yield s I _ _ Hy) as (gf0 & Hg0 & [? ? ? ? ? ? ? ? ? ? ?]). simpl in *. simplify_eq.
  assert (∀ f : YieldFarmData.t → Z, farm_sum f (GlobalFarmData.id gf) (YieldFarm s')
    = farm_sum f (GlobalFarmData.id gf) (YieldFarm s) - f yf + f yf') as Ef.
  { intros f. rewrite EY. change (<[?k := ?v]> ?m) with (partial_alter (λ _, Some v) k m).
    by rewrite farm_sum_alter, Hy. }
  eapply (inv_change_farms s s' _ p _ (Some gf') (Some yf') oa); try done.
  - intros ? [= <-]. constructor; rewrite ?Ef; try change (one_farm yf) with 1; try change (one_farm yf') with 1;
      congruence || lia.
  - intros gf0 ? p' y' v ? [= <-] Hv _. simplify_eq. destruct (inv_yield s I _ _ Hv) as (gf1 & Hgf1 & Ho).
    simpl in Hgf1. simplify_eq. split_and!; [apply Gg..|]. intros Hs. by apply Gg, Ho.
  - intros ? [= <-]. exists gf'. split; [done|]. constructor; simpl; try (congruence || lia || exact Zy).
    + intros Hs. apply Gg. destruct (Oy Hs). auto.
    + intros Hs. destruct (Oy Hs) as [Hs' Ho]. rewrite (entry_sum_owed _ _ (YieldFarmData.accumulated_rpvs yf)).
      specialize (yo_owed0 Hs'). nia.
  - intros ? ? ? [= <-]. by simplify_eq.
Qed.

(** The active farm of the pool when no farm starts or stops. *)
Lemma active_unchanged s g p y yf yf' y' :
  lm_inv s → YieldFarm s !! (p, g, y) = Some yf →
  (YieldFarmData.state yf' = FarmState.Active ↔ YieldFarmData.state yf = FarmState.Active) →
  ActiveYieldFarm s !! (p, g) = Some y' ↔
  ∃ v, <[(p, g, y) := yf']> (YieldFarm s) !! (p, g, y') = Some v ∧ YieldFarmData.state v = FarmState.Active.
Proof.
  intros I Hy Hs. rewrite (inv_active s I p g y'). destruct (decide (y' = y)) as [->|Hne].
  - rewrite Hy, lookup_insert_eq. naive_solver.
  - by rewrite lookup_insert_ne by naive_solver.
Qed.

Lemma sync_yield_inv s g p y gf yf cp yf' gf' s' :
  lm_inv (with_global g gf s) → YieldFarm s !! (p, g, y) = Some yf →
  cp = lm_block s / GlobalFarmData.blocks_per_period gf →
  sync_yield_farm yf gf cp s = Ok ((yf', gf'), s') →
  yield_synced yf gf cp yf' gf' ∧ same_storage s s' ∧ lm_ext s' = lm_ext s ∧
  lm_inv (with_global g gf' (with_yield (p, g, y) yf' s')).
Proof.
  intros I Hy -> Hs. assert (GlobalFarm (with_global g gf s) !! g = Some gf) as Hg by apply lookup_insert_eq.
  pose proof (inv_global _ I g gf Hg) as Go. pose proof (go_typed _ _ _ _ _ Go) as Ht.
  destruct (inv_yield _ I (p, g, y) yf Hy) as (gf0 & Hg0 & Yo). simpl in Hg0. rewrite lookup_insert_eq in Hg0.
  simplify_eq. change (lm_block (with_global g gf0 s)) with (lm_block s) in *.
  apply sync_yield_synced in Hs as (Sy & Ss & Ex); [|by eapply yo_typed|done|by apply current_period_fits|apply Yo].
  split_and!; [done..|]. destruct Ss as [S1 S2 S3 S4 S5 S6 S7].
  pose proof (inv_farm_seq _ I) as Hseq. simpl in Hseq.
  destruct Sy as [(r & rpvs & u & rpz & -> & -> & Hr & Hv & Hrpvs & Hrpz & Hu & Hn) [Ty Tg] _].
  assert (u <= lm_block s / GlobalFarmData.blocks_per_period gf0 ∧ YieldFarmData.updated_at yf <= u) as [Hu1 Hu2].
  { pose proof (yo_updated _ _ _ _ _ _ Yo). destruct Hu as [->| ->]; lia. }
  eapply (inv_change_pair (with_global g gf0 s) _ g p y gf0 _ yf _ (ActiveYieldFarm s !! (p, g))); try done; simpl.
  - constructor; simpl; rewrite ?S1; try done. apply Z.eq_le_incl. exact (eq_sym S7).
  - by rewrite S3, insert_insert_eq.
  - by rewrite S4.
  - by rewrite S6, partial_alter_self.
  - change (lm_block (with_global _ _ _)) with (lm_block s'). rewrite S7. apply Go.
  - unfold is_live. simpl. lia.
  - lia.
  - change (lm_block (with_global _ _ _)) with (lm_block s'). by rewrite S7.
  - intros E. destruct Hn as [-> _]; [congruence|]. rewrite (yo_terminated _ _ _ _ _ _ Yo E). lia.
  - intros E. split; [done|]. lia.
  - constructor; simpl; [done|lia|lia|done].
  - intros y'. rewrite S4. by apply (active_unchanged (with_global g gf0 s) g p y yf).
  - intros c pot Hpot. pose proof (inv_pot _ I c pot Hpot) as Hp. simpl in *. rewrite Ex, S3, S4.
    rewrite <- (insert_insert_eq (GlobalFarm s) g _ gf0).
    rewrite (held_insert_pair c _ _ g p y gf0 _ yf) by (done || apply lookup_insert_eq). simpl.
    unfold when in *. case_decide; lia.
Qed.

(** ** The operations keep the invariant *)

Lemma get_current_period_Ok b s cp s' :
  get_current_period T b s = Ok (cp, s') → s' = s ∧ cp = lm_block s / b.
Proof. unfold get_current_period, get_period_number. intros Hr. inv_run. done. Qed.

(** Synchronising the farms of the storage. *)
Lemma sync_stored_global s g gf b cp s1 gf' r s' :
  lm_inv s → GlobalFarm s !! g = Some gf → get_current_period T (GlobalFarmData.blocks_per_period gf) s = Ok (cp, s1) →
  b = GlobalFarmData.blocks_per_period gf → sync_global_farm T gf cp s1 = Ok ((gf', r), s') →
  cp = lm_block s / b ∧ global_synced s gf cp gf' r s' ∧ lm_inv (with_global g gf' s').
Proof.
  intros I Hg Hcp -> Hs. apply get_current_period_Ok in Hcp as [-> ->].
  rewrite <- (with_global_id s g gf Hg) in I. by apply (sync_global_inv s g) in Hs as [? ?].
Qed.

(** What [sync_global_farm] keeps of a farm. *)
Lemma synced_fields s gf cp gf' r s' :
  global_synced s gf cp gf' r s' →
  GlobalFarmData.blocks_per_period gf' = GlobalFarmData.blocks_per_period gf ∧
  GlobalFarmData.state gf' = GlobalFarmData.state gf ∧ GlobalFarmData.id gf' = GlobalFarmData.id gf ∧
  GlobalFarmData.reward_currency gf' = GlobalFarmData.reward_currency gf.
Proof. intros Sy. by destruct (gs_farm _ _ _ _ _ _ Sy) as (u & rpz & price & ->). Qed.

(** Both farms of a pool are synchronised. *)
Lemma sync_stored_farms s g p y gf yf cp s1 gf1 r s2 yf' gf' s' :
  lm_inv s → GlobalFarm s !! g = Some gf → YieldFarm s !! (p, g, y) = Some yf →
  get_current_period T (GlobalFarmData.blocks_per_period gf) s = Ok (cp, s1) →
  sync_global_farm T gf cp s1 = Ok ((gf1, r), s2) →
  sync_yield_farm yf gf1 cp s2 = Ok ((yf', gf'), s') →
  cp = lm_block s / GlobalFarmData.blocks_per_period gf ∧ same_storage s s' ∧
  global_synced s gf cp gf1 r s2 ∧ yield_synced yf gf1 cp yf' gf' ∧ lm_ext s' = lm_ext s2 ∧
  lm_inv (with_global g gf' (with_yield (p, g, y) yf' s')).
Proof.
  intros I Hg Hy Hcp Hs Hs'.
  destruct (sync_stored_global s g gf _ cp s1 gf1 r s2 I Hg Hcp eq_refl Hs) as (Ecp & Sy & I1).
  pose proof (gs_storage _ _ _ _ _ _ Sy) as Ss. destruct (synced_fields _ _ _ _ _ _ Sy) as (Eb & _).
  rewrite <- (ss_YF _ _ Ss) in Hy.
  apply (sync_yield_inv s2 g p y) in Hs' as (Sy' & Ss' & Ex & I2); [|done..|].
  - split_and!; [done|by etransitivity|done..].
  - by rewrite (ss_block _ _ Ss), Eb.
Qed.

(** Parameters of a global farm that are not part of its books. *)
Lemma inv_params s g gf gf' :
  lm_inv (with_global g gf s) → global_typed gf' →
  GlobalFarmData.id gf' = GlobalFarmData.id gf →
  GlobalFarmData.updated_at gf' = GlobalFarmData.updated_at gf →
  GlobalFarmData.accumulated_rpz gf' = GlobalFarmData.accumulated_rpz gf →
  GlobalFarmData.reward_currency gf' = GlobalFarmData.reward_currency gf →
  GlobalFarmData.pending_rewards gf' = GlobalFarmData.pending_rewards gf →
  GlobalFarmData.accumulated_paid_rewards gf' = GlobalFarmData.accumulated_paid_rewards gf →
  GlobalFarmData.blocks_per_period gf' = GlobalFarmData.blocks_per_period gf →
  GlobalFarmData.live_yield_farms_count gf' = GlobalFarmData.live_yield_farms_count gf →
  GlobalFarmData.total_yield_farms_count gf' = GlobalFarmData.total_yield_farms_count gf →
  GlobalFarmData.state gf' = GlobalFarmData.state gf →
  lm_inv (with_global g gf' s).
Proof.
  intros I Ht E1 E2 E3 E4 E5 E6 E7 E8 E9 E10.
  assert (GlobalFarm (with_global g gf s) !! g = Some gf) as Hg by apply lookup_insert_eq.
  pose proof (inv_global _ I g gf Hg) as Go.
  apply (inv_change_global (with_global g gf s) _ g gf gf'); try done.
  - pose proof (inv_farm_seq _ I). by constructor.
  - simpl. by rewrite insert_insert_eq.
  - rewrite E2, E7. apply Go.
  - by rewrite E6.
  - constructor; congruence || lia.
  - intros c pot Hpot. pose proof (inv_pot _ I c pot Hpot) as Hp. simpl in *.
    rewrite <- (insert_insert_eq (GlobalFarm s) g _ gf), (held_update_global c _ _ g gf), E5
      by (done || apply lookup_insert_eq).
    unfold when. case_decide; lia.
Qed.

(** Adding to and removing from the stake of a global farm. *)
Lemma add_stake_inv s g gf amount gf' :
  lm_inv (with_global g gf s) → 0 <= amount → GlobalFarmData.add_stake amount gf = Ok gf' →
  (∃ z, gf' = GlobalFarmData.set_total_shares_z z gf) ∧ global_typed gf' ∧ lm_inv (with_global g gf' s).
Proof.
  intros I Ha Hr. unfold GlobalFarmData.add_stake in Hr. inv_run.
  assert (global_typed gf) as [] by (eapply go_typed, (inv_global _ I), lookup_insert_eq).
  assert (global_typed (GlobalFarmData.set_total_shares_z (GlobalFarmData.total_shares_z gf + amount) gf)).
  { constructor; simpl; try done. unfold fits in *. lia. }
  split_and!; [eauto|done|]. by eapply inv_params.
Qed.

Lemma remove_stake_inv s g gf amount gf' :
  lm_inv (with_global g gf s) → 0 <= amount → GlobalFarmData.remove_stake amount gf = Ok gf' →
  (∃ z, gf' = GlobalFarmData.set_total_shares_z z gf) ∧ global_typed gf' ∧ lm_inv (with_global g gf' s).
Proof.
  intros I Ha Hr. unfold GlobalFarmData.remove_stake in Hr. inv_run.
  assert (global_typed gf) as [] by (eapply go_typed, (inv_global _ I), lookup_insert_eq).
  assert (global_typed (GlobalFarmData.set_total_shares_z (GlobalFarmData.total_shares_z gf - amount) gf)).
  { constructor; simpl; try done. unfold fits in *. lia. }
  split_and!; [eauto|done|]. by eapply inv_params.
Qed.

(** *** Global farms *)

Lemma update_global_farm_price_adjustment_inv who g price s v s' :
  lm_inv s → fits u128 price → update_global_farm_price_adjustment T who g price s = Ok (v, s') → lm_inv s'.
Proof.
  intros I Hp Hr. unfold update_global_farm_price_adjustment, put_global_farm in Hr. inv_pallet.
  match goal with Hg : GlobalFarm s !! g = Some ?gf, Hs : sync_global_farm _ _ _ _ = Ok _ |- _ =>
    eapply (sync_stored_global s g gf) in Hs as (_ & Sy & I1); [|done..] end.
  eapply inv_params; [done|..]; try done. destruct (gs_typed _ _ _ _ _ _ Sy). by constructor.
Qed.

Lemma update_global_farm_inv g planned yield min s v s' :
  lm_inv s → is_perquintill yield → 0 <= planned → update_global_farm T g planned yield min s = Ok (v, s') → lm_inv s'.
Proof.
  intros I Hy Hpl Hr. unfold update_global_farm, put_global_farm in Hr. inv_pallet.
  match goal with Hg : GlobalFarm s !! g = Some ?gf, Hs : sync_global_farm _ _ _ _ = Ok _ |- _ =>
    eapply (sync_stored_global s g gf) in Hs as (_ & Sy & I1); [|done..] end.
  eapply inv_params; [done|..]; try done. destruct (gs_typed _ _ _ _ _ _ Sy). constructor; try done.
  apply div_nonneg; [|done]. apply free_balance_fits.
Qed.

(** A new id is used by no farm. *)
Lemma fresh_global s g : lm_inv s → FarmSequencer s < g → GlobalFarm s !! g = None.
Proof.
  intros I Hg. destruct (GlobalFarm s !! g) as [gf|] eqn:E; [|done]. destruct (inv_global s I g gf E). lia.
Qed.
Lemma fresh_yield s p g y : lm_inv s → FarmSequencer s < y → YieldFarm s !! (p, g, y) = None.
Proof.
  intros I Hy. destruct (YieldFarm s !! (p, g, y)) as [yf|] eqn:E; [|done].
  destruct (inv_yield s I _ _ E) as (gf & _ & []). simpl in *. lia.
Qed.

(** A transfer that does not take from the pot keeps it covered. *)
Lemma transfer_from_others c f t amount er x x' c' pot :
  0 <= amount → f ≠ pot → transfer c f t amount er x = Ok x' → free_balance c' pot x <= free_balance c' pot x'.
Proof. intros Ha Hf Ht. apply transfer_moves in Ht as (_ & -> & _); [|done]. by_moves. Qed.

(** One global farm is added, changed or removed without its yield farms. *)
Lemma inv_change_global_only s s' g ogf :
  lm_inv s → farms_only s s' →
  GlobalFarm s' = partial_alter (λ _, ogf) g (GlobalFarm s) → YieldFarm s' = YieldFarm s →
  ActiveYieldFarm s' = ActiveYieldFarm s →
  (∀ gf', ogf = Some gf' → global_ok (lm_block s') (FarmSequencer s') (YieldFarm s) g gf') →
  (ogf = None → farm_sum one_farm g (YieldFarm s) = 0) →
  (∀ gf gf' p' y' yf, GlobalFarm s !! g = Some gf → ogf = Some gf' → YieldFarm s !! (p', g, y') = Some yf →
    GlobalFarmData.accumulated_rpz gf <= GlobalFarmData.accumulated_rpz gf' ∧
    GlobalFarmData.blocks_per_period gf' = GlobalFarmData.blocks_per_period gf ∧
    (YieldFarmData.state yf ≠ FarmState.Terminated → GlobalFarmData.state gf' = FarmState.Active)) →
  pot_covers s' → lm_inv s'.
Proof.
  intros I F EG EY EA Hg Hgone Hgr Hpot.
  set (p := inhabitant : AmmPoolId). pose proof (no_yield_farm_zero s p g I) as Hnone.
  apply (inv_change_farms s s' g p 0 ogf None (ActiveYieldFarm s !! (p, g))); try done.
  - change (partial_alter (λ _, None) (p, g, 0) (YieldFarm s)) with (delete (p, g, 0) (YieldFarm s)).
    by rewrite delete_id.
  - by rewrite partial_alter_self.
  - by rewrite EY.
  - by rewrite EY.
  - intros. by eapply Hgr.
  - intros _. by apply entry_sum_no_farm.
  - intros y'. rewrite EY. apply (inv_active s I).
Qed.

Lemma held_alter_global c (GF : gmap Z (GlobalFarmData.t AccountId)) YF g ogf :
  held c (partial_alter (λ _, ogf) g GF) YF
  = held c GF YF - from_option (farm_held c YF g) 0 (GF !! g) + from_option (farm_held c YF g) 0 ogf.
Proof. apply sum_kmap_alter. Qed.

Lemma create_global_farm_inv total planned blocks inc cur owner yield min price s v s' :
  lm_inv s → fits u128 total → fits u32 planned → fits u32 blocks → is_perquintill yield → fits u128 price →
  (∀ pot, pot_account_id T = Some pot → owner ≠ pot) →
  create_global_farm T total planned blocks inc cur owner yield min price s = Ok (v, s') → lm_inv s'.
Proof.
  intros I Ht Hpl Hb Hy Hp Ho Hr.
  unfold create_global_farm, validate_create_global_farm_data, get_next_farm_id, put_global_farm, lm_call in Hr.
  inv_pallet. inv_ext.
  match goal with E : get_current_period _ _ _ = Ok _ |- _ => apply get_current_period_Ok in E as [-> ->] end.
  match goal with E : whitelist_add_account _ _ _ = Ok _ |- _ => apply lm_whitelist_add in E as ([Hl _] & Hbl) end.
  match goal with E : transfer _ _ _ _ _ _ = Ok _ |- _ =>
    pose proof (lm_transfer_block _ _ _ _ _ _ _ E) as Hbt; rename E into Etr end. simpl in *.
  pose proof (inv_farm_seq s I) as Hseq. unfold fits in Hseq.
  assert (GlobalFarm s !! (FarmSequencer s + 1) = None) as Hnone by (apply fresh_global; [done|lia]).
  pose proof (farm_sum_no_global s is_live _ I Hnone) as Z1.
  pose proof (farm_sum_no_global s one_farm _ I Hnone) as Z2.
  pose proof (farm_sum_no_global s YieldFarmData.left_to_distribute _ I Hnone) as Z3.
  assert (fits u32 (lm_block s / blocks)) by (apply fits_div; [apply lm_block_fits|unfold fits in *; lia]).
  eapply (inv_change_global_only s _ (FarmSequencer s + 1) (Some _)); try done; simpl.
  - constructor; simpl; try done; [split; [lia|unfold fits; lia]|]. unfold lm_block. simpl. by rewrite Hbt, Hbl.
  - intros ? [= <-]. unfold lm_block. simpl. rewrite Hbt, Hbl.
    constructor; simpl; try lia. constructor; simpl; try done; try (unfold fits, max_value in *; lia).
    unfold fits in *. apply div_nonneg; lia.
  - intros. by simplify_map_eq.
  - intros c pot Hpot. pose proof (inv_pot s I c pot Hpot). simpl.
    change (<[?k := ?v]> ?m) with (partial_alter (λ _, Some v) k m).
    rewrite held_alter_global, Hnone. simpl. unfold farm_held. simpl. rewrite Z3.
    pose proof (transfer_from_others _ _ _ _ _ _ _ c pot (fits_nonneg _ _ Ht) (Ho pot Hpot) Etr) as Hle.
    rewrite Hl in Hle. unfold when. case_decide; lia.
Qed.

Lemma inv_left_nonneg s k yf : lm_inv s → YieldFarm s !! k = Some yf → 0 <= YieldFarmData.left_to_distribute yf.
Proof.
  intros I Hy. destruct (inv_yield s I _ _ Hy) as (gf & _ & Yo). eapply fits_nonneg, yt_left, yo_typed, Yo.
Qed.

Lemma no_live_farms s g p y yf :
  lm_inv s → farm_sum is_live g (YieldFarm s) = 0 → YieldFarm s !! (p, g, y) = Some yf →
  YieldFarmData.state yf = FarmState.Terminated.
Proof.
  intros I Hz Hy. pose proof (farm_sum_elem is_live g (YieldFarm s) p y yf) as Hle.
  assert (is_live yf <= 0) as Hl.
  { rewrite <- Hz. apply Hle; [|done]. intros. unfold is_live. by case_match. }
  unfold is_live, FarmState.is_terminated in Hl. by case_bool_decide.
Qed.

(** A global farm without live yield farms is terminated, or removed when it has no
    yield farms at all. *)
Lemma inv_terminate_global s s' g gf ogf :
  let gf' := GlobalFarmData.set_state FarmState.Terminated gf in
  lm_inv s → GlobalFarm s !! g = Some gf → GlobalFarmData.live_yield_farms_count gf = 0 →
  farms_only s s' → GlobalFarm s' = partial_alter (λ _, ogf) g (GlobalFarm s) →
  YieldFarm s' = YieldFarm s → ActiveYieldFarm s' = ActiveYieldFarm s → lm_block s' = lm_block s →
  (ogf = Some gf' ∨ ogf = None ∧ GlobalFarmData.can_be_removed gf' = true) →
  (∀ c pot, pot_account_id T = Some pot → free_balance c pot (lm_ext s) <= free_balance c pot (lm_ext s')) →
  lm_inv s'.
Proof.
  intros gf' I Hg Elive F EG EY EA Eb Ho Hle. pose proof (proj1 (fo_farm_seq _ _ F)).
  pose proof (inv_global s I g gf Hg) as Go.
  assert (farm_sum is_live g (YieldFarm s) = 0) as Hz by (rewrite <- (go_live _ _ _ _ _ Go); done).
  apply (inv_change_global_only s s' g ogf); try done.
  - intros gf1 ->. destruct Ho as [[= ->]|[? _]]; [|done]. rewrite Eb.
    destruct Go as [[] ? ? ? ? ? ?]. constructor; try done; first [by constructor|lia].
  - intros ->. destruct Ho as [?|[_ Er]]; [done|]. unfold GlobalFarmData.can_be_removed in Er. propify.
    rewrite <- (go_total _ _ _ _ _ Go). done.
  - intros gf0 gf1 p' y' yf ? -> Hy. destruct Ho as [[= ->]|[? _]]; [|done]. simplify_eq.
    split_and!; [done..|]. intros Hs. by eapply no_live_farms in Hy.
  - intros c pot Hpot. rewrite EG, EY, held_alter_global, Hg. simpl.
    pose proof (inv_pot s I c pot Hpot). specialize (Hle c pot Hpot).
    assert (0 <= farm_held c (YieldFarm s) g gf).
    { unfold farm_held, when. case_decide; [|done]. apply Z.add_nonneg_nonneg; [apply Go|].
      apply farm_sum_nonneg. intros p' y' yf Hy. by eapply inv_left_nonneg. }
    destruct Ho as [->|[-> _]]; simpl; [|lia].
    change (farm_held c (YieldFarm s) g gf') with (farm_held c (YieldFarm s) g gf). lia.
Qed.

Lemma terminate_global_farm_inv who g s v s' :
  lm_inv s → terminate_global_farm T who g s = Ok (v, s') → lm_inv s'.
Proof.
  intros I Hr. unfold terminate_global_farm, put_global_farm, lm_call in Hr. inv_pallet. inv_ext.
  match goal with E : GlobalFarm s !! g = Some ?v |- _ => rename v into gf; rename E into Hg end.
  match goal with E : whitelist_remove_account _ _ _ = Ok ?v |- _ =>
    apply lm_whitelist_remove in E as ([Hl _] & Hbl); rename v into x' end.
  match goal with E : transfer _ _ _ _ _ _ = Ok _ |- _ =>
    pose proof (lm_transfer_block _ _ _ _ _ _ _ E) as Hbt; rename E into Etr end. simpl in *.
  match goal with E : GlobalFarmData.has_live_farms _ = false |- _ =>
    unfold GlobalFarmData.has_live_farms in E; propify; rename E into Elive end.
  pose proof (inv_farm_seq s I).
  assert (∀ c pot, pot_account_id T = Some pot → free_balance c pot (lm_ext s) <= free_balance c pot x') as Hle.
  { intros c pot Hpot. rewrite Hl. eapply transfer_from_others; [| |done]; [apply free_balance_fits|].
    by eapply farm_account_not_pot. }
  match goal with E : (if _ then _ else _) _ = Ok _ |- _ =>
    destruct (GlobalFarmData.can_be_removed _) eqn:Erm in E end; inv_run.
  - apply (inv_terminate_global s _ g gf None); try done; [|unfold lm_block; simpl; congruence|by right].
    constructor; try done. unfold lm_block. simpl. by rewrite Hbl, Hbt.
  - eapply (inv_terminate_global s _ g gf (Some _)); try done; [|unfold lm_block; simpl; congruence|by left].
    constructor; try done. unfold lm_block. simpl. by rewrite Hbl, Hbt.
Qed.

(** *** Yield farms *)

Lemma with_pair_lookup s g gf k yf :
  GlobalFarm (with_global g gf (with_yield k yf s)) !! g = Some gf ∧
  YieldFarm (with_global g gf (with_yield k yf s)) !! k = Some yf.
Proof. split; apply lookup_insert_eq. Qed.

Lemma inv_pair_ok s g gf p y yf :
  lm_inv (with_global g gf (with_yield (p, g, y) yf s)) →
  global_ok (lm_block s) (FarmSequencer s) (<[(p, g, y) := yf]> (YieldFarm s)) g gf ∧
  yield_ok (lm_block s) (FarmSequencer s) (Deposit s) (p, g, y) gf yf.
Proof.
  intros I. destruct (with_pair_lookup s g gf (p, g, y) yf) as [Hg Hy].
  destruct (inv_yield _ I _ _ Hy) as (gf' & Hg' & Yo). simpl in Hg'. rewrite lookup_insert_eq in Hg'. simplify_eq.
  split; [exact (inv_global _ I _ _ Hg)|exact Yo].
Qed.

(** The yield farm of a pair changes in a way that its books do not see: its
    multiplier, its state among the live ones, or the time it was stopped. *)
Lemma inv_pair_params s g gf p y yf yf' oa :
  let s1 := with_global g gf (with_yield (p, g, y) yf s) in
  let s' := set_ActiveYieldFarm (partial_alter (λ _, oa) (p, g) (ActiveYieldFarm s))
              (with_global g gf (with_yield (p, g, y) yf' s)) in
  lm_inv s1 → yield_typed yf' → YieldFarmData.id yf' = YieldFarmData.id yf →
  YieldFarmData.accumulated_rpz yf' <= GlobalFarmData.accumulated_rpz gf →
  YieldFarmData.updated_at yf' <= lm_block s / GlobalFarmData.blocks_per_period gf →
  YieldFarmData.entries_count yf' = YieldFarmData.entries_count yf →
  YieldFarmData.total_shares yf' = YieldFarmData.total_shares yf →
  YieldFarmData.total_valued_shares yf' = YieldFarmData.total_valued_shares yf →
  YieldFarmData.accumulated_rpvs yf' = YieldFarmData.accumulated_rpvs yf →
  YieldFarmData.left_to_distribute yf' = YieldFarmData.left_to_distribute yf →
  YieldFarmData.state yf ≠ FarmState.Terminated → YieldFarmData.state yf' ≠ FarmState.Terminated →
  yield_grows yf yf' →
  (∀ y', oa = Some y' ↔ ∃ v, <[(p, g, y) := yf']> (YieldFarm s) !! (p, g, y') = Some v ∧
    YieldFarmData.state v = FarmState.Active) →
  lm_inv s'.
Proof.
  intros s1 s' I Ty E1 E2 E3 E4 E5 E6 E7 E8 N1 N2 G Ha.
  destruct (with_pair_lookup s g gf (p, g, y) yf) as [Hg Hy]. destruct (inv_pair_ok s g gf p y yf I) as [Go Yo].
  pose proof (inv_farm_seq _ I).
  apply (inv_change_pair s1 s' g p y gf gf yf yf' oa); try done.
  - unfold s1, s'. simpl. by rewrite !insert_insert_eq.
  - unfold s1, s'. simpl. by rewrite insert_insert_eq.
  - apply Go.
  - apply Go.
  - unfold is_live, FarmState.is_terminated. rewrite !bool_decide_false by done. lia.
  - rewrite E8. lia.
  - split; [done|]. rewrite E7, E8. lia.
  - intros c pot Hpot. pose proof (inv_pot _ I c pot Hpot) as Hp. unfold s', s1 in *. simpl in *.
    rewrite <- (insert_insert_eq (GlobalFarm s) g gf gf), <- (insert_insert_eq (YieldFarm s) _ yf' yf).
    rewrite (held_insert_pair c _ _ g p y gf gf yf yf'), E8 by (done || apply lookup_insert_eq).
    unfold when. case_decide; lia.
Qed.

Lemma set_active_id s p g : set_ActiveYieldFarm (partial_alter (λ _, ActiveYieldFarm s !! (p, g)) (p, g)
  (ActiveYieldFarm s)) s = s.
Proof. rewrite partial_alter_self. by destruct s. Qed.

Lemma stored_yield_typed s k yf : lm_inv s → YieldFarm s !! k = Some yf → yield_typed yf.
Proof. intros I Hy. destruct (inv_yield s I k yf Hy) as (gf & _ & Yo). eapply yo_typed, Yo. Qed.

Lemma stake_nonneg v m r : fits u128 v → fits u128 m → calculate_global_farm_shares v m = Ok r → 0 <= r.
Proof. intros Hv Hm Hr. apply calculate_global_farm_shares_Ok in Hr as [_ Hf]; [|done..]. by apply fits_nonneg in Hf. Qed.

(** What [sync_yield_farm] keeps of both farms. *)
Lemma yield_synced_fields yf gf cp yf' gf' :
  yield_synced yf gf cp yf' gf' →
  YieldFarmData.state yf' = YieldFarmData.state yf ∧ YieldFarmData.id yf' = YieldFarmData.id yf ∧
  YieldFarmData.total_valued_shares yf' = YieldFarmData.total_valued_shares yf ∧
  YieldFarmData.multiplier yf' = YieldFarmData.multiplier yf ∧
  GlobalFarmData.state gf' = GlobalFarmData.state gf ∧
  GlobalFarmData.blocks_per_period gf' = GlobalFarmData.blocks_per_period gf ∧
  GlobalFarmData.reward_currency gf' = GlobalFarmData.reward_currency gf ∧
  GlobalFarmData.id gf' = GlobalFarmData.id gf.
Proof. intros Sy. by destruct (ys_farms _ _ _ _ _ Sy) as (r & rpvs & u & rpz & -> & -> & _). Qed.

Lemma is_active_true st : FarmState.is_active st = true ↔ st = FarmState.Active.
Proof. apply bool_decide_eq_true. Qed.
Lemma is_stopped_true st : FarmState.is_stopped st = true ↔ st = FarmState.Stopped.
Proof. apply bool_decide_eq_true. Qed.
Lemma is_terminated_false st : FarmState.is_terminated st = false ↔ st ≠ FarmState.Terminated.
Proof. apply bool_decide_eq_false. Qed.

Lemma update_yield_farm_multiplier_inv who g p m s v s' :
  lm_inv s → fits u128 m → update_yield_farm_multiplier T who g p m s = Ok (v, s') → lm_inv s'.
Proof.
  intros I Hm Hr.
  unfold update_yield_farm_multiplier, put_global_farm, put_yield_farm, defensive_or, or_overflow in Hr. inv_pallet.
  match goal with Hy : YieldFarm s !! (p, g, ?y0) = Some ?yf0, Hs : sync_global_farm _ _ _ _ = Ok _,
      Hs' : sync_yield_farm _ _ _ _ = Ok (?yf0', ?gf0', ?s0') |- _ =>
    pose proof (stored_yield_typed s _ _ I Hy) as [];
    eapply (sync_stored_farms s g p) in Hs' as (_ & Ss & _ & Sy & _ & I1); [|done..];
    rename yf0' into yf', gf0' into gf', s0' into s', y0 into y end.
  destruct (ys_typed _ _ _ _ _ Sy) as [Ty _]. destruct (yield_synced_fields _ _ _ _ _ Sy) as (Est & _).
  match goal with E : GlobalFarmData.remove_stake _ _ = Ok _ |- _ =>
    eapply (remove_stake_inv _ g) in E as (_ & _ & I2); [|exact I1|eapply stake_nonneg; [| |eassumption]; done] end.
  match goal with E : GlobalFarmData.add_stake _ _ = Ok _ |- _ =>
    eapply (add_stake_inv _ g) in E as (_ & Tg & I3); [|exact I2|eapply stake_nonneg; [| |eassumption]; [apply Ty|done]] end.
  match goal with E : FarmState.is_active _ = true |- _ => apply is_active_true in E end.
  destruct (inv_pair_ok _ _ _ _ _ _ I3) as [_ Yo].
  match goal with |- lm_inv ?F => rewrite <- (set_active_id F p g) end.
  apply (inv_pair_params s' g _ p y yf' _ (ActiveYieldFarm s' !! (p, g))); try done; try (simpl; congruence).
  - destruct Ty. by constructor.
  - apply Yo.
  - apply Yo.
  - intros y'. rewrite (ss_AF _ _ Ss), (ss_YF _ _ Ss). eapply active_unchanged; [done..|]. simpl. by rewrite Est.
Qed.

Lemma stop_yield_farm_inv who g p s v s' :
  lm_inv s → stop_yield_farm T who g p s = Ok (v, s') → lm_inv s'.
Proof.
  intros I Hr.
  unfold stop_yield_farm, put_global_farm, put_yield_farm, defensive_or, defensive_ensure, or_overflow in Hr. inv_pallet.
  match goal with Ha : ActiveYieldFarm s !! (p, g) = Some ?y0, Hy : YieldFarm s !! (p, g, ?y0) = Some ?yf0,
      Hs : sync_global_farm _ _ _ _ = Ok _, Hs' : sync_yield_farm _ _ _ _ = Ok (?yf0', ?gf0', ?s0') |- _ =>
    pose proof (stored_yield_typed s _ _ I Hy) as [];
    eapply (sync_stored_farms s g p) in Hs' as (_ & Ss & _ & Sy & _ & I1); [|done..];
    rename yf0' into yf', gf0' into gf', s0' into s', y0 into y; rename Ha into Hact end.
  destruct (ys_typed _ _ _ _ _ Sy) as [Ty _]. destruct (yield_synced_fields _ _ _ _ _ Sy) as (Est & _).
  match goal with E : GlobalFarmData.remove_stake _ _ = Ok _ |- _ =>
    eapply (remove_stake_inv _ g) in E as (_ & _ & I2);
      [|exact I1|eapply stake_nonneg; [| |eassumption]; [apply Ty|apply Ty]] end.
  match goal with E : FarmState.is_active _ = true |- _ => apply is_active_true in E end.
  destruct (inv_pair_ok _ _ _ _ _ _ I2) as [_ Yo].
  apply (inv_pair_params s' g _ p y yf' _ None); try done; try (simpl; congruence).
  - destruct Ty. by constructor.
  - apply Yo.
  - apply Yo.
  - intros y'. split; [done|]. intros (v & Hv & Hs). exfalso.
    destruct (decide (y' = y)) as [->|Hne]; [rewrite lookup_insert_eq in Hv; by simplify_eq|].
    rewrite lookup_insert_ne, (ss_YF _ _ Ss) in Hv by naive_solver.
    assert (ActiveYieldFarm s !! (p, g) = Some y') by (apply (inv_active s I); eauto). congruence.
Qed.

Lemma resume_yield_farm_inv who g y p m s v s' :
  lm_inv s → fits u128 m → resume_yield_farm T who g y p m s = Ok (v, s') → lm_inv s'.
Proof.
  intros I Hm Hr.
  unfold resume_yield_farm, put_global_farm, put_yield_farm, defensive_or, or_overflow in Hr. inv_pallet.
  match goal with Hg : GlobalFarm s !! g = Some ?gf0, Hy : YieldFarm s !! (p, g, y) = Some ?yf0,
      Hs : sync_global_farm _ _ _ _ = Ok (?gf0', _, ?s0') |- _ =>
    pose proof (stored_yield_typed s _ _ I Hy) as [];
    eapply (sync_stored_global s g gf0) in Hs as (Ecp & Sy & I1); [|done..];
    rename gf0' into gf', s0' into s', yf0 into yf, gf0 into gf; rename Hy into Hyf, Hg into Hgf end.
  destruct (gs_storage _ _ _ _ _ _ Sy) as [S1 S2 S3 S4 S5 S6 S7].
  destruct (synced_fields _ _ _ _ _ _ Sy) as (Eb & Est & _).
  match goal with E : GlobalFarmData.add_stake _ _ = Ok _ |- _ =>
    eapply (add_stake_inv _ g) in E as ((total & ->) & Tg & I2); [|exact I1|eapply stake_nonneg; [| |eassumption]; done] end.
  match goal with E : FarmState.is_stopped _ = true |- _ => apply is_stopped_true in E end.
  rewrite <- S4 in Hyf. rewrite <- (with_yield_id s' _ _ Hyf) in I2.
  destruct (inv_pair_ok _ _ _ _ _ _ I2) as [_ Yo].
  assert (fits u32 (lm_block s / GlobalFarmData.blocks_per_period gf)).
  { apply current_period_fits. by eapply go_typed, (inv_global s I). }
  eapply (inv_pair_params s' g _ p y yf _ (Some (YieldFarmData.id yf))); [exact I2|..]; try done;
    try (simpl; congruence); simpl.
  - constructor; simpl; try done; [by subst|by apply (gs_typed _ _ _ _ _ _ Sy)|unfold fits in *; lia].
  - rewrite S7, Eb. by subst.
  - constructor; simpl; [done|lia|lia|done].
  - intros y'. rewrite (yo_id _ _ _ _ _ _ Yo). simpl. split.
    + intros [= <-]. rewrite lookup_insert_eq. eauto.
    + intros (w & Hw & Hs). destruct (decide (y' = y)) as [->|Hne]; [done|].
      rewrite lookup_insert_ne, S4 in Hw by naive_solver.
      assert (ActiveYieldFarm s !! (p, g) = Some y') by (apply (inv_active s I); eauto). congruence.
Qed.

(** A yield farm that no entry belongs to is added to an active global farm. *)
Lemma inv_add_yield s s' g p gf curve m :
  let y := FarmSequencer s + 1 in
  let gf' := GlobalFarmData.set_total_yield_farms_count (GlobalFarmData.total_yield_farms_count gf + 1)
    (GlobalFarmData.set_live_yield_farms_count (GlobalFarmData.live_yield_farms_count gf + 1) gf) in
  lm_inv s → GlobalFarm s !! g = Some gf → GlobalFarmData.state gf = FarmState.Active →
  ActiveYieldFarm s !! (p, g) = None → fits u128 m → curve_ok curve → FarmSequencer s + 1 <= max_value u32 →
  FarmSequencer s' = y → DepositSequencer s' = DepositSequencer s → Deposit s' = Deposit s → lm_ext s' = lm_ext s →
  GlobalFarm s' = <[g := gf']> (GlobalFarm s) →
  YieldFarm s' = <[(p, g, y) := YieldFarmData.new y (lm_block s / GlobalFarmData.blocks_per_period gf) curve m]>
    (YieldFarm s) →
  ActiveYieldFarm s' = <[(p, g) := y]> (ActiveYieldFarm s) → lm_inv s'.
Proof.
  intros y gf' I Hg Hst Hact Hm Hc Hmax Ef Ed EDd Ex EG EY EA.
  pose proof (inv_farm_seq s I) as Hseq. unfold fits in Hseq.
  pose proof (inv_global s I g gf Hg) as Go. pose proof (go_typed _ _ _ _ _ Go) as Tg.
  assert (YieldFarm s !! (p, g, y) = None) as Hnone by (apply fresh_yield; [done|unfold y; lia]).
  assert (lm_block s' = lm_block s) as Eb by (unfold lm_block; by rewrite Ex).
  pose proof (current_period_fits s gf Tg) as Hcp.
  set (yf := YieldFarmData.new y _ curve m) in EY.
  assert (∀ f, farm_sum f g (YieldFarm s') = farm_sum f g (YieldFarm s) + f yf) as Efs.
  { intros f. rewrite EY. change (<[?k := ?v]> ?m) with (partial_alter (λ _, Some v) k m).
    rewrite farm_sum_alter, Hnone. simpl. lia. }
  assert (∀ f, entry_sum f (p, g, y) (Deposit s) = 0) as Ees by (intros; by apply entry_sum_no_farm).
  apply (inv_change_farms s s' g p y (Some gf') (Some yf) (Some y)); try done.
  - constructor; rewrite ?Ef, ?Eb; try done. unfold y, fits. lia.
  - intros ? [= <-]. rewrite Eb, Ef. destruct Tg, Go. constructor; rewrite ?Efs; simpl; try (unfold y; lia).
    + constructor; simpl; done || lia.
    + rewrite go_live0. done.
    + rewrite go_total0. done.
  - intros gf0 ? p' y' w ? [= <-] Hw _. simplify_eq. split_and!; done.
  - intros ? [= <-]. exists gf'. split; [done|]. rewrite Eb, Ef.
    constructor; simpl; rewrite ?Ees; try done; try (unfold y; lia). apply Tg.
  - congruence.
  - intros y'. rewrite EY. split.
    + intros [= <-]. rewrite lookup_insert_eq. eauto.
    + intros (w & Hw & Hs). destruct (decide (y' = y)) as [->|Hne]; [done|].
      rewrite lookup_insert_ne in Hw by naive_solver.
      assert (ActiveYieldFarm s !! (p, g) = Some y') by (apply (inv_active s I); eauto). congruence.
  - intros c pot Hpot. pose proof (inv_pot s I c pot Hpot). rewrite EG, EY, Ex.
    change (<[?k := ?v]> ?m) with (partial_alter (λ _, Some v) k m).
    rewrite held_alter, Hg. simpl. unfold farm_held. rewrite farm_sum_alter, Hnone. simpl.
    unfold when. case_decide; lia.
Qed.

Lemma create_yield_farm_inv who g m curve p assets s v s' :
  lm_inv s → fits u128 m → curve_ok curve →
  create_yield_farm T who g m curve p assets s = Ok (v, s') → lm_inv s'.
Proof.
  intros I Hm Hc Hr.
  unfold create_yield_farm, put_global_farm, put_yield_farm, get_next_farm_id in Hr. inv_pallet.
  match goal with Hg : GlobalFarm s !! g = Some ?gf0, Hs : sync_global_farm _ _ _ _ = Ok (?gf0', _, ?s0') |- _ =>
    eapply (sync_stored_global s g gf0) in Hs as (Ecp & Sy & I1); [|done..];
    rename gf0' into gf', s0' into s', gf0 into gf; rename Hg into Hgf end.
  destruct (gs_storage _ _ _ _ _ _ Sy) as [S1 S2 S3 S4 S5 S6 S7].
  destruct (synced_fields _ _ _ _ _ _ Sy) as (Eb & Est & Eid & _).
  pose proof (gs_typed _ _ _ _ _ _ Sy) as Tg.
  match goal with E : GlobalFarmData.increase_yield_farm_counts _ = Ok _ |- _ =>
    unfold GlobalFarmData.increase_yield_farm_counts in E; inv_run end.
  match goal with E : FarmState.is_active _ = true |- _ => apply is_active_true in E end.
  eapply (inv_add_yield (with_global g gf' s') _ g p gf' curve m); try done; simpl.
  - apply lookup_insert_eq.
  - congruence.
  - by rewrite S6.
  - by rewrite insert_insert_eq.
  - change (lm_block (with_global g gf' s')) with (lm_block s'). by rewrite S7, Eb.
Qed.

(** The yield farm is kept, or removed when it is terminated and has no entries. *)
Definition kept_or_removed yf (oyf : option YieldFarmData.t) : Prop :=
  oyf = Some yf ∨ oyf = None ∧ YieldFarmData.can_be_removed yf = true.

Lemma store_or_remove_Ok k yf gf s gf' s' :
  store_or_remove_yield_farm k yf gf s = Ok (gf', s') →
  ∃ oyf, kept_or_removed yf oyf ∧ s' = set_YieldFarm (partial_alter (λ _, oyf) k (YieldFarm s)) s ∧
    gf' = GlobalFarmData.set_total_yield_farms_count
            (GlobalFarmData.total_yield_farms_count gf - 1 + from_option one_farm 0 oyf) gf.
Proof.
  unfold store_or_remove_yield_farm, put_yield_farm, GlobalFarmData.decrease_total_yield_farm_count. intros Hr.
  destruct (YieldFarmData.can_be_removed yf) eqn:E; inv_run.
  - exists None. simpl. rewrite Z.add_0_r. split_and!; [by right|done..].
  - exists (Some yf). split_and!; [by left|done|]. unfold one_farm. simpl. rewrite Z.sub_add. by destruct gf.
Qed.

Lemma can_be_removed_entries yf :
  YieldFarmData.can_be_removed yf = true →
  YieldFarmData.state yf = FarmState.Terminated ∧ YieldFarmData.entries_count yf = 0.
Proof. unfold YieldFarmData.can_be_removed. intros. by propify. Qed.

(** A stopped yield farm is terminated: what it has not distributed goes back. *)
Lemma inv_terminate_yield s s' g p y gf yf oyf :
  let yf' := YieldFarmData.set_state FarmState.Terminated (YieldFarmData.set_left_to_distribute 0 yf) in
  let gf' := GlobalFarmData.set_total_yield_farms_count
    (GlobalFarmData.total_yield_farms_count gf - 1 + from_option one_farm 0 oyf)
    (GlobalFarmData.set_live_yield_farms_count (GlobalFarmData.live_yield_farms_count gf - 1)
      (GlobalFarmData.set_accumulated_paid_rewards
        (GlobalFarmData.accumulated_paid_rewards gf - YieldFarmData.left_to_distribute yf) gf)) in
  lm_inv s → GlobalFarm s !! g = Some gf → YieldFarm s !! (p, g, y) = Some yf →
  YieldFarmData.state yf = FarmState.Stopped → kept_or_removed yf' oyf →
  FarmSequencer s' = FarmSequencer s → DepositSequencer s' = DepositSequencer s → Deposit s' = Deposit s →
  ActiveYieldFarm s' = ActiveYieldFarm s → lm_block s' = lm_block s →
  GlobalFarm s' = <[g := gf']> (GlobalFarm s) →
  YieldFarm s' = partial_alter (λ _, oyf) (p, g, y) (YieldFarm s) →
  (∀ c pot, pot_account_id T = Some pot → free_balance c pot (lm_ext s') = free_balance c pot (lm_ext s)
    - when (GlobalFarmData.reward_currency gf = c) (YieldFarmData.left_to_distribute yf)) →
  lm_inv s'.
Proof.
  intros yf' gf' I Hg Hy Hst Hk Ef Ed EDd EA Eb EG EY Hpot.
  pose proof (inv_global s I g gf Hg) as Go. pose proof (go_typed _ _ _ _ _ Go) as Tg.
  destruct (inv_yield s I _ _ Hy) as (gf0 & Hg0 & Yo). simpl in Hg0. simplify_eq.
  pose proof (inv_farm_seq s I) as Hseq. pose proof (yo_typed _ _ _ _ _ _ Yo) as Ty.
  pose proof (inv_left_nonneg s _ _ I Hy) as Hl.
  assert (∀ f, farm_sum f g (YieldFarm s') = farm_sum f g (YieldFarm s) - f yf + from_option f 0 oyf) as Efs.
  { intros f. by rewrite EY, farm_sum_alter, Hy. }
  assert (is_live yf = 1) as Hlive by (unfold is_live; rewrite Hst; done).
  assert (from_option is_live 0 oyf = 0 ∧ from_option YieldFarmData.left_to_distribute 0 oyf = 0) as [Ol Od].
  { destruct Hk as [->|[-> _]]; done. }
  assert (0 <= farm_sum one_farm g (YieldFarm s') ∧ 0 <= farm_sum is_live g (YieldFarm s') ∧
    YieldFarmData.left_to_distribute yf <= farm_sum YieldFarmData.left_to_distribute g (YieldFarm s))
    as (P1 & P2 & P3).
  { split_and!.
    - by apply farm_sum_nonneg.
    - apply farm_sum_nonneg. intros. unfold is_live. by case_match.
    - eapply farm_sum_elem; [|done]. intros. by eapply inv_left_nonneg. }
  pose proof (Efs one_farm) as F1. pose proof (Efs is_live) as F2.
  pose proof (Efs YieldFarmData.left_to_distribute) as F3. change (one_farm yf) with 1 in F1.
  destruct Go as [_ G1 G2 G3 G4 G5 G6].
  eapply (inv_change_farms s s' g p y (Some gf') oyf (ActiveYieldFarm s !! (p, g))); try done.
  - constructor; rewrite ?Ef, ?Eb; done.
  - by rewrite partial_alter_self.
  - intros ? [= <-]. rewrite Ef, Eb. constructor; simpl; try done; try lia.
    destruct Tg. constructor; simpl; try done; unfold fits in *; lia.
  - intros gf0 ? p' y' w ? [= <-] Hw _. simplify_eq. destruct (inv_yield s I _ _ Hw) as (gf1 & Hg1 & Yo1).
    simpl in Hg1. simplify_eq. split_and!; [done..|]. apply Yo1.
  - intros yf1 E. exists gf'. split; [done|]. destruct Hk as [->|[-> _]]; simplify_eq. rewrite Ef, Eb.
    destruct Yo. constructor; simpl; try done. destruct Ty. constructor; simpl; try done.
  - intros ->. destruct Hk as [?|[_ Hr]]; [done|]. apply can_be_removed_entries in Hr as [_ Hr].
    rewrite <- (yo_entries _ _ _ _ _ _ Yo). exact Hr.
  - intros yf0 yf1 Hy0 E. destruct Hk as [->|[-> _]]; simplify_eq. by constructor.
  - intros y'. rewrite (inv_active s I p g y'), EY. destruct (decide (y' = y)) as [->|Hne].
    + rewrite lookup_partial_alter_eq, Hy. destruct Hk as [->|[-> _]]; naive_solver congruence.
    + by rewrite lookup_partial_alter_ne by naive_solver.
  - intros c pot Hp. rewrite EG, EY, (Hpot c pot Hp), (held_update_pair c _ _ g p y gf gf' yf) by done.
    pose proof (inv_pot s I c pot Hp). rewrite Od. simpl. unfold when. case_decide; lia.
Qed.

Lemma terminate_yield_farm_inv who g y p s v s' :
  lm_inv s → terminate_yield_farm T who g y p s = Ok (v, s') → lm_inv s'.
Proof.
  intros I Hr. unfold terminate_yield_farm, put_global_farm, lm_call,
    GlobalFarmData.decrease_live_yield_farm_count in Hr. inv_pallet. inv_ext.
  match goal with E : store_or_remove_yield_farm _ _ _ _ = Ok _ |- _ =>
    apply store_or_remove_Ok in E as (oyf & Hk & -> & ->) end.
  match goal with E : transfer _ _ _ _ _ _ = Ok _ |- _ =>
    pose proof (lm_transfer_block _ _ _ _ _ _ _ E) as Hbt; rename E into Etr end.
  match goal with E : FarmState.is_stopped _ = true |- _ => apply is_stopped_true in E end. simpl in *.
  match goal with E : pot_account_id T = Some _ |- _ => rename E into Hpt end.
  match goal with E : farm_account_id _ _ = Ok _ |- _ =>
    pose proof (farm_account_not_pot _ _ _ E Hpt) end.
  match goal with Hy : YieldFarm s !! (p, g, y) = Some _ |- _ => pose proof (inv_left_nonneg s _ _ I Hy) end.
  eapply inv_terminate_yield; try done.
  intros c pot Hp. simplify_eq. simpl. apply transfer_moves in Etr as (_ & -> & _); [|done]. by_moves.
Qed.

(** *** Deposits *)

Lemma search_None y d :
  DepositData.search_yield_farm_entry y d = None →
  ∀ e, e ∈ DepositData.yield_farm_entries d → YieldFarmEntry.yield_farm_id e ≠ y.
Proof.
  unfold DepositData.search_yield_farm_entry. intros Hn e He.
  apply fmap_None, list_find_None in Hn. by eapply Forall_forall in Hn.
Qed.

Lemma search_Some y d idx :
  DepositData.search_yield_farm_entry y d = Some idx →
  ∃ e, DepositData.yield_farm_entries d !! idx = Some e ∧ YieldFarmEntry.yield_farm_id e = y.
Proof.
  unfold DepositData.search_yield_farm_entry. intros ([j e] & Hf & ->)%fmap_Some.
  apply list_find_Some in Hf as (? & ? & _). eauto.
Qed.

Lemma add_yield_farm_entry_Ok max e d d' :
  DepositData.add_yield_farm_entry max e d = Ok d' →
  d' = DepositData.set_yield_farm_entries (DepositData.yield_farm_entries d ++ [e]) d ∧
  ∀ e', e' ∈ DepositData.yield_farm_entries d → YieldFarmEntry.yield_farm_id e' ≠ YieldFarmEntry.yield_farm_id e.
Proof.
  unfold DepositData.add_yield_farm_entry. intros Hr. destruct (DepositData.search_yield_farm_entry _ d) eqn:E; [done|].
  case_match; inv_run. split; [done|]. by apply search_None.
Qed.

Lemma remove_yield_farm_entry_Ok y d e d' :
  DepositData.remove_yield_farm_entry y d = Ok (e, d') →
  ∃ idx, DepositData.yield_farm_entries d !! idx = Some e ∧ YieldFarmEntry.yield_farm_id e = y ∧
    d' = DepositData.set_yield_farm_entries (swap_remove idx (DepositData.yield_farm_entries d)) d.
Proof.
  unfold DepositData.remove_yield_farm_entry. intros Hr.
  destruct (DepositData.search_yield_farm_entry y d) as [idx|] eqn:E; [|done].
  apply search_Some in E as (e0 & He & Hy). inv_run. simplify_eq. eauto.
Qed.

Lemma get_yield_farm_entry_Some y d idx e :
  DepositData.get_yield_farm_entry y d = Some (idx, e) →
  DepositData.yield_farm_entries d !! idx = Some e ∧ YieldFarmEntry.yield_farm_id e = y.
Proof.
  unfold DepositData.get_yield_farm_entry. intros Hr. inv_run.
  match goal with E : DepositData.search_yield_farm_entry _ _ = Some _ |- _ =>
    apply search_Some in E as (e0 & He & Hy) end. simplify_eq. eauto.
Qed.

(** The sums the books are about do not read the list of entries. *)
Definition each_kind (f : DepositData.t AmmPoolId → YieldFarmEntry.t → Z) : Prop :=
  f = one_each ∨ f = shares_each ∨ f = valued_each ∨ ∃ r, f = owed_each r.

Lemma deposit_sum_set f k l d :
  each_kind f → deposit_sum f k (DepositData.set_yield_farm_entries l d)
  = sum_list_with_Z (λ e, if decide (entry_key d e = k) then f d e else 0) l.
Proof. by intros [->|[->|[->|[r ->]]]]. Qed.

(** Before the change, an entry list is either stored or empty. *)
Definition stored_or_empty s i d : Prop :=
  Deposit s !! i = Some d ∨ Deposit s !! i = None ∧ DepositData.yield_farm_entries d = [].

Lemma stored_or_empty_sum s i d f k :
  stored_or_empty s i d → from_option (deposit_sum f k) 0 (Deposit s !! i) = deposit_sum f k d.
Proof. intros [->|[-> E]]; [done|]. unfold deposit_sum. by rewrite E. Qed.

(** A yield farm and one deposit change; the global farm stays. *)
Lemma inv_change_entries s s' g p y gf yf yf' i d d' :
  lm_inv s → GlobalFarm s !! g = Some gf → YieldFarm s !! (p, g, y) = Some yf →
  stored_or_empty s i d → DepositData.amm_pool_id d' = DepositData.amm_pool_id d →
  YieldFarmData.state yf ≠ FarmState.Terminated →
  (** the storage *)
  FarmSequencer s' = FarmSequencer s → GlobalFarm s' = GlobalFarm s →
  YieldFarm s' = <[(p, g, y) := yf']> (YieldFarm s) → Deposit s' = <[i := d']> (Deposit s) →
  ActiveYieldFarm s' = ActiveYieldFarm s → lm_block s' = lm_block s →
  (DepositSequencer s <= DepositSequencer s' ∧ fits u128 (DepositSequencer s')) → 0 < i <= DepositSequencer s' →
  (** the yield farm *)
  yield_typed yf' → YieldFarmData.id yf' = YieldFarmData.id yf →
  YieldFarmData.accumulated_rpz yf' = YieldFarmData.accumulated_rpz yf →
  YieldFarmData.updated_at yf' = YieldFarmData.updated_at yf →
  YieldFarmData.state yf' = YieldFarmData.state yf →
  YieldFarmData.left_to_distribute yf' <= YieldFarmData.left_to_distribute yf →
  yield_grows yf yf' →
  YieldFarmData.entries_count yf' = entry_sum one_each (p, g, y) (Deposit s') →
  YieldFarmData.total_shares yf' = entry_sum shares_each (p, g, y) (Deposit s') →
  YieldFarmData.total_valued_shares yf' = entry_sum valued_each (p, g, y) (Deposit s') →
  entry_sum (owed_each (YieldFarmData.accumulated_rpvs yf')) (p, g, y) (Deposit s')
    <= YieldFarmData.left_to_distribute yf' * DIV →
  (** the deposit *)
  fits u128 (DepositData.shares d') →
  NoDup (YieldFarmEntry.yield_farm_id <$> DepositData.yield_farm_entries d') →
  (∀ e, e ∈ DepositData.yield_farm_entries d' →
    if decide (entry_key d' e = (p, g, y)) then entry_ok yf' e else e ∈ DepositData.yield_farm_entries d) →
  (∀ f k', each_kind f → k' ≠ (p, g, y) → deposit_sum f k' d' = deposit_sum f k' d) →
  pot_covers s' → lm_inv s'.
Proof.
  intros I Hg Hy Hd Eamm Hst E1 E2 E3 E4 E5 E6 Hseq Hi Ty Iy Ry Uy Sy Ly Gy C1 C2 C3 C4 Hsh Hnd Hes Hk Hpot.
  pose proof (inv_global s I g gf Hg) as Go. destruct (inv_yield s I _ _ Hy) as (gf0 & Hg0 & Yo). simpl in Hg0.
  simplify_eq. pose proof (inv_farm_seq s I) as Hf.
  assert (∀ f, farm_sum f g (YieldFarm s') = farm_sum f g (YieldFarm s) - f yf + f yf') as Efs.
  { intros f. rewrite E3. change (<[?k := ?v]> ?m) with (partial_alter (λ _, Some v) k m).
    by rewrite farm_sum_alter, Hy. }
  apply (inv_change s s' g p y i (Some gf) (Some yf') (Some d') (ActiveYieldFarm s !! (p, g))); [done|].
  constructor; rewrite ?E1, ?E6; try done.
  - rewrite E2. change (partial_alter (λ _, Some gf) g (GlobalFarm s)) with (<[g := gf]> (GlobalFarm s)).
    by rewrite insert_id.
  - by rewrite partial_alter_self.
  - intros ? [= <-]. destruct Go as [? ? ? ? G4 G5 G6].
    assert (is_live yf' = is_live yf) as El by (unfold is_live; by rewrite Sy).
    constructor; try done; rewrite Efs; [rewrite El|change (one_farm yf) with (one_farm yf')|]; lia.
  - intros gf0 ? p' y' w ? [= <-] Hw _. simplify_eq. destruct (inv_yield s I _ _ Hw) as (gf1 & Hg1 & Yo1).
    simpl in Hg1. simplify_eq. split_and!; [done..|]. apply Yo1.
  - intros ? [= <-]. exists gf. split; [done|]. destruct Yo.
    constructor; rewrite ?Iy, ?Ry, ?Uy, ?Sy; done.
  - intros ? ? ? [= <-]. by simplify_eq.
  - intros ? [= <-]. split_and!; [lia..|done|done|]. intros e He. specialize (Hes e He).
    case_decide as Ek; [by eauto|]. destruct Hd as [Hd|[_ Hd]]; [|by rewrite Hd in Hes; apply not_elem_of_nil in Hes].
    exists d. split_and!; [done| |done]. unfold entry_key. by rewrite Eamm.
  - intros f k' Hf' Hne. rewrite (stored_or_empty_sum s i d) by done. simpl. by apply Hk.
  - intros y'. rewrite E3. eapply active_unchanged; [done..|]. by rewrite Sy.
Qed.

(** A new entry joins its yield farm with nothing owed to it. *)
Lemma inv_add_entry s s' g p y gf yf i d v :
  let e := YieldFarmEntry.new g y v (YieldFarmData.accumulated_rpvs yf) (YieldFarmData.updated_at yf)
    (YieldFarmData.total_stopped yf) in
  let d' := DepositData.set_yield_farm_entries (DepositData.yield_farm_entries d ++ [e]) d in
  let yf' := YieldFarmData.set_entries_count (YieldFarmData.entries_count yf + 1)
    (YieldFarmData.set_total_valued_shares (YieldFarmData.total_valued_shares yf + v)
      (YieldFarmData.set_total_shares (YieldFarmData.total_shares yf + DepositData.shares d) yf)) in
  lm_inv s → GlobalFarm s !! g = Some gf → YieldFarm s !! (p, g, y) = Some yf →
  stored_or_empty s i d → DepositData.amm_pool_id d = p → YieldFarmData.state yf ≠ FarmState.Terminated →
  fits u128 v → fits u128 (DepositData.shares d) →
  (∀ e', e' ∈ DepositData.yield_farm_entries d → YieldFarmEntry.yield_farm_id e' ≠ y) →
  YieldFarmData.total_shares yf + DepositData.shares d <= max_value u128 →
  YieldFarmData.total_valued_shares yf + v <= max_value u128 →
  FarmSequencer s' = FarmSequencer s → GlobalFarm s' = GlobalFarm s →
  YieldFarm s' = <[(p, g, y) := yf']> (YieldFarm s) → Deposit s' = <[i := d']> (Deposit s) →
  ActiveYieldFarm s' = ActiveYieldFarm s → lm_ext s' = lm_ext s →
  (DepositSequencer s <= DepositSequencer s' ∧ fits u128 (DepositSequencer s')) → 0 < i <= DepositSequencer s' →
  lm_inv s'.
Proof.
  intros e d' yf' I Hg Hy Hd Ep Hst Hv Hsh Hnew B1 B2 E1 E2 E3 E4 E5 E6 Hseq Hi.
  destruct (inv_yield s I _ _ Hy) as (gf0 & Hg0 & Yo). simpl in Hg0. simplify_eq.
  pose proof (yo_typed _ _ _ _ _ _ Yo) as Ty.
  assert (entry_key d e = (DepositData.amm_pool_id d, g, y)) as Ek by done.
  assert (∀ f k, each_kind f → deposit_sum f k d' = deposit_sum f k d + if decide (entry_key d e = k) then f d e else 0)
    as Eds.
  { intros f k Hf. unfold d'. rewrite deposit_sum_set, sum_list_with_Z_app by done. unfold deposit_sum. simpl.
    case_decide; lia. }
  assert (∀ f, each_kind f → entry_sum f (DepositData.amm_pool_id d, g, y) (Deposit s')
    = entry_sum f (DepositData.amm_pool_id d, g, y) (Deposit s) + f d e) as Ees.
  { intros f Hf. rewrite E4. change (<[?k := ?v]> ?m) with (partial_alter (λ _, Some v) k m).
    rewrite entry_sum_alter, (stored_or_empty_sum s i d) by done. simpl. rewrite Eds, decide_True by done. lia. }
  destruct Yo.
  apply (inv_change_entries s s' g (DepositData.amm_pool_id d) y gf yf yf' i d d'); try done.
  - unfold lm_block. by rewrite E6.
  - destruct Ty. constructor; simpl; try done; unfold fits in *; lia.
  - rewrite Ees by (unfold each_kind; eauto). simpl. by rewrite yo_entries0.
  - rewrite Ees by (unfold each_kind; eauto). simpl. by rewrite yo_shares0.
  - rewrite Ees by (unfold each_kind; eauto). simpl. by rewrite yo_valued0.
  - rewrite Ees by (unfold each_kind; eauto). simpl. unfold owed_each at 2, entry_owed. simpl.
    specialize (yo_owed0 Hst). lia.
  - simpl. rewrite fmap_app. apply NoDup_app. split_and!.
    + destruct Hd as [Hd|[_ ->]]; [by apply (inv_deposit s I i)|constructor].
    + intros z Hz Hz'. apply list_elem_of_singleton in Hz' as ->. apply list_elem_of_fmap in Hz as (e' & He & Hin).
      by eapply Hnew.
    + apply NoDup_singleton.
  - intros e' [He'|He'%list_elem_of_singleton]%elem_of_app.
    + case_decide as Hk; [|done]. change (entry_key d' e') with (entry_key d e') in Hk. injection Hk as _ Hk.
      by apply Hnew in He'.
    + subst e'. rewrite decide_True by done. apply (entry_ok_grows yf); [done| |done|by apply entry_ok_new].
      destruct Ty. constructor; simpl; try done; unfold fits in *; lia.
  - intros f k' Hf Hne. rewrite Eds, decide_False by congruence. lia.
  - intros c pot Hpot. rewrite E2, E3, E6. rewrite <- (insert_id (GlobalFarm s) g gf) by done.
    rewrite (held_insert_pair c _ _ g _ y gf gf yf yf') by done. simpl. pose proof (inv_pot s I c pot Hpot).
    unfold when. case_decide; lia.
Qed.

Section deposit_calls.
Context (value : AssetId → AmmPoolId → Balance → X → result Z Balance).
Hypothesis value_fits : ∀ a p n x v, fits u128 n → value a p n x = Ok v → fits u128 v.

Lemma do_deposit_inv s g y i d d' s1 :
  lm_inv s → stored_or_empty s i d → fits u128 (DepositData.shares d) →
  do_deposit_lp_shares T d g y value s = Ok (d', s1) →
  DepositSequencer s1 = DepositSequencer s ∧ Deposit s1 = Deposit s ∧
  ∀ seq, DepositSequencer s <= seq ∧ fits u128 seq → 0 < i <= seq →
    lm_inv (set_Deposit (<[i := d']> (Deposit s1)) (set_DepositSequencer seq s1)).
Proof.
  intros I Hd Hsh Hr. unfold do_deposit_lp_shares, put_global_farm, put_yield_farm, defensive_or, defensive_ensure,
    or_overflow in Hr. inv_pallet.
  match goal with Hy : YieldFarm s !! (DepositData.amm_pool_id d, g, y) = Some ?yf0, Hg : GlobalFarm s !! g = Some ?gf0,
      Hs : sync_global_farm _ _ _ _ = Ok _, Hs' : sync_yield_farm _ _ _ _ = Ok (?yf0', ?gf0', ?s0') |- _ =>
    eapply (sync_stored_farms s g (DepositData.amm_pool_id d)) in Hs' as (Ecp & Ss & Sg & Sy & _ & I1); [|done..];
    rename yf0' into yf', gf0' into gf', s0' into s2, yf0 into yf, gf0 into gf; rename Hy into Hyf, Hg into Hgf end.
  destruct Ss as [S1 S2 S3 S4 S5 S6 S7]. simpl. rewrite S2, S5. split_and!; [done..|]. intros seq Hseq Hi.
  match goal with E : value _ _ _ _ = Ok _ |- _ => apply value_fits in E as Hv; [|done] end.
  destruct (ys_typed _ _ _ _ _ Sy) as [Ty _]. destruct (yield_synced_fields _ _ _ _ _ Sy) as (Est & _).
  match goal with E : GlobalFarmData.add_stake _ _ = Ok _ |- _ =>
    eapply (add_stake_inv _ g) in E as ((total & ->) & _ & I2);
      [|exact I1|eapply stake_nonneg; [| |eassumption]; [done|apply Ty]] end.
  match goal with E : FarmState.is_active (YieldFarmData.state yf) = true |- _ => apply is_active_true in E as Hact end.
  destruct (inv_pair_ok _ _ _ _ _ _ I2) as [Go Yo]. pose proof (go_id _ _ _ _ _ Go) as Eg.
  pose proof (yo_id _ _ _ _ _ _ Yo) as Ey. simpl in Eg, Ey.
  match goal with E : DepositData.add_yield_farm_entry _ _ _ = Ok _ |- _ =>
    apply add_yield_farm_entry_Ok in E as [-> Hnew] end.
  simpl in *. rewrite <- (ys_active _ _ _ _ _ Sy Hact), Eg, Ey in *. clear Eg Ey.
  match goal with E : YieldFarmData.increase_entries_count _ = Ok _ |- _ =>
    unfold YieldFarmData.increase_entries_count in E; inv_run end. simpl in *.
  eapply (inv_add_entry _ _ g (DepositData.amm_pool_id d) y _ yf' i d); [exact I2|..]; try done; simpl.
  - apply lookup_insert_eq.
  - apply lookup_insert_eq.
  - unfold stored_or_empty in *. simpl. by rewrite S5.
  - congruence.
  - by rewrite insert_insert_eq.
  - by rewrite S5.
  - by rewrite S2.
Qed.

Lemma deposit_lp_shares_inv g y p n s v s' :
  lm_inv s → fits u128 n → deposit_lp_shares T g y p n value s = Ok (v, s') → lm_inv s'.
Proof.
  intros I Hn Hr. unfold deposit_lp_shares, get_next_deposit_id, put_deposit in Hr. inv_pallet.
  match goal with E : do_deposit_lp_shares _ _ _ _ _ _ = Ok _ |- _ =>
    apply (do_deposit_inv s g y (DepositSequencer s + 1)) in E as (E1 & E2 & Hfin); [|done| |done] end.
  - rewrite E1 in *. pose proof (inv_deposit_seq s I) as Hs. unfold fits in Hs.
    apply (Hfin (DepositSequencer s + 1)); unfold fits; lia.
  - right. split; [|done]. destruct (Deposit s !! (DepositSequencer s + 1)) as [d|] eqn:E; [|done].
    destruct (inv_deposit s I _ _ E). lia.
Qed.

Lemma redeposit_lp_shares_inv g y i s v s' :
  lm_inv s → redeposit_lp_shares T g y i value s = Ok (v, s') → lm_inv s'.
Proof.
  intros I Hr. unfold redeposit_lp_shares, put_deposit, defensive_or in Hr. inv_pallet.
  match goal with Hd : Deposit s !! i = Some ?d, E : do_deposit_lp_shares _ _ _ _ _ _ = Ok (_, ?s1) |- _ =>
    destruct (inv_deposit s I i d Hd) as [Hi Hsh _ _];
    apply (do_deposit_inv s g y i) in E as (E1 & E2 & Hfin); [|done|by left|done]; rename s1 into s' end.
  assert (set_DepositSequencer (DepositSequencer s) s' = s') as E by (rewrite <- E1; by destruct s').
  rewrite <- E at 2. apply Hfin; [|done]. split; [done|apply (inv_deposit_seq s I)].
Qed.
End deposit_calls.

(** The same entry of a deposit, found twice. *)
Lemma entry_unique s i d j j' e e' :
  lm_inv s → Deposit s !! i = Some d →
  DepositData.yield_farm_entries d !! j = Some e → DepositData.yield_farm_entries d !! j' = Some e' →
  YieldFarmEntry.yield_farm_id e = YieldFarmEntry.yield_farm_id e' → e = e'.
Proof.
  intros I Hd Hj Hj' E. destruct (inv_deposit s I i d Hd) as [_ _ Hnd _].
  assert (j = j') as ->; [|congruence].
  apply (NoDup_lookup _ _ _ (YieldFarmEntry.yield_farm_id e) Hnd); rewrite list_lookup_fmap.
  - by rewrite Hj.
  - by rewrite Hj', E.
Qed.

(** *** Claims *)

(** The user is paid what they can claim. *)
Lemma inv_pay s s' g p y gf yf i d idx e r u :
  let yf' := YieldFarmData.set_left_to_distribute (YieldFarmData.left_to_distribute yf - r) yf in
  let e' := YieldFarmEntry.set_updated_at u
    (YieldFarmEntry.set_accumulated_claimed_rewards (YieldFarmEntry.accumulated_claimed_rewards e + r) e) in
  let d' := DepositData.set_yield_farm_entries (<[idx := e']> (DepositData.yield_farm_entries d)) d in
  lm_inv s → GlobalFarm s !! g = Some gf → YieldFarm s !! (p, g, y) = Some yf → Deposit s !! i = Some d →
  DepositData.yield_farm_entries d !! idx = Some e → entry_key d e = (p, g, y) →
  YieldFarmData.state yf ≠ FarmState.Terminated →
  0 <= r → r <= YieldFarmData.left_to_distribute yf →
  YieldFarmEntry.accumulated_claimed_rewards e + r <= entry_claimable yf e →
  YieldFarmEntry.accumulated_claimed_rewards e + r <= max_value u128 →
  FarmSequencer s' = FarmSequencer s → DepositSequencer s' = DepositSequencer s → GlobalFarm s' = GlobalFarm s →
  YieldFarm s' = <[(p, g, y) := yf']> (YieldFarm s) → Deposit s' = <[i := d']> (Deposit s) →
  ActiveYieldFarm s' = ActiveYieldFarm s → lm_block s' = lm_block s →
  (∀ c pot, pot_account_id T = Some pot → free_balance c pot (lm_ext s)
    - when (GlobalFarmData.reward_currency gf = c) r <= free_balance c pot (lm_ext s')) →
  lm_inv s'.
Proof.
  intros yf' e' d' I Hg Hy Hd He Ek Hst Hr Hl Hc Hmax E1 E2 E3 E4 E5 E6 E7 Hpot.
  destruct (inv_yield s I _ _ Hy) as (gf0 & Hg0 & Yo). simpl in Hg0. simplify_eq.
  pose proof (yo_typed _ _ _ _ _ _ Yo) as Ty. pose proof (inv_deposit s I i d Hd) as Do.
  assert (e ∈ DepositData.yield_farm_entries d) as Hin by by eapply list_elem_of_lookup_2.
  destruct (do_entries _ _ _ _ Do e Hin) as (yf0 & Hy0 & Eo). rewrite Ek in Hy0. simplify_eq.
  assert (∀ f k, each_kind f → deposit_sum f k d'
    = deposit_sum f k d + if decide ((p, g, y) = k) then f d e' - f d e else 0) as Eds.
  { intros f k Hf. unfold d'. rewrite deposit_sum_set, (sum_list_with_Z_insert _ _ _ e) by done.
    change (entry_key d e') with (entry_key d e). rewrite Ek. unfold deposit_sum. case_decide; lia. }
  assert (∀ f, each_kind f → entry_sum f (p, g, y) (Deposit s')
    = entry_sum f (p, g, y) (Deposit s) + f d e' - f d e) as Ees.
  { intros f Hf. rewrite E5. change (<[?k := ?v]> ?m) with (partial_alter (λ _, Some v) k m).
    rewrite entry_sum_alter, Hd. simpl. rewrite Eds, decide_True by done. lia. }
  assert (yield_typed yf') as Ty'.
  { destruct Ty. constructor; simpl; try done. unfold fits in *. lia. }
  assert (entry_ok yf' e') as Eo'.
  { destruct Eo as [[] ? ? ? ?]. constructor; simpl; try done. constructor; simpl; try done. unfold fits in *. lia. }
  destruct Yo.
  apply (inv_change_entries s s' g p y gf yf yf' i d d'); try done.
  - by left.
  - rewrite E2. split; [done|]. apply (inv_deposit_seq s I).
  - rewrite E2. apply Do.
  - simpl. lia.
  - rewrite Ees by (unfold each_kind; eauto). change (one_each d e') with (one_each d e). by rewrite Z.add_simpl_r.
  - rewrite Ees by (unfold each_kind; eauto). change (shares_each d e') with (shares_each d e). by rewrite Z.add_simpl_r.
  - rewrite Ees by (unfold each_kind; eauto). change (valued_each d e') with (valued_each d e). by rewrite Z.add_simpl_r.
  - rewrite Ees by (unfold each_kind; eauto). simpl. unfold owed_each at 2 3, entry_owed. simpl.
    specialize (yo_owed0 Hst). lia.
  - apply Do.
  - simpl. rewrite list_fmap_insert. simpl. rewrite list_insert_id; [apply Do|].
    by rewrite list_lookup_fmap, He.
  - intros e0 (j & Hj)%list_elem_of_lookup. simpl in Hj. change (entry_key d' e0) with (entry_key d e0).
    apply list_lookup_insert_Some in Hj as [(-> & <- & _)|[Hne Hj]].
    + by rewrite decide_True.
    + assert (e0 ∈ DepositData.yield_farm_entries d) as Hin0 by by eapply list_elem_of_lookup_2.
      case_decide as Ek0; [|done]. destruct (do_entries _ _ _ _ Do e0 Hin0) as (yf1 & Hy1 & Eo1).
      rewrite Ek0 in Hy1. simplify_eq. by eapply (entry_ok_grows yf).
  - intros f k' Hf Hne. rewrite Eds, decide_False by congruence. lia.
  - intros c pot Hp. rewrite E3, E4. rewrite <- (insert_id (GlobalFarm s) g gf) by done.
    rewrite (held_insert_pair c _ _ g p y gf gf yf yf') by done. simpl. pose proof (inv_pot s I c pot Hp).
    specialize (Hpot c pot Hp). unfold when in *. case_decide; lia.
Qed.
End books.
