(* ===== verification/LiquidityMiningClaims.v ===== *)
(** * Claims and withdrawals of liquidity mining

    [LiquidityMiningInvariant] shows that the operations of the farm owners and the
    deposits keep the books.  This file adds the two operations that pay out: a
    claim pays an entry exactly what it can claim ([claimed]), and a withdrawal
    gives what the entry cannot claim back to the global farm. *)

From S2P Require Import Prelude Arithmetic Currency LiquidityMiningMath LiquidityMining LiquidityMiningInvariant.

Section claims.
Context {X AccountId AmmPoolId : Type} `{EqDecision AccountId} `{Countable AmmPoolId} `{!Inhabited AmmPoolId}.
Context `{SpArithmeticLaws}.
Context `{!MultiCurrency X AccountId} `{!MultiCurrencyLaws X AccountId}.
Context (T : LmConfig X AccountId) `{!LmConfigLaws T}.

Notation lm := (lm X AccountId AmmPoolId).
Notation lm_inv := (lm_inv T).
Notation lm_block := (lm_block T).
Implicit Types (s : lm) (gf : GlobalFarmData.t AccountId) (yf : YieldFarmData.t) (d : DepositData.t AmmPoolId)
  (e : YieldFarmEntry.t) (k : AmmPoolId * Z * Z) (D : gmap Z (DepositData.t AmmPoolId))
  (YF : gmap (AmmPoolId * Z * Z) YieldFarmData.t) (p : AmmPoolId) (g y i : Z).

Lemma rewarded_periods_Ok yf e s n s' :
  rewarded_periods yf e s = Ok (n, s') → s' = s ∧ n = entry_periods yf e.
Proof. unfold rewarded_periods, defensive_or, entry_periods. intros Hr. inv_run. split; [done|lia]. Qed.

Lemma get_loyalty_multiplier_Ok yf e m :
  yield_typed yf → entry_ok yf e →
  get_loyalty_multiplier (entry_periods yf e) (YieldFarmData.loyalty_curve yf) = Ok m → m = entry_loyalty yf e.
Proof.
  intros Ty Eo Hr. unfold get_loyalty_multiplier in Hr. unfold entry_loyalty.
  destruct (YieldFarmData.loyalty_curve yf) as [c|] eqn:E; [|by inv_run].
  destruct (yt_curve yf Ty c E) as [Hi Hs]. inv_run.
  match goal with Hc : calculate_loyalty_multiplier _ _ _ = Ok _ |- _ =>
    rewrite calculate_loyalty_multiplier_spec in Hc by (done || by apply entry_periods_fits) end.
  case_match; by inv_run.
Qed.

(** The rewards of an entry, and those it gives up by leaving. *)
Lemma calculate_user_reward_Ok yf e r un :
  yield_typed yf → entry_ok yf e →
  calculate_user_reward (YieldFarmEntry.accumulated_rpvs e) (YieldFarmEntry.valued_shares e)
    (YieldFarmEntry.accumulated_claimed_rewards e) (YieldFarmData.accumulated_rpvs yf) (entry_loyalty yf e) = Ok (r, un) →
  YieldFarmEntry.accumulated_claimed_rewards e + r = entry_claimable yf e ∧
  un = entry_max yf e - entry_claimable yf e ∧ 0 <= r ∧ 0 <= un.
Proof.
  intros Ty Eo Hr. pose proof (entry_claimable_le yf e Ty Eo) as Hc. pose proof (eo_claimed yf e Eo) as Hcl.
  pose proof (entry_loyalty_bounds yf e Ty Eo) as Hl.
  destruct Eo as [[] ? ? ? ?]. destruct Ty. unfold calculate_user_reward in Hr. inv_run.
  match goal with E : calculate_reward _ _ _ = Ok _ |- _ =>
    apply calculate_reward_Ok in E as (? & Emax & ?); [|done..] end.
  match type of Emax with ?x = _ => change (x = entry_max yf e) in Emax; subst x end.
  case_match; inv_run; propify.
  - match goal with Hz : entry_max yf e = 0 |- _ =>
      assert (entry_claimable yf e = 0) as E by (unfold entry_claimable; rewrite Hz, Z.mul_0_r; done) end.
    unfold fits in *. lia.
  - match goal with E : fixed_checked_mul_int _ _ = Some _ |- _ =>
      rewrite fixed_checked_mul_int_spec in E; [|unfold fits, max_value, u128, DIV in *; lia|done]; inv_run end.
    change (entry_loyalty yf e * entry_max yf e / DIV) with (entry_claimable yf e) in *. lia.
Qed.

(** The payment of a claim: out of the pot, to the user or to the treasury. *)
Lemma pay_rewards_Ok c who r tr cp yf e s yf' e' s' :
  0 <= r → pay_rewards T c who r tr cp yf e s = Ok ((yf', e'), s') →
  ∃ u x, s' = set_lm_ext x s ∧ lm_block s' = lm_block s ∧
    yf' = YieldFarmData.set_left_to_distribute (YieldFarmData.left_to_distribute yf - r) yf ∧
    e' = YieldFarmEntry.set_updated_at u (YieldFarmEntry.set_accumulated_claimed_rewards
           (YieldFarmEntry.accumulated_claimed_rewards e + r) e) ∧
    (r = 0 ∧ x = lm_ext s ∨
     r <= YieldFarmData.left_to_distribute yf ∧ YieldFarmEntry.accumulated_claimed_rewards e + r <= max_value u128 ∧
     ∃ pot, pot_account_id T = Some pot ∧
       transfer c pot (if tr then TreasuryAccountId T else who) r AllowDeath (lm_ext s) = Ok x).
Proof.
  intros H0r Hr. unfold pay_rewards, defensive_or, lm_call in Hr. case_match; inv_pallet; inv_ext.
  - match goal with E : transfer _ _ _ _ _ _ = Ok ?x0 |- _ =>
      pose proof (lm_transfer_block _ _ _ _ _ _ _ E); exists cp, x0 end.
    split_and!; [done..|]. right. eauto 10.
  - exists (YieldFarmEntry.updated_at e), (lm_ext s). propify. assert (r = 0) as -> by lia.
    rewrite Z.sub_0_r, Z.add_0_r.
    split_and!; [by destruct s|done|by destruct yf|by destruct e|by left].
Qed.

(** What a claim does: the farms are synchronised, the entry is paid what it can
    claim - to the treasury when the user could not hold it - and what the entry
    would give up by leaving is reported. *)
Inductive claimed who i y s c (paid un : Balance) s' : Prop :=
| Claimed d idx e u gf gf1 fresh s1 yf yf' (r ed : Balance) :
    lm_inv s' →
    Deposit s !! i = Some d → DepositData.yield_farm_entries d !! idx = Some e →
    YieldFarmEntry.yield_farm_id e = y →
    GlobalFarm s !! YieldFarmEntry.global_farm_id e = Some gf → c = GlobalFarmData.reward_currency gf →
    YieldFarm s !! entry_key d e = Some yf → YieldFarmData.state yf ≠ FarmState.Terminated →
    global_synced T s gf (lm_block s / GlobalFarmData.blocks_per_period gf) gf1 fresh s1 →
    YieldFarm s' !! entry_key d e = Some yf' →
    YieldFarmData.state yf' = YieldFarmData.state yf →
    Deposit s' = <[i := DepositData.set_yield_farm_entries (<[idx := YieldFarmEntry.set_updated_at u
      (YieldFarmEntry.set_accumulated_claimed_rewards (entry_claimable yf' e) e)]>
        (DepositData.yield_farm_entries d)) d]> (Deposit s) →
    r = entry_claimable yf' e - YieldFarmEntry.accumulated_claimed_rewards e → 0 <= r →
    un = entry_max yf' e - entry_claimable yf' e → 0 <= un →
    registry_existential_deposit T c (lm_ext s1) = Some ed →
    let to_treasury := (r <? ed) && (free_balance c who (lm_ext s1) <? ed) in
    paid = (if to_treasury then 0 else r) →
    (r = 0 ∧ lm_ext s' = lm_ext s1 ∨
     ∃ pot, pot_account_id T = Some pot ∧
       transfer c pot (if to_treasury then TreasuryAccountId T else who) r AllowDeath (lm_ext s1) = Ok (lm_ext s')) →
    claimed who i y s c paid un s'.

(** The entries of a deposit, at the farm they are in. *)
Lemma stored_entry s i d idx e yf :
  lm_inv s → Deposit s !! i = Some d → DepositData.yield_farm_entries d !! idx = Some e →
  YieldFarm s !! entry_key d e = Some yf → yield_typed yf ∧ entry_ok yf e.
Proof.
  intros I Hd He Hy. destruct (inv_deposit T s I i d Hd) as [_ _ _ Do].
  destruct (Do e (list_elem_of_lookup_2 _ _ _ He)) as (yf' & Hy' & Eo). simplify_eq.
  destruct (inv_yield T s I _ _ Hy) as (gf & _ & Yo). split; [apply Yo|done].
Qed.

(** The books after the payment. *)
Lemma inv_paid s i d idx e yf gf r u x :
  let k := entry_key d e in
  let e' := YieldFarmEntry.set_updated_at u
    (YieldFarmEntry.set_accumulated_claimed_rewards (YieldFarmEntry.accumulated_claimed_rewards e + r) e) in
  let yf' := YieldFarmData.set_left_to_distribute (YieldFarmData.left_to_distribute yf - r) yf in
  lm_inv (with_global (YieldFarmEntry.global_farm_id e) gf (with_yield k yf s)) →
  Deposit s !! i = Some d → DepositData.yield_farm_entries d !! idx = Some e →
  YieldFarmData.state yf ≠ FarmState.Terminated → 0 <= r →
  YieldFarmEntry.accumulated_claimed_rewards e + r = entry_claimable yf e → lm_block (set_lm_ext x s) = lm_block s →
  (r = 0 ∧ x = lm_ext s ∨ r <= YieldFarmData.left_to_distribute yf ∧
    YieldFarmEntry.accumulated_claimed_rewards e + r <= max_value u128 ∧
    ∃ pot to, pot_account_id T = Some pot ∧
      transfer (GlobalFarmData.reward_currency gf) pot to r AllowDeath (lm_ext s) = Ok x) →
  lm_inv (set_Deposit (<[i := DepositData.set_yield_farm_entries (<[idx := e']> (DepositData.yield_farm_entries d)) d]>
            (Deposit s))
    (set_YieldFarm (<[k := yf']> (YieldFarm s))
      (set_GlobalFarm (<[YieldFarmEntry.global_farm_id e := gf]> (GlobalFarm s)) (set_lm_ext x s)))).
Proof.
  intros k e' yf' I Hd He Hst Hr Hc Hb Hpay.
  destruct (stored_entry _ i d idx e yf I Hd He) as [Ty Eo]; [apply lookup_insert_eq|].
  pose proof (et_claimed _ (eo_typed _ _ Eo)) as Hcl. pose proof (yt_left _ Ty) as Hl. unfold fits in Hcl, Hl.
  eapply (inv_pay T _ _ (YieldFarmEntry.global_farm_id e) (DepositData.amm_pool_id d) (YieldFarmEntry.yield_farm_id e)
    gf yf i d idx e r u); [exact I|..]; try done; simpl.
  - apply lookup_insert_eq.
  - apply lookup_insert_eq.
  - destruct Hpay as [[-> _]|[? _]]; lia.
  - lia.
  - destruct Hpay as [[-> _]|(_ & ? & _)]; lia.
  - by rewrite insert_insert_eq.
  - intros c pot Hp. destruct Hpay as [[-> ->]|(_ & _ & pot' & to & Hp' & Ht)].
    + unfold when. case_decide; lia.
    + simplify_eq. apply transfer_moves in Ht as (_ & -> & _); [|done]. by_moves.
Qed.

Lemma claim_rewards_claimed who i y b s gid cur paid un s' :
  lm_inv s → claim_rewards T who i y b s = Ok ((gid, cur, paid, un), s') → claimed who i y s cur paid un s'.
Proof.
  intros I Hr. unfold claim_rewards, put_global_farm, put_yield_farm, put_deposit, defensive_or, or_overflow in Hr.
  inv_pallet.
  match goal with Hd : Deposit s !! i = Some ?d0, He : DepositData.get_yield_farm_entry y ?d0 = Some (?n0, ?e0),
      Hy : YieldFarm s !! _ = Some ?yf0, Hg : GlobalFarm s !! _ = Some ?gf0,
      Hs : sync_global_farm _ _ _ _ = Ok (?gf1', ?fr, ?s1'),
      Hs' : sync_yield_farm _ _ _ _ = Ok (?yf0', ?gf0', ?s0') |- _ =>
    apply get_yield_farm_entry_Some in He as [He <-];
    eapply (sync_stored_farms T s (YieldFarmEntry.global_farm_id e0) (DepositData.amm_pool_id d0)) in Hs'
      as (Ecp & Ss & Sg & Sy & Ex & I1); [|done..];
    rename yf0' into yf', gf0' into gf', s0' into s2, yf0 into yf, gf0 into gf, d0 into d, n0 into idx, e0 into e,
      gf1' into gf1, fr into fresh, s1' into s1, Hy into Hyf, Hg into Hgf, Hd into Hdep end.
  match goal with E : rewarded_periods _ _ _ = Ok _ |- _ => apply rewarded_periods_Ok in E as [-> ->] end.
  destruct Ss as [S1 S2 S3 S4 S5 S6 S7].
  assert (Deposit (with_global (YieldFarmEntry.global_farm_id e) gf' (with_yield (entry_key d e) yf' s2)) !! i = Some d)
    as Hd2 by by simpl; rewrite S5.
  destruct (stored_entry _ i d idx e yf' I1 Hd2) as [Ty Eo]; [done|apply lookup_insert_eq|].
  match goal with E : get_loyalty_multiplier _ _ = Ok _ |- _ => apply get_loyalty_multiplier_Ok in E; [subst|done..] end.
  match goal with E : calculate_user_reward _ _ _ _ _ = Ok _ |- _ =>
    apply calculate_user_reward_Ok in E as (Ecl & -> & Hr0 & Hu0); [|done..] end.
  match goal with E : pay_rewards _ _ _ _ _ _ _ _ _ = Ok _ |- _ =>
    apply pay_rewards_Ok in E as (u & x & -> & Eb & -> & -> & Hpay); [|done] end.
  destruct (yield_synced_fields _ _ _ _ _ Sy) as (Est & _ & _ & _ & _ & _ & Ec' & _).
  destruct (synced_fields T _ _ _ _ _ _ Sg) as (_ & _ & _ & Ec).
  match goal with E : registry_existential_deposit _ _ _ = Some ?ed0 |- _ => rename ed0 into ed end.
  eapply (Claimed _ _ _ _ _ _ _ _ d idx e u gf gf1 fresh s1 yf
    (YieldFarmData.set_left_to_distribute (YieldFarmData.left_to_distribute yf' - z0) yf') z0 ed); try done.
  - eapply (inv_paid s2 i d idx e yf' gf' z0); try done.
    + rewrite Est. by apply is_terminated_false.
    + naive_solver.
  - congruence.
  - by apply is_terminated_false.
  - apply lookup_insert_eq.
  - simpl. by rewrite S5, Ecl.
  - change (entry_claimable _ _) with (entry_claimable yf' e). lia.
  - by rewrite <- Ex.
  - by rewrite <- Ex.
  - rewrite <- Ex. naive_solver.
Qed.

Lemma claim_rewards_inv who i y b s v s' :
  lm_inv s → claim_rewards T who i y b s = Ok (v, s') → lm_inv s'.
Proof. intros I Hr. destruct v as [[[g c] paid] un]. by apply claim_rewards_claimed in Hr as []. Qed.

(** ** Withdrawals *)

(** An entry leaves its deposit. *)
Lemma deposit_sum_remove f k d idx e :
  each_kind f → DepositData.yield_farm_entries d !! idx = Some e →
  deposit_sum f k (DepositData.set_yield_farm_entries (swap_remove idx (DepositData.yield_farm_entries d)) d)
  = deposit_sum f k d - if decide (entry_key d e = k) then f d e else 0.
Proof.
  intros Hf He. rewrite deposit_sum_set by done. unfold deposit_sum.
  rewrite (swap_remove_perm (DepositData.yield_farm_entries d) idx e He) at 2. simpl. lia.
Qed.

Section withdraw.
Context (s s' : lm) (i : Z) (d : DepositData.t AmmPoolId) (idx : nat) (e : YieldFarmEntry.t).
Context (gf : GlobalFarmData.t AccountId) (yf : YieldFarmData.t) (un : Balance).
Context (ogf : option (GlobalFarmData.t AccountId)) (oyf : option YieldFarmData.t)
  (od : option (DepositData.t AmmPoolId)).

Notation g := (YieldFarmEntry.global_farm_id e).
Notation k := (DepositData.amm_pool_id d, g, YieldFarmEntry.yield_farm_id e).
Let d' := DepositData.set_yield_farm_entries (swap_remove idx (DepositData.yield_farm_entries d)) d.
Let yf' := YieldFarmData.set_entries_count (YieldFarmData.entries_count yf - 1)
  (YieldFarmData.set_left_to_distribute (YieldFarmData.left_to_distribute yf - un)
    (YieldFarmData.set_total_valued_shares (YieldFarmData.total_valued_shares yf - YieldFarmEntry.valued_shares e)
      (YieldFarmData.set_total_shares (YieldFarmData.total_shares yf - DepositData.shares d) yf))).
Let gf' := GlobalFarmData.set_total_yield_farms_count
  (GlobalFarmData.total_yield_farms_count gf - 1 + from_option one_farm 0 oyf)
  (GlobalFarmData.set_accumulated_paid_rewards (GlobalFarmData.accumulated_paid_rewards gf - un) gf).

Hypothesis I : lm_inv s.
Hypothesis Hd : Deposit s !! i = Some d.
Hypothesis He : DepositData.yield_farm_entries d !! idx = Some e.
Hypothesis Hg : GlobalFarm s !! g = Some gf.
Hypothesis Hy : YieldFarm s !! k = Some yf.
Hypothesis Hun : 0 <= un <= YieldFarmData.left_to_distribute yf.
Hypothesis Hpaid : un <= GlobalFarmData.accumulated_paid_rewards gf.
Hypothesis Hshares : DepositData.shares d <= YieldFarmData.total_shares yf.
Hypothesis Hvalued : YieldFarmEntry.valued_shares e <= YieldFarmData.total_valued_shares yf.
Hypothesis Howed : un ≠ 0 → un * DIV <= entry_owed (YieldFarmData.accumulated_rpvs yf) e.
Hypothesis Hkept : kept_or_removed yf' oyf.
Hypothesis Hglobal : ogf = Some gf' ∨ ogf = None ∧ GlobalFarmData.can_be_removed gf' = true.
Hypothesis Hdeposit : od = Some d' ∨ od = None ∧ DepositData.yield_farm_entries d' = [].
Hypothesis E1 : FarmSequencer s' = FarmSequencer s.
Hypothesis E2 : DepositSequencer s' = DepositSequencer s.
Hypothesis E3 : GlobalFarm s' = partial_alter (λ _, ogf) g (GlobalFarm s).
Hypothesis E4 : YieldFarm s' = partial_alter (λ _, oyf) k (YieldFarm s).
Hypothesis E5 : Deposit s' = partial_alter (λ _, od) i (Deposit s).
Hypothesis E6 : ActiveYieldFarm s' = ActiveYieldFarm s.
Hypothesis E7 : lm_block s' = lm_block s.
Hypothesis Hpot : ∀ c pot, pot_account_id T = Some pot → free_balance c pot (lm_ext s)
  - when (GlobalFarmData.reward_currency gf = c) un <= free_balance c pot (lm_ext s').

Lemma withdraw_deposit_sum f k' :
  each_kind f → from_option (deposit_sum f k') 0 od = deposit_sum f k' d - if decide (k = k') then f d e else 0.
Proof.
  intros Hf. change k with (entry_key d e). rewrite <- (deposit_sum_remove f k' d idx e Hf He). fold d'.
  destruct Hdeposit as [->|[-> E]]; [done|]. simpl. unfold deposit_sum. by rewrite E.
Qed.

Lemma withdraw_entry_sum f : each_kind f → entry_sum f k (Deposit s') = entry_sum f k (Deposit s) - f d e.
Proof.
  intros Hf. rewrite E5, entry_sum_alter, Hd, withdraw_deposit_sum, decide_True by done. simpl. lia.
Qed.

Lemma withdraw_yield_typed : yield_typed yf'.
Proof.
  destruct (stored_entry s i d idx e yf I Hd He Hy) as [[] [[] _ _ _ _]].
  pose proof (do_shares _ _ _ _ (inv_deposit T s I i d Hd)).
  constructor; simpl; try done; unfold fits in *; lia.
Qed.

Lemma withdraw_yield_ok : yield_ok (lm_block s') (FarmSequencer s') (Deposit s') k gf' yf'.
Proof.
  destruct (inv_yield T s I _ _ Hy) as (gf0 & Hg0 & []). simpl in Hg0. simplify_eq.
  constructor; simpl; rewrite ?E1, ?E7; try done.
  - apply withdraw_yield_typed.
  - rewrite withdraw_entry_sum by (unfold each_kind; eauto). by rewrite yo_entries.
  - rewrite withdraw_entry_sum by (unfold each_kind; eauto). by rewrite yo_shares.
  - rewrite withdraw_entry_sum by (unfold each_kind; eauto). by rewrite yo_valued.
  - intros Hst. specialize (yo_terminated Hst). lia.
  - intros Hst. rewrite withdraw_entry_sum by (unfold each_kind; eauto 6). specialize (yo_owed Hst).
    unfold owed_each at 2.
    assert (0 <= entry_owed (YieldFarmData.accumulated_rpvs yf) e) as Hn.
    { eapply inv_owed_nonneg; [done..|by eapply list_elem_of_lookup_2|done]. }
    destruct (decide (un = 0)) as [->|Hne]; [lia|]. specialize (Howed Hne). lia.
Qed.

(** The rewards the farm keeps, also when it is removed. *)
Lemma withdraw_left : from_option YieldFarmData.left_to_distribute 0 oyf = YieldFarmData.left_to_distribute yf - un.
Proof.
  destruct Hkept as [->|[-> Hr]]; [done|]. apply can_be_removed_entries in Hr as [Hst _]. simpl in *.
  destruct (inv_yield T s I _ _ Hy) as (gf0 & _ & []). specialize (yo_terminated Hst). lia.
Qed.

Lemma withdraw_live : from_option is_live 0 oyf = is_live yf.
Proof.
  destruct Hkept as [->|[-> Hr]]; [done|]. apply can_be_removed_entries in Hr as [Hst _]. simpl in *.
  unfold is_live. by rewrite Hst.
Qed.

Lemma withdraw_farm_sum f : farm_sum f g (YieldFarm s') = farm_sum f g (YieldFarm s) - f yf + from_option f 0 oyf.
Proof. by rewrite E4, farm_sum_alter, Hy. Qed.

Lemma withdraw_total : GlobalFarmData.total_yield_farms_count gf' = farm_sum one_farm g (YieldFarm s').
Proof. simpl. destruct (inv_global T s I g gf Hg). rewrite withdraw_farm_sum. change (one_farm yf) with 1. lia. Qed.

Lemma withdraw_global_ok : global_ok (lm_block s') (FarmSequencer s') (YieldFarm s') g gf'.
Proof.
  pose proof withdraw_total as Et. simpl in Et. pose proof withdraw_left as El. pose proof withdraw_live as Ea.
  destruct (inv_global T s I g gf Hg) as [[] ? ? ? ? ? ?].
  assert (0 <= farm_sum one_farm g (YieldFarm s')) by by apply farm_sum_nonneg.
  constructor; simpl; rewrite ?E1, ?E7; try done.
  - constructor; simpl; try done; unfold fits in *; lia.
  - rewrite withdraw_farm_sum. lia.
  - rewrite withdraw_farm_sum. lia.
Qed.

(** A global farm is removed after the last of its yield farms. *)
Lemma withdraw_gone : ogf = None → farm_sum one_farm g (YieldFarm s') = 0.
Proof.
  intros E. rewrite <- withdraw_total. destruct Hglobal as [->|[_ Hr]]; [done|].
  unfold GlobalFarmData.can_be_removed in Hr. by propify.
Qed.

Lemma withdraw_global_kept yf0 : oyf = Some yf0 → ogf = Some gf'.
Proof.
  intros E. destruct Hglobal as [->|[E' _]]; [done|]. pose proof (withdraw_gone E') as Hz.
  pose proof (farm_sum_elem one_farm g (YieldFarm s') (DepositData.amm_pool_id d) (YieldFarmEntry.yield_farm_id e) yf0)
    as Hle. change (one_farm yf0) with 1 in Hle. rewrite Hz in Hle. exfalso. apply (Z.nle_succ_diag_l 0), Hle; [done|].
  by rewrite E4, lookup_partial_alter_eq.
Qed.

Lemma withdraw_pot : pot_covers T s'.
Proof.
  intros c pot Hp. rewrite E3, E4, held_alter, Hg. simpl. specialize (Hpot c pot Hp).
  pose proof (inv_pot T s I c pot Hp) as Hc. pose proof withdraw_left as El.
  assert (YieldFarmData.left_to_distribute yf <= farm_sum YieldFarmData.left_to_distribute g (YieldFarm s)) as Hl.
  { eapply farm_sum_elem; [|done]. intros. by eapply inv_left_nonneg. }
  destruct (go_typed _ _ _ _ _ (inv_global T s I g gf Hg)) as [_ _ _ Hpe _ _ _ _ _ _ _]. unfold fits in Hpe.
  rewrite <- E4. destruct Hglobal as [->|[-> _]]; simpl; unfold farm_held; rewrite ?withdraw_farm_sum; simpl;
    unfold when in *; case_decide; lia.
Qed.

Lemma withdraw_entries :
  NoDup (YieldFarmEntry.yield_farm_id <$> DepositData.yield_farm_entries d') ∧
  ∀ e', e' ∈ DepositData.yield_farm_entries d' →
    YieldFarmEntry.yield_farm_id e' ≠ YieldFarmEntry.yield_farm_id e ∧ e' ∈ DepositData.yield_farm_entries d.
Proof.
  pose proof (do_nodup _ _ _ _ (inv_deposit T s I i d Hd)) as Hn. simpl.
  pose proof (swap_remove_perm (DepositData.yield_farm_entries d) idx e He) as Hp.
  rewrite Hp in Hn. simpl in Hn. apply NoDup_cons in Hn as [Hnot Hn]. split; [done|]. intros e' Hin. split.
  - intros E. apply Hnot. rewrite <- E. by apply list_elem_of_fmap_2.
  - rewrite Hp. by right.
Qed.

Lemma inv_withdraw : lm_inv s'.
Proof.
  pose proof (inv_deposit T s I i d Hd) as Do. pose proof withdraw_global_ok as Go. pose proof withdraw_yield_ok as Yo.
  pose proof withdraw_gone as Gone. pose proof withdraw_global_kept as Kept. pose proof withdraw_entries as [Nd Ents].
  pose proof withdraw_pot as Pot. pose proof withdraw_deposit_sum as Sums.
  apply (inv_change T s s' g (DepositData.amm_pool_id d) (YieldFarmEntry.yield_farm_id e) i ogf oyf od
    (ActiveYieldFarm s !! (DepositData.amm_pool_id d, g))); [done|].
  constructor; try done.
  - rewrite E1. split; [done|apply I].
  - rewrite E2. split; [done|apply I].
  - by rewrite E7.
  - by rewrite partial_alter_self.
  - intros gf0 E. destruct Hglobal as [->|[-> _]]; simplify_eq. apply Go.
  - intros gf0 gf1 p' y' w Hg0 E Hw _. destruct Hglobal as [->|[-> _]]; simplify_eq. simpl. split_and!; [done..|].
    destruct (inv_yield T s I _ _ Hw) as (gf1 & Hg1 & Yo1). simpl in Hg1. simplify_eq. apply Yo1.
  - intros yf0 E. exists gf'. rewrite (Kept yf0 E). split; [done|].
    destruct Hkept as [->|[-> _]]; simplify_eq. apply Yo.
  - intros E. destruct Hkept as [->|[_ Hr]]; [done|]. apply can_be_removed_entries in Hr as [_ <-].
    symmetry. apply Yo.
  - intros yf0 yf1 ? E. destruct Hkept as [->|[-> _]]; simplify_eq. by constructor.
  - intros d1 E. destruct Hdeposit as [->|[-> _]]; simplify_eq. rewrite E2. split_and!; [apply Do..|done|].
    intros e' Hin. destruct (Ents e' Hin) as [Hne Hin']. rewrite decide_False by (unfold entry_key; congruence). eauto.
  - intros f k' Hf Hne. rewrite Sums, Hd, decide_False by done. simpl. lia.
  - intros y'. rewrite (inv_active T s I _ _ y'), E4.
    destruct (decide (y' = YieldFarmEntry.yield_farm_id e)) as [->|Hne].
    + rewrite lookup_partial_alter_eq, Hy. destruct Hkept as [->|[-> Hr]]; [naive_solver|].
      apply can_be_removed_entries in Hr as [Hst _]. simpl in Hst. naive_solver congruence.
    + by rewrite lookup_partial_alter_ne by congruence.
Qed.
End withdraw.

(** The rewards an entry gives up go back to the farm they came from. *)
Lemma return_unclaimable_Ok un yf gf s yf' gf' s' :
  0 <= un → 0 <= GlobalFarmData.accumulated_paid_rewards gf → 0 <= YieldFarmData.left_to_distribute yf →
  return_unclaimable T un yf gf s = Ok ((yf', gf'), s') →
  ∃ x, s' = set_lm_ext x s ∧ lm_block s' = lm_block s ∧
    yf' = YieldFarmData.set_left_to_distribute (YieldFarmData.left_to_distribute yf - un) yf ∧
    gf' = GlobalFarmData.set_accumulated_paid_rewards (GlobalFarmData.accumulated_paid_rewards gf - un) gf ∧
    un <= YieldFarmData.left_to_distribute yf ∧ un <= GlobalFarmData.accumulated_paid_rewards gf ∧
    (un = 0 ∧ x = lm_ext s ∨
     ∃ pot account, pot_account_id T = Some pot ∧ farm_account_id T (GlobalFarmData.id gf) = Ok account ∧
       transfer (GlobalFarmData.reward_currency gf) pot account un AllowDeath (lm_ext s) = Ok x).
Proof.
  intros H0u Hp Hl Hr. unfold return_unclaimable, defensive_or, lm_call in Hr. case_match; inv_pallet; inv_ext.
  - match goal with E : transfer _ _ _ _ _ _ = Ok ?x0 |- _ =>
      pose proof (lm_transfer_block _ _ _ _ _ _ _ E); exists x0 end.
    split_and!; [done..|]. right. eauto.
  - exists (lm_ext s). propify. assert (un = 0) as -> by lia. rewrite !Z.sub_0_r.
    split_and!; [by destruct s|done|by destruct yf|by destruct gf|lia|lia|by left].
Qed.

Lemma withdraw_stake_inv s g gf yf v gf' s' :
  lm_inv s → GlobalFarm s !! g = Some gf → fits u128 v → fits u128 (YieldFarmData.multiplier yf) →
  (if FarmState.is_active (YieldFarmData.state yf) then
     stake ← or_overflow (calculate_global_farm_shares v (YieldFarmData.multiplier yf));
     lift (GlobalFarmData.remove_stake stake gf)
   else mret gf) s = Ok (gf', s') →
  s' = s ∧ (∃ z, gf' = GlobalFarmData.set_total_shares_z z gf) ∧ lm_inv (with_global g gf' s).
Proof.
  intros I Hg Hv Ty Hr. rewrite <- (with_global_id s g gf Hg) in I. unfold or_overflow in Hr. case_match; inv_run.
  - match goal with E : GlobalFarmData.remove_stake _ _ = Ok _ |- _ =>
      eapply (remove_stake_inv T s g) in E as (? & _ & ?); [done|exact I|] end.
    by eapply stake_nonneg; [| |eassumption].
  - split_and!; [done| |done]. exists (GlobalFarmData.total_shares_z gf). by destruct gf.
Qed.

Lemma keep_or_delete_global (b : bool) g gf s u s' :
  (if b then modify (λ s, set_GlobalFarm (delete g (GlobalFarm s)) s) else put_global_farm g gf) s = Ok (u, s') →
  ∃ ogf, (ogf = Some gf ∨ ogf = None ∧ b = true) ∧
    s' = set_GlobalFarm (partial_alter (λ _, ogf) g (GlobalFarm s)) s.
Proof. unfold put_global_farm. intros Hr. case_match; inv_run; [exists None|exists (Some gf)]; eauto. Qed.

Lemma keep_or_delete_deposit (b : bool) i d s u s' :
  (if b then modify (λ s, set_Deposit (delete i (Deposit s)) s) else put_deposit i d) s = Ok (u, s') →
  ∃ od, (od = Some d ∨ od = None ∧ b = true) ∧ s' = set_Deposit (partial_alter (λ _, od) i (Deposit s)) s.
Proof. unfold put_deposit. intros Hr. case_match; inv_run; [exists None|exists (Some d)]; eauto. Qed.

Lemma withdraw_lp_shares_inv i y un p s v s' :
  lm_inv s → 0 <= un →
  (∀ d idx e yf, Deposit s !! i = Some d → DepositData.yield_farm_entries d !! idx = Some e →
    YieldFarmEntry.yield_farm_id e = y → YieldFarm s !! entry_key d e = Some yf → un ≠ 0 →
    un * DIV <= entry_owed (YieldFarmData.accumulated_rpvs yf) e) →
  withdraw_lp_shares T i y un p s = Ok (v, s') → lm_inv s'.
Proof.
  intros I Hun Ho Hr.
  unfold withdraw_lp_shares, defensive_or, defensive_ensure in Hr. inv_pallet.
  match goal with E : DepositData.remove_yield_farm_entry _ ?d0 = Ok (?e0, _), Hy : YieldFarm s !! _ = Some ?yf0 |- _ =>
    apply remove_yield_farm_entry_Ok in E as (idx & He & <- & ->); rename d0 into d, e0 into e, yf0 into yf,
      Hy into Hyf end.
  match goal with Ep : p = _, Hd : Deposit s !! i = Some d |- _ => simpl in Ep; subst p; rename Hd into Hdep end.
  destruct (stored_entry s i d idx e yf I Hdep He Hyf) as [Ty Eo].
  match goal with E : (if FarmState.is_active _ then _ else _) _ = Ok _ |- _ =>
    eapply withdraw_stake_inv in E as (-> & (z & ->) & I1); [|done|eassumption|apply Eo|apply Ty] end.
  pose proof (go_typed _ _ _ _ _ (inv_global T _ I1 _ _ (lookup_insert_eq _ _ _))) as Tg.
  match goal with E : return_unclaimable _ _ _ _ _ = Ok _ |- _ =>
    apply return_unclaimable_Ok in E as (ext & -> & Eb & -> & -> & Hl & Hp & Ht); [|done|exact (fits_nonneg _ _ (gt_paid _ Tg))|exact (fits_nonneg _ _ (yt_left _ Ty))] end.
  match goal with E : YieldFarmData.decrease_entries_count _ = Ok _ |- _ =>
    unfold YieldFarmData.decrease_entries_count in E; inv_run end.
  match goal with E : store_or_remove_yield_farm _ _ _ _ = Ok _ |- _ =>
    apply store_or_remove_Ok in E as (oyf & Hk & -> & ->) end.
  match goal with E : (if GlobalFarmData.can_be_removed _ then _ else _) _ = Ok _ |- _ =>
    apply keep_or_delete_global in E as (ogf & Hgk & ->) end.
  match goal with E : (if DepositData.can_be_removed _ then _ else _) _ = Ok _ |- _ =>
    apply keep_or_delete_deposit in E as (od & Hdk & ->) end.
  eapply (inv_withdraw (with_global (YieldFarmEntry.global_farm_id e) _ s) _ i d idx e _ yf un ogf oyf od);
    [exact I1|done|done|apply lookup_insert_eq|done|..]; try done; simpl.
  - intros Hne. by eapply Ho.
  - destruct Hdk as [->|[-> Hr]]; [by left|right]. by apply bool_decide_eq_true in Hr.
  - change (<[?k := ?v]> ?m) with (partial_alter (λ _, Some v) k m). by rewrite partial_alter_partial_alter_eq.
  - intros c pot Hpt. destruct Ht as [[-> ->]|(pot' & account & Hpt' & Ha & Ht)].
    + unfold when. case_decide; lia.
    + assert (pot' = pot) as -> by congruence. pose proof (farm_account_not_pot T _ _ _ Ha Hpt).
      apply transfer_moves in Ht as (_ & -> & _); [|done]. by_moves.
Qed.

(** What a claim reports as unclaimable is still in the yield farm. *)
Lemma claimed_owed who i y s c paid un s' d idx e yf :
  claimed who i y s c paid un s' → Deposit s' !! i = Some d → DepositData.yield_farm_entries d !! idx = Some e →
  YieldFarmEntry.yield_farm_id e = y → YieldFarm s' !! entry_key d e = Some yf →
  YieldFarmData.state yf ≠ FarmState.Terminated ∧ un * DIV <= entry_owed (YieldFarmData.accumulated_rpvs yf) e.
Proof.
  intros [d1 idx1 e1 u gf gf1 fresh s1 yf1 yf2 r ed I1 Hd1 He1 Ey1 Hg1 Ec Hy1 Hst Sg Hy2 Est ED Er Hr -> Hun Hed tr
    Epaid Hpay] Hd He Ey Hy.
  rewrite ED, lookup_insert_eq in Hd. injection Hd as <-.
  pose proof (lookup_lt_Some _ _ _ He1) as Hlt.
  assert (e = YieldFarmEntry.set_updated_at u
    (YieldFarmEntry.set_accumulated_claimed_rewards (entry_claimable yf2 e1) e1)) as ->.
  { eapply (entry_unique T s' i _ idx idx1); [done|by rewrite ED, lookup_insert_eq|exact He|
      by apply list_lookup_insert_eq|by subst]. }
  change (entry_key _ _) with (entry_key d1 e1) in Hy. simplify_eq. split; [congruence|].
  unfold entry_owed. simpl. unfold entry_max.
  match goal with |- (?n / DIV - _) * DIV <= _ => pose proof (div_bounds n DIV DIV_pos) end. lia.
Qed.

Lemma mutate_withdraw_lp_shares_inv who i g y p s v s' :
  lm_inv s → mutate_withdraw_lp_shares T who i g y p s = Ok (v, s') → lm_inv s'.
Proof.
  intros I Hr. unfold mutate_withdraw_lp_shares in Hr. inv_pallet. destruct (is_yield_farm_claimable g y p s); inv_pallet.
  - match goal with E : claim_rewards _ _ _ _ _ _ = Ok _ |- _ => apply claim_rewards_claimed in E as C; [|done] end.
    eapply withdraw_lp_shares_inv; [by destruct C|by destruct C| |eassumption]. intros. by eapply claimed_owed.
  - by eapply (withdraw_lp_shares_inv _ _ 0); [| | |eassumption].
Qed.
End claims.
