(* ===== verification/LiquidityMiningSteps.v ===== *)
(** * Runs of liquidity mining

    The calls of the [Mutate] interface as data, what the types of their arguments
    guarantee, and the states they reach from an empty storage while blocks pass
    and accounts are paid from outside.  The theorems state what holds in all of
    these states: the pot holds every promised reward, an entry can be paid what
    it can claim, the counters count. *)

From S2P Require Import Prelude Arithmetic Currency LiquidityMiningMath LiquidityMining LiquidityMiningInvariant.
From S2P Require Import LiquidityMiningClaims.

Section steps.
Context {X AccountId AmmPoolId : Type} `{EqDecision AccountId} `{Countable AmmPoolId} `{!Inhabited AmmPoolId}.
Context `{SpArithmeticLaws}.
Context `{!MultiCurrency X AccountId} `{!MultiCurrencyLaws X AccountId}.
Context (T : LmConfig X AccountId) `{!LmConfigLaws T}.

Notation lm := (lm X AccountId AmmPoolId).
Notation LmM := (M lm (DispatchError LmError.t)).
Notation lm_inv := (lm_inv T).
Notation lm_block := (lm_block T).
Implicit Types (s : lm) (gf : GlobalFarmData.t AccountId) (yf : YieldFarmData.t) (d : DepositData.t AmmPoolId)
  (e : YieldFarmEntry.t) (p : AmmPoolId) (g y i : Z).

(** ** Calls *)

Inductive LmCall :=
| CreateGlobalFarm (total_rewards : Balance) (planned_yielding_periods blocks_per_period : Z)
    (incentivized_asset reward_currency : AssetId) (owner : AccountId) (yield_per_period : Z) (min_deposit : Balance)
    (price_adjustment : FixedU128)
| CreateGlobalFarmWithoutPriceAdjustment (total_rewards : Balance) (planned_yielding_periods blocks_per_period : Z)
    (incentivized_asset reward_currency : AssetId) (owner : AccountId) (yield_per_period : Z) (min_deposit : Balance)
| UpdateGlobalFarmPriceAdjustment (who : AccountId) (global_farm_id : Z) (price_adjustment : FixedU128)
| UpdateGlobalFarm (global_farm_id planned_yielding_periods yield_per_period : Z) (min_deposit : Balance)
| TerminateGlobalFarm (who : AccountId) (global_farm_id : Z)
| CreateYieldFarm (who : AccountId) (global_farm_id : Z) (multiplier : FixedU128)
    (loyalty_curve : option LoyaltyCurve.t) (amm_pool_id : AmmPoolId) (assets : list AssetId)
| UpdateYieldFarmMultiplier (who : AccountId) (global_farm_id : Z) (amm_pool_id : AmmPoolId) (multiplier : FixedU128)
| StopYieldFarm (who : AccountId) (global_farm_id : Z) (amm_pool_id : AmmPoolId)
| ResumeYieldFarm (who : AccountId) (global_farm_id yield_farm_id : Z) (amm_pool_id : AmmPoolId)
    (multiplier : FixedU128)
| TerminateYieldFarm (who : AccountId) (global_farm_id yield_farm_id : Z) (amm_pool_id : AmmPoolId)
| DepositLpShares (global_farm_id yield_farm_id : Z) (amm_pool_id : AmmPoolId) (shares_amount : Balance)
    (get_token_value_of_lp_shares : AssetId → AmmPoolId → Balance → X → result Z Balance)
| RedepositLpShares (global_farm_id yield_farm_id deposit_id : Z)
    (get_token_value_of_lp_shares : AssetId → AmmPoolId → Balance → X → result Z Balance)
| ClaimRewards (who : AccountId) (deposit_id yield_farm_id : Z)
| WithdrawLpShares (who : AccountId) (deposit_id global_farm_id yield_farm_id : Z) (amm_pool_id : AmmPoolId).

Definition ignore {A} (m : LmM A) : LmM unit := m ≫= λ _, mret tt.

Definition dispatch (c : LmCall) : LmM unit :=
  match c with
  | CreateGlobalFarm total planned blocks inc cur owner yield min price =>
      ignore (create_global_farm T total planned blocks inc cur owner yield min price)
  | CreateGlobalFarmWithoutPriceAdjustment total planned blocks inc cur owner yield min =>
      ignore (create_global_farm_without_price_adjustment T total planned blocks inc cur owner yield min)
  | UpdateGlobalFarmPriceAdjustment who g price => update_global_farm_price_adjustment T who g price
  | UpdateGlobalFarm g planned yield min => update_global_farm T g planned yield min
  | TerminateGlobalFarm who g => ignore (terminate_global_farm T who g)
  | CreateYieldFarm who g m curve p assets => ignore (create_yield_farm T who g m curve p assets)
  | UpdateYieldFarmMultiplier who g p m => ignore (update_yield_farm_multiplier T who g p m)
  | StopYieldFarm who g p => ignore (stop_yield_farm T who g p)
  | ResumeYieldFarm who g y p m => resume_yield_farm T who g y p m
  | TerminateYieldFarm who g y p => terminate_yield_farm T who g y p
  | DepositLpShares g y p n value => ignore (deposit_lp_shares T g y p n value)
  | RedepositLpShares g y i value => ignore (redeposit_lp_shares T g y i value)
  | ClaimRewards who i y => ignore (mutate_claim_rewards T who i y)
  | WithdrawLpShares who i g y p => ignore (mutate_withdraw_lp_shares T who i g y p)
  end.

(** The arguments are of their types, and the pot creates no farms. *)
Definition value_typed (value : AssetId → AmmPoolId → Balance → X → result Z Balance) : Prop :=
  ∀ a p n x v, fits u128 n → value a p n x = Ok v → fits u128 v.
Definition not_pot (a : AccountId) : Prop := ∀ pot, pot_account_id T = Some pot → a ≠ pot.
Definition curve_typed (curve : option LoyaltyCurve.t) : Prop :=
  ∀ c, curve = Some c → 0 <= LoyaltyCurve.initial_reward_percentage c ∧ fits u32 (LoyaltyCurve.scale_coef c).

Definition call_typed (c : LmCall) : Prop :=
  match c with
  | CreateGlobalFarm total planned blocks _ _ owner yield _ price =>
      fits u128 total ∧ fits u32 planned ∧ fits u32 blocks ∧ is_perquintill yield ∧ fits u128 price ∧ not_pot owner
  | CreateGlobalFarmWithoutPriceAdjustment total planned blocks _ _ owner yield _ =>
      fits u128 total ∧ fits u32 planned ∧ fits u32 blocks ∧ is_perquintill yield ∧ not_pot owner
  | UpdateGlobalFarmPriceAdjustment _ _ price => fits u128 price
  | UpdateGlobalFarm _ planned yield _ => fits u32 planned ∧ is_perquintill yield
  | CreateYieldFarm _ _ m curve _ _ => fits u128 m ∧ curve_typed curve
  | UpdateYieldFarmMultiplier _ _ _ m | ResumeYieldFarm _ _ _ _ m => fits u128 m
  | DepositLpShares _ _ _ n value => fits u128 n ∧ value_typed value
  | RedepositLpShares _ _ _ value => value_typed value
  | _ => True
  end.

(** ** Steps *)

(** A call that succeeds; or anything else that happens on the chain: blocks pass,
    accounts other than the pot spend, the pot may only receive. *)
Inductive lm_step : lm → lm → Prop :=
| step_call c s s' : call_typed c → dispatch c s = Ok (tt, s') → lm_step s s'
| step_chain s x : lm_block s <= current_block_number T x →
    (∀ c pot, pot_account_id T = Some pot → free_balance c pot (lm_ext s) <= free_balance c pot x) →
    lm_step s (set_lm_ext x s).

(** The storage of a new pallet. *)
Definition lm_genesis (x : X) : lm :=
  {| FarmSequencer := 0; DepositSequencer := 0; GlobalFarm := ∅; YieldFarm := ∅; Deposit := ∅; ActiveYieldFarm := ∅;
     lm_ext := x; lm_events := [] |}.
Definition lm_reachable s : Prop := ∃ x, rtc lm_step (lm_genesis x) s.

Lemma create_yield_farm_curve who g m curve p assets s v s' :
  curve_typed curve → create_yield_farm T who g m curve p assets s = Ok (v, s') → curve_ok curve.
Proof.
  intros Hc Hr c ->. destruct (Hc c eq_refl) as [H0c Hs]. unfold create_yield_farm in Hr. inv_pallet.
  split; [|done]. unfold fixed_one in *. lia.
Qed.

Lemma dispatch_inv c s s' : lm_inv s → call_typed c → dispatch c s = Ok (tt, s') → lm_inv s'.
Proof.
  intros I Hc Hr. destruct c; simpl in Hc; unfold dispatch, ignore in Hr; destruct_and?; inv_run.
  - eapply create_global_farm_inv; [..|eassumption]; done.
  - eapply create_global_farm_inv; [..|eassumption]; done.
  - by eapply update_global_farm_price_adjustment_inv.
  - eapply update_global_farm_inv; [..|eassumption]; [done..|]. unfold fits in *. lia.
  - by eapply terminate_global_farm_inv.
  - by eapply create_yield_farm_inv; [..|eassumption]; [done..|eapply create_yield_farm_curve].
  - by eapply update_yield_farm_multiplier_inv.
  - by eapply stop_yield_farm_inv.
  - by eapply resume_yield_farm_inv.
  - by eapply terminate_yield_farm_inv.
  - by eapply deposit_lp_shares_inv.
  - by eapply redeposit_lp_shares_inv.
  - by eapply claim_rewards_inv.
  - by eapply mutate_withdraw_lp_shares_inv.
Qed.

Lemma lm_genesis_inv x : lm_inv (lm_genesis x).
Proof.
  constructor; simpl; try done.
  - intros p g y. rewrite !lookup_empty. naive_solver.
  - intros c pot Hp. apply free_balance_fits.
Qed.

Lemma lm_step_inv s s' : lm_step s s' → lm_inv s → lm_inv s'.
Proof.
  intros [c s1 s1' Hc Hr|s1 x Hb Hpot] I; [by eapply dispatch_inv|].
  destruct I as [I1 I2 I3 I4 I5 I6 I7]. constructor; simpl; try done.
  - intros g gf Hg. destruct (I3 g gf Hg). constructor; try done. by eapply lm_block_mono.
  - intros k yf Hy. destruct (I4 k yf Hy) as (gf & Hg & []). exists gf. split; [done|].
    constructor; try done. eapply lm_block_mono; [by eapply go_typed, I3|done..].
  - intros c pot Hp. etransitivity; [by apply I7|by apply Hpot].
Qed.

(** The books are in order in every state that is reached. *)
Lemma lm_reachable_inv s : lm_reachable s → lm_inv s.
Proof.
  intros [x Hr]. assert (lm_inv (lm_genesis x)) as I by apply lm_genesis_inv. revert I.
  induction Hr; [done|]. eauto using lm_step_inv.
Qed.

Lemma lm_reachable_step s s' : lm_reachable s → lm_step s s' → lm_reachable s'.
Proof. intros [x Hr] Hs. exists x. by eapply rtc_r. Qed.

Lemma lm_reachable_call c s :
  lm_reachable s → call_typed c → succeeds (dispatch c) s = true → lm_reachable (run (dispatch c) s).
Proof. intros Hs Hc Hr%run_Ok. by eapply lm_reachable_step, step_call. Qed.

(** ** What holds in every reachable state *)

(** C7: The pot always holds, in every currency, all the rewards that the global
    farms have set aside and the yield farms have not paid out. *)
Theorem pot_covers_rewards s c pot :
  lm_reachable s → pot_account_id T = Some pot →
  held c (GlobalFarm s) (YieldFarm s) <= free_balance c pot (lm_ext s).
Proof. intros Hr. apply (inv_pot T s (lm_reachable_inv s Hr)). Qed.

(** What an entry can claim is part of what it is owed. *)
Lemma claimable_owed yf e :
  yield_typed yf → entry_ok yf e →
  0 <= DIV * (entry_claimable yf e - YieldFarmEntry.accumulated_claimed_rewards e)
    <= entry_owed (YieldFarmData.accumulated_rpvs yf) e.
Proof.
  intros Ty Eo. pose proof (entry_claimable_le yf e Ty Eo) as Hc. pose proof (eo_claimed yf e Eo).
  unfold entry_owed, entry_max in *.
  pose proof (div_bounds ((YieldFarmData.accumulated_rpvs yf - YieldFarmEntry.accumulated_rpvs e)
    * YieldFarmEntry.valued_shares e) DIV DIV_pos). pose proof DIV_pos. nia.
Qed.

Definition claimable_each yf : DepositData.t AmmPoolId → YieldFarmEntry.t → Z :=
  λ _ e, entry_claimable yf e - YieldFarmEntry.accumulated_claimed_rewards e.

Lemma entry_sum_le (f f' : DepositData.t AmmPoolId → YieldFarmEntry.t → Z) k D :
  (∀ i d e, D !! i = Some d → e ∈ DepositData.yield_farm_entries d → entry_key d e = k → f d e <= f' d e) →
  entry_sum f k D <= entry_sum f' k D.
Proof.
  intros Hf. apply sum_kmap_le. intros i d Hd. apply sum_list_with_Z_le. intros e He.
  case_decide; [by eapply Hf|done].
Qed.

Lemma entry_sum_scale z (f : DepositData.t AmmPoolId → YieldFarmEntry.t → Z) k D :
  entry_sum (λ d e, z * f d e) k D = z * entry_sum f k D.
Proof.
  unfold entry_sum. rewrite <- sum_kmap_scale. apply sum_kmap_ext. intros i d _. unfold deposit_sum.
  induction (DepositData.yield_farm_entries d) as [|e l IH]; simpl; [lia|]. rewrite IH. case_decide; lia.
Qed.

Lemma inv_entry_ok s k yf i d e :
  lm_inv s → YieldFarm s !! k = Some yf → Deposit s !! i = Some d → e ∈ DepositData.yield_farm_entries d →
  entry_key d e = k → yield_typed yf ∧ entry_ok yf e.
Proof. intros I Hy Hd (idx & He)%list_elem_of_lookup <-. by eapply stored_entry. Qed.

Lemma inv_claims_funded s k yf :
  lm_inv s → YieldFarm s !! k = Some yf → YieldFarmData.state yf ≠ FarmState.Terminated →
  entry_sum (claimable_each yf) k (Deposit s) <= YieldFarmData.left_to_distribute yf.
Proof.
  intros I Hy Hst. destruct (inv_yield T s I k yf Hy) as (gf & _ & Yo). pose proof DIV_pos.
  apply (Z.mul_le_mono_pos_l _ _ DIV); [done|]. rewrite <- entry_sum_scale, (Z.mul_comm DIV).
  etransitivity; [|by apply (yo_owed _ _ _ _ _ _ Yo)]. apply entry_sum_le. intros i d e Hd He Hk.
  destruct (inv_entry_ok s k yf i d e) as [Ty Eo]; [done..|]. by apply claimable_owed.
Qed.

(** C8: A yield farm that is not terminated can pay all of its entries, at once,
    everything they can claim; nobody has claimed more than that. *)
Theorem farm_pays_every_claim s k yf :
  lm_reachable s → YieldFarm s !! k = Some yf → YieldFarmData.state yf ≠ FarmState.Terminated →
  entry_sum (claimable_each yf) k (Deposit s) <= YieldFarmData.left_to_distribute yf ∧
  ∀ i d e, Deposit s !! i = Some d → e ∈ DepositData.yield_farm_entries d → entry_key d e = k →
    0 <= claimable_each yf d e.
Proof.
  intros I%lm_reachable_inv Hy Hst. split; [by apply inv_claims_funded|]. intros i d e Hd He Hk.
  destruct (inv_entry_ok s k yf i d e) as [Ty Eo]; [done..|]. pose proof (eo_claimed yf e Eo). unfold claimable_each. lia.
Qed.

(** C33: The counters count: a yield farm knows the number of its entries and the
    sums of their shares and values, a global farm the numbers of its yield farms,
    and a pool has an active yield farm exactly when the storage says so. *)
Theorem counters_count s :
  lm_reachable s →
  (∀ k yf, YieldFarm s !! k = Some yf →
    YieldFarmData.entries_count yf = entry_sum one_each k (Deposit s) ∧
    YieldFarmData.total_shares yf = entry_sum shares_each k (Deposit s) ∧
    YieldFarmData.total_valued_shares yf = entry_sum valued_each k (Deposit s) ∧
    is_Some (GlobalFarm s !! k.1.2)) ∧
  (∀ g gf, GlobalFarm s !! g = Some gf →
    GlobalFarmData.live_yield_farms_count gf = farm_sum is_live g (YieldFarm s) ∧
    GlobalFarmData.total_yield_farms_count gf = farm_sum one_farm g (YieldFarm s)) ∧
  (∀ p g y, ActiveYieldFarm s !! (p, g) = Some y ↔
    ∃ yf, YieldFarm s !! (p, g, y) = Some yf ∧ YieldFarmData.state yf = FarmState.Active).
Proof.
  intros I%lm_reachable_inv. split_and!.
  - intros k yf Hy. destruct (inv_yield T s I k yf Hy) as (gf & Hg & []). eauto.
  - intros g gf Hg. by destruct (inv_global T s I g gf Hg).
  - apply (inv_active T s I).
Qed.


(** ** The rewards of a global farm *)

(** Bringing a global farm up to date moves at most [max_reward_per_period]
    for every period that passed, and no more than its account has, from its
    account into the pot; its reward per share never falls. *)
Theorem global_farm_rewards_bounded s g gf cp s1 gf' r s' :
  lm_reachable s → GlobalFarm s !! g = Some gf →
  get_current_period T (GlobalFarmData.blocks_per_period gf) s = Ok (cp, s1) →
  sync_global_farm T gf cp s1 = Ok ((gf', r), s') →
  0 <= r <= GlobalFarmData.max_reward_per_period gf * (cp - GlobalFarmData.updated_at gf) ∧
  GlobalFarmData.pending_rewards gf' = GlobalFarmData.pending_rewards gf + r ∧
  GlobalFarmData.accumulated_rpz gf <= GlobalFarmData.accumulated_rpz gf' ∧
  (r = 0 ∧ lm_ext s' = lm_ext s ∨
   ∃ account pot, farm_account_id T (GlobalFarmData.id gf) = Ok account ∧ pot_account_id T = Some pot ∧
     r <= free_balance (GlobalFarmData.reward_currency gf) account (lm_ext s) ∧
     transfer (GlobalFarmData.reward_currency gf) account pot r AllowDeath (lm_ext s) = Ok (lm_ext s')).
Proof.
  intros I%lm_reachable_inv Hg Hcp Hs.
  destruct (sync_stored_global T s g gf _ cp s1 gf' r s' I Hg Hcp eq_refl Hs) as (-> & Sy & _).
  destruct (inv_global T s I g gf Hg) as [[] _ _ Hu _ _ _].
  destruct (gs_farm _ _ _ _ _ _ _ Sy) as (u & rpz & price & E). destruct Sy as [_ _ _ _ _ Hrpz [Hr0 Hr] Hl].
  split_and!; [done| |by rewrite E|done|].
  - destruct (decide (r = 0)) as [->|Hne]; [|by apply Hr]. apply Z.mul_nonneg_nonneg; lia.
  - destruct Hl as [?|(account & pot & ? & ? & ? & ?)]; [by left|right; eauto 10].
Qed.

(** ** New yield farms *)

Lemma sync_yield_farm_same yf gf cp s :
  YieldFarmData.updated_at yf = cp → sync_yield_farm yf gf cp s = Ok ((yf, gf), s).
Proof. intros <-. unfold sync_yield_farm. rewrite Z.eqb_refl. by destruct (negb _). Qed.

Lemma create_yield_farm_new who g m curve p assets s y s1 :
  lm_inv s → create_yield_farm T who g m curve p assets s = Ok (y, s1) →
  ∃ gf1, GlobalFarm s1 !! g = Some gf1 ∧ YieldFarm s1 !! (p, g, y) =
    Some (YieldFarmData.new y (lm_block s1 / GlobalFarmData.blocks_per_period gf1) curve m).
Proof.
  intros I Hr. unfold create_yield_farm, put_global_farm, put_yield_farm, get_next_farm_id in Hr. inv_pallet.
  match goal with Hg : GlobalFarm s !! g = Some ?gf0, Hs : sync_global_farm _ _ _ _ = Ok _ |- _ =>
    eapply (sync_stored_global T s g gf0) in Hs as (Ecp & Sy & _); [|done..] end.
  destruct (synced_fields T _ _ _ _ _ _ Sy) as (Eb & _). pose proof (ss_block _ _ _ (gs_storage _ _ _ _ _ _ _ Sy)) as Ebl.
  match goal with E : GlobalFarmData.increase_yield_farm_counts _ = Ok _ |- _ =>
    unfold GlobalFarmData.increase_yield_farm_counts in E; inv_run end.
  eexists. split; [apply lookup_insert_eq|]. simpl. rewrite lookup_insert_eq. unfold LiquidityMiningInvariant.lm_block in *.
  simpl. by rewrite Eb, Ebl.
Qed.

(** C38: A yield farm that gets its first deposit in the period it was created in
    starts from a reward per share of zero instead of the one its global farm has
    reached: the next synchronisation of the two farms pays it for all the
    periods before it existed. *)
Theorem new_farm_is_owed_the_past who g m curve p assets n value s y s1 i s2 :
  lm_reachable s → fits u128 m → fits u128 n → value_typed value →
  create_yield_farm T who g m curve p assets s = Ok (y, s1) → deposit_lp_shares T g y p n value s1 = Ok (i, s2) →
  ∃ yf, YieldFarm s2 !! (p, g, y) = Some yf ∧ YieldFarmData.accumulated_rpz yf = 0 ∧
    YieldFarmData.entries_count yf = 1 ∧
    ∀ gf cp s3 yf' gf' s4, fits u128 (GlobalFarmData.accumulated_rpz gf) →
      YieldFarmData.updated_at yf ≠ cp → YieldFarmData.total_valued_shares yf ≠ 0 →
      sync_yield_farm yf gf cp s3 = Ok ((yf', gf'), s4) →
      YieldFarmData.left_to_distribute yf'
      = GlobalFarmData.accumulated_rpz gf * (m * YieldFarmData.total_valued_shares yf / DIV) / DIV.
Proof.
  intros I%lm_reachable_inv Hm Hn Hv Hc Hd. destruct (create_yield_farm_new _ _ _ _ _ _ _ _ _ I Hc) as (gf1 & Hg1 & Hy1).
  unfold deposit_lp_shares, get_next_deposit_id, put_deposit, do_deposit_lp_shares, put_global_farm, put_yield_farm,
    defensive_or, defensive_ensure, or_overflow in Hd. inv_pallet.
  match goal with Hy : YieldFarm s1 !! _ = Some ?yf, Hg : GlobalFarm s1 !! _ = Some ?gf,
      Hs : sync_yield_farm ?yf _ _ _ = Ok _, Hs' : sync_global_farm _ ?gf _ _ = Ok _ |- _ =>
    simpl in Hy; rewrite Hy1 in Hy; rewrite Hg1 in Hg; simplify_eq end.
  match goal with E : get_current_period _ _ _ = Ok _ |- _ => apply get_current_period_Ok in E as [-> ->] end.
  match goal with E : sync_yield_farm _ _ _ _ = Ok _ |- _ => rewrite sync_yield_farm_same in E by done; simplify_eq end.
  match goal with E : value _ _ _ _ = Ok _ |- _ => apply Hv in E; [|done] end.
  unfold YieldFarmData.increase_entries_count in *. inv_run. simpl.
  eexists. split; [apply lookup_insert_eq|]. simpl. split_and!; [done..|]. intros gf cp s3 yf' gf' s4 Hz Hu Hnz Hs.
  unfold sync_yield_farm, or_overflow in Hs. simpl in Hs.
  rewrite (proj2 (Z.eqb_neq _ _) Hu), (proj2 (Z.eqb_neq _ _) Hnz) in Hs. inv_pallet. simpl.
  match goal with E : calculate_yield_farm_rewards _ _ _ _ = Ok _ |- _ =>
    apply calculate_yield_farm_rewards_Ok in E as (_ & _ & _ & _ & ->); [|done..] end. by rewrite Z.sub_0_r.
Qed.
End steps.
