(* ===== verification/LiquidityMiningErrors.v ===== *)
(** * Errors that liquidity mining defends against

    The pallet answers a storage that contradicts itself with
    [Error::InconsistentState] and a message that this should never happen.  This
    file shows which of these errors a reachable state can produce: a deposit id
    that does not exist, a reward currency without existential deposit, and the
    stake of a farm that is larger than the sum of its parts - the last one does
    happen, see [LiquidityMiningDemo]. *)

From S2P Require Import Prelude Arithmetic Currency LiquidityMiningMath LiquidityMining LiquidityMiningInvariant.
From S2P Require Import LiquidityMiningClaims LiquidityMiningSteps.

(** The contradictions that are not ruled out. *)
Definition possible (i : InconsistentStateError.t) : bool :=
  match i with
  | InconsistentStateError.DepositNotFound | InconsistentStateError.NoExistentialDepositForAsset
  | InconsistentStateError.InvalidTotalSharesZ => true
  | _ => false
  end.
Definition expected (e : DispatchError LmError.t) : Prop := ∀ i, e = inconsistent i → possible i = true.

Notation "'expects' m" := (fails_only expected m) (at level 10, m at level 9).

Create HintDb lm_errors.

Section primitive.
Context {X AccountId AmmPoolId : Type} `{Countable AmmPoolId}.
Implicit Types (s : lm X AccountId AmmPoolId).

Lemma expects_lm_call f s : expects (lm_call f) s.
Proof. intros e. unfold lm_call, on_ext_, on_ext. destruct ((_ <$> f _)) as [[]|]; [done|]. by intros [= <-] i. Qed.
Lemma expects_or_overflow {A} (r : result MathError.t A) s : expects (or_overflow (A := A) r) s.
Proof. apply fails_lift. destruct r as [|err]; [done|]. by intros e [= <-] i. Qed.
Lemma expects_foreign {A} (r : result Z A) s : expects (lift (map_err Foreign r)) s.
Proof. apply fails_lift. destruct r as [|err]; [done|]. by intros e [= <-] i. Qed.

(** The guard of a subtraction that is known to succeed. *)
Lemma enough (P : Prop) a b : b <= a → checked_sub a b = None → P.
Proof. unfold checked_sub. case_match; [done|]. propify. lia. Qed.
End primitive.

(** Walk through a run: the steps that cannot fail in an unexpected way are dealt
    with, the others are left. *)
Ltac expect_step :=
  lazymatch goal with
  | |- fails_only _ (_ ≫= _) _ => apply fails_bind; [|intros ? ? ?]
  | |- fails_only _ (mret _) _ => apply fails_ret
  | |- fails_only _ get _ => apply fails_get
  | |- fails_only _ (modify _) _ => apply fails_modify
  | |- fails_only _ (put_global_farm _ _) _ => apply fails_modify
  | |- fails_only _ (put_yield_farm _ _) _ => apply fails_modify
  | |- fails_only _ (put_deposit _ _) _ => apply fails_modify
  | |- fails_only _ (lm_deposit_event _) _ => apply fails_modify
  | |- fails_only _ (ensure_or _ _) _ => apply fails_ensure; by intros _ ? [=]
  | |- fails_only _ (some_or _ _) _ => apply fails_ok_or; by intros _ ? [=]
  | |- fails_only _ (math_or _ _) _ => apply fails_ok_or; by intros _ ? [=]
  | |- fails_only _ (lm_call _) _ => apply expects_lm_call
  | |- fails_only _ (or_overflow _) _ => apply expects_or_overflow
  | |- fails_only _ (defensive_or _ _) _ => apply fails_ok_or
  | |- fails_only _ (defensive_ensure _ _) _ => apply fails_ensure
  | |- fails_only _ (if _ then _ else _) _ => apply fails_if; intros ?
  | |- fails_only _ (let '(_, _) := ?x in _) _ => destruct x; cbv beta iota
  end; cbv beta;
  unfold or_overflow, defensive_or, defensive_ensure, put_global_farm, put_yield_farm, put_deposit in * |-; inv_pallet.
Ltac expect := repeat expect_step.

Section errors.
Context {X AccountId AmmPoolId : Type} `{EqDecision AccountId} `{Countable AmmPoolId} `{!Inhabited AmmPoolId}.
Context `{SpArithmeticLaws}.
Context `{!MultiCurrency X AccountId} `{!MultiCurrencyLaws X AccountId}.
Context (T : LmConfig X AccountId) `{!LmConfigLaws T}.

Notation lm := (lm X AccountId AmmPoolId).
Notation LmM := (M lm (DispatchError LmError.t)).
Notation lm_inv := (lm_inv T).
Notation lm_block := (lm_block T).
Implicit Types (s : lm) (gf : GlobalFarmData.t AccountId) (yf : YieldFarmData.t) (d : DepositData.t AmmPoolId)
  (e : YieldFarmEntry.t) (p : AmmPoolId) (g y i : Z).

(** The checked counters. *)
Ltac by_results :=
  apply fails_lift; intros err Herr; unfold ok_or, mbind, result_bind in Herr;
  repeat case_match; simplify_eq; try (by intros ? [=]).

Lemma expects_increase_farms gf s : expects (lift (GlobalFarmData.increase_yield_farm_counts gf)) s.
Proof. unfold GlobalFarmData.increase_yield_farm_counts. by_results. Qed.
Lemma expects_increase_entries yf s : expects (lift (YieldFarmData.increase_entries_count yf)) s.
Proof. unfold YieldFarmData.increase_entries_count. by_results. Qed.
Lemma expects_decrease_live gf s :
  1 <= GlobalFarmData.live_yield_farms_count gf → expects (lift (GlobalFarmData.decrease_live_yield_farm_count gf)) s.
Proof. intros Hn. unfold GlobalFarmData.decrease_live_yield_farm_count. by_results. by eapply enough. Qed.
Lemma expects_decrease_total gf s :
  1 <= GlobalFarmData.total_yield_farms_count gf → expects (lift (GlobalFarmData.decrease_total_yield_farm_count gf)) s.
Proof. intros Hn. unfold GlobalFarmData.decrease_total_yield_farm_count. by_results. by eapply enough. Qed.
Lemma expects_decrease_entries yf s :
  1 <= YieldFarmData.entries_count yf → expects (lift (YieldFarmData.decrease_entries_count yf)) s.
Proof. intros Hn. unfold YieldFarmData.decrease_entries_count. by_results. by eapply enough. Qed.
Lemma expects_add_stake amount gf s : expects (lift (GlobalFarmData.add_stake amount gf)) s.
Proof. unfold GlobalFarmData.add_stake. by_results. Qed.
Lemma expects_remove_stake amount gf s : expects (lift (GlobalFarmData.remove_stake amount gf)) s.
Proof. unfold GlobalFarmData.remove_stake. by_results. by intros i [= <-]. Qed.
Lemma expects_add_entry max e d s : expects (lift (DepositData.add_yield_farm_entry max e d)) s.
Proof. unfold DepositData.add_yield_farm_entry. by_results. Qed.
Lemma expects_remove_entry y d s : expects (lift (DepositData.remove_yield_farm_entry y d)) s.
Proof. unfold DepositData.remove_yield_farm_entry. by_results. Qed.

Lemma expects_farm_account (id : Z) s : id ≠ 0 → expects (lift (farm_account_id T id)) s.
Proof.
  intros Hid. apply fails_lift. intros e. unfold farm_account_id, validate_farm_id.
  rewrite (proj2 (Z.eqb_neq id 0)) by done. simpl. by intros [_ ->]%ok_or_Err i.
Qed.

Lemma expects_current_period b s : b ≠ 0 → expects (get_current_period T b) s.
Proof.
  intros Hb. unfold get_current_period, get_period_number. expect. apply fails_ok_or. unfold checked_div.
  by rewrite (proj2 (Z.eqb_neq b 0)).
Qed.

Lemma expects_sync_global gf cp s :
  GlobalFarmData.id gf ≠ 0 → GlobalFarmData.updated_at gf <= cp → expects (sync_global_farm T gf cp) s.
Proof.
  intros Hid Hu. unfold sync_global_farm. expect; [by apply expects_farm_account|by apply enough].
Qed.

Lemma expects_sync_yield yf gf cp s : expects (sync_yield_farm yf gf cp) s.
Proof. unfold sync_yield_farm. expect. Qed.

(** A stored farm has an account, and the period it was updated in has passed. *)
Lemma stored_global s g gf :
  lm_inv s → GlobalFarm s !! g = Some gf →
  GlobalFarmData.id gf ≠ 0 ∧ GlobalFarmData.blocks_per_period gf ≠ 0 ∧
  GlobalFarmData.updated_at gf <= lm_block s / GlobalFarmData.blocks_per_period gf.
Proof. intros I Hg. destruct (inv_global T s I g gf Hg) as [[] ? ? ? ? ? ?]. lia. Qed.

Lemma expects_period s g gf :
  lm_inv s → GlobalFarm s !! g = Some gf → expects (get_current_period T (GlobalFarmData.blocks_per_period gf)) s.
Proof. intros I Hg. apply expects_current_period. by eapply stored_global. Qed.

Lemma expects_sync s g gf cp s1 :
  lm_inv s → GlobalFarm s !! g = Some gf → get_current_period T (GlobalFarmData.blocks_per_period gf) s = Ok (cp, s1) →
  expects (sync_global_farm T gf cp) s1.
Proof.
  intros I Hg Hcp. apply get_current_period_Ok in Hcp as [-> ->]. destruct (stored_global s g gf I Hg) as (? & ? & ?).
  by apply expects_sync_global.
Qed.

Hint Resolve expects_period expects_sync expects_sync_yield expects_increase_farms expects_increase_entries
  expects_foreign expects_add_stake expects_remove_stake expects_add_entry expects_remove_entry : lm_errors.

Lemma update_global_farm_price_adjustment_expects who g price s :
  lm_inv s → expects (update_global_farm_price_adjustment T who g price) s.
Proof. intros I. unfold update_global_farm_price_adjustment. expect; eauto with lm_errors. Qed.

Lemma create_global_farm_expects total planned blocks inc cur owner yield min price s :
  lm_inv s → expects (create_global_farm T total planned blocks inc cur owner yield min price) s.
Proof.
  intros I. unfold create_global_farm, validate_create_global_farm_data, get_next_farm_id. expect.
  - by apply expects_current_period.
  - apply expects_farm_account. pose proof (inv_farm_seq T s I).
    match goal with E : get_current_period _ _ _ = Ok _ |- _ => apply get_current_period_Ok in E as [-> _] end.
    unfold fits in *. lia.
Qed.

(** The farms after the synchronisation, of a run that got that far. *)
Lemma synced_global s g gf cp s1 gf' r s2 :
  lm_inv s → GlobalFarm s !! g = Some gf →
  get_current_period T (GlobalFarmData.blocks_per_period gf) s = Ok (cp, s1) →
  sync_global_farm T gf cp s1 = Ok ((gf', r), s2) →
  GlobalFarmData.id gf' ≠ 0 ∧ same_storage T s s2 ∧ lm_inv (with_global g gf' s2) ∧
  cp = lm_block s / GlobalFarmData.blocks_per_period gf.
Proof.
  intros I Hg Hcp Hs. destruct (sync_stored_global T s g gf _ cp s1 gf' r s2 I Hg Hcp eq_refl Hs) as (Ecp & Sy & I1).
  destruct (synced_fields T _ _ _ _ _ _ Sy) as (_ & _ & -> & _). 
  destruct (stored_global s g gf I Hg) as (? & _ & _). split_and!; [done|apply Sy|done..].
Qed.

Lemma update_global_farm_expects g planned yield min s : lm_inv s → expects (update_global_farm T g planned yield min) s.
Proof.
  intros I. unfold update_global_farm. expect; eauto with lm_errors. apply expects_farm_account.
  by eapply synced_global.
Qed.

Lemma terminate_global_farm_expects who g s : lm_inv s → expects (terminate_global_farm T who g) s.
Proof. intros I. unfold terminate_global_farm. expect. apply expects_farm_account. by eapply stored_global. Qed.

Lemma create_yield_farm_expects who g m curve p assets s :
  lm_inv s → expects (create_yield_farm T who g m curve p assets) s.
Proof.
  intros I. unfold create_yield_farm, get_next_farm_id. expect; eauto with lm_errors.
Qed.

(** Farms that are referred to exist. *)
Lemma active_stored err s p g y :
  lm_inv s → ActiveYieldFarm s !! (p, g) = Some y → YieldFarm s !! (p, g, y) = None → expected err.
Proof. intros I Ha Hy. apply (inv_active T s I) in Ha as (yf & Hy' & _). congruence. Qed.
Lemma active_is_active err s p g y yf :
  lm_inv s → ActiveYieldFarm s !! (p, g) = Some y → YieldFarm s !! (p, g, y) = Some yf →
  FarmState.is_active (YieldFarmData.state yf) = false → expected err.
Proof.
  intros I Ha Hy Hf. apply (inv_active T s I) in Ha as (yf' & Hy' & Hst). simplify_eq. by rewrite Hst in Hf.
Qed.
Lemma global_stored err s p g y yf :
  lm_inv s → YieldFarm s !! (p, g, y) = Some yf → GlobalFarm s !! g = None → expected err.
Proof. intros I Hy Hg. destruct (inv_yield T s I _ _ Hy) as (gf & Hg' & _). simpl in Hg'. congruence. Qed.
Lemma global_is_active err s p g y yf gf :
  lm_inv s → YieldFarm s !! (p, g, y) = Some yf → FarmState.is_active (YieldFarmData.state yf) = true →
  GlobalFarm s !! g = Some gf → FarmState.is_active (GlobalFarmData.state gf) = false → expected err.
Proof.
  intros I Hy Ha Hg Hf. destruct (inv_yield T s I _ _ Hy) as (gf' & Hg' & Yo). simpl in Hg'. simplify_eq.
  apply is_active_true in Ha. rewrite (yo_live _ _ _ _ _ _ Yo) in Hf by congruence. done.
Qed.
Hint Resolve active_stored active_is_active global_stored global_is_active : lm_errors.

Lemma update_yield_farm_multiplier_expects who g p m s : lm_inv s → expects (update_yield_farm_multiplier T who g p m) s.
Proof. intros I. unfold update_yield_farm_multiplier. expect; eauto with lm_errors. Qed.

Lemma stop_yield_farm_expects who g p s : lm_inv s → expects (stop_yield_farm T who g p) s.
Proof. intros I. unfold stop_yield_farm. expect; eauto with lm_errors. Qed.

Lemma yield_updated s p g y yf gf cp s' :
  lm_inv s → YieldFarm s !! (p, g, y) = Some yf → GlobalFarm s !! g = Some gf →
  get_current_period T (GlobalFarmData.blocks_per_period gf) s = Ok (cp, s') → YieldFarmData.updated_at yf <= cp.
Proof.
  intros I Hy Hg [_ ->]%get_current_period_Ok. destruct (inv_yield T s I _ _ Hy) as (gf' & Hg' & Yo). simpl in Hg'.
  simplify_eq. apply Yo.
Qed.

Lemma resume_yield_farm_expects who g y p m s : lm_inv s → expects (resume_yield_farm T who g y p m) s.
Proof.
  intros I. unfold resume_yield_farm. expect; eauto with lm_errors. apply enough. by eapply yield_updated.
Qed.

Lemma do_deposit_expects d g y value s : lm_inv s → expects (do_deposit_lp_shares T d g y value) s.
Proof. intros I. unfold do_deposit_lp_shares. expect; eauto with lm_errors. Qed.
Hint Resolve do_deposit_expects : lm_errors.

Lemma deposit_lp_shares_expects g y p n value s : lm_inv s → expects (deposit_lp_shares T g y p n value) s.
Proof. intros I. unfold deposit_lp_shares, get_next_deposit_id. expect; eauto with lm_errors. Qed.

Lemma redeposit_lp_shares_expects g y i value s : lm_inv s → expects (redeposit_lp_shares T g y i value) s.
Proof. intros I. unfold redeposit_lp_shares. expect; eauto with lm_errors. by intros _ ? [= <-]. Qed.

(** A stored yield farm is counted. *)
Lemma counted_farm s p g y yf gf :
  lm_inv s → YieldFarm s !! (p, g, y) = Some yf → GlobalFarm s !! g = Some gf →
  1 <= GlobalFarmData.total_yield_farms_count gf ∧
  (YieldFarmData.state yf ≠ FarmState.Terminated → 1 <= GlobalFarmData.live_yield_farms_count gf).
Proof.
  intros I Hy Hg. destruct (inv_global T s I g gf Hg) as [_ _ _ _ -> -> _]. split.
  - by apply (farm_sum_elem one_farm g (YieldFarm s) p y yf).
  - intros Hst. assert (is_live yf = 1) as <- by (unfold is_live; by rewrite (proj2 (is_terminated_false _) Hst)).
    eapply farm_sum_elem; [|done]. intros. unfold is_live. by case_match.
Qed.

Lemma expects_store_or_remove k yf gf s :
  1 <= GlobalFarmData.total_yield_farms_count gf → expects (store_or_remove_yield_farm k yf gf) s.
Proof. intros Hn. unfold store_or_remove_yield_farm. expect. by apply expects_decrease_total. Qed.

Lemma terminate_yield_farm_expects who g y p s : lm_inv s → expects (terminate_yield_farm T who g y p) s.
Proof.
  intros I. unfold terminate_yield_farm. expect;
    match goal with Hy : YieldFarm s !! _ = Some _, Hg : GlobalFarm s !! _ = Some _ |- _ =>
      destruct (counted_farm s _ _ _ _ _ I Hy Hg) as [Htotal Hlive] end.
  - apply expects_farm_account. by eapply stored_global.
  - apply expects_decrease_live. apply Hlive.
    match goal with E : FarmState.is_stopped _ = true |- _ => apply is_stopped_true in E; congruence end.
  - apply expects_store_or_remove.
    match goal with E : GlobalFarmData.decrease_live_yield_farm_count _ = Ok _ |- _ =>
      unfold GlobalFarmData.decrease_live_yield_farm_count in E; inv_run end. done.
Qed.

(** The entry of a claim, in the yield farm that was brought up to date for it. *)
Lemma synced_entry s i y d idx e yf gf cp s1 gf1 r s2 yf' gf' s3 :
  lm_inv s → Deposit s !! i = Some d → DepositData.get_yield_farm_entry y d = Some (idx, e) →
  YieldFarm s !! (DepositData.amm_pool_id d, YieldFarmEntry.global_farm_id e, y) = Some yf →
  FarmState.is_terminated (YieldFarmData.state yf) = false →
  GlobalFarm s !! YieldFarmEntry.global_farm_id e = Some gf →
  get_current_period T (GlobalFarmData.blocks_per_period gf) s = Ok (cp, s1) →
  sync_global_farm T gf cp s1 = Ok ((gf1, r), s2) → sync_yield_farm yf gf1 cp s2 = Ok ((yf', gf'), s3) →
  yield_typed yf' ∧ entry_ok yf' e ∧
  entry_claimable yf' e - YieldFarmEntry.accumulated_claimed_rewards e <= YieldFarmData.left_to_distribute yf'.
Proof.
  intros I Hd [He <-]%get_yield_farm_entry_Some Hy Hst Hg Hcp Hs Hs'.
  eapply (sync_stored_farms T s (YieldFarmEntry.global_farm_id e) (DepositData.amm_pool_id d)) in Hs'
    as (_ & Ss & _ & Sy & _ & I1); [|done..].
  set (s' := with_global _ _ _) in I1. change (_, _, _) with (entry_key d e) in s'.
  assert (Deposit s' !! i = Some d) as Hd' by by simpl; rewrite (ss_D _ _ _ Ss).
  assert (YieldFarm s' !! entry_key d e = Some yf') as Hy' by apply lookup_insert_eq.
  destruct (stored_entry T s' i d idx e yf' I1 Hd' He Hy') as [Ty Eo]. split_and!; [done..|].
  etransitivity; [|apply (inv_claims_funded T s' _ yf' I1 Hy')].
  - apply (entry_sum_elem (claimable_each yf') _ _ i d e); [|done|by eapply list_elem_of_lookup_2|done].
    intros i0 d0 e0 Hd0 He0 Hk0. destruct (inv_entry_ok T s' _ yf' i0 d0 e0 I1 Hy' Hd0 He0 Hk0) as [_ Eo0].
    pose proof (eo_claimed _ _ Eo0). unfold claimable_each. lia.
  - destruct (yield_synced_fields _ _ _ _ _ Sy) as (-> & _). by apply is_terminated_false.
Qed.

Lemma expects_loyalty yf e s :
  yield_typed yf → entry_ok yf e →
  expects (lift (get_loyalty_multiplier (entry_periods yf e) (YieldFarmData.loyalty_curve yf))) s.
Proof.
  intros Ty Eo. apply fails_lift. intros err. unfold get_loyalty_multiplier.
  destruct (YieldFarmData.loyalty_curve yf) as [c|] eqn:E; [|done]. destruct (yt_curve yf Ty c E) as [Hi Hs].
  rewrite calculate_loyalty_multiplier_spec by (done || by apply entry_periods_fits).
  pose proof (entry_loyalty_bounds yf e Ty Eo) as Hb. unfold entry_loyalty in Hb. rewrite E in Hb.
  case_match; propify; [by intros [= <-] i|]. simpl. rewrite (proj2 (Z.leb_le _ DIV)); [done|apply Hb].
Qed.

Lemma entry_stored err s i y d idx e :
  lm_inv s → Deposit s !! i = Some d → DepositData.get_yield_farm_entry y d = Some (idx, e) →
  YieldFarm s !! (DepositData.amm_pool_id d, YieldFarmEntry.global_farm_id e, y) = None → expected err.
Proof.
  intros I Hd [He <-]%get_yield_farm_entry_Some Hy. destruct (inv_deposit T s I i d Hd) as [_ _ _ Do].
  destruct (Do e (list_elem_of_lookup_2 _ _ _ He)) as (yf & Hy' & _). unfold entry_key in Hy'. congruence.
Qed.
Hint Resolve entry_stored : lm_errors.

Lemma claim_rewards_expects who i y b s : lm_inv s → expects (claim_rewards T who i y b) s.
Proof.
  intros I. unfold claim_rewards, rewarded_periods, pay_rewards. expect; eauto with lm_errors.
  1: by intros _ ? [= <-].
  5: by intros _ ? [= <-].
  all: match goal with E : sync_yield_farm _ _ _ _ = Ok _ |- _ =>
    eapply synced_entry in E as (Ty & Eo & Hleft); [|done..] end.
  - apply enough, Eo.
  - apply enough. destruct Eo as [_ _ Hs Hp _]. unfold entry_periods in Hp. lia.
  - apply enough. destruct Eo as [_ _ _ Hp _]. unfold entry_periods in Hp. lia.
  - by apply expects_loyalty.
  - apply enough.
    match goal with E : get_loyalty_multiplier _ _ = Ok _ |- _ => apply get_loyalty_multiplier_Ok in E; [subst|done..] end.
    match goal with E : calculate_user_reward _ _ _ _ _ = Ok _ |- _ =>
      apply calculate_user_reward_Ok in E as (Ecl & _); [|done..] end. lia.
Qed.

(** The farms of an entry that leaves can let it go. *)
Record can_leave (un : Balance) e d gf yf : Prop := {
  lv_shares : DepositData.shares d <= YieldFarmData.total_shares yf;
  lv_valued : YieldFarmEntry.valued_shares e <= YieldFarmData.total_valued_shares yf;
  lv_entries : 1 <= YieldFarmData.entries_count yf;
  lv_total : 1 <= GlobalFarmData.total_yield_farms_count gf;
  lv_id : GlobalFarmData.id gf ≠ 0;
  lv_live : un ≠ 0 → YieldFarmData.state yf ≠ FarmState.Terminated;
  lv_left : un <= YieldFarmData.left_to_distribute yf;
  lv_paid : un <= GlobalFarmData.accumulated_paid_rewards gf;
}.

Section leave.
Context (i y : Z) (un : Balance) (s : lm).
Hypothesis I : lm_inv s.
Hypothesis Hun : 0 <= un.
Hypothesis Howed : ∀ d idx e yf, Deposit s !! i = Some d → DepositData.yield_farm_entries d !! idx = Some e →
  YieldFarmEntry.yield_farm_id e = y → YieldFarm s !! entry_key d e = Some yf → un ≠ 0 →
  YieldFarmData.state yf ≠ FarmState.Terminated ∧ un * DIV <= entry_owed (YieldFarmData.accumulated_rpvs yf) e.

Lemma leaving_left d idx e yf :
  Deposit s !! i = Some d → DepositData.yield_farm_entries d !! idx = Some e →
  YieldFarmEntry.yield_farm_id e = y → YieldFarm s !! entry_key d e = Some yf → un <= YieldFarmData.left_to_distribute yf.
Proof.
  intros Hd He Ey Hy. destruct (decide (un = 0)) as [->|Hne]; [by eapply inv_left_nonneg|].
  destruct (Howed d idx e yf) as [Hst Ho]; [done..|]. destruct (inv_yield T s I _ _ Hy) as (gf & _ & Yo).
  apply (Z.mul_le_mono_pos_r _ _ DIV DIV_pos). etransitivity; [exact Ho|].
  etransitivity; [|apply (yo_owed _ _ _ _ _ _ Yo Hst)].
  apply (entry_sum_elem (owed_each (YieldFarmData.accumulated_rpvs yf)) _ _ i d e);
    [|done|by eapply list_elem_of_lookup_2|done].
  intros i0 d0 e0 Hd0 He0 Hk0. by eapply inv_owed_nonneg.
Qed.

Lemma leaving_can_leave d e d' :
  Deposit s !! i = Some d → DepositData.remove_yield_farm_entry y d = Ok (e, d') →
  ∃ gf yf, GlobalFarm s !! YieldFarmEntry.global_farm_id e = Some gf ∧
    YieldFarm s !! (DepositData.amm_pool_id d', YieldFarmEntry.global_farm_id e, y) = Some yf ∧ can_leave un e d' gf yf.
Proof.
  intros Hd (idx & He & Ey & ->)%remove_yield_farm_entry_Ok. pose proof (list_elem_of_lookup_2 _ _ _ He) as Hin.
  pose proof (inv_deposit T s I i d Hd) as Do.
  destruct (do_entries _ _ _ _ Do e Hin) as (yf & Hy & Eo).
  destruct (inv_yield T s I _ _ Hy) as (gf & Hg & Yo). simpl in Hg. exists gf, yf.
  pose proof (leaving_left d idx e yf Hd He Ey Hy) as Hl.
  destruct (counted_farm s _ _ _ _ _ I Hy Hg) as [Ht _]. destruct (stored_global s _ gf I Hg) as (Hid & _ & _).
  split_and!; [done|by rewrite <- Ey|]. constructor; simpl; try done.
  - rewrite (yo_shares _ _ _ _ _ _ Yo). apply (entry_sum_elem shares_each _ _ i d e); [|done..].
    intros i0 d0 e0 Hd0 _ _. apply fits_nonneg with u128. apply (inv_deposit T s I i0 d0 Hd0).
  - rewrite (yo_valued _ _ _ _ _ _ Yo). apply (entry_sum_elem valued_each _ _ i d e); [|done..].
    intros i0 d0 e0 Hd0 He0 Hk0. destruct (inv_entry_ok T s _ yf i0 d0 e0 I Hy Hd0 He0 Hk0) as [_ [[] _ _ _ _]].
    by eapply fits_nonneg.
  - rewrite (yo_entries _ _ _ _ _ _ Yo). by apply (entry_sum_elem one_each _ _ i d e).
  - intros Hne. by eapply (Howed d idx e yf).
  - destruct (inv_global T s I _ _ Hg) as [_ _ _ _ _ _ Hp]. etransitivity; [exact Hl|]. etransitivity; [|exact Hp].
    eapply farm_sum_elem; [|exact Hy]. intros. by eapply inv_left_nonneg.
Qed.
End leave.

Lemma withdraw_stake_keeps (b : bool) (r : result (DispatchError LmError.t) Z) gf s gf' s' :
  (if b then lift r ≫= λ stake, lift (GlobalFarmData.remove_stake stake gf) else mret gf) s = Ok (gf', s') →
  s' = s ∧ ∃ z, gf' = GlobalFarmData.set_total_shares_z z gf.
Proof.
  unfold GlobalFarmData.remove_stake. intros Hr. destruct b; inv_run; [by eauto|]. split; [done|].
  exists (GlobalFarmData.total_shares_z gf). by destruct gf.
Qed.

Lemma return_unclaimable_expects un yf gf s :
  un <= YieldFarmData.left_to_distribute yf → un <= GlobalFarmData.accumulated_paid_rewards gf →
  GlobalFarmData.id gf ≠ 0 → expects (return_unclaimable T un yf gf) s.
Proof.
  intros. unfold return_unclaimable. expect; [by apply enough|by apply enough|by apply expects_farm_account].
Qed.

Lemma withdraw_lp_shares_expects i y un p s :
  lm_inv s → 0 <= un →
  (∀ d idx e yf, Deposit s !! i = Some d → DepositData.yield_farm_entries d !! idx = Some e →
    YieldFarmEntry.yield_farm_id e = y → YieldFarm s !! entry_key d e = Some yf → un ≠ 0 →
    YieldFarmData.state yf ≠ FarmState.Terminated ∧ un * DIV <= entry_owed (YieldFarmData.accumulated_rpvs yf) e) →
  expects (withdraw_lp_shares T i y un p) s.
Proof.
  intros I Hun Ho. unfold withdraw_lp_shares. expect; eauto with lm_errors; [by intros _ ? [= <-]|..].
  all: match goal with E : DepositData.remove_yield_farm_entry _ _ = Ok _ |- _ =>
    destruct (leaving_can_leave i y un s I Hun Ho _ _ _ ltac:(eassumption) E) as (gf & yf & Hg & Hy & L) end.
  all: simplify_eq; try congruence.
  all: try match goal with E : (if FarmState.is_active _ then _ else _) _ = Ok _ |- _ =>
    apply withdraw_stake_keeps in E as (-> & z & ->) end.
  all: destruct L as [L1 L2 L3 L4 L5 L6 L7 L8].
  1-2: by apply enough.
  - intros [Hz%Z.eqb_neq Hf%negb_false_iff%bool_decide_eq_true]%orb_false_iff. by destruct L6.
  - by apply return_unclaimable_expects.
  - match goal with E : return_unclaimable _ _ _ _ _ = Ok _ |- _ =>
      apply return_unclaimable_Ok in E as (x & _ & _ & -> & _); [|done|simpl; lia..] end.
    by apply expects_decrease_entries.
  - match goal with E : return_unclaimable _ _ _ _ _ = Ok _ |- _ =>
      apply return_unclaimable_Ok in E as (x & _ & _ & _ & -> & _); [|done|simpl; lia..] end.
    by apply expects_store_or_remove.
Qed.

Lemma mutate_withdraw_lp_shares_expects who i g y p s :
  lm_inv s → expects (mutate_withdraw_lp_shares T who i g y p) s.
Proof.
  intros I. unfold mutate_withdraw_lp_shares. expect; eauto using claim_rewards_expects.
  destruct (is_yield_farm_claimable g y p s); inv_pallet.
  - match goal with E : claim_rewards _ _ _ _ _ _ = Ok _ |- _ =>
      pose proof (claim_rewards_claimed T _ _ _ _ _ _ _ _ _ _ I E) as C end.
    apply withdraw_lp_shares_expects; [by destruct C|by destruct C|]. intros. by eapply claimed_owed.
  - by apply withdraw_lp_shares_expects.
Qed.

Lemma dispatch_expects c s : lm_inv s → expects (dispatch T c) s.
Proof.
  intros I. destruct c; simpl; unfold ignore, mutate_claim_rewards, create_global_farm_without_price_adjustment;
    try (apply fails_bind; [|by intros]).
  - by apply create_global_farm_expects.
  - by apply create_global_farm_expects.
  - by apply update_global_farm_price_adjustment_expects.
  - by apply update_global_farm_expects.
  - by apply terminate_global_farm_expects.
  - by apply create_yield_farm_expects.
  - by apply update_yield_farm_multiplier_expects.
  - by apply stop_yield_farm_expects.
  - by apply resume_yield_farm_expects.
  - by apply terminate_yield_farm_expects.
  - by apply deposit_lp_shares_expects.
  - by apply redeposit_lp_shares_expects.
  - by apply claim_rewards_expects.
  - by apply mutate_withdraw_lp_shares_expects.
Qed.

End errors.
