(* ===== verification/LiquidityMiningDemo.v ===== *)
(** * Liquidity mining on concrete data

    A global farm with its yield farms lives through some periods on a concrete
    ledger with a clock; the runs instantiate the theorems on liquidity mining.
    A yield farm that is created late takes the rewards of another one, and a
    yield farm whose stake was rounded cannot be stopped. *)

From S2P Require Import Prelude Arithmetic Currency LiquidityMiningMath LiquidityMining LiquidityMiningInvariant.
From S2P Require Import LiquidityMiningClaims LiquidityMiningSteps LiquidityMiningErrors.

Module FarmDemo.
#[local] Existing Instance reference_arithmetic.
#[local] Existing Instance reference_arithmetic_laws.

(** A ledger and the number of the current block. *)
Record chain := mkChain { chain_ledger : ledger; chain_block : Z }.
Definition on_ledger (c : chain) (l : ledger) : chain := mkChain l (chain_block c).

#[local] Instance chain_currency : MultiCurrency chain Z := {|
  free_balance c a s := free_balance c a (chain_ledger s);
  total_balance c a s := total_balance (AccountId := Z) c a (chain_ledger s);
  total_issuance c s := total_issuance (AccountId := Z) c (chain_ledger s);
  transfer c f t z er s := on_ledger s <$> transfer c f t z er (chain_ledger s);
  deposit c t z s := on_ledger s <$> deposit c t z (chain_ledger s);
  withdraw c f z er s := on_ledger s <$> withdraw c f z er (chain_ledger s);
  ensure_can_withdraw c a z s := ensure_can_withdraw c a z (chain_ledger s);
|}.
#[local] Instance chain_currency_laws : MultiCurrencyLaws chain Z.
Proof.
  constructor.
  - intros. apply clamp_fits.
  - intros. apply clamp_fits.
  - intros c f t z er s s' Hz (l & Hl & ->)%result_fmap_Ok. exact (transfer_moves (X := ledger) c f t z er _ _ Hz Hl).
  - intros c t z s s' Hz (l & Hl & ->)%result_fmap_Ok. exact (deposit_adds (X := ledger) c t z _ _ Hz Hl).
  - intros c f z er s s' Hz (l & Hl & ->)%result_fmap_Ok.
    exact (withdraw_subtracts (X := ledger) c f z er _ _ Hz Hl).
Qed.

Definition alice : Z := 1.
Definition bob : Z := 2.
Definition carol : Z := 3.
Definition treasury : Z := 9.
Definition pot : Z := 5000.
Definition hdx : AssetId := 0.
Definition one : FixedU128 := 10 ^ 18.

Definition T : LmConfig chain Z := {|
  pot_account_id := Some pot;
  sub_account id := Some (pot + id);
  TreasuryAccountId := treasury;
  MinTotalFarmRewards := 1000;
  MinPlannedYieldingPeriods := 10;
  MaxFarmEntriesPerDeposit := 5;
  MaxYieldFarmsPerGlobalFarm := 10;
  current_block_number s := Z.max 0 (Z.min (chain_block s) (max_value u32));
  asset_is_registered _ _ := true;
  registry_existential_deposit _ _ := Some 1;
  registry_get _ _ := 1;
  whitelist_add_account _ s := Ok s;
  whitelist_remove_account _ s := Ok s;
  get_price_adjustment _ _ := Err 1;
|}.

#[local] Instance T_lm_laws : LmConfigLaws T.
Proof.
  constructor; simpl; try done.
  - intros id a q Hid [= <-] [= <-]. lia.
  - intros s. unfold fits, max_value, u32. lia.
  - intros c f t z er s s' Hr. inv_run. done.
  - by intros a s s' [= <-].
  - by intros a s s' [= <-].
Qed.

(** The value of shares of a pool, in the incentivised asset. *)
Definition value : AssetId → Z → Balance → chain → result Z Balance := λ _ _ n _, Ok (clamp n).
Lemma value_ok : value_typed (X := chain) (AmmPoolId := Z) value.
Proof. intros a p n x v _ [= <-]. apply clamp_fits. Qed.

Notation state := (lm chain Z Z).
Notation call := (LmCall (X := chain) (AccountId := Z) (AmmPoolId := Z)).
Definition x0 : chain := mkChain {| balances := {[(hdx, alice) := 10 ^ 18]}; issuance := ∅ |} 0.
Definition genesis : state := lm_genesis x0.
Definition pass (n : Z) (s : state) : state :=
  set_lm_ext (mkChain (chain_ledger (lm_ext s)) (chain_block (lm_ext s) + n)) s.

(** ** Two farms *)

Definition create_farm : call := CreateGlobalFarm 1000000 100 10 hdx hdx alice (10 ^ 17) 1000 one.
Definition create_first : call := CreateYieldFarm alice 1 one (Some LoyaltyCurve.default) 20 [hdx].
Definition deposit_bob : call := DepositLpShares 1 2 20 10000 value.
Definition create_late : call := CreateYieldFarm alice 1 one None 21 [hdx].
Definition deposit_carol : call := DepositLpShares 1 3 21 10000 value.

Definition with_farm : state := run (dispatch T create_farm) genesis.
Definition with_first : state := run (dispatch T create_first) with_farm.
Definition with_bob : state := run (dispatch T deposit_bob) (pass 10 with_first).
Definition after_time : state := run (dispatch T (UpdateGlobalFarm 1 100 (10 ^ 17) 1000)) (pass 500 with_bob).
Definition with_late : state := run (dispatch T create_late) after_time.
Definition with_carol : state := run (dispatch T deposit_carol) with_late.
Definition later : state := pass 10 with_carol.
Definition carol_claims : state := run (dispatch T (ClaimRewards carol 2 3)) later.
(** More shares in the first farm, which brings it up to date. *)
Definition with_more : state := run (dispatch T (DepositLpShares 1 2 20 5000 value)) after_time.

(** ** A farm that cannot be stopped *)

Definition create_rounding : call := CreateYieldFarm alice 1 (15 * 10 ^ 17) None 20 [hdx].
Definition small_deposit : call := DepositLpShares 1 2 20 1001 value.
Definition rounding : state := run (dispatch T create_rounding) with_farm.
Definition rounded : state := run (dispatch T small_deposit) (run (dispatch T small_deposit) rounding).

(** ** The runs are reachable *)

Lemma reach_pass n s : 0 <= n → lm_reachable T s → lm_reachable T (pass n s).
Proof.
  intros Hn Hs. eapply lm_reachable_step; [done|]. apply step_chain; [|done].
  unfold lm_block. simpl. lia.
Qed.

Lemma alice_not_pot : not_pot T alice.
Proof. by intros q [= <-]. Qed.
Lemma default_curve_typed : curve_typed (Some LoyaltyCurve.default).
Proof. by intros c [= <-]. Qed.
Lemma no_curve_typed : curve_typed None.
Proof. done. Qed.
Lemma create_farm_typed : call_typed T create_farm.
Proof. split_and!; [compute_done..|apply alice_not_pot]. Qed.
Lemma create_first_typed : call_typed T create_first.
Proof. split; [compute_done|apply default_curve_typed]. Qed.
Lemma create_late_typed : call_typed T create_late.
Proof. split; [compute_done|apply no_curve_typed]. Qed.
Lemma deposit_typed g y p n : fits u128 n → call_typed T (DepositLpShares g y p n value).
Proof. intros Hn. split; [done|apply value_ok]. Qed.

Ltac reach_by H := apply (lm_reachable_call T); [|apply H|vm_compute; reflexivity].

Lemma with_farm_reachable : lm_reachable T with_farm.
Proof. reach_by create_farm_typed. by exists x0. Qed.
Lemma with_bob_reachable : lm_reachable T with_bob.
Proof.
  reach_by deposit_typed; [|done]. apply reach_pass; [done|]. reach_by create_first_typed. apply with_farm_reachable.
Qed.
Lemma after_time_reachable : lm_reachable T after_time.
Proof.
  apply (lm_reachable_call T); [|split; compute_done|vm_compute; reflexivity]. apply reach_pass; [done|].
  apply with_bob_reachable.
Qed.
Lemma with_more_reachable : lm_reachable T with_more.
Proof. reach_by deposit_typed; [|done]. apply after_time_reachable. Qed.
Lemma rounded_reachable : lm_reachable T rounded.
Proof.
  reach_by deposit_typed; [|done]. reach_by deposit_typed; [|done].
  apply (lm_reachable_call T); [apply with_farm_reachable|split; [compute_done|apply no_curve_typed]|].
  vm_compute. reflexivity.
Qed.


(** ** Witnesses *)

Definition first_farm : YieldFarmData.t := default (YieldFarmData.new 0 0 None 0) (YieldFarm with_more !! (20, 1, 2)).
Lemma with_more_first : YieldFarm with_more !! (20, 1, 2) = Some first_farm.
Proof. vm_compute. reflexivity. Qed.

Lemma pot_covers_rewards_witness :
  held hdx (GlobalFarm with_more) (YieldFarm with_more) = 50000 ∧
  held hdx (GlobalFarm with_more) (YieldFarm with_more) <= free_balance hdx pot (lm_ext with_more).
Proof.
  split; [vm_compute; reflexivity|]. exact (pot_covers_rewards T with_more hdx pot with_more_reachable eq_refl).
Defined.

Lemma farm_pays_every_claim_witness :
  entry_sum (claimable_each first_farm) (20, 1, 2) (Deposit with_more) = 33333 ∧
  entry_sum (claimable_each first_farm) (20, 1, 2) (Deposit with_more) <= YieldFarmData.left_to_distribute first_farm.
Proof.
  split; [vm_compute; reflexivity|].
  refine (proj1 (farm_pays_every_claim T with_more (20, 1, 2) first_farm with_more_reachable with_more_first _)).
  vm_compute. discriminate.
Defined.

Lemma counters_count_witness :
  YieldFarmData.entries_count first_farm = 2 ∧
  YieldFarmData.entries_count first_farm = entry_sum one_each (20, 1, 2) (Deposit with_more).
Proof.
  split; [vm_compute; reflexivity|].
  exact (proj1 (proj1 (counters_count T with_more with_more_reachable) _ _ with_more_first)).
Defined.

Definition bob_claims : state := run (dispatch T (ClaimRewards bob 1 2)) after_time.


(** Carol arrives after fifty periods of Bob's, waits for one period and takes
    51000, all the rewards there are; Bob can neither claim nor leave. *)
Lemma new_farm_is_owed_the_past_witness :
  (∃ yf, YieldFarm with_carol !! (21, 1, 3) = Some yf ∧ YieldFarmData.accumulated_rpz yf = 0) ∧
  free_balance hdx carol (lm_ext carol_claims) = 51000 ∧
  dispatch T (ClaimRewards bob 1 2) carol_claims = Err (Arithmetic ArithmeticError.Overflow) ∧
  dispatch T (WithdrawLpShares bob 1 1 2 20) carol_claims = Err (Arithmetic ArithmeticError.Overflow).
Proof.
  split; [|split_and!; vm_compute; reflexivity].
  assert (fits u128 one) as Hone by (vm_compute; split; discriminate).
  assert (fits u128 10000) as Hn by (vm_compute; split; discriminate).
  assert (create_yield_farm T alice 1 one None 21 [hdx] after_time = Ok (3, with_late)) as Hc
    by (vm_compute; reflexivity).
  assert (deposit_lp_shares T 1 3 21 10000 value with_late = Ok (2, with_carol)) as Hd by (vm_compute; reflexivity).
  destruct (new_farm_is_owed_the_past T alice 1 one None 21 [hdx] 10000 value after_time 3 with_late 2 with_carol
    after_time_reachable Hone Hn value_ok Hc Hd) as (yf & Hy & Hz & _).
  exists yf. split; [exact Hy|exact Hz].
Defined.
End FarmDemo.
