(* ===== verification/LiquidityMiningEffects.v ===== *)
(** * What liquidity mining does to the rest of the chain

    The pallets that hold the shares of the deposits rely on liquidity mining to
    take funds only from the pot, from the accounts of the farms and, for a new
    farm, from its owner, and to change the shares of a deposit never, adding a
    deposit when shares are deposited and removing it with its last entry.  A
    relation [R] on the chain that every transfer from a spending account respects
    is kept by every call ([dispatch_effect]). *)

From S2P Require Import Prelude Arithmetic Currency LiquidityMiningMath LiquidityMining LiquidityMiningInvariant.
From S2P Require Import LiquidityMiningClaims LiquidityMiningSteps.

Section effects.
Context {X AccountId AmmPoolId : Type} `{EqDecision AccountId} `{Countable AmmPoolId} `{!Inhabited AmmPoolId}.
Context `{SpArithmeticLaws}.
Context `{!MultiCurrency X AccountId} `{!MultiCurrencyLaws X AccountId}.
Context (T : LmConfig X AccountId) `{!LmConfigLaws T}.

Notation lm := (lm X AccountId AmmPoolId).
Notation LmM := (M lm (DispatchError LmError.t)).
Notation lm_inv := (lm_inv T).
Implicit Types (s : lm) (gf : GlobalFarmData.t AccountId) (yf : YieldFarmData.t) (d : DepositData.t AmmPoolId)
  (p : AmmPoolId) (g y i : Z).

(** The shares of the deposits and the pools they are of. *)
Definition locked_part d : Balance * AmmPoolId := (DepositData.shares d, DepositData.amm_pool_id d).
Definition locked_view s : gmap Z (Balance * AmmPoolId) := locked_part <$> Deposit s.

Lemma locked_view_Some s i v : locked_view s !! i = Some v ↔ ∃ d, Deposit s !! i = Some d ∧ v = locked_part d.
Proof. unfold locked_view. rewrite lookup_fmap, fmap_Some. done. Qed.

Lemma locked_view_put s s' i d d' :
  Deposit s !! i = Some d → Deposit s' = <[i := d']> (Deposit s) → locked_part d' = locked_part d →
  locked_view s' = locked_view s.
Proof.
  intros Hd E Ep. unfold locked_view. rewrite E, fmap_insert, Ep. apply insert_id. by rewrite lookup_fmap, Hd.
Qed.

(** An id that was not given out yet. *)
Lemma fresh_deposit s i : lm_inv s → DepositSequencer s < i → Deposit s !! i = None.
Proof.
  intros I Hi. destruct (Deposit s !! i) as [d|] eqn:E; [|done]. destruct (inv_deposit T s I _ _ E). lia.
Qed.

Context (R : X → X → Prop) `{!PreOrder R} (spends : AccountId → Prop).
Hypothesis R_transfer : ∀ c f t z er x x', spends f → 0 <= z → transfer c f t z er x = Ok x' → R x x'.
Hypothesis R_whitelist_add : ∀ a x x', whitelist_add_account T a x = Ok x' → R x x'.
Hypothesis R_whitelist_remove : ∀ a x x', whitelist_remove_account T a x = Ok x' → R x x'.
Hypothesis spends_pot : ∀ pot, pot_account_id T = Some pot → spends pot.
Hypothesis spends_farm : ∀ id a, farm_account_id T id = Ok a → spends a.

(** A run that respects [R] and the shares. *)
Definition quiet_run s s' : Prop := R (lm_ext s) (lm_ext s') ∧ locked_view s' = locked_view s.

Lemma synced_R s gf cp gf' r s' : global_synced T s gf cp gf' r s' → R (lm_ext s) (lm_ext s').
Proof.
  intros Sy. destruct (gs_reward _ _ _ _ _ _ _ Sy) as [Hr _].
  destruct (gs_ledger _ _ _ _ _ _ _ Sy) as [[_ ->]|(a & pot & Ha & _ & Ht & _)]; [done|]. eauto.
Qed.

Lemma synced_quiet s gf cp gf' r s' : global_synced T s gf cp gf' r s' → quiet_run s s'.
Proof.
  intros Sy. split; [by eapply synced_R|]. unfold locked_view.
  by rewrite (ss_D _ _ _ (gs_storage _ _ _ _ _ _ _ Sy)).
Qed.

(** The synchronisation at the start of a call. *)
Ltac sync_global :=
  match goal with I : LiquidityMiningInvariant.lm_inv T ?s, Hg : GlobalFarm ?s !! ?g = Some ?gf,
      Hs : sync_global_farm _ ?gf _ _ = Ok _ |- _ =>
    eapply (sync_stored_global T s g gf) in Hs as (_ & Sy & _); [|done..]; apply synced_quiet in Sy as [HR HD] end.
Ltac sync_farms :=
  match goal with I : LiquidityMiningInvariant.lm_inv T ?s, Hg : GlobalFarm ?s !! ?g = Some ?gf,
      Hy : YieldFarm ?s !! (?p, ?g, ?y) = Some ?yf, Hs : sync_global_farm _ ?gf _ _ = Ok _,
      Hs' : sync_yield_farm ?yf _ _ _ = Ok _ |- _ =>
    eapply (sync_stored_farms T s g p y gf yf) in Hs' as (_ & Ss & Sy & _ & Ex & _); [|done..];
    apply synced_R in Sy as HR; rewrite <- Ex in HR; pose proof (ss_D _ _ _ Ss) as HD end.

Lemma create_global_farm_quiet total planned blocks inc cur owner yield min price s v s' :
  0 <= total → spends owner →
  create_global_farm T total planned blocks inc cur owner yield min price s = Ok (v, s') → quiet_run s s'.
Proof.
  intros Ht Ho Hr. unfold create_global_farm, validate_create_global_farm_data, get_next_farm_id, put_global_farm, lm_call in Hr.
  inv_pallet. inv_ext.
  match goal with E : get_current_period _ _ _ = Ok _ |- _ => apply get_current_period_Ok in E as [-> ->] end.
  split; [|done]. simpl in *. etransitivity; [by eapply R_whitelist_add|by eapply R_transfer].
Qed.

Lemma update_price_quiet who g price s v s' :
  lm_inv s → update_global_farm_price_adjustment T who g price s = Ok (v, s') → quiet_run s s'.
Proof.
  intros I Hr. unfold update_global_farm_price_adjustment, put_global_farm in Hr. inv_pallet. by sync_global.
Qed.

Lemma update_global_farm_quiet g planned yield min s v s' :
  lm_inv s → update_global_farm T g planned yield min s = Ok (v, s') → quiet_run s s'.
Proof. intros I Hr. unfold update_global_farm, put_global_farm in Hr. inv_pallet. by sync_global. Qed.

Lemma terminate_global_farm_quiet who g s v s' : terminate_global_farm T who g s = Ok (v, s') → quiet_run s s'.
Proof.
  intros Hr. unfold terminate_global_farm, lm_call in Hr. inv_pallet. inv_ext.
  match goal with E : (if _ then _ else _) _ = Ok _ |- _ => apply keep_or_delete_global in E as (ogf & _ & ->) end.
  split; [|done]. simpl in *. etransitivity; [|by eapply R_whitelist_remove].
  eapply R_transfer; [by eapply spends_farm| |eassumption]. apply free_balance_fits.
Qed.

Lemma create_yield_farm_quiet who g m curve p assets s v s' :
  lm_inv s → create_yield_farm T who g m curve p assets s = Ok (v, s') → quiet_run s s'.
Proof.
  intros I Hr. unfold create_yield_farm, get_next_farm_id, put_yield_farm, put_global_farm in Hr. inv_pallet.
  by sync_global.
Qed.

Lemma update_multiplier_quiet who g p m s v s' :
  lm_inv s → update_yield_farm_multiplier T who g p m s = Ok (v, s') → quiet_run s s'.
Proof.
  intros I Hr. unfold update_yield_farm_multiplier, put_yield_farm, put_global_farm, defensive_or, or_overflow in Hr.
  inv_pallet. sync_farms. split; [done|]. unfold locked_view. simpl. by rewrite HD.
Qed.

Lemma stop_yield_farm_quiet who g p s v s' :
  lm_inv s → stop_yield_farm T who g p s = Ok (v, s') → quiet_run s s'.
Proof.
  intros I Hr. unfold stop_yield_farm, put_yield_farm, put_global_farm, defensive_or, defensive_ensure, or_overflow in Hr.
  inv_pallet. sync_farms. split; [done|]. unfold locked_view. simpl. by rewrite HD.
Qed.

Lemma resume_yield_farm_quiet who g y p m s v s' :
  lm_inv s → resume_yield_farm T who g y p m s = Ok (v, s') → quiet_run s s'.
Proof.
  intros I Hr. unfold resume_yield_farm, put_yield_farm, put_global_farm, defensive_or, or_overflow in Hr.
  inv_pallet. by sync_global.
Qed.

Lemma terminate_yield_farm_quiet who g y p s v s' :
  lm_inv s → terminate_yield_farm T who g y p s = Ok (v, s') → quiet_run s s'.
Proof.
  intros I Hr. unfold terminate_yield_farm, put_global_farm, lm_call in Hr. inv_pallet. inv_ext.
  match goal with E : store_or_remove_yield_farm _ _ _ _ = Ok _ |- _ =>
    apply store_or_remove_Ok in E as (oyf & _ & -> & ->) end.
  split; [|done]. simpl in *.
  match goal with Hy : YieldFarm s !! _ = Some ?yf |- _ =>
    destruct (inv_yield T s I _ _ Hy) as (gf0 & _ & Yo); pose proof (yt_left _ (yo_typed _ _ _ _ _ _ Yo)) end.
  eapply R_transfer; [by eapply spends_pot| |eassumption]. by eapply fits_nonneg.
Qed.

(** ** Deposits *)

Lemma do_deposit_effect d g y value s d' s' :
  lm_inv s → do_deposit_lp_shares T d g y value s = Ok (d', s') →
  R (lm_ext s) (lm_ext s') ∧ Deposit s' = Deposit s ∧ DepositSequencer s' = DepositSequencer s ∧
  locked_part d' = locked_part d.
Proof.
  intros I Hr. unfold do_deposit_lp_shares, put_global_farm, put_yield_farm, defensive_or, defensive_ensure,
    or_overflow in Hr. inv_pallet. sync_farms. simpl. pose proof (ss_deposit_seq _ _ _ Ss).
  match goal with E : DepositData.add_yield_farm_entry _ _ _ = Ok _ |- _ =>
    apply add_yield_farm_entry_Ok in E as [-> _] end. done.
Qed.

(** A deposit of shares gets the next id. *)
Lemma deposit_effect g y p n value s i s' :
  lm_inv s → deposit_lp_shares T g y p n value s = Ok (i, s') →
  R (lm_ext s) (lm_ext s') ∧ locked_view s !! i = None ∧ locked_view s' = <[i := (n, p)]> (locked_view s).
Proof.
  intros I Hr. unfold deposit_lp_shares, get_next_deposit_id, put_deposit in Hr. inv_pallet.
  match goal with E : do_deposit_lp_shares _ _ _ _ _ _ = Ok _ |- _ =>
    apply do_deposit_effect in E as (HR & HD & HS & Ep); [|done] end.
  split; [done|]. unfold locked_view. simpl. rewrite HD, HS, fmap_insert, Ep. split; [|done].
  rewrite lookup_fmap, fresh_deposit; [done..|lia].
Qed.

Lemma redeposit_effect g y i value s n p s' :
  lm_inv s → redeposit_lp_shares T g y i value s = Ok ((n, p), s') →
  quiet_run s s' ∧ locked_view s !! i = Some (n, p).
Proof.
  intros I Hr. unfold redeposit_lp_shares, put_deposit, defensive_or in Hr. inv_pallet.
  match goal with E : do_deposit_lp_shares _ _ _ _ _ _ = Ok (?d1, _), Hd : Deposit s !! i = Some ?d0 |- _ =>
    apply do_deposit_effect in E as (HR & HD & HS & Ep); [|done]; split;
      [split; [done|]; eapply (locked_view_put s _ i d0 d1); [done| |done]; simpl; by rewrite HD
      |apply locked_view_Some; exists d0; split; [done|exact Ep]] end.
Qed.

(** ** Claims and withdrawals *)

Lemma claimed_quiet who i y s c paid un s' : claimed T who i y s c paid un s' → quiet_run s s'.
Proof.
  intros [d idx e u gf gf1 fresh s1 yf yf' r ed I1 Hd He Ey Hg Ec Hy Hst Sg Hy2 Est ED Er Hr -> Hun Hed tr Epaid Hpay].
  apply synced_R in Sg. split; [|by eapply locked_view_put].
  destruct Hpay as [[_ ->]|(pot & Hp & Ht)]; [done|]. etransitivity; [done|eauto].
Qed.

(** The deposit stays until its last entry is withdrawn; its shares are reported. *)
Definition withdrawn i p (n : Balance) (destroyed : bool) s s' : Prop :=
  R (lm_ext s) (lm_ext s') ∧ locked_view s !! i = Some (n, p) ∧
  locked_view s' = if destroyed then delete i (locked_view s) else locked_view s.

Lemma withdraw_stake_same yf gf v s gf' s' :
  (if FarmState.is_active (YieldFarmData.state yf) then
     stake ← or_overflow (calculate_global_farm_shares v (YieldFarmData.multiplier yf));
     lift (GlobalFarmData.remove_stake stake gf)
   else mret gf) s = Ok (gf', s') → s' = s.
Proof. unfold or_overflow. intros Hr. case_match; by inv_run. Qed.

Lemma return_unclaimable_effect un yf gf s v s' :
  0 <= un → return_unclaimable T un yf gf s = Ok (v, s') → R (lm_ext s) (lm_ext s') ∧ Deposit s' = Deposit s.
Proof.
  intros Hun Hr. unfold return_unclaimable, defensive_or, lm_call in Hr. case_match; inv_pallet; inv_ext; [|done].
  split; [|done]. by eapply R_transfer; [eapply spends_pot|..|eassumption].
Qed.

Lemma withdraw_effect i y un p s g n b s' :
  lm_inv s → 0 <= un → withdraw_lp_shares T i y un p s = Ok ((g, n, b), s') → withdrawn i p n b s s'.
Proof.
  intros I Hun Hr. unfold withdraw_lp_shares, defensive_or, defensive_ensure in Hr. inv_pallet.
  match goal with E : DepositData.remove_yield_farm_entry _ ?d0 = Ok _, Hd : Deposit s !! i = Some ?d0 |- _ =>
    apply remove_yield_farm_entry_Ok in E as (idx & He & <- & ->); rename d0 into d, Hd into Hdep end.
  match goal with E : (if FarmState.is_active _ then _ else _) _ = Ok _ |- _ => apply withdraw_stake_same in E as -> end.
  match goal with E : return_unclaimable _ _ _ _ _ = Ok _ |- _ =>
    apply return_unclaimable_effect in E as [HR ED2]; [|done] end.
  match goal with E : store_or_remove_yield_farm _ _ _ _ = Ok _ |- _ =>
    apply store_or_remove_Ok in E as (oyf & _ & -> & ->) end.
  match goal with E : (if GlobalFarmData.can_be_removed _ then _ else _) _ = Ok _ |- _ =>
    apply keep_or_delete_global in E as (ogf & _ & ->) end.
  split; [|split; [apply locked_view_Some; exists d; split; [done|by subst p]|]].
  - by destruct (DepositData.can_be_removed _); unfold put_deposit in *; inv_run.
  - destruct (DepositData.can_be_removed _); unfold put_deposit in *; inv_run; unfold locked_view; simpl; rewrite ED2.
    + by rewrite fmap_delete.
    + rewrite fmap_insert. apply insert_id. by rewrite lookup_fmap, Hdep.
Qed.

Lemma mutate_withdraw_effect who i g y p s n data b s' :
  lm_inv s → mutate_withdraw_lp_shares T who i g y p s = Ok ((n, data, b), s') → withdrawn i p n b s s'.
Proof.
  intros I Hr. unfold mutate_withdraw_lp_shares in Hr. inv_pallet. destruct (is_yield_farm_claimable g y p s); inv_pallet.
  - match goal with E : claim_rewards _ _ _ _ _ _ = Ok _ |- _ => apply (claim_rewards_claimed T) in E as Cl; [|done] end.
    destruct (claimed_quiet _ _ _ _ _ _ _ _ Cl) as [HR HD].
    match goal with E : withdraw_lp_shares _ _ _ _ _ _ = Ok _ |- _ =>
      apply withdraw_effect in E as (HR' & Hv & HD'); [|by destruct Cl|by destruct Cl] end.
    rewrite HD in Hv, HD'. split_and!; [by etransitivity|done..].
  - by eapply (withdraw_effect _ _ 0); [| |eassumption].
Qed.

(** ** All calls *)

Notation lm_call_of := (LmCall (X := X) (AccountId := AccountId) (AmmPoolId := AmmPoolId)).

(** The owner of a new farm pays for it. *)
Definition call_spends (c : lm_call_of) : Prop :=
  match c with
  | CreateGlobalFarm _ _ _ _ _ owner _ _ _ | CreateGlobalFarmWithoutPriceAdjustment _ _ _ _ _ owner _ _ => spends owner
  | _ => True
  end.
Definition moves_shares (c : lm_call_of) : bool :=
  match c with DepositLpShares _ _ _ _ _ | WithdrawLpShares _ _ _ _ _ => true | _ => false end.

Lemma dispatch_effect c s s' :
  lm_inv s → call_typed T c → call_spends c → dispatch T c s = Ok (tt, s') →
  R (lm_ext s) (lm_ext s') ∧ (moves_shares c = false → locked_view s' = locked_view s).
Proof.
  intros I Hc Hsp Hr. enough (quiet_run s s' ∨ moves_shares c = true ∧ R (lm_ext s) (lm_ext s'))
    as [[? ?]|[E ?]] by (split; [done|congruence]).
  destruct c; unfold dispatch, ignore in Hr; simpl in Hsp; inv_run; try (left; solve
    [ by eapply update_price_quiet | by eapply update_global_farm_quiet | by eapply terminate_global_farm_quiet
    | by eapply create_yield_farm_quiet | by eapply update_multiplier_quiet | by eapply stop_yield_farm_quiet
    | by eapply resume_yield_farm_quiet | by eapply terminate_yield_farm_quiet ]).
  - left. eapply create_global_farm_quiet; [|done|eassumption]. by destruct Hc as [[? _] _].
  - left. eapply create_global_farm_quiet; [|done|eassumption]. by destruct Hc as [[? _] _].
  - right. split; [done|]. by eapply deposit_effect.
  - left. match goal with E : redeposit_lp_shares _ _ _ _ _ _ = Ok (?v, _) |- _ =>
      destruct v; by eapply redeposit_effect end.
  - left. match goal with E : mutate_claim_rewards _ _ _ _ _ = Ok (?v, _) |- _ =>
      destruct v as [[[? ?] ?] ?]; by eapply claimed_quiet, claim_rewards_claimed end.
  - right. split; [done|]. match goal with E : mutate_withdraw_lp_shares _ _ _ _ _ _ _ = Ok (?v, _) |- _ =>
      destruct v as [[? ?] ?]; by eapply mutate_withdraw_effect end.
Qed.
End effects.
