(* ===== verification/XykLiquidityMining.v ===== *)
(** * Liquidity mining for XYK shares

    Models [pallets/xyk-liquidity-mining/src/lib.rs]: the pallet through which the
    providers of XYK pools lock their shares in yield farms.  It keeps no storage
    of its own; it calls [LiquidityMining], moves the shares between the user and
    its account and keeps an NFT for every deposit.  The AMM, the NFT handler, the
    oracle of liquidity and the asset registry are operations of [XlmConfig] on
    the chain [X] that liquidity mining runs on.  A deposit is locked in the pool
    with the account [AmmPoolId = AccountId]. *)

From S2P Require Import Prelude Arithmetic Currency XykMath XykPallet LiquidityMiningMath LiquidityMining.

Module XlmError.
Inductive t :=
| CantFindDepositOwner
| InsufficientXykSharesBalance
| XykPoolDoesntExist
| NotDepositOwner
| CantGetXykAssets
| DepositDataNotFound
| ZeroClaimedRewards
| AssetNotInAssetPair
| InvalidAssetPair
| AssetNotRegistered
| FailToGetPotId
| NoFarmsSpecified
| FailedToValueShares.
End XlmError.

Module XlmEvent.
Inductive t (AccountId : Type) :=
| GlobalFarmCreated (id : Z) (owner : AccountId) (total_rewards : Balance) (reward_currency : AssetId)
    (yield_per_period planned_yielding_periods blocks_per_period : Z) (incentivized_asset : AssetId)
    (max_reward_per_period min_deposit : Balance) (price_adjustment : FixedU128)
| GlobalFarmUpdated (id : Z) (price_adjustment : FixedU128)
| YieldFarmCreated (global_farm_id yield_farm_id : Z) (multiplier : FixedU128) (asset_pair : AssetPair)
    (loyalty_curve : option LoyaltyCurve.t)
| GlobalFarmTerminated (global_farm_id : Z) (who : AccountId) (reward_currency : AssetId)
    (undistributed_rewards : Balance)
| SharesDeposited (global_farm_id yield_farm_id : Z) (who : AccountId) (amount : Balance) (lp_token : AssetId)
    (deposit_id : Z)
| SharesRedeposited (global_farm_id yield_farm_id : Z) (who : AccountId) (amount : Balance) (lp_token : AssetId)
    (deposit_id : Z)
| RewardClaimed (global_farm_id yield_farm_id : Z) (who : AccountId) (claimed : Balance) (reward_currency : AssetId)
    (deposit_id : Z)
| SharesWithdrawn (global_farm_id yield_farm_id : Z) (who : AccountId) (lp_token : AssetId) (amount : Balance)
    (deposit_id : Z)
| YieldFarmStopped (global_farm_id yield_farm_id : Z) (who : AccountId) (asset_pair : AssetPair)
| YieldFarmResumed (global_farm_id yield_farm_id : Z) (who : AccountId) (asset_pair : AssetPair)
    (multiplier : FixedU128)
| YieldFarmTerminated (global_farm_id yield_farm_id : Z) (who : AccountId) (asset_pair : AssetPair)
| YieldFarmUpdated (global_farm_id yield_farm_id : Z) (who : AccountId) (asset_pair : AssetPair)
    (multiplier : FixedU128)
| DepositDestroyed (who : AccountId) (deposit_id : Z).
#[global] Arguments GlobalFarmCreated {AccountId}.
#[global] Arguments GlobalFarmUpdated {AccountId}.
#[global] Arguments YieldFarmCreated {AccountId}.
#[global] Arguments GlobalFarmTerminated {AccountId}.
#[global] Arguments SharesDeposited {AccountId}.
#[global] Arguments SharesRedeposited {AccountId}.
#[global] Arguments RewardClaimed {AccountId}.
#[global] Arguments SharesWithdrawn {AccountId}.
#[global] Arguments YieldFarmStopped {AccountId}.
#[global] Arguments YieldFarmResumed {AccountId}.
#[global] Arguments YieldFarmTerminated {AccountId}.
#[global] Arguments YieldFarmUpdated {AccountId}.
#[global] Arguments DepositDestroyed {AccountId}.
End XlmEvent.

(** ** Configuration and state *)

(** What the pallet reads of an entry of the oracle: the liquidity of both assets
    and the issuance of the shares. *)
Record LiquidityEntry := mkLiquidityEntry {
  liquidity_a : Balance;
  liquidity_b : Balance;
  shares_issuance : option Balance;
}.

Record XlmConfig (X AccountId : Type) := mkXlmConfig {
  CreateOrigin : RawOrigin AccountId → bool;
  account_id : AccountId;
  nft_owner : Z → X → option AccountId;
  nft_mint_into : Z → AccountId → X → result Z X;
  nft_burn : Z → option AccountId → X → result Z X;
  amm_exists : AssetPair → X → bool;
  amm_get_pair_id : AssetPair → AccountId;
  amm_get_share_token : AssetPair → X → AssetId;
  amm_get_pool_assets : AccountId → X → option (list AssetId);
  amm_add_liquidity : AccountId → AssetId → AssetId → Balance → Balance → X → result Z (Balance * X);
  oracle_get_entry : AssetId → AssetId → X → result Z LiquidityEntry;
  registry_is_sufficient : AssetId → X → bool;
  xlm_existential_deposit : AssetId → X → option Balance;
  (** The index of an error of each of the two pallets in [DispatchError]. *)
  lm_error_index : LmError.t → Z;
  xlm_error_index : XlmError.t → Z;
}.
#[global] Arguments CreateOrigin {X AccountId} _.
#[global] Arguments account_id {X AccountId} _.
#[global] Arguments nft_owner {X AccountId} _.
#[global] Arguments nft_mint_into {X AccountId} _.
#[global] Arguments nft_burn {X AccountId} _.
#[global] Arguments amm_exists {X AccountId} _.
#[global] Arguments amm_get_pair_id {X AccountId} _.
#[global] Arguments amm_get_share_token {X AccountId} _.
#[global] Arguments amm_get_pool_assets {X AccountId} _.
#[global] Arguments amm_add_liquidity {X AccountId} _.
#[global] Arguments oracle_get_entry {X AccountId} _.
#[global] Arguments registry_is_sufficient {X AccountId} _.
#[global] Arguments xlm_existential_deposit {X AccountId} _.
#[global] Arguments lm_error_index {X AccountId} _.
#[global] Arguments xlm_error_index {X AccountId} _.

(** The events of the pallet and the state of liquidity mining, which holds the
    rest of the chain. *)
Record xlm (X AccountId : Type) `{Countable AccountId} := mkXlm {
  xlm_events : list (XlmEvent.t AccountId);
  xlm_lm : lm X AccountId AccountId;
}.
#[global] Arguments mkXlm {X AccountId _ _} _ _.
#[global] Arguments xlm_events {X AccountId _ _} _.
#[global] Arguments xlm_lm {X AccountId _ _} _.

Section xyk_liquidity_mining.
Context {X AccountId : Type} `{Countable AccountId}.
Context `{SpArithmetic} `{!MultiCurrency X AccountId}.
Context (T : LmConfig X AccountId) (C : XlmConfig X AccountId).

Notation lm := (lm X AccountId AccountId).
Notation xlm := (xlm X AccountId).
Notation LmM := (M lm (DispatchError LmError.t)).
Notation XlmM := (M xlm (DispatchError XlmError.t)).
Implicit Types (s : xlm) (who owner : AccountId) (asset_pair : AssetPair) (o : RawOrigin AccountId).

Definition set_xlm_lm (l : lm) s : xlm := mkXlm (xlm_events s) l.
Definition xlm_ext s : X := lm_ext (xlm_lm s).
Definition set_xlm_ext (x : X) s : xlm := set_xlm_lm (set_lm_ext x (xlm_lm s)) s.

Definition xlm_deposit_event (e : XlmEvent.t AccountId) : XlmM unit :=
  modify (λ s, mkXlm (xlm_events s ++ [e]) (xlm_lm s)).
(** An error of liquidity mining is handed on. *)
Definition of_lm_error (e : DispatchError LmError.t) : DispatchError XlmError.t :=
  match e with
  | ModuleError e => Foreign (lm_error_index C e)
  | Arithmetic e => Arithmetic e
  | Token e => Token e
  | BadOrigin => BadOrigin
  | Corruption => Corruption
  | Foreign code => Foreign code
  end.
Definition handler {A} (m : LmM A) : XlmM A := λ s,
  match m (xlm_lm s) with Ok (a, l) => Ok (a, set_xlm_lm l s) | Err e => Err (of_lm_error e) end.
(** A call to the AMM, the currency or the NFT handler. *)
Definition chain_call {A} (f : X → result Z (A * X)) : XlmM A := on_ext xlm_ext set_xlm_ext f.
Definition chain_call_ (f : X → result Z X) : XlmM unit := on_ext_ xlm_ext set_xlm_ext f.

(** ** Helpers *)

Definition get_lp_token (amm_pool_id : AccountId) : XlmM AssetId :=
  s ← get;
  assets ← some_or (amm_get_pool_assets C amm_pool_id (xlm_ext s)) XlmError.CantGetXykAssets;
  a ← or_panic (assets !! 0%nat);
  b ← or_panic (assets !! 1%nat);
  let asset_pair := mkAssetPair a b in
  ensure_or (amm_exists C asset_pair (xlm_ext s)) XlmError.XykPoolDoesntExist;;
  mret (amm_get_share_token C asset_pair (xlm_ext s)).

Definition lock_lp_tokens (lp_token : AssetId) who (amount : Balance) : XlmM unit :=
  chain_call_ (transfer lp_token who (account_id C) amount AllowDeath).

Definition unlock_lp_tokens (lp_token : AssetId) who (amount : Balance) : XlmM unit :=
  chain_call_ (transfer lp_token (account_id C) who amount AllowDeath).

(** The callback that values shares; its errors are errors of this pallet, and the
    panic of an index out of range is [-1], as in [or_panic]. *)
Definition get_token_value_of_lp_shares (asset : AssetId) (amm_pool_id : AccountId) (lp_shares_amount : Balance) (x : X) :
    result Z Balance :=
  assets ← ok_or (amm_get_pool_assets C amm_pool_id x) (xlm_error_index C XlmError.CantGetXykAssets);
  _ ← ensure (bool_decide (asset ∈ assets)) (xlm_error_index C XlmError.AssetNotInAssetPair);
  a ← ok_or (assets !! 0%nat) (-1);
  b ← ok_or (assets !! 1%nat) (-1);
  oracle_entry ← map_err (λ _, xlm_error_index C XlmError.FailedToValueShares) (oracle_get_entry C a b x);
  issuance ← ok_or (shares_issuance oracle_entry) (xlm_error_index C XlmError.FailedToValueShares);
  '(liq_a, liq_b) ← map_err (λ _, xlm_error_index C XlmError.FailedToValueShares)
    (calculate_liquidity_out (liquidity_a oracle_entry) (liquidity_b oracle_entry) lp_shares_amount issuance);
  Ok (if a =? asset then liq_a else liq_b).

Definition ensure_xyk asset_pair : XlmM AccountId :=
  s ← get;
  ensure_or (amm_exists C asset_pair (xlm_ext s)) XlmError.XykPoolDoesntExist;;
  mret (amm_get_pair_id C asset_pair).

Definition ensure_nft_owner o (deposit_id : Z) : XlmM AccountId :=
  who ← lift (ensure_signed o);
  s ← get;
  owner ← some_or (nft_owner C deposit_id (xlm_ext s)) XlmError.CantFindDepositOwner;
  ensure_or (bool_decide (owner = who)) XlmError.NotDepositOwner;;
  mret who.

Definition do_deposit_shares who (global_farm_id yield_farm_id : Z) asset_pair (amm_share_token : AssetId)
    (shares_amount : Balance) : XlmM Z :=
  amm_pool_id ← ensure_xyk asset_pair;
  s ← get;
  ensure_or (is_ok (ensure_can_withdraw amm_share_token who shares_amount (xlm_ext s)))
    XlmError.InsufficientXykSharesBalance;;
  deposit_id ← handler (LiquidityMining.deposit_lp_shares T global_farm_id yield_farm_id amm_pool_id shares_amount
    get_token_value_of_lp_shares);
  lock_lp_tokens amm_share_token who shares_amount;;
  chain_call_ (nft_mint_into C deposit_id who);;
  xlm_deposit_event (XlmEvent.SharesDeposited global_farm_id yield_farm_id who shares_amount amm_share_token
    deposit_id);;
  mret deposit_id.

(** ** Calls of the farm owners *)

Definition create_global_farm o (total_rewards : Balance) (planned_yielding_periods blocks_per_period : Z)
    (incentivized_asset reward_currency : AssetId) owner (yield_per_period : Z) (min_deposit : Balance)
    (price_adjustment : FixedU128) : XlmM unit :=
  ensure_origin (CreateOrigin C) o;;
  s ← get;
  (if negb (registry_is_sufficient C reward_currency (xlm_ext s)) then
     ed ← some_or (xlm_existential_deposit C reward_currency (xlm_ext s)) XlmError.AssetNotRegistered;
     pot ← some_or (pot_account_id T) XlmError.FailToGetPotId;
     chain_call_ (transfer reward_currency owner pot ed AllowDeath)
   else mret tt);;
  '(id, max_reward_per_period) ← handler (LiquidityMining.create_global_farm T total_rewards planned_yielding_periods
    blocks_per_period incentivized_asset reward_currency owner yield_per_period min_deposit price_adjustment);
  xlm_deposit_event (XlmEvent.GlobalFarmCreated id owner total_rewards reward_currency yield_per_period
    planned_yielding_periods blocks_per_period incentivized_asset max_reward_per_period min_deposit price_adjustment).

Definition update_global_farm o (global_farm_id : Z) (price_adjustment : FixedU128) : XlmM unit :=
  who ← lift (ensure_signed o);
  handler (LiquidityMining.update_global_farm_price_adjustment T who global_farm_id price_adjustment);;
  xlm_deposit_event (XlmEvent.GlobalFarmUpdated global_farm_id price_adjustment).

Definition terminate_global_farm o (global_farm_id : Z) : XlmM unit :=
  who ← lift (ensure_signed o);
  '(reward_currency, undistributed_rewards, who) ← handler (LiquidityMining.terminate_global_farm T who global_farm_id);
  xlm_deposit_event (XlmEvent.GlobalFarmTerminated global_farm_id who reward_currency undistributed_rewards).

Definition create_yield_farm o (global_farm_id : Z) asset_pair (multiplier : FixedU128)
    (loyalty_curve : option LoyaltyCurve.t) : XlmM unit :=
  who ← lift (ensure_signed o);
  amm_pool_id ← ensure_xyk asset_pair;
  yield_farm_id ← handler (LiquidityMining.create_yield_farm T who global_farm_id multiplier loyalty_curve amm_pool_id
    [asset_in asset_pair; asset_out asset_pair]);
  xlm_deposit_event (XlmEvent.YieldFarmCreated global_farm_id yield_farm_id multiplier asset_pair loyalty_curve).

Definition update_yield_farm o (global_farm_id : Z) asset_pair (multiplier : FixedU128) : XlmM unit :=
  who ← lift (ensure_signed o);
  amm_pool_id ← ensure_xyk asset_pair;
  yield_farm_id ← handler (LiquidityMining.update_yield_farm_multiplier T who global_farm_id amm_pool_id multiplier);
  xlm_deposit_event (XlmEvent.YieldFarmUpdated global_farm_id yield_farm_id who asset_pair multiplier).

(** The owner can stop a yield farm of a pool that is gone. *)
Definition stop_yield_farm o (global_farm_id : Z) asset_pair : XlmM unit :=
  who ← lift (ensure_signed o);
  let amm_pool_id := amm_get_pair_id C asset_pair in
  yield_farm_id ← handler (LiquidityMining.stop_yield_farm T who global_farm_id amm_pool_id);
  xlm_deposit_event (XlmEvent.YieldFarmStopped global_farm_id yield_farm_id who asset_pair).

Definition resume_yield_farm o (global_farm_id yield_farm_id : Z) asset_pair (multiplier : FixedU128) : XlmM unit :=
  who ← lift (ensure_signed o);
  amm_pool_id ← ensure_xyk asset_pair;
  handler (LiquidityMining.resume_yield_farm T who global_farm_id yield_farm_id amm_pool_id multiplier);;
  xlm_deposit_event (XlmEvent.YieldFarmResumed global_farm_id yield_farm_id who asset_pair multiplier).

Definition terminate_yield_farm o (global_farm_id yield_farm_id : Z) asset_pair : XlmM unit :=
  who ← lift (ensure_signed o);
  let amm_pool_id := amm_get_pair_id C asset_pair in
  handler (LiquidityMining.terminate_yield_farm T who global_farm_id yield_farm_id amm_pool_id);;
  xlm_deposit_event (XlmEvent.YieldFarmTerminated global_farm_id yield_farm_id who asset_pair).

(** ** Calls of the liquidity providers *)

Definition deposit_shares o (global_farm_id yield_farm_id : Z) asset_pair (shares_amount : Balance) : XlmM unit :=
  who ← lift (ensure_signed o);
  s ← get;
  let amm_share_token := amm_get_share_token C asset_pair (xlm_ext s) in
  do_deposit_shares who global_farm_id yield_farm_id asset_pair amm_share_token shares_amount;;
  mret tt.

(** The loop of [join_farms] over the farms after the first. *)
Fixpoint redeposit_all who (amm_share_token : AssetId) (deposit_id : Z) (farm_entries : list (Z * Z)) : XlmM unit :=
  match farm_entries with
  | [] => mret tt
  | (global_farm_id, yield_farm_id) :: farm_entries =>
      '(redeposited_amount, _) ← handler (LiquidityMining.redeposit_lp_shares T global_farm_id yield_farm_id deposit_id
        get_token_value_of_lp_shares);
      xlm_deposit_event (XlmEvent.SharesRedeposited global_farm_id yield_farm_id who redeposited_amount
        amm_share_token deposit_id);;
      redeposit_all who amm_share_token deposit_id farm_entries
  end.

Definition join_farms o (farm_entries : list (Z * Z)) asset_pair (shares_amount : Balance) : XlmM unit :=
  who ← lift (ensure_signed o);
  ensure_or (negb (bool_decide (farm_entries = []))) XlmError.NoFarmsSpecified;;
  '(global_farm_id, yield_farm_id) ← some_or (head farm_entries) XlmError.NoFarmsSpecified;
  s ← get;
  let amm_share_token := amm_get_share_token C asset_pair (xlm_ext s) in
  deposit_id ← do_deposit_shares who global_farm_id yield_farm_id asset_pair amm_share_token shares_amount;
  redeposit_all who amm_share_token deposit_id (drop 1 farm_entries).

Definition add_liquidity_and_join_farms o (asset_a asset_b : AssetId) (amount_a amount_b_max_limit : Balance)
    (farm_entries : list (Z * Z)) : XlmM unit :=
  who ← lift (ensure_signed o);
  ensure_or (negb (bool_decide (farm_entries = []))) XlmError.NoFarmsSpecified;;
  let asset_pair := mkAssetPair asset_a asset_b in
  shares_added ← chain_call (amm_add_liquidity C who asset_a asset_b amount_a amount_b_max_limit);
  join_farms o farm_entries asset_pair shares_added.

Definition redeposit_shares o (global_farm_id yield_farm_id : Z) asset_pair (deposit_id : Z) : XlmM unit :=
  owner ← ensure_nft_owner o deposit_id;
  amm_pool_id ← ensure_xyk asset_pair;
  s ← get;
  let amm_share_token := amm_get_share_token C asset_pair (xlm_ext s) in
  '(shares_amount, deposit_amm_pool_id) ← handler (LiquidityMining.redeposit_lp_shares T global_farm_id yield_farm_id
    deposit_id get_token_value_of_lp_shares);
  ensure_or (bool_decide (amm_pool_id = deposit_amm_pool_id)) XlmError.InvalidAssetPair;;
  xlm_deposit_event (XlmEvent.SharesRedeposited global_farm_id yield_farm_id owner shares_amount amm_share_token
    deposit_id).

Definition claim_rewards o (deposit_id yield_farm_id : Z) : XlmM unit :=
  owner ← ensure_nft_owner o deposit_id;
  '(global_farm_id, reward_currency, claimed, _) ← handler (mutate_claim_rewards T owner deposit_id yield_farm_id);
  ensure_or (negb (claimed =? 0)) XlmError.ZeroClaimedRewards;;
  xlm_deposit_event (XlmEvent.RewardClaimed global_farm_id yield_farm_id owner claimed reward_currency deposit_id).

Definition withdraw_shares o (deposit_id yield_farm_id : Z) asset_pair : XlmM unit :=
  owner ← ensure_nft_owner o deposit_id;
  amm_pool_id ← ensure_xyk asset_pair;
  s ← get;
  global_farm_id ← some_or (get_global_farm_id deposit_id yield_farm_id (xlm_lm s)) XlmError.DepositDataNotFound;
  '(withdrawn_amount, claim_data, is_destroyed) ← handler (mutate_withdraw_lp_shares T owner deposit_id global_farm_id
    yield_farm_id amm_pool_id);
  (match claim_data with
   | Some (reward_currency, claimed, _) =>
       if negb (claimed =? 0) then
         xlm_deposit_event (XlmEvent.RewardClaimed global_farm_id yield_farm_id owner claimed reward_currency deposit_id)
       else mret tt
   | None => mret tt
   end);;
  lp_token ← get_lp_token amm_pool_id;
  (if negb (withdrawn_amount =? 0) then
     xlm_deposit_event (XlmEvent.SharesWithdrawn global_farm_id yield_farm_id owner lp_token withdrawn_amount deposit_id)
   else mret tt);;
  if (is_destroyed : bool) then
    unlock_lp_tokens lp_token owner withdrawn_amount;;
    chain_call_ (nft_burn C deposit_id (Some owner));;
    xlm_deposit_event (XlmEvent.DepositDestroyed owner deposit_id)
  else mret tt.

Fixpoint exit_farms o (deposit_id : Z) asset_pair (farm_entries : list Z) : XlmM unit :=
  match farm_entries with
  | [] => mret tt
  | yield_farm_id :: farm_entries =>
      withdraw_shares o deposit_id yield_farm_id asset_pair;;
      exit_farms o deposit_id asset_pair farm_entries
  end.
End xyk_liquidity_mining.
