(* ===== verification/XykLiquidityMiningCustody.v ===== *)
(** * Custody of the deposited XYK shares

    What the pallet relies on of the AMM, the NFT handler and the ledger
    ([XlmLaws]); the states that its calls and the rest of the chain reach
    ([xlm_reachable]); and what holds in all of them ([custody]): every run of the
    pallet is a run of liquidity mining, the pallet's account holds the shares of
    all deposits, and a deposit has an NFT as long as it exists. *)

From S2P Require Import Prelude Arithmetic Currency XykMath XykPallet LiquidityMiningMath LiquidityMining.
From S2P Require Import LiquidityMiningInvariant LiquidityMiningClaims LiquidityMiningSteps LiquidityMiningEffects.
From S2P Require Import XykLiquidityMining.

(** ** Calls *)

Module XlmCall.
Inductive t (AccountId : Type) :=
| create_global_farm (total_rewards : Balance) (planned_yielding_periods blocks_per_period : Z)
    (incentivized_asset reward_currency : AssetId) (owner : AccountId) (yield_per_period : Z) (min_deposit : Balance)
    (price_adjustment : FixedU128)
| update_global_farm (global_farm_id : Z) (price_adjustment : FixedU128)
| terminate_global_farm (global_farm_id : Z)
| create_yield_farm (global_farm_id : Z) (asset_pair : AssetPair) (multiplier : FixedU128)
    (loyalty_curve : option LoyaltyCurve.t)
| update_yield_farm (global_farm_id : Z) (asset_pair : AssetPair) (multiplier : FixedU128)
| stop_yield_farm (global_farm_id : Z) (asset_pair : AssetPair)
| resume_yield_farm (global_farm_id yield_farm_id : Z) (asset_pair : AssetPair) (multiplier : FixedU128)
| terminate_yield_farm (global_farm_id yield_farm_id : Z) (asset_pair : AssetPair)
| deposit_shares (global_farm_id yield_farm_id : Z) (asset_pair : AssetPair) (shares_amount : Balance)
| join_farms (farm_entries : list (Z * Z)) (asset_pair : AssetPair) (shares_amount : Balance)
| add_liquidity_and_join_farms (asset_a asset_b : AssetId) (amount_a amount_b_max_limit : Balance)
    (farm_entries : list (Z * Z))
| redeposit_shares (global_farm_id yield_farm_id : Z) (asset_pair : AssetPair) (deposit_id : Z)
| claim_rewards (deposit_id yield_farm_id : Z)
| withdraw_shares (deposit_id yield_farm_id : Z) (asset_pair : AssetPair)
| exit_farms (deposit_id : Z) (asset_pair : AssetPair) (farm_entries : list Z).
#[global] Arguments create_global_farm {AccountId}.
#[global] Arguments update_global_farm {AccountId}.
#[global] Arguments terminate_global_farm {AccountId}.
#[global] Arguments create_yield_farm {AccountId}.
#[global] Arguments update_yield_farm {AccountId}.
#[global] Arguments stop_yield_farm {AccountId}.
#[global] Arguments resume_yield_farm {AccountId}.
#[global] Arguments terminate_yield_farm {AccountId}.
#[global] Arguments deposit_shares {AccountId}.
#[global] Arguments join_farms {AccountId}.
#[global] Arguments add_liquidity_and_join_farms {AccountId}.
#[global] Arguments redeposit_shares {AccountId}.
#[global] Arguments claim_rewards {AccountId}.
#[global] Arguments withdraw_shares {AccountId}.
#[global] Arguments exit_farms {AccountId}.
End XlmCall.

Definition xdispatch {X AccountId} `{Countable AccountId, SpArithmetic, !MultiCurrency X AccountId} (T : LmConfig X AccountId)
    (C : XlmConfig X AccountId) (o : RawOrigin AccountId) (c : XlmCall.t AccountId) :
    M (xlm X AccountId) (DispatchError XlmError.t) unit :=
  match c with
  | XlmCall.create_global_farm total planned blocks inc cur owner yield min price =>
      create_global_farm T C o total planned blocks inc cur owner yield min price
  | XlmCall.update_global_farm g price => update_global_farm T C o g price
  | XlmCall.terminate_global_farm g => terminate_global_farm T C o g
  | XlmCall.create_yield_farm g ab m curve => create_yield_farm T C o g ab m curve
  | XlmCall.update_yield_farm g ab m => update_yield_farm T C o g ab m
  | XlmCall.stop_yield_farm g ab => stop_yield_farm T C o g ab
  | XlmCall.resume_yield_farm g y ab m => resume_yield_farm T C o g y ab m
  | XlmCall.terminate_yield_farm g y ab => terminate_yield_farm T C o g y ab
  | XlmCall.deposit_shares g y ab n => deposit_shares T C o g y ab n
  | XlmCall.join_farms farms ab n => join_farms T C o farms ab n
  | XlmCall.add_liquidity_and_join_farms a b n limit farms => add_liquidity_and_join_farms T C o a b n limit farms
  | XlmCall.redeposit_shares g y ab i => redeposit_shares T C o g y ab i
  | XlmCall.claim_rewards i y => claim_rewards T C o i y
  | XlmCall.withdraw_shares i y ab => withdraw_shares T C o i y ab
  | XlmCall.exit_farms i ab farms => exit_farms T C o i ab farms
  end.

(** ** The interface to the rest of the chain *)

Section views.
Context {X AccountId : Type} (C : XlmConfig X AccountId).
Implicit Types (x : X) (pool : AccountId) (asset_pair : AssetPair).

(** The share token of a pool, as a withdrawal finds it. *)
Definition token_of pool x : option AssetId :=
  assets ← amm_get_pool_assets C pool x;
  a ← assets !! 0%nat;
  b ← assets !! 1%nat;
  if amm_exists C (mkAssetPair a b) x then Some (amm_get_share_token C (mkAssetPair a b) x) else None.

(** A call that changes nothing about the pools. *)
Record same_amm x x' : Prop := {
  sa_exists asset_pair : amm_exists C asset_pair x' = amm_exists C asset_pair x;
  sa_token asset_pair : amm_get_share_token C asset_pair x' = amm_get_share_token C asset_pair x;
  sa_assets pool : amm_get_pool_assets C pool x' = amm_get_pool_assets C pool x;
}.
Definition same_nfts x x' : Prop := ∀ i, nft_owner C i x' = nft_owner C i x.

#[global] Instance same_amm_preorder : PreOrder same_amm.
Proof. split; [by constructor|]. intros ? ? ? [] []. constructor; congruence. Qed.
#[global] Instance same_nfts_preorder : PreOrder same_nfts.
Proof. split; [done|]. intros x y z E1 E2 i. by rewrite E2, E1. Qed.

Lemma token_of_same pool x x' : same_amm x x' → token_of pool x' = token_of pool x.
Proof.
  intros [E1 E2 E3]. unfold token_of. rewrite E3. destruct (amm_get_pool_assets C pool x) as [l|]; simpl; [|done].
  destruct (l !! 0%nat); simpl; [|done]. destruct (l !! 1%nat); simpl; [|done]. by rewrite E1, E2.
Qed.
End views.

(** The pallet's account is its own; a transfer and the whitelist touch neither
    pools nor NFTs; minting and burning change one NFT; adding liquidity takes only
    from the provider.  [chain_ok] is what the rest of the chain keeps in order: the
    AMM finds the share token of a pool by its pair and by its account. *)
Class XlmLaws {X AccountId} `{EqDecision AccountId, MultiCurrency X AccountId} (T : LmConfig X AccountId)
    (C : XlmConfig X AccountId) (chain_ok : X → Prop) : Prop := {
  xl_pot pot : pot_account_id T = Some pot → pot ≠ account_id C;
  xl_farm id a : sub_account T id = Some a → a ≠ account_id C;
  xl_transfer c f t amount er x x' : 0 <= amount → transfer c f t amount er x = Ok x' →
    same_amm C x x' ∧ same_nfts C x x' ∧ (chain_ok x → chain_ok x');
  xl_whitelist_add a x x' : whitelist_add_account T a x = Ok x' →
    same_amm C x x' ∧ same_nfts C x x' ∧ (chain_ok x → chain_ok x');
  xl_whitelist_remove a x x' : whitelist_remove_account T a x = Ok x' →
    same_amm C x x' ∧ same_nfts C x x' ∧ (chain_ok x → chain_ok x');
  xl_mint i who x x' : nft_mint_into C i who x = Ok x' →
    nft_owner C i x = None ∧ (∀ j, nft_owner C j x' = if decide (j = i) then Some who else nft_owner C j x) ∧
    same_amm C x x' ∧ same_ledger (AccountId := AccountId) x x' ∧ (chain_ok x → chain_ok x') ∧
    current_block_number T x' = current_block_number T x;
  xl_burn i who x x' : nft_burn C i who x = Ok x' →
    (∀ j, nft_owner C j x' = if decide (j = i) then None else nft_owner C j x) ∧
    same_amm C x x' ∧ same_ledger (AccountId := AccountId) x x' ∧ (chain_ok x → chain_ok x') ∧
    current_block_number T x' = current_block_number T x;
  xl_add_liquidity who a b amount limit x n x' : chain_ok x → fits u128 amount →
    amm_add_liquidity C who a b amount limit x = Ok (n, x') →
    fits u128 n ∧ same_amm C x x' ∧ same_nfts C x x' ∧ chain_ok x' ∧
    (∀ c acc, acc ≠ who → free_balance c acc x <= free_balance c acc x') ∧
    current_block_number T x' = current_block_number T x;
  xl_token x p : chain_ok x → amm_exists C p x = true →
    token_of C (amm_get_pair_id C p) x = Some (amm_get_share_token C p x);
  xl_deposit_nonneg c x ed : xlm_existential_deposit C c x = Some ed → 0 <= ed;
  xl_oracle a b x e : oracle_get_entry C a b x = Ok e →
    fits u128 (liquidity_a e) ∧ fits u128 (liquidity_b e) ∧ ∀ n, shares_issuance e = Some n → fits u128 n;
}.

Section custody.
Context {X AccountId : Type} `{Countable AccountId} `{!Inhabited AccountId}.
Context `{SpArithmeticLaws} `{!MultiCurrency X AccountId} `{!MultiCurrencyLaws X AccountId}.
Context (T : LmConfig X AccountId) `{!LmConfigLaws T}.
Context (C : XlmConfig X AccountId) (chain_ok : X → Prop) `{!XlmLaws T C chain_ok}.

Notation lm := (lm X AccountId AccountId).
Notation xlm := (xlm X AccountId).
Notation XlmM := (M xlm (DispatchError XlmError.t)).
Notation token_of := (token_of C).
Notation vault := (account_id C).
Notation value := (get_token_value_of_lp_shares C).
Implicit Types (s : xlm) (l : lm) (x : X) (who owner : AccountId) (p : AccountId) (asset_pair : AssetPair)
  (o : RawOrigin AccountId) (V : gmap Z (Balance * AccountId)).

(** ** Locked shares *)

Definition locked_shares (c : AssetId) V x : Z := sum_kmap (λ _ v, when (token_of v.2 x = Some c) v.1) V.
Definition view s : gmap Z (Balance * AccountId) := locked_view (xlm_lm s).

Lemma locked_same_tokens c V x x' :
  (∀ i n p, V !! i = Some (n, p) → token_of p x' = token_of p x) → locked_shares c V x' = locked_shares c V x.
Proof. intros E. apply sum_kmap_ext. intros i [n p] Hi. simpl. by rewrite (E i n p Hi). Qed.

Lemma locked_add c V x i n p t :
  V !! i = None → token_of p x = Some t →
  locked_shares c (<[i := (n, p)]> V) x = locked_shares c V x + when (c = t) n.
Proof.
  intros Hi Et. unfold locked_shares. rewrite sum_kmap_insert by done. simpl. rewrite Et. by_moves.
Qed.

Lemma locked_remove c V x i n p t :
  V !! i = Some (n, p) → token_of p x = Some t →
  locked_shares c (delete i V) x = locked_shares c V x - when (c = t) n.
Proof.
  intros Hi Et. unfold locked_shares. rewrite (sum_kmap_delete _ V i (n, p)) by done. simpl. rewrite Et. by_moves.
Qed.

(** What is in order between two calls. *)
Record custody s : Prop := {
  cu_lm : lm_reachable T (xlm_lm s);
  cu_chain : chain_ok (xlm_ext s);
  cu_token i n p : view s !! i = Some (n, p) → is_Some (token_of p (xlm_ext s));
  cu_held c : locked_shares c (view s) (xlm_ext s) <= free_balance c vault (xlm_ext s);
  cu_owner i : is_Some (nft_owner C i (xlm_ext s)) ↔ is_Some (view s !! i);
}.

(** ** Runs that move no shares *)

(** Nothing is taken from the accounts in [P]. *)
Record keeps (P : AccountId → Prop) x x' : Prop := {
  ke_amm : same_amm C x x';
  ke_nfts : same_nfts C x x';
  ke_chain : chain_ok x → chain_ok x';
  ke_balance c a : P a → free_balance c a x <= free_balance c a x';
}.
#[local] Instance keeps_preorder P : PreOrder (keeps P).
Proof.
  split; [by constructor|]. intros x y z [A1 N1 C1 B1] [A2 N2 C2 B2].
  constructor; [by etransitivity|by etransitivity|auto|]. intros c a Ha. etransitivity; [by apply B1|by apply B2].
Qed.

Definition quiet (P : AccountId → Prop) s s' : Prop :=
  rtc (lm_step T) (xlm_lm s) (xlm_lm s') ∧ keeps P (xlm_ext s) (xlm_ext s') ∧ view s' = view s.
#[local] Instance quiet_preorder P : PreOrder (quiet P).
Proof.
  split; [intros s; unfold quiet; by split_and!|]. intros a b c (S1 & K1 & E1) (S2 & K2 & E2).
  split_and!; [by etransitivity|by etransitivity|congruence].
Qed.

(** An account that belongs neither to liquidity mining nor to the pallet. *)
Definition outsider (a : AccountId) : Prop := not_pot T a ∧ ∀ id acc, farm_account_id T id = Ok acc → a ≠ acc.
Definition guards (P : AccountId → Prop) : Prop := ∀ a, P a → outsider a.

Lemma vault_outsider : outsider vault.
Proof.
  split.
  - intros pot Hp. apply not_eq_sym. by eapply xl_pot.
  - intros id acc Ha. unfold farm_account_id in Ha. inv_run. apply not_eq_sym. by eapply xl_farm.
Qed.

Lemma custody_quiet P s s' : P vault → quiet P s s' → custody s → custody s'.
Proof.
  intros Hv (Hs & [A N Ck B] & E) [L Cc Ct Ch Co].
  constructor; rewrite ?E.
  - destruct L as [x0 L]. exists x0. by etransitivity.
  - auto.
  - intros i n p Hi. rewrite (token_of_same C _ _ _ A). eauto.
  - intros c. rewrite (locked_same_tokens c _ (xlm_ext s)) by (intros; by apply token_of_same).
    etransitivity; [by apply Ch|by apply B].
  - intros i. by rewrite N.
Qed.

(** A transfer by an account that is not guarded. *)
Lemma transfer_keeps P c f t n er x x' :
  ¬ P f → 0 <= n → transfer c f t n er x = Ok x' → keeps P x x'.
Proof.
  intros Hf Hn Ht. destruct (xl_transfer _ _ _ _ _ _ _ Hn Ht) as (A & N & Ck). constructor; [done..|].
  intros c' a Ha. apply transfer_moves in Ht as (_ & -> & _); [|done].
  assert (a ≠ f) by (intros ->; done). by_moves.
Qed.

Lemma same_ledger_keeps P x x' :
  same_ledger (AccountId := AccountId) x x' → same_amm C x x' ∧ same_nfts C x x' ∧ (chain_ok x → chain_ok x') →
  keeps P x x'.
Proof. intros [E _] (A & N & Ck). constructor; [done..|]. intros c a _. by rewrite E. Qed.

(** Liquidity mining keeps the accounts of outsiders. *)
Lemma call_R P : guards P →
  (∀ a x x', whitelist_add_account T a x = Ok x' → keeps P x x') ∧
  (∀ a x x', whitelist_remove_account T a x = Ok x' → keeps P x x') ∧
  (∀ pot, pot_account_id T = Some pot → ¬ P pot) ∧ (∀ id a, farm_account_id T id = Ok a → ¬ P a).
Proof.
  intros Hg. split_and!.
  - intros a x x' Hw. eapply same_ledger_keeps; [by eapply lm_whitelist_add|by eapply xl_whitelist_add].
  - intros a x x' Hw. eapply same_ledger_keeps; [by eapply lm_whitelist_remove|by eapply xl_whitelist_remove].
  - intros pot Hp Hin. destruct (Hg _ Hin) as [Hn _]. by eapply Hn.
  - intros id a Ha Hin. destruct (Hg _ Hin) as [_ Hn]. by eapply Hn.
Qed.

Lemma handler_Ok {A} (m : M lm (DispatchError LmError.t) A) s a s' :
  handler C m s = Ok (a, s') → ∃ l, m (xlm_lm s) = Ok (a, l) ∧ s' = set_xlm_lm l s.
Proof. unfold handler. destruct (m (xlm_lm s)) as [[b l]|]; naive_solver. Qed.

Lemma ignore_Ok {A} (m : M lm (DispatchError LmError.t) A) l a l' : m l = Ok (a, l') → ignore m l = Ok (tt, l').
Proof. unfold ignore. intros Hr. unfold mbind, M_bind. by rewrite Hr. Qed.

Lemma handler_quiet P c s l :
  guards P → custody s → call_typed T c → call_spends (λ a, ¬ P a) c → moves_shares c = false →
  dispatch T c (xlm_lm s) = Ok (tt, l) → quiet P s (set_xlm_lm l s).
Proof.
  intros Hg Cu Hc Hs Hm Hd. destruct (call_R P Hg) as (Ra & Rr & Rp & Rf).
  destruct (dispatch_effect T (keeps P) (λ a, ¬ P a) (transfer_keeps P) Ra Rr Rp Rf c (xlm_lm s) l) as [K E];
    [by apply lm_reachable_inv, cu_lm|done..|].
  split_and!; [|done|by apply E]. by eapply rtc_once, step_call.
Qed.

(** Something outside liquidity mining happens that the pot does not pay for. *)
Definition spares_pot x x' : Prop :=
  current_block_number T x' = current_block_number T x ∧
  ∀ c pot, pot_account_id T = Some pot → free_balance c pot x <= free_balance c pot x'.

Lemma spares_pot_step l x : spares_pot (lm_ext l) x → lm_step T l (set_lm_ext x l).
Proof. intros [Eb Hp]. apply step_chain; [|done]. unfold lm_block. lia. Qed.

Lemma chain_quiet P s x : keeps P (xlm_ext s) x → spares_pot (xlm_ext s) x → quiet P s (set_xlm_ext x s).
Proof. intros K Hp. split_and!; [|done|done]. by apply rtc_once, spares_pot_step. Qed.

Lemma transfer_spares_pot c f t n er x x' :
  not_pot T f → 0 <= n → transfer c f t n er x = Ok x' → spares_pot x x'.
Proof.
  intros Hf Hn Ht. split; [by eapply lm_transfer_block|]. intros c' pot Hp. specialize (Hf pot Hp).
  apply transfer_moves in Ht as (_ & -> & _); [|done]. by_moves.
Qed.

Lemma same_ledger_spares_pot x x' :
  same_ledger (AccountId := AccountId) x x' → current_block_number T x' = current_block_number T x → spares_pot x x'.
Proof. intros [E _] Eb. split; [done|]. intros c pot _. by rewrite E. Qed.

(** Shares are valued by amounts of their type. *)
Lemma value_of_shares_typed : value_typed (X := X) value.
Proof.
  intros a p n x v Hn Hr. unfold get_token_value_of_lp_shares in Hr. inv_run.
  match goal with E : oracle_get_entry _ _ _ _ = Ok _ |- _ => destruct (xl_oracle _ _ _ _ E) as (Ha & Hb & Hi) end.
  match goal with E : shares_issuance _ = Some _ |- _ => apply Hi in E end.
  match goal with E : calculate_liquidity_out _ _ _ _ = Ok ?v0 |- _ => destruct v0;
    apply liquidity_out_value in E as (_ & -> & -> & ? & ?) end.
  unfold fits in *. case_match; inv_run; (split; [apply muldiv_nonneg; lia|done]).
Qed.

(** ** Deposits *)

(** A signer holds no account of the pallets. *)
Definition user who : Prop := outsider who ∧ who ≠ vault.
Definition is_vault (a : AccountId) : Prop := a = vault.

Lemma guards_vault : guards is_vault.
Proof. intros a ->. apply vault_outsider. Qed.
Lemma guards_outsider : guards outsider.
Proof. by intros a. Qed.

(** The effects of liquidity mining with the pallet's guards. *)
Lemma lm_deposit_effect P g y p n s i l :
  guards P → custody s → fits u128 n → deposit_lp_shares T g y p n value (xlm_lm s) = Ok (i, l) →
  lm_step T (xlm_lm s) l ∧ keeps P (xlm_ext s) (lm_ext l) ∧ view s !! i = None ∧
  locked_view l = <[i := (n, p)]> (view s).
Proof.
  intros Hg Cu Hn Hr. destruct (call_R P Hg) as (Ra & Rr & Rp & Rf). split.
  - apply (step_call T (DepositLpShares g y p n value)); [split; [done|apply value_of_shares_typed]|by eapply ignore_Ok].
  - eapply (deposit_effect T (keeps P) (λ a, ¬ P a)); [by apply transfer_keeps|done..| |exact Hr].
    by apply lm_reachable_inv, cu_lm.
Qed.

Lemma lm_withdraw_effect P who i g y p s n data b l :
  guards P → custody s → mutate_withdraw_lp_shares T who i g y p (xlm_lm s) = Ok ((n, data, b), l) →
  lm_step T (xlm_lm s) l ∧ withdrawn (keeps P) i p n b (xlm_lm s) l ∧ fits u128 n.
Proof.
  intros Hg Cu Hr. destruct (call_R P Hg) as (Ra & Rr & Rp & Rf).
  pose proof (lm_reachable_inv T _ (cu_lm _ Cu)) as I.
  assert (withdrawn (keeps P) i p n b (xlm_lm s) l) as W.
  { by eapply (mutate_withdraw_effect T (keeps P) (λ a, ¬ P a)); [apply transfer_keeps|..|exact Hr]. }
  split; [|split; [done|]].
  - apply (step_call T (WithdrawLpShares who i g y p)); [done|by eapply ignore_Ok].
  - destruct W as (_ & (d & Hd & E)%locked_view_Some & _). injection E as -> _. by eapply do_shares, (inv_deposit T _ I).
Qed.

(** A deposit as the user sees it. *)
Record deposited who (tok : AssetId) (n : Balance) p i s s' : Prop := {
  de_custody : custody s';
  de_new : view s !! i = None;
  de_view : view s' = <[i := (n, p)]> (view s);
  de_token : token_of p (xlm_ext s) = Some tok;
  de_owner : nft_owner C i (xlm_ext s') = Some who;
  de_locked : free_balance tok vault (xlm_ext s) + n <= free_balance tok vault (xlm_ext s');
}.

Lemma deposited_custody s s' i n p tok who x :
  custody s → view s !! i = None → token_of p (xlm_ext s) = Some tok →
  rtc (lm_step T) (xlm_lm s) (xlm_lm s') → view s' = <[i := (n, p)]> (view s) →
  keeps is_vault (xlm_ext s) x → same_amm C x (xlm_ext s') → chain_ok (xlm_ext s') →
  (∀ j, nft_owner C j (xlm_ext s') = if decide (j = i) then Some who else nft_owner C j x) →
  (∀ c, free_balance c vault x + when (c = tok) n <= free_balance c vault (xlm_ext s')) →
  deposited who tok n p i s s'.
Proof.
  intros [[x0 L] Cc Ct Ch Co] Hi Et Hs Ev [A N _ B] A' Hc' Hn Hb.
  assert (same_amm C (xlm_ext s) (xlm_ext s')) as Sa by by etransitivity.
  constructor; [|done..|by rewrite Hn, decide_True|].
  2: { specialize (Hb tok). specialize (B tok vault eq_refl). rewrite when_true in Hb by done. lia. }
  constructor; rewrite ?Ev.
  - exists x0. by etransitivity.
  - done.
  - intros j m q [[-> [= <- <-]]|[_ Hj]]%lookup_insert_Some; rewrite (token_of_same C _ _ _ Sa); eauto.
  - intros c. rewrite (locked_same_tokens c _ (xlm_ext s)) by (intros; by apply token_of_same).
    rewrite (locked_add c _ _ i n p tok) by done. specialize (Hb c). specialize (Ch c). specialize (B c vault eq_refl). lia.
  - intros j. rewrite Hn, lookup_insert. case_decide; subst; [by rewrite decide_True|].
    rewrite decide_False by done. rewrite N. apply Co.
Qed.

Lemma ensure_xyk_Ok asset_pair s p s' :
  ensure_xyk C asset_pair s = Ok (p, s') → s' = s ∧ p = amm_get_pair_id C asset_pair ∧ amm_exists C asset_pair (xlm_ext s) = true.
Proof. unfold ensure_xyk. intros Hr. by inv_pallet. Qed.

Lemma do_deposit_shares_deposited who g y asset_pair n s i s' :
  custody s → user who → fits u128 n →
  do_deposit_shares T C who g y asset_pair (amm_get_share_token C asset_pair (xlm_ext s)) n s = Ok (i, s') →
  deposited who (amm_get_share_token C asset_pair (xlm_ext s)) n (amm_get_pair_id C asset_pair) i s s'.
Proof.
  intros Cu [[Hpot Hfarm] Hv] Hn Hr. set (tok := amm_get_share_token _ _ _) in *. pose proof (proj1 Hn) as H0n.
  unfold do_deposit_shares, lock_lp_tokens, chain_call_, xlm_deposit_event in Hr. inv_pallet.
  match goal with E : ensure_xyk _ _ _ = Ok _ |- _ => apply ensure_xyk_Ok in E as (-> & -> & Hex) end.
  match goal with E : handler _ _ _ = Ok _ |- _ => apply handler_Ok in E as (l & Hd & ->) end. inv_ext.
  destruct (lm_deposit_effect is_vault _ _ _ _ _ _ _ guards_vault Cu Hn Hd) as (Hs & K & Hi & Ev).
  match goal with Ht : transfer _ _ _ _ _ _ = Ok ?x1, Hm : nft_mint_into _ _ _ _ = Ok ?x2 |- _ =>
    apply transfer_moves in Ht as Hmv; [|done]; destruct Hmv as (_ & Hmv & _);
    destruct (xl_transfer _ _ _ _ _ _ _ H0n Ht) as (A1 & N1 & C1);
    pose proof (transfer_spares_pot _ _ _ _ _ _ _ Hpot H0n Ht) as Sp1;
    destruct (xl_mint _ _ _ _ Hm) as (_ & N2 & A2 & L2 & C2 & B2); pose proof (same_ledger_spares_pot _ _ L2 B2) as Sp2 end.
  eapply (deposited_custody s _ _ n _ tok who (lm_ext l)); simpl; try done.
  - by apply xl_token; [apply Cu|].
  - eapply rtc_l; [exact Hs|]. eapply rtc_l; [by apply (spares_pot_step l)|]. by apply rtc_once, (spares_pot_step (set_lm_ext _ l)).
  - unfold xlm_ext; simpl. by etransitivity.
  - apply C2, C1, (ke_chain _ _ _ K), Cu.
  - intros j. etransitivity; [apply N2|]. case_decide; [done|]. apply N1.
  - intros c. unfold xlm_ext in *. simpl in *. rewrite (proj1 L2), Hmv. by_moves.
Qed.

(** ** Withdrawals *)

(** A withdrawal as the owner of the deposit sees it: the deposit stays with its
    other entries, or all of its shares come back. *)
Record withdrew who i asset_pair s s' : Prop := {
  wi_custody : custody s';
  wi_owner : nft_owner C i (xlm_ext s) = Some who;
  wi_shares : ∃ n tok, view s !! i = Some (n, amm_get_pair_id C asset_pair) ∧
    token_of (amm_get_pair_id C asset_pair) (xlm_ext s) = Some tok ∧
    (view s' = view s ∧ nft_owner C i (xlm_ext s') = Some who ∨
     view s' = delete i (view s) ∧ nft_owner C i (xlm_ext s') = None ∧
     free_balance tok who (xlm_ext s) + n <= free_balance tok who (xlm_ext s'));
}.

Lemma get_lp_token_Ok p s t s' : get_lp_token C p s = Ok (t, s') → s' = s ∧ token_of p (xlm_ext s) = Some t.
Proof.
  unfold get_lp_token, XykLiquidityMiningCustody.token_of. intros Hr. inv_pallet. split; [done|].
  repeat match goal with E : _ = Some _ |- _ => rewrite E; clear E; simpl end.
  match goal with E : amm_exists _ _ _ = true |- _ => by rewrite E end.
Qed.

Lemma ensure_nft_owner_Ok o i s who s' :
  ensure_nft_owner C o i s = Ok (who, s') → s' = s ∧ o = Signed who ∧ nft_owner C i (xlm_ext s) = Some who.
Proof. unfold ensure_nft_owner. intros Hr. inv_pallet. by subst. Qed.

Lemma destroyed_custody s s' i n p tok x :
  custody s → view s !! i = Some (n, p) → token_of p (xlm_ext s) = Some tok →
  rtc (lm_step T) (xlm_lm s) (xlm_lm s') → view s' = delete i (view s) →
  keeps outsider (xlm_ext s) x → same_amm C x (xlm_ext s') → chain_ok (xlm_ext s') →
  (∀ j, nft_owner C j (xlm_ext s') = if decide (j = i) then None else nft_owner C j x) →
  (∀ c, free_balance c vault x - when (c = tok) n <= free_balance c vault (xlm_ext s')) →
  custody s'.
Proof.
  intros [[x0 L] Cc Ct Ch Co] Hi Et Hs Ev [A N _ B] A' Hc' Hn Hb.
  assert (same_amm C (xlm_ext s) (xlm_ext s')) as Sa by by etransitivity.
  constructor; rewrite ?Ev.
  - exists x0. by etransitivity.
  - done.
  - intros j m q [_ Hj]%lookup_delete_Some. rewrite (token_of_same C _ _ _ Sa). eauto.
  - intros c. rewrite (locked_same_tokens c _ (xlm_ext s)) by (intros; by apply token_of_same).
    rewrite (locked_remove c _ _ i n p tok) by done. specialize (Hb c). specialize (Ch c).
    specialize (B c vault vault_outsider). lia.
  - intros j. rewrite Hn, lookup_delete. case_decide; subst; [by rewrite decide_True|].
    rewrite decide_False by done. rewrite N. apply Co.
Qed.

(** The part of a withdrawal after liquidity mining has removed the entry. *)
Lemma unlock_withdrew who i asset_pair n tok s s1 x2 x3 ev :
  custody s → user who → fits u128 n → nft_owner C i (xlm_ext s) = Some who →
  lm_step T (xlm_lm s) (xlm_lm s1) →
  withdrawn (keeps outsider) i (amm_get_pair_id C asset_pair) n true (xlm_lm s) (xlm_lm s1) →
  token_of (amm_get_pair_id C asset_pair) (xlm_ext s1) = Some tok →
  transfer tok vault who n AllowDeath (xlm_ext s1) = Ok x2 → nft_burn C i (Some who) x2 = Ok x3 →
  withdrew who i asset_pair s (mkXlm ev (set_lm_ext x3 (set_lm_ext x2 (xlm_lm s1)))).
Proof.
  intros Cu [Ho Hv] [H0n _] Hw Hs (K & Hi & Ev) Et Ht Hb.
  change (view s !! i = Some (n, amm_get_pair_id C asset_pair)) in Hi.
  apply transfer_moves in Ht as Hmv; [|done]. destruct Hmv as (_ & Hmv & _).
  destruct (xl_transfer _ _ _ _ _ _ _ H0n Ht) as (A1 & N1 & C1).
  pose proof (transfer_spares_pot _ _ _ _ _ _ _ (proj1 vault_outsider) H0n Ht) as Sp1.
  destruct (xl_burn _ _ _ _ Hb) as (N2 & A2 & L2 & C2 & B2). pose proof (same_ledger_spares_pot _ _ L2 B2) as Sp2.
  rewrite (token_of_same C _ _ _ (ke_amm _ _ _ K)) in Et. unfold xlm_ext in Hmv, Et.
  constructor; [|done|exists n, tok; split_and!; [done..|right; split_and!; [done| |]]].
  - eapply (destroyed_custody s _ i n _ tok (xlm_ext s1)); try done.
    + eapply rtc_l; [exact Hs|]. eapply rtc_l; [by apply (spares_pot_step (xlm_lm s1))|].
      by apply rtc_once, (spares_pot_step (set_lm_ext x2 (xlm_lm s1))).
    + unfold xlm_ext. simpl. by etransitivity.
    + apply C2, C1, (ke_chain _ _ _ K), Cu.
    + intros j. etransitivity; [apply N2|]. case_decide; [done|]. apply N1.
    + intros c. unfold xlm_ext. simpl. rewrite (proj1 L2), Hmv. by_moves.
  - etransitivity; [apply N2|]. by rewrite decide_True.
  - pose proof (ke_balance _ _ _ K tok who Ho) as Hle. unfold xlm_ext. simpl. rewrite (proj1 L2), Hmv. by_moves.
Qed.

Lemma kept_withdrew who i asset_pair n tok s s' :
  custody s → nft_owner C i (xlm_ext s) = Some who → lm_step T (xlm_lm s) (xlm_lm s') →
  withdrawn (keeps outsider) i (amm_get_pair_id C asset_pair) n false (xlm_lm s) (xlm_lm s') →
  token_of (amm_get_pair_id C asset_pair) (xlm_ext s') = Some tok → withdrew who i asset_pair s s'.
Proof.
  intros Cu Hw Hs (K & Hi & Ev) Et. rewrite (token_of_same C _ _ _ (ke_amm _ _ _ K)) in Et. constructor; [|done|].
  - apply (custody_quiet outsider s); [apply vault_outsider| |done]. split_and!; [by apply rtc_once|done..].
  - exists n, tok. split_and!; [done..|left]. split; [done|]. rewrite <- Hw. apply (ke_nfts _ _ _ K).
Qed.

Lemma withdraw_shares_withdrew o i y asset_pair s u s' :
  custody s → (∀ who, o = Signed who → user who) → withdraw_shares T C o i y asset_pair s = Ok (u, s') →
  ∃ who, o = Signed who ∧ withdrew who i asset_pair s s'.
Proof.
  intros Cu Hu Hr. unfold withdraw_shares, unlock_lp_tokens, chain_call_, xlm_deposit_event in Hr. inv_pallet.
  match goal with E : ensure_nft_owner _ _ _ _ = Ok (?w, _) |- _ =>
    apply ensure_nft_owner_Ok in E as (-> & -> & Hw); rename w into who end.
  match goal with E : ensure_xyk _ _ _ = Ok _ |- _ => apply ensure_xyk_Ok in E as (-> & -> & Hex) end.
  match goal with E : handler _ _ _ = Ok _ |- _ => apply handler_Ok in E as (l & Hd & ->) end.
  exists who. split; [done|]. specialize (Hu who eq_refl).
  destruct (lm_withdraw_effect outsider _ _ _ _ _ _ _ _ _ _ guards_outsider Cu Hd) as (Hs & W & Hn).
  inv_cases; inv_ext;
    match goal with E : get_lp_token _ _ _ = Ok _ |- _ => apply get_lp_token_Ok in E as (-> & Et) end;
    first [eapply (kept_withdrew _ _ _ _ _ s); done
          |eapply (unlock_withdrew _ _ _ _ _ s (set_xlm_lm l s)); done].
Qed.

(** ** Calls and steps *)

Definition signer_ok o : Prop := ∀ who, o = Signed who → user who.

Definition xcall_typed (c : XlmCall.t AccountId) : Prop :=
  match c with
  | XlmCall.create_global_farm total planned blocks _ _ owner yield _ price =>
      fits u128 total ∧ fits u32 planned ∧ fits u32 blocks ∧ is_perquintill yield ∧ fits u128 price ∧ user owner
  | XlmCall.update_global_farm _ price => fits u128 price
  | XlmCall.create_yield_farm _ _ m curve => fits u128 m ∧ curve_typed curve
  | XlmCall.update_yield_farm _ _ m | XlmCall.resume_yield_farm _ _ _ m => fits u128 m
  | XlmCall.deposit_shares _ _ _ n | XlmCall.join_farms _ _ n => fits u128 n
  | XlmCall.add_liquidity_and_join_farms _ _ n _ _ => fits u128 n
  | _ => True
  end.

(** A call that succeeds; or anything else that happens on the chain: blocks pass,
    pools are traded with, NFTs change hands, but the pot and the pallet's account
    only receive, and the pools that have deposits stay. *)
Inductive xlm_step : xlm → xlm → Prop :=
| xlm_step_call o c s s' : signer_ok o → xcall_typed c → xdispatch T C o c s = Ok (tt, s') → xlm_step s s'
| xlm_step_chain s x :
    lm_block T (xlm_lm s) <= current_block_number T x →
    (∀ c pot, pot_account_id T = Some pot → free_balance c pot (xlm_ext s) <= free_balance c pot x) →
    (∀ c, free_balance c vault (xlm_ext s) <= free_balance c vault x) →
    (∀ i, is_Some (nft_owner C i x) ↔ is_Some (nft_owner C i (xlm_ext s))) →
    (∀ i n p, view s !! i = Some (n, p) → token_of p x = token_of p (xlm_ext s)) →
    chain_ok x → xlm_step s (set_xlm_ext x s).

Definition xlm_genesis x : xlm := mkXlm [] (lm_genesis x).
Definition xlm_reachable s : Prop :=
  ∃ x, chain_ok x ∧ (∀ i, nft_owner C i x = None) ∧ rtc xlm_step (xlm_genesis x) s.

Lemma xlm_genesis_custody x : chain_ok x → (∀ i, nft_owner C i x = None) → custody (xlm_genesis x).
Proof.
  intros Hx Hn. constructor; simpl.
  - by exists x.
  - done.
  - intros i n p Hi. unfold view, locked_view in Hi. simpl in Hi. by rewrite fmap_empty, lookup_empty in Hi.
  - intros c. unfold view, locked_view, locked_shares. simpl. rewrite fmap_empty, sum_kmap_empty. apply free_balance_fits.
  - intros i. unfold view, locked_view, xlm_ext. simpl. rewrite Hn, fmap_empty, lookup_empty. by split; intros [? ?].
Qed.

(** A call of liquidity mining that moves no shares, then an event. *)
Lemma handler_custody c s l ev :
  custody s → call_typed T c → call_spends (λ a, a ≠ vault) c → moves_shares c = false →
  dispatch T c (xlm_lm s) = Ok (tt, l) → custody (mkXlm ev l).
Proof.
  intros Cu Hc Hs Hm Hd.
  apply (custody_quiet is_vault s (set_xlm_lm l s)) in Cu as Cu'; [by destruct Cu'|done|].
  eapply handler_quiet; [apply guards_vault|done..].
Qed.

(** Close a call that hands on to liquidity mining. *)
Tactic Notation "by_handler" uconstr(c) :=
  match goal with E : handler _ _ _ = Ok _ |- _ => apply handler_Ok in E as (? & E & ->) end;
  eapply (handler_custody c); [..|first [eassumption|eapply ignore_Ok; eassumption]]; simpl; try done.

Lemma create_global_farm_custody o total planned blocks inc cur owner yield min price s u s' :
  custody s → xcall_typed (XlmCall.create_global_farm total planned blocks inc cur owner yield min price) →
  create_global_farm T C o total planned blocks inc cur owner yield min price s = Ok (u, s') → custody s'.
Proof.
  intros Cu (Ht & Hpl & Hbl & Hyi & Hpr & [Hpot _] & Hv) Hr. unfold create_global_farm, xlm_deposit_event in Hr. inv_pallet.
  match goal with E : (if _ then _ else _) _ = Ok (_, ?s1) |- _ => assert (custody s1) as Cu1 end.
  { unfold chain_call_ in *. case_match; inv_pallet; inv_ext; [|done].
    match goal with E : xlm_existential_deposit _ _ _ = Some _ |- _ => apply xl_deposit_nonneg in E end.
    eapply (custody_quiet is_vault s); [done| |done]. apply chain_quiet; [by eapply transfer_keeps|by eapply transfer_spares_pot]. }
  by_handler (CreateGlobalFarm (X := X) (AmmPoolId := AccountId) total planned blocks inc cur owner yield min price).
Qed.

Lemma redeposit_all_custody who tok i farms s u s' :
  custody s → redeposit_all T C who tok i farms s = Ok (u, s') → custody s'.
Proof.
  revert s. induction farms as [|[g y] farms IH]; intros s Cu Hr; simpl in Hr; [by inv_run|].
  unfold xlm_deposit_event in Hr. inv_pallet. eapply IH; [|eassumption].
  by_handler (RedepositLpShares g y i value). apply value_of_shares_typed.
Qed.

Lemma join_farms_custody o farms asset_pair n s u s' :
  custody s → signer_ok o → fits u128 n → join_farms T C o farms asset_pair n s = Ok (u, s') → custody s'.
Proof.
  intros Cu Ho Hn Hr. unfold join_farms in Hr. inv_pallet. eapply redeposit_all_custody; [|eassumption].
  eapply de_custody, do_deposit_shares_deposited; [done|by apply Ho|done|eassumption].
Qed.

Lemma add_liquidity_and_join_farms_custody o a b n lim farms s u s' :
  custody s → signer_ok o → fits u128 n → add_liquidity_and_join_farms T C o a b n lim farms s = Ok (u, s') → custody s'.
Proof.
  intros Cu Ho Hn Hr. unfold add_liquidity_and_join_farms, chain_call in Hr. inv_pallet. inv_ext.
  match goal with E : amm_add_liquidity _ ?w _ _ _ _ _ = Ok _ |- _ =>
    destruct (xl_add_liquidity _ _ _ _ _ _ _ _ (cu_chain _ Cu) Hn E) as (Hm & A & N & Ck & Hb & Eb);
    destruct (Ho w eq_refl) as [[Hpot _] Hv] end.
  eapply join_farms_custody; [|exact Ho|exact Hm|eassumption]. apply (custody_quiet is_vault s); [done| |done].
  apply chain_quiet; [constructor; try done|split; [done|]].
  - intros c acc ->. by apply Hb, not_eq_sym.
  - intros c pot Hp. apply Hb, not_eq_sym. by apply Hpot.
Qed.

Lemma exit_farms_custody o i asset_pair farms s u s' :
  custody s → signer_ok o → exit_farms T C o i asset_pair farms s = Ok (u, s') → custody s'.
Proof.
  intros Cu Ho. revert s Cu. induction farms as [|y farms IH]; intros s Cu Hr; simpl in Hr; inv_run; [done|].
  match goal with E : withdraw_shares _ _ _ _ _ _ _ = Ok _ |- _ =>
    apply withdraw_shares_withdrew in E as (who & _ & W); [|done..]; destruct W end. eauto.
Qed.

Lemma xdispatch_custody o c s s' :
  custody s → signer_ok o → xcall_typed c → xdispatch T C o c s = Ok (tt, s') → custody s'.
Proof.
  intros Cu Ho Hc Hr. destruct c; simpl in Hr.
  1: by eapply create_global_farm_custody.
  8: { unfold deposit_shares in Hr. inv_pallet.
       by eapply de_custody, do_deposit_shares_deposited; [| |exact Hc|eassumption]; [|apply Ho]. }
  8: by eapply join_farms_custody.
  8: by eapply add_liquidity_and_join_farms_custody.
  10: { apply withdraw_shares_withdrew in Hr as (who & _ & W); [by destruct W|done..]. }
  10: by eapply exit_farms_custody.
  all: unfold update_global_farm, terminate_global_farm, create_yield_farm, update_yield_farm, stop_yield_farm,
    resume_yield_farm, terminate_yield_farm, redeposit_shares, claim_rewards, xlm_deposit_event in Hr; inv_pallet;
    repeat match goal with E : ensure_xyk _ _ _ = Ok _ |- _ => apply ensure_xyk_Ok in E as (-> & -> & _)
      | E : ensure_nft_owner _ _ _ _ = Ok _ |- _ => apply ensure_nft_owner_Ok in E as (-> & -> & _) end.
  - by_handler (UpdateGlobalFarmPriceAdjustment _ _ _).
  - by_handler (TerminateGlobalFarm _ _).
  - by_handler (CreateYieldFarm _ _ _ _ _ _).
  - by_handler (UpdateYieldFarmMultiplier _ _ _ _).
  - by_handler (StopYieldFarm _ _ _).
  - by_handler (ResumeYieldFarm _ _ _ _ _).
  - by_handler (TerminateYieldFarm _ _ _ _).
  - by_handler (RedepositLpShares _ _ _ value). apply value_of_shares_typed.
  - by_handler (ClaimRewards _ _ _).
Qed.

Lemma xlm_step_custody s s' : xlm_step s s' → custody s → custody s'.
Proof.
  intros [o c s1 s1' Ho Hc Hr|s1 x Hb Hpot Hv Hn Ht Hx] Cu; [by eapply xdispatch_custody|].
  destruct Cu as [L Cc Ct Ch Co]. constructor; [|done|..].
  - by eapply (lm_reachable_step T), step_chain.
  - intros i n p Hi. change (is_Some (token_of p x)). rewrite (Ht i n p Hi). eauto.
  - intros c. change (locked_shares c (view s1) x <= free_balance c vault x).
    rewrite (locked_same_tokens c _ (xlm_ext s1)) by eauto. etransitivity; [apply Ch|apply Hv].
  - intros i. change (is_Some (nft_owner C i x) ↔ is_Some (view s1 !! i)). by rewrite Hn.
Qed.

(** Everything is in order in every state that is reached. *)
Lemma xlm_reachable_custody s : xlm_reachable s → custody s.
Proof.
  intros (x & Hx & Hn & Hr). pose proof (xlm_genesis_custody x Hx Hn) as Cu. revert Cu.
  induction Hr; eauto using xlm_step_custody.
Qed.

Lemma xlm_reachable_step s s' : xlm_reachable s → xlm_step s s' → xlm_reachable s'.
Proof. intros (x & Hx & Hn & Hr) Hs. exists x. split_and!; [done..|]. by eapply rtc_r. Qed.

Lemma xlm_reachable_call o c s :
  xlm_reachable s → signer_ok o → xcall_typed c → succeeds (xdispatch T C o c) s = true →
  xlm_reachable (run (xdispatch T C o c) s).
Proof. intros Hs Ho Hc Hr%run_Ok. by eapply xlm_reachable_step, xlm_step_call. Qed.

(** ** What holds in every reachable state *)

(** C13: Every run of the pallet is a run of liquidity mining: whatever holds in
    all states that the calls of liquidity mining reach holds under this pallet. *)
Theorem xyk_runs_are_lm_runs s : xlm_reachable s → lm_reachable T (xlm_lm s).
Proof. intros Hs. by apply cu_lm, xlm_reachable_custody. Qed.

(** C9: The account of the pallet holds, of every share token, at least the
    shares of all deposits in the pools with that token; no deposit is of a pool
    whose token cannot be found; and the deposits that exist are those whose NFT
    has an owner. *)
Theorem shares_are_held s :
  xlm_reachable s →
  (∀ c, locked_shares c (view s) (xlm_ext s) <= free_balance c vault (xlm_ext s)) ∧
  (∀ i n p, view s !! i = Some (n, p) → is_Some (token_of p (xlm_ext s))) ∧
  (∀ i, is_Some (nft_owner C i (xlm_ext s)) ↔ is_Some (view s !! i)).
Proof. intros [_ _ Ct Ch Co]%xlm_reachable_custody. done. Qed.


(** C15: Depositing shares of a pool locks them in the account of the pallet and
    gives the user the NFT of a new deposit; no other deposit changes. *)
Theorem deposit_locks_shares who g y asset_pair n s u s' :
  xlm_reachable s → user who → fits u128 n → deposit_shares T C (Signed who) g y asset_pair n s = Ok (u, s') →
  ∃ i tok, view s !! i = None ∧ view s' = <[i := (n, amm_get_pair_id C asset_pair)]> (view s) ∧
    token_of (amm_get_pair_id C asset_pair) (xlm_ext s) = Some tok ∧ nft_owner C i (xlm_ext s') = Some who ∧
    free_balance tok vault (xlm_ext s) + n <= free_balance tok vault (xlm_ext s').
Proof.
  intros Cu%xlm_reachable_custody Hu Hn Hr. unfold deposit_shares in Hr. inv_pallet.
  match goal with E : do_deposit_shares _ _ _ _ _ _ _ _ _ = Ok _ |- _ =>
    apply do_deposit_shares_deposited in E as []; [|done..] end. eauto 10.
Qed.
End custody.
