(* ===== verification/XykLiquidityMiningAmm.v ===== *)
(** * Liquidity mining over the XYK pallet

    [XykPallet] as the AMM of [XykLiquidityMining]: a pool is found by its pair of
    assets and by its account in every state of the XYK pallet ([pools_named]), and
    nobody else can destroy a pool while its shares are deposited.  [MiningDemo] runs
    both pallets and liquidity mining on one concrete chain, which meets the
    interface of [XykLiquidityMiningCustody], and instantiates its theorems. *)

From S2P Require Import Prelude Arithmetic Currency Ratio Broadcast Traits XykMath XykPallet LiquidityMiningMath.
From S2P Require Import LiquidityMining LiquidityMiningInvariant LiquidityMiningClaims LiquidityMiningSteps.
From S2P Require Import LiquidityMiningEffects XykLiquidityMining XykLiquidityMiningCustody.

Section pools.
Context {X AccountId : Type} `{Countable AccountId} `{!MultiCurrency X AccountId} `{!MultiCurrencyLaws X AccountId}.
Context (T : Config X AccountId) `{!ConfigLaws T}.
Implicit Types (s : state X AccountId) (p : AssetPair).

(** A pool has a share token exactly when it has assets, and they name its account. *)
Record pools_named s : Prop := {
  pn_open acc : is_Some (ShareToken s !! acc) ↔ is_Some (PoolAssets s !! acc);
  pn_assets acc a b : PoolAssets s !! acc = Some (a, b) → from_assets T a b = acc;
}.

Lemma pools_named_same s s' :
  ShareToken s' = ShareToken s → PoolAssets s' = PoolAssets s → pools_named s → pools_named s'.
Proof. intros E1 E2 [Ho Ha]. split; rewrite ?E1, ?E2; auto. Qed.

Lemma pools_named_add who a b n limit min s sh s' :
  0 <= n → wf s → pools_named s → do_add_liquidity T who a b n limit min s = Ok (sh, s') → pools_named s'.
Proof.
  intros Hn Hwf Hp Hr. apply (do_add_liquidity_effect T) in Hr as (_ & ? & _ & _ & _ & _ & _ & E1 & E2 & _); [|done|apply Hwf].
  by eapply pools_named_same.
Qed.

Lemma pools_named_remove who a b n min_a min_b s u s' :
  wf s → pools_named s → do_remove_liquidity T who a b n min_a min_b s = Ok (u, s') → pools_named s'.
Proof.
  intros Hwf [Ho Ha] Hr. apply (do_remove_liquidity_effect T) in Hr as (_ & _ & _ & ? & ? & _ & _ & _ & _ & E1 & E2 & _); [|apply Hwf].
  case_match; [|by eapply pools_named_same]. split; rewrite E1 || rewrite E2.
  - intros acc. rewrite E2, !lookup_delete. case_decide; [by split; intros [? ?]|apply Ho].
  - intros acc c d [_ E]%lookup_delete_Some. eauto.
Qed.

Lemma pools_named_create o a n b m s u s' :
  0 <= n → 0 <= m → pools_named s → create_pool T o a n b m s = Ok (u, s') → pools_named s'.
Proof.
  intros Hn Hm [Ho Ha] Hr. apply (create_pool_effect T) in Hr as (who & t & x & _ & _ & _ & _ & _ & _ & E1 & E2 & _); [|done..].
  split.
  - intros acc. rewrite E1, E2, !lookup_insert. case_decide; [by split|apply Ho].
  - intros acc c d. rewrite E2. intros [[<- [= -> ->]]|[_ E]]%lookup_insert_Some; [done|eauto].
Qed.

Lemma same_pools_named s s' : same_pools s s' → pools_named s → pools_named s'.
Proof. intros (E1 & _ & E2). by apply pools_named_same. Qed.

Lemma sell_same_pools who c d n limit discount s u s' :
  fits u128 n → sell T (Signed who) c d n limit discount s = Ok (u, s') → same_pools s s'.
Proof.
  intros Hn Hr. unfold sell in Hr. inv_pallet. pose proof (fits_nonneg _ _ Hn).
  match goal with Hv : validate_sell _ _ _ _ _ _ = Ok _ |- _ =>
    apply (validate_sell_Ok T) in Hv as (-> & out & f & -> & _ & Hf & _); [|done] end.
  match goal with He : execute_sell _ _ _ = Ok _ |- _ => apply (execute_sell_effect T) in He as [? _]; simpl in *; [done|lia..] end.
Qed.

Lemma buy_same_pools who p n limit dest s u s' :
  fits u128 n → (tr ← validate_buy T who p n limit; execute_buy T tr dest) s = Ok (u, s') → same_pools s s'.
Proof.
  intros Hn Hr. inv_pallet. pose proof (fits_nonneg _ _ Hn).
  match goal with Hv : validate_buy _ _ _ _ _ _ = Ok _ |- _ =>
    apply (validate_buy_Ok T) in Hv as (-> & price & f & -> & _ & Hp0 & Hf & _ & Hsum & _); [|done] end.
  match goal with He : execute_buy _ _ _ _ = Ok _ |- _ => apply (execute_buy_effect T) in He as [? _]; simpl in *; [done|lia..] end.
Qed.

(** In every state of the XYK pallet a pool has a share token exactly when its
    assets are recorded, and the recorded assets are those its account is derived
    from: looking a pool up by its account and by its pair finds the same token. *)
Theorem pools_stay_named s s' : wf s → pools_named s → rtc (step T) s s' → pools_named s'.
Proof.
  intros Hwf Hp Htr. revert Hwf Hp. induction Htr as [|s1 s2 s3 Hst _ IH]; [done|]. intros Hwf Hp.
  apply IH; [by eapply step_kept|]. clear IH.
  destruct Hst as [who c x d y u Hk Hx Hy Hf Hr | who c d x l u Hk Hx Hr | who c d x l m u Hk Hx Hr
    | who c d x u Hk Hr | who c d x l m u Hk Hr | who c d x l disc u Hk Hx Hr
    | who d c x l disc u Hk Hx Hr | who dest c x y Hk Hx Hr -> | who [c d] x l dest u Hk Hx Hr].
  - eapply pools_named_create; [by apply Hx|by apply Hy|done..].
  - unfold add_liquidity in Hr. inv_run. by eapply pools_named_add; [apply Hx|..].
  - unfold add_liquidity_with_limits in Hr. inv_run. by eapply pools_named_add; [apply Hx|..].
  - unfold remove_liquidity in Hr. inv_run. by eapply pools_named_remove.
  - unfold remove_liquidity_with_limits in Hr. inv_run. by eapply pools_named_remove.
  - eapply same_pools_named; [|exact Hp]. by eapply sell_same_pools.
  - eapply same_pools_named; [|exact Hp]. eapply (buy_same_pools who); [done|exact Hr].
  - by apply (pools_named_same s1).
  - eapply same_pools_named; [|exact Hp]. eapply (buy_same_pools who); [done|exact Hr].
Qed.
End pools.

(** ** The XYK pallet as the AMM *)

Section amm.
Context {X Y AccountId : Type} `{Countable AccountId} `{!Inhabited AccountId}.
Context `{!MultiCurrency X AccountId} `{!MultiCurrencyLaws X AccountId} (T : Config X AccountId) `{!ConfigLaws T}.
Context `{SpArithmeticLaws} `{!MultiCurrency Y AccountId} `{!MultiCurrencyLaws Y AccountId}.
Context (TL : LmConfig Y AccountId) `{!LmConfigLaws TL} (C : XlmConfig Y AccountId).
Context (chain_ok : Y → Prop) `{!XlmLaws TL C chain_ok} (xyk : Y → state X AccountId).

(** The AMM that the pallet calls is the XYK pallet of the chain. *)
Record amm_is_xyk : Prop := {
  ax_exists p y : amm_exists C p y = pool_exists T p (xyk y);
  ax_id p : amm_get_pair_id C p = get_pair_id T p;
  ax_token p y : amm_get_share_token C p y = get_share_token T p (xyk y);
  ax_assets acc y : amm_get_pool_assets C acc y = get_pool_assets acc (xyk y);
  ax_balance c a y : free_balance c a y = free_balance c a (ext (xyk y));
}.

Lemma xyk_token_of y acc a b :
  amm_is_xyk → pools_named T (xyk y) → PoolAssets (xyk y) !! acc = Some (a, b) →
  token_of C acc y = ShareToken (xyk y) !! acc.
Proof.
  intros [E1 _ E3 E4 _] [Ho Ha] Ep. pose proof (Ha acc a b Ep) as Eacc. unfold token_of. rewrite E4.
  unfold get_pool_assets. rewrite Ep. simpl. rewrite E1, E3. unfold pool_exists, get_share_token, share_token.
  change (get_pair_id T (mkAssetPair a b)) with (from_assets T a b). rewrite Eacc.
  destruct (proj2 (Ho acc) (ex_intro _ _ Ep)) as [t Et]. by rewrite Et.
Qed.

(** C14: A pool whose shares are deposited cannot be destroyed by anybody but the
    pallet: to remove all of its liquidity one needs all of its shares. *)
Theorem deposited_pool_survives who a b n min_a min_b s i m q u s' :
  amm_is_xyk → wf (xyk (xlm_ext s)) → pools_named T (xyk (xlm_ext s)) → xlm_reachable TL C chain_ok s →
  view s !! i = Some (m, q) → 0 < m → who ≠ account_id C →
  (∀ t, ShareToken (xyk (xlm_ext s)) !! q = Some t →
    free_balance t who (xlm_ext s) + free_balance t (account_id C) (xlm_ext s)
    <= total_issuance (AccountId := AccountId) t (ext (xyk (xlm_ext s)))) →
  do_remove_liquidity T who a b n min_a min_b (xyk (xlm_ext s)) = Ok (u, s') →
  is_Some (ShareToken s' !! q) ∧ ShareToken s' !! q = ShareToken (xyk (xlm_ext s)) !! q.
Proof.
  intros Ax Hwf Hp Hs Hi Hm Hne Hsum Hr. pose proof (xlm_reachable_custody TL C chain_ok s Hs) as Cu.
  set (y := xlm_ext s) in *. destruct (cu_token _ _ _ _ Cu i m q Hi) as [t Et]. fold y in Et.
  destruct (PoolAssets (xyk y) !! q) as [[c d]|] eqn:Eq.
  2: { unfold token_of in Et. rewrite (ax_assets Ax) in Et. unfold get_pool_assets in Et. by rewrite Eq in Et. }
  rewrite (xyk_token_of y q c d Ax Hp Eq) in Et.
  apply (do_remove_liquidity_effect T) in Hr as (_ & Hn & Hle & ? & ? & _ & _ & _ & _ & E1 & _); [|apply Hwf].
  rewrite E1. destruct (_ =? 0) eqn:El; [|by rewrite Et]. propify.
  destruct (decide (q = get_pair_id T (mkAssetPair a b))) as [->|Hq]; [|by rewrite lookup_delete_ne, Et by done].
  exfalso. unfold share_token in Hle. rewrite Et in Hle. simpl in Hle.
  pose proof (wf_issuance _ Hwf _ _ Et) as Ei. pose proof (cu_held _ _ _ _ Cu t) as Hh. fold y in Hh.
  assert (m <= locked_shares C t (view s) y) as Hlk.
  { pose proof (sum_kmap_term (λ _ v, when (token_of C v.2 y = Some t) v.1) (view s) i
      (m, get_pair_id T (mkAssetPair a b))) as Htm. unfold locked_shares. cbv beta in Htm. simpl in Htm.
    rewrite (xyk_token_of y _ c d Ax Hp Eq), when_true in Htm by done. apply Htm; [|done].
    intros j v Hj. unfold when. case_decide; [|done].
    apply locked_view_Some in Hj as (dp & Hdp & ->). simpl.
    apply (do_shares _ _ _ _ (inv_deposit TL _ (lm_reachable_inv TL _ (cu_lm _ _ _ _ Cu)) j dp Hdp)). }
  specialize (Hsum t Et). rewrite (ax_balance Ax _ who) in Hsum. lia.
Qed.
End amm.

(** ** One chain *)

Module MiningDemo.
#[local] Existing Instance reference_arithmetic.
#[local] Existing Instance reference_arithmetic_laws.

(** The XYK pallet with its ledger, the owners of the NFTs and the current block. *)
Record chain := mkChain { ch_xyk : state ledger Z; ch_nft : gmap Z Z; ch_block : Z }.
Definition set_xyk (s : state ledger Z) (x : chain) : chain := mkChain s (ch_nft x) (ch_block x).
Definition set_nft (m : gmap Z Z) (x : chain) : chain := mkChain (ch_xyk x) m (ch_block x).
Definition on_ledger (x : chain) (l : ledger) : chain := set_xyk (set_ext l (ch_xyk x)) x.
Notation chain_ledger x := (ext (ch_xyk x)).

#[local] Instance chain_currency : MultiCurrency chain Z := {|
  free_balance c a x := free_balance c a (chain_ledger x);
  total_balance c a x := total_balance (AccountId := Z) c a (chain_ledger x);
  total_issuance c x := total_issuance (AccountId := Z) c (chain_ledger x);
  transfer c f t z er x := on_ledger x <$> transfer c f t z er (chain_ledger x);
  deposit c t z x := on_ledger x <$> deposit c t z (chain_ledger x);
  withdraw c f z er x := on_ledger x <$> withdraw c f z er (chain_ledger x);
  ensure_can_withdraw c a z x := ensure_can_withdraw c a z (chain_ledger x);
|}.
#[local] Instance chain_currency_laws : MultiCurrencyLaws chain Z.
Proof.
  constructor.
  - intros. apply clamp_fits.
  - intros. apply clamp_fits.
  - intros c f t z er s s' Hz (l & Hl & ->)%result_fmap_Ok. exact (transfer_moves (X := ledger) c f t z er _ _ Hz Hl).
  - intros c t z s s' Hz (l & Hl & ->)%result_fmap_Ok. exact (deposit_adds (X := ledger) c t z _ _ Hz Hl).
  - intros c f z er s s' Hz (l & Hl & ->)%result_fmap_Ok.
    exact (withdraw_subtracts (X := ledger) c f z er _ _ Hz Hl).
Qed.

Definition alice : Z := -1.
Definition bob : Z := -2.
Definition carol : Z := -3.
Definition treasury : Z := -9.
Definition vault : Z := -4000.
Definition pot : Z := -5000.
Definition hdx : AssetId := 0.
Definition one : FixedU128 := 10 ^ 18.
Definition TX : Config ledger Z := Demo.config.

Definition T : LmConfig chain Z := {|
  pot_account_id := Some pot;
  sub_account id := Some (pot - Z.abs id);
  TreasuryAccountId := treasury;
  MinTotalFarmRewards := 1000;
  MinPlannedYieldingPeriods := 10;
  MaxFarmEntriesPerDeposit := 5;
  MaxYieldFarmsPerGlobalFarm := 10;
  current_block_number x := Z.max 0 (Z.min (ch_block x) (max_value u32));
  asset_is_registered _ _ := true;
  registry_existential_deposit _ _ := Some 1;
  registry_get _ _ := 1;
  whitelist_add_account _ x := Ok x;
  whitelist_remove_account _ x := Ok x;
  get_price_adjustment _ _ := Err 1;
|}.

(** The oracle reports the reserves of the pool. *)
Definition oracle (a b : AssetId) (x : chain) : result Z LiquidityEntry :=
  let pool := get_pair_id TX (mkAssetPair a b) in
  Ok (mkLiquidityEntry (free_balance a pool x) (free_balance b pool x)
        (Some (clamp (total_liquidity pool (ch_xyk x))))).
Definition provide (who : Z) (a b : AssetId) (n limit : Balance) (x : chain) : result Z (Balance * chain) :=
  match do_add_liquidity TX who a b n limit 0 (ch_xyk x) with
  | Ok (shares, s) => Ok (shares, set_xyk s x)
  | Err _ => Err 7
  end.

Definition C : XlmConfig chain Z := {|
  CreateOrigin o := match o with Root => true | _ => false end;
  account_id := vault;
  nft_owner i x := ch_nft x !! i;
  nft_mint_into i who x :=
    match ch_nft x !! i with None => Ok (set_nft (<[i := who]> (ch_nft x)) x) | Some _ => Err 8 end;
  nft_burn i who x :=
    if bool_decide (is_Some who → ch_nft x !! i = who) then Ok (set_nft (delete i (ch_nft x)) x) else Err 9;
  amm_exists p x := pool_exists TX p (ch_xyk x);
  amm_get_pair_id := get_pair_id TX;
  amm_get_share_token p x := get_share_token TX p (ch_xyk x);
  amm_get_pool_assets acc x := get_pool_assets acc (ch_xyk x);
  amm_add_liquidity := provide;
  oracle_get_entry := oracle;
  registry_is_sufficient c _ := c =? hdx;
  xlm_existential_deposit _ _ := Some 1;
  lm_error_index _ := 1;
  xlm_error_index _ := 2;
|}.

#[local] Instance T_laws : LmConfigLaws T.
Proof.
  constructor; simpl; try done.
  - intros id a q Hid [= <-] [= <-]. lia.
  - intros x. unfold fits, max_value, u32. lia.
  - intros c f t z er x x' Hr. by inv_run.
  - by intros a x x' [= <-].
  - by intros a x x' [= <-].
Qed.

Definition chain_ok (x : chain) : Prop := wf (ch_xyk x) ∧ pools_named TX (ch_xyk x).

Lemma amm_xyk : amm_is_xyk TX C ch_xyk.
Proof. by constructor. Qed.

Lemma on_ledger_ok l x :
  (∀ c, total_issuance (AccountId := Z) c l = total_issuance (AccountId := Z) c (chain_ledger x)) →
  chain_ok x → chain_ok (on_ledger x l).
Proof. intros Hi [Hwf Hp]. split; [by apply (wf_same (ch_xyk x))|by apply (pools_named_same TX (ch_xyk x))]. Qed.

Lemma provide_laws who a b n limit x shares x' :
  chain_ok x → fits u128 n → provide who a b n limit x = Ok (shares, x') →
  fits u128 shares ∧ same_amm C x x' ∧ same_nfts C x x' ∧ chain_ok x' ∧
  (∀ c acc, acc ≠ who → free_balance c acc x <= free_balance c acc x') ∧ ch_block x' = ch_block x.
Proof.
  intros [Hwf Hp] Hn Hr. unfold provide in Hr. destruct (do_add_liquidity _ _ _ _ _ _ _ _) as [[sh s']|] eqn:E; [|done].
  injection Hr as <- <-. pose proof (pools_named_add _ _ _ _ _ _ _ _ _ _ (proj1 Hn) Hwf Hp E) as Hp'.
  apply (do_add_liquidity_effect TX) in E as (Hs & nb & _ & Hsh & Hnb & _ & Hpos & E1 & E2 & E3 & Hb & Hi);
    [|apply Hn|apply Hwf]. set (pool := get_pair_id TX (mkAssetPair a b)) in *.
  assert (0 <= n) by apply Hn. split_and!; try done.
  - apply shares_value in Hsh as (_ & _ & Hle). unfold fits. lia.
  - constructor; intros; simpl; unfold pool_exists, get_share_token, share_token, get_pool_assets; by rewrite ?E1, ?E2.
  - split; [|done]. eapply (wf_shift pool (total_liquidity pool (ch_xyk x) + sh) (ch_xyk x)); try done.
    + pose proof (wf_nonneg _ Hwf pool). lia.
    + intros c. rewrite Hi. f_equal. f_equal. lia.
  - intros c acc Hne. change (free_balance c acc (chain_ledger x) <= free_balance c acc (ext s')). rewrite Hb. pose proof (proj1 Hnb). clearbody pool. by_moves.
Qed.

#[local] Instance C_laws : XlmLaws T C chain_ok.
Proof.
  constructor.
  - by intros q [= <-].
  - intros id a [= <-]. simpl. unfold pot, vault. lia.
  - intros c f t z er x x' Hz (l & Hl & ->)%result_fmap_Ok. split_and!; [done..|].
    apply on_ledger_ok. by apply (transfer_moves (X := ledger) c f t z er) in Hl as (_ & _ & ?).
  - by intros a x x' [= <-].
  - by intros a x x' [= <-].
  - intros i who x x' Hr. simpl in *. destruct (ch_nft x !! i) eqn:E; [done|]. injection Hr as <-.
    split_and!; try done. intros j. simpl. rewrite lookup_insert. by repeat case_decide.
  - intros i who x x' Hr. simpl in *. case_bool_decide; [|done]. injection Hr as <-.
    split_and!; try done. intros j. simpl. rewrite lookup_delete. by repeat case_decide.
  - intros who a b n limit x sh x' Hx Hn Hr.
    destruct (provide_laws _ _ _ _ _ _ _ _ Hx Hn Hr) as (? & ? & ? & ? & ? & Eb). split_and!; try done. simpl. by rewrite Eb.
  - intros x p [Hwf Hp] Hex. apply bool_decide_eq_true in Hex as [t Et].
    destruct (proj1 (pn_open _ _ Hp _) (ex_intro _ _ Et)) as [[a b] Ea].
    etransitivity; [exact (xyk_token_of TX C ch_xyk x _ a b amm_xyk Hp Ea)|].
    change (ShareToken (ch_xyk x) !! get_pair_id TX p = Some (default 0 (ShareToken (ch_xyk x) !! get_pair_id TX p))).
    by rewrite Et.
  - by intros c x ed [= <-].
  - intros a b x e [= <-]. simpl. split_and!; [apply clamp_fits..|]. intros n [= <-]. apply clamp_fits.
Qed.

(** *** Runs *)

Notation mining := (xlm chain Z).
Notation call o c := (run (xdispatch T C o c)).
Definition funds : gmap (Z * Z) Z := list_to_map
  ((λ '(c, a), ((c, a), 10 ^ 9)) <$> [(hdx, alice); (1, alice); (2, alice); (3, alice); (1, bob); (2, bob); (1, carol); (3, carol)]).
Definition xyk0 : state ledger Z :=
  mkState ∅ ∅ ∅ [] (mkBroadcast 0 [] None []) {| balances := funds; issuance := ∅ |}.
Definition xyk1 : state ledger Z := run (create_pool TX (Signed alice) 1 1000000 2 2000000) xyk0.
Definition xyk2 : state ledger Z := run (create_pool TX (Signed alice) 1 1000000 3 1000000) xyk1.
Definition x0 : chain := mkChain xyk2 ∅ 0.
Definition pass (n : Z) (s : mining) : mining :=
  set_xlm_ext (mkChain (ch_xyk (xlm_ext s)) (ch_nft (xlm_ext s)) (ch_block (xlm_ext s) + n)) s.
Definition ab : AssetPair := mkAssetPair 1 2.
Definition ac : AssetPair := mkAssetPair 1 3.

Definition start : mining := xlm_genesis x0.
Definition create_farm : XlmCall.t Z := XlmCall.create_global_farm 1000000 100 10 1 hdx alice (10 ^ 17) 1000 one.
Definition with_farm : mining := call Root create_farm start.
Definition with_first : mining := call (Signed alice) (XlmCall.create_yield_farm 1 ab one (Some LoyaltyCurve.default)) with_farm.
Definition bob_joins : XlmCall.t Z := XlmCall.add_liquidity_and_join_farms 1 2 10000 1000000 [(1, 2)].
Definition with_bob : mining := call (Signed bob) bob_joins (pass 10 with_first).
Definition later : mining := pass 500 with_bob.
Definition bob_leaves : mining := call (Signed bob) (XlmCall.withdraw_shares 1 2 ab) later.
(** A second yield farm is created, and its first depositor claims. *)
Definition with_second : mining := call (Signed alice) (XlmCall.create_yield_farm 1 ac one None) later.
Definition with_carol : mining :=
  call (Signed carol) (XlmCall.add_liquidity_and_join_farms 1 3 10000 1000000 [(1, 3)]) with_second.
Definition frozen : mining := call (Signed carol) (XlmCall.claim_rewards 2 3) (pass 10 with_carol).

(** *** The runs are reachable *)

Lemma alice_no_pool : keyless TX alice.
Proof. done. Qed.
Lemma xyk0_wf : wf xyk0.
Proof. by split. Qed.
Lemma xyk0_named : pools_named TX xyk0.
Proof. split; [|done]. intros acc. simpl. rewrite !lookup_empty. by split; intros [? ?]. Qed.

Lemma fresh_token p s :
  (∀ acc, ShareToken s !! acc ≠ Some (Zpos (encode (name p)))) →
  ledger_issuance (Zpos (encode (name p))) (ext s) = 0 → fresh_share_token TX p s.
Proof. by intros Hn Hz t x [= <- <-]. Qed.

Lemma xyk1_created : create_pool TX (Signed alice) 1 1000000 2 2000000 xyk0 = Ok (tt, xyk1).
Proof. apply (run_Ok (create_pool TX (Signed alice) 1 1000000 2 2000000)). by vm_compute. Qed.
Lemma xyk2_created : create_pool TX (Signed alice) 1 1000000 3 1000000 xyk1 = Ok (tt, xyk2).
Proof. apply (run_Ok (create_pool TX (Signed alice) 1 1000000 3 1000000)). by vm_compute. Qed.

Lemma step_xyk1 : step TX xyk0 xyk1.
Proof.
  eapply (step_create _ _ _ alice 1 1000000 2 2000000 tt); [apply alice_no_pool|compute_done..| |].
  - by apply fresh_token.
  - apply xyk1_created.
Qed.
Lemma step_xyk2 : step TX xyk1 xyk2.
Proof.
  eapply (step_create _ _ _ alice 1 1000000 3 1000000 tt); [apply alice_no_pool|compute_done..| |].
  - apply fresh_token; [|by vm_compute]. intros acc Hs.
    assert (ShareToken xyk1 = {[get_pair_id TX ab := Zpos (encode (name ab))]}) as E by (vm_compute; reflexivity).
    rewrite E in Hs. apply lookup_singleton_Some in Hs as [_ Hs]. by vm_compute in Hs.
  - apply xyk2_created.
Qed.

Lemma x0_ok : chain_ok x0.
Proof.
  assert (wf xyk1) as Hwf by (apply (step_kept TX xyk0); [apply xyk0_wf|apply step_xyk1]).
  split; [by apply (step_kept TX xyk1); [|apply step_xyk2]|].
  refine (pools_named_create TX _ _ _ _ _ _ _ _ _ _ _ xyk2_created); [done..|].
  refine (pools_named_create TX _ _ _ _ _ _ _ _ _ _ xyk0_named xyk1_created); done.
Qed.

Lemma person_user a : -100 < a < 0 → user T C a.
Proof.
  intros Ha. split; [split|].
  - intros q [= <-]. unfold pot. lia.
  - intros id acc Hr. unfold farm_account_id in Hr. inv_run. simpl in *. simplify_eq. unfold pot. lia.
  - simpl. unfold vault. lia.
Qed.
Lemma person_signs a : -100 < a < 0 → signer_ok T C (Signed a).
Proof. intros Ha who [= <-]. by apply person_user. Qed.

Notation reachable := (xlm_reachable T C chain_ok).

Lemma pass_reachable n s : 0 <= n → reachable s → reachable (pass n s).
Proof.
  intros Hn Hs. eapply xlm_reachable_step; [done|]. pose proof (cu_chain _ _ _ _ (xlm_reachable_custody _ _ _ _ Hs)).
  apply xlm_step_chain; try done. unfold lm_block. simpl. unfold xlm_ext. lia.
Qed.

Ltac reach := apply (xlm_reachable_call T C chain_ok); [|first [done|by apply person_signs]| |by vm_compute].

Lemma start_reachable : reachable start.
Proof. exists x0. split_and!; [apply x0_ok|done|done]. Qed.
Lemma later_reachable : reachable later.
Proof.
  apply pass_reachable; [done|]. reach; [|compute_done]. apply pass_reachable; [done|].
  reach; [|split; [compute_done|by intros c [= <-]]]. reach; [apply start_reachable|].
  split_and!; [compute_done..|by apply person_user].
Qed.
Lemma frozen_reachable : reachable frozen.
Proof.
  reach; [|done]. apply pass_reachable; [done|]. reach; [|compute_done]. reach; [apply later_reachable|].
  split; [compute_done|done].
Qed.

(** The depositor of a yield farm that was created late takes the rewards that
    another farm of the same global farm was owed; from then on the depositors of
    that other farm cannot claim nor withdraw the XYK shares they have locked, and
    the owner can neither stop that farm nor change it. *)
Theorem late_farm_freezes_shares :
  reachable frozen ∧ view frozen !! 1 = Some (10000, get_pair_id TX ab) ∧
  free_balance hdx carol (xlm_ext frozen) = 51000 ∧
  let overflow := Err (Arithmetic ArithmeticError.Overflow) in
  xdispatch T C (Signed bob) (XlmCall.claim_rewards 1 2) frozen = overflow ∧
  xdispatch T C (Signed bob) (XlmCall.withdraw_shares 1 2 ab) frozen = overflow ∧
  xdispatch T C (Signed alice) (XlmCall.stop_yield_farm 1 ab) frozen = overflow ∧
  xdispatch T C (Signed alice) (XlmCall.update_yield_farm 1 ab one) frozen = overflow.
Proof. cbv zeta. split; [apply frozen_reachable|]. split_and!; vm_compute; reflexivity. Qed.

(** *** Witnesses *)

Definition share_token_ab : AssetId := Zpos (encode (name ab)).

Lemma xyk_runs_are_lm_runs_witness : lm_reachable T (xlm_lm frozen).
Proof. exact (xyk_runs_are_lm_runs T C chain_ok frozen frozen_reachable). Defined.

Lemma shares_are_held_witness :
  locked_shares C share_token_ab (view later) (xlm_ext later) = 10000 ∧
  locked_shares C share_token_ab (view later) (xlm_ext later) <= free_balance share_token_ab vault (xlm_ext later).
Proof.
  split; [vm_compute; reflexivity|].
  exact (proj1 (shares_are_held T C chain_ok later later_reachable) share_token_ab).
Defined.


(** Alice deposits some of the shares she got for creating the pool. *)
Definition alice_deposits : mining := call (Signed alice) (XlmCall.deposit_shares 1 2 ab 5000) later.
Lemma deposit_locks_shares_witness :
  ∃ i tok, view later !! i = None ∧ nft_owner C i (xlm_ext alice_deposits) = Some alice ∧
    free_balance tok vault (xlm_ext later) + 5000 <= free_balance tok vault (xlm_ext alice_deposits).
Proof.
  assert (deposit_shares T C (Signed alice) 1 2 ab 5000 later = Ok (tt, alice_deposits)) as Hr by (vm_compute; reflexivity).
  assert (-100 < alice < 0) as Ha by (unfold alice; lia).
  assert (fits u128 5000) as Hn by (vm_compute; split; discriminate).
  destruct (deposit_locks_shares T C chain_ok alice 1 2 ab 5000 later tt alice_deposits later_reachable
    (person_user alice Ha) Hn Hr) as (i & tok & Hi & _ & _ & Ho & Hb).
  exists i, tok. split; [exact Hi|split; [exact Ho|exact Hb]].
Defined.

Lemma pools_stay_named_witness : pools_named TX xyk2.
Proof.
  refine (pools_stay_named TX xyk0 xyk2 xyk0_wf xyk0_named _).
  exact (rtc_l _ _ _ _ step_xyk1 (rtc_once _ _ step_xyk2)).
Defined.

(** Alice removes all the shares she has of the pool. *)
Definition alice_removes : state ledger Z := run (do_remove_liquidity TX alice 1 2 1000000 0 0) (ch_xyk (xlm_ext later)).
Lemma deposited_pool_survives_witness :
  is_Some (ShareToken alice_removes !! get_pair_id TX ab) ∧
  free_balance share_token_ab alice (ext alice_removes) = 0.
Proof.
  split; [|vm_compute; reflexivity].
  assert (do_remove_liquidity TX alice 1 2 1000000 0 0 (ch_xyk (xlm_ext later)) = Ok (tt, alice_removes)) as Hr
    by (vm_compute; reflexivity).
  assert (view later !! 1 = Some (10000, get_pair_id TX ab)) as Hv by (vm_compute; reflexivity).
  destruct (cu_chain _ _ _ _ (xlm_reachable_custody T C chain_ok later later_reachable)) as [Hwf Hp].
  refine (proj1 (deposited_pool_survives TX T C chain_ok ch_xyk alice 1 2 1000000 0 0 later 1 10000 (get_pair_id TX ab) tt
    alice_removes amm_xyk Hwf Hp later_reachable Hv _ _ _ Hr)).
  - lia.
  - vm_compute. discriminate.
  - intros t Ht. assert (t = share_token_ab) as -> by (vm_compute in Ht; injection Ht as <-; vm_compute; reflexivity).
    vm_compute. discriminate.
Defined.
End MiningDemo.
